(* ===== verification/_CoqProject ===== *)
-Q . S2P
Prelude.v
GoStrings.v
Float64.v
Crypto.v
Manifest.v
Protection.v
RateLimiter.v
Config.v
Auth.v
Caches.v
Registry.v
Entries.v
Http.v
Docs.v
Middleware.v
Nav.v
Proxy.v
Dispatcher.v
Telemetry.v
Sockets.v
RouteTable.v
PluginToken.v
Openapi.v
Health.v
Recovery.v
ControlPlane.v
Gateway.v
Admission.v
Retention.v
Threads.v
Interleaving.v
Hosts.v
Dashboard.v
Server.v
Endpoints.v
Startup.v
Lifecycle.v
