(* ===== verification/Prelude.v ===== *)
(** * ApiCoreX gateway: verification development

    ApiCoreX is an API gateway written in Go.  Plugins register with its control
    plane and are served behind its dispatcher; every request that no endpoint of
    the gateway answers goes through a chain of middleware (CORS, header
    stripping, host-based rewrites, authentication) and the dispatcher's
    protection layers (firewall, permission, maintenance window, rate limits,
    bulkhead, circuit breaker) to a plugin's reverse proxy.  This library models
    that program from its sources and proves what makes it correct.

    ** Files

    - [Prelude]: the handler monad with its reasoning rules, [int64] and time,
      Go map iteration as a parameter ([MapOrder]), stable sorting, tactics and
      hint databases.
    - [GoStrings], [Float64], [Crypto], [Http]: what the program uses of Go's
      standard library, as executable definitions: byte strings, binary64
      arithmetic, SHA-256, HMAC, hex and base64, header maps, URLs, JSON values,
      RFC 3339.
    - [Manifest]: internal/manifest.
    - [Protection] (modules [Firewall], [Bulkhead], [CircuitBreaker],
      [Metrics]), [RateLimiter], [Health]: internal/protection; [Recovery]: a
      plugin's way back after an outage.
    - [Config]: internal/config.
    - [Auth]: internal/auth, the two resolvers and their caches; [Caches]: the same
      caches under overlapping calls.
    - [Registry]: internal/registry, plugins and maintenance windows, over values;
      [Entries]: the same registry with the pointers [Get] and [List] hand out.
    - [Middleware]: internal/middleware.
    - [Nav], [Proxy], [Dispatcher]: internal/dispatcher, the merged menu, the
      reverse proxy, the route table and the request handler.
    - [RouteTable]: the same route table with Go's slices, its backing array and
      the pointers [match] returns.
    - [Telemetry]: internal/protection's metrics.go and observability.go, what a
      request's reports make of the metrics and the log.
    - [Sockets]: the relay of [proxyWebSocket], its goroutines and connections.
    - [PluginToken], [ControlPlane]: internal/controlplane.
    - [Openapi]: internal/openapi.
    - [Gateway]: the state everything shares, and what changes it as single steps;
      [Admission] and [Retention]: what holds of the registry's entries, and of the
      breaker's and the bulkhead's, in all its runs.
    - [Threads]: the same handlers as threads, one action per critical section and
      per unlocked reading of the route table, over [RouteTable]'s arrays;
      [Interleaving]: their interleavings.
    - [Hosts]: server/product_host.go, domain_resolve.go and ondemand.go.
    - [Dashboard]: cmd/apicorex/dashboard.go.
    - [Docs], [Server], [Endpoints]: server/http.go, the page of the docs, the chain
      and the whole server.
    - [Startup]: cmd/apicorex/main.go up to its goroutines, and internal/tracing;
      [Lifecycle]: the goroutines, the two servers' graceful shutdown, the ticker
      loops and the end of the process.

    ** How state and operations correspond to the code

    A Go struct is a [Record] with the source's field names, a method a
    [Definition] of the method's name from the state it finds to the state it
    leaves; a mutex-protected method is one such function.  A Gin handler is a
    computation of the [Handler] monad: it threads the state, and it either
    answers the client (an early return, an aborted chain) or goes on; [defer]
    is [deferring].  [Dispatcher.Dispatcher], [Registry.Registry],
    [Bulkhead.t], [CircuitBreaker.t] and [RateLimiter.t] are the shared stores;
    [Middleware.Gin] is a request's context; [Dispatcher.World] adds the metrics
    and log records a request emits, in order; [ControlPlane.Core] is what the
    control plane shares with the dispatcher; [Endpoints.Server] is the server.
    Times are [int64] nanoseconds as [Z], and each reading of the clock in a
    handler is a separate argument; token buckets are exact binary64 numbers.

    What runs beside the handlers is a step relation over the program points of its
    goroutines: [Sockets.relay] and [Lifecycle.process], whose steps are marked as
    the program's own or as a peer's, a signal's or a timer's.

    Components meet in these places: [Dispatcher.Dispatch] asks the registry, the
    limiters, the bulkhead and the breaker, and hands the request to
    [Proxy.ServeHTTP]; [ControlPlane.register] pulls a manifest and writes to the
    registry, the route table and the document store; [Health.checkAll] marks
    plugins dead and forces breakers open; [Server.NoRoute] composes the chain
    with the dispatcher; [Endpoints.serve] puts the router, the gates and the
    endpoints around it; [Startup.main] builds all of it from the environment.

    ** What the theorems show

    - The dispatcher ([Dispatcher]): exactly which requests reach a plugin; every
      path returns the bulkhead slot it took; the breaker is told of every
      proxied outcome; a request touches no other plugin's protection state; every
      request is counted once, and the gauge of those in flight is put back
      ([Telemetry]).
    - The whole gateway ([Threads], [Interleaving], [Startup]): run alone each thread
      is its handler; in every interleaving of their single actions, overlapping
      registrations included, the slice the route table is kept in holds the
      handlers' table and a matched route is one its plugin's manifest declares; a
      plugin's counter of slots stays within the limit, and is exact as long as no
      removal comes between the two readings of a route's plugin by which a slot is
      taken and given back; the tables agree whenever no plugin is being added or
      removed, if that is done one at a time.  The server of [Startup.main], with
      its requests one after another and the monitor's and the sweep's ticks
      between them, is such an interleaving.  Every entry of the registry is well
      formed and admitted by the allowlist ([Admission]).
    - What goes on beside requests: of a WebSocket's bytes those the server had not
      read ahead are passed on, in order, and its goroutines never outlive it
      ([Sockets]); shutting down terminates, and an exit with status 0 has let the
      gateway finish ([Lifecycle]).
    - Over time: an outage ends once the plugin is found well, whatever events of
      requests, ticks and operators come in between ([Recovery]); a change at
      Identity holds for every answer later than the cache's 30 seconds and the
      duration of a call, and the caches hold no more than the last 30 seconds'
      answers, however calls overlap ([Caches]).
    - The chain ([Server], [Middleware], [Hosts]): protected routes need an
      identity, the trusted headers are the gateway's own, a session-scoped host
      pins the tenant of what is moved under its surface, the host rewrites never
      enter a reserved path; the setting of product hosts round-trips, and the certificate gate answers for
      the names the router resolves.
    - Who may change what ([ControlPlane], [PluginToken], [Endpoints]): the set of
      plugins changes only for the deployment's key, a plugin's own token or an
      operator's session; tokens verify exactly when signed and not expired.
    - The stores: refinement of the breaker by a per-plugin machine, of the
      route table's slices and the registry's pointers by the lists and maps the
      dispatcher is specified with, the
      bulkhead's limit over every interleaving, the rate limiter's grants
      bounded by burst and elapsed time, invisibility of its eviction, freshness
      and separation of the resolvers' caches, expiry of maintenance windows.
    - The data: schema names, the merged menu and the merged OpenAPI document,
      configuration precedence, the dashboard's files, the docs' page.
    - Behaviours the sources do not mean: the theorems under "What modelling showed",
      last in several files, and those of [Interleaving]'s schedules: two
      registrations of one plugin at once can shadow it, and a removal can take a
      slot of another plugin away for good.

    ** Parameters

    Code outside the repository is an argument of the definitions that use it:
    the HTTP transport ([RoundTrip], [Do], [HTTPGet]), WebSocket dialling,
    decoders of JSON and YAML, the number and duration parsers of the
    configuration, [%q], [json.Marshal] of a time, the trace propagator, the
    framework's router and body binding, the runtime's growth of slices, fresh
    UUIDs, the embedded files.  What theorems assume of them is stated where it
    is used: the router returns mounts it was given ([Endpoints.finds_mounts]),
    the propagator writes only its own headers ([Server.trace_only]), a UUID
    makes no id that a registered plugin has, or, where said, that another makes.
    The order in which a Go map is ranged over is the class [MapOrder], and the
    theorems hold for every order.  No definition needs fuel: every loop of a handler
    runs over a list, and the loops of goroutines are step relations with measures
    ([Sockets.left], [Lifecycle.left]) that bound their own steps.

    ** Not modelled

    - [Gateway.step] runs each handler of the control plane to its end before the
      next step, which [Admission] and [Retention] do not depend on.  [Threads] takes
      the handlers apart, but a plugin's entry is the value [Get] found (by [Entries]
      only its liveness can move under a request), a limiter that has left its table
      grants what a parameter says, and the reading of a string through a pointer
      into the table is one action, where Go promises nothing of a data race.
    - [Startup.happens] serves one request at a time; what overlapping requests can do
      to each other is [Interleaving]'s subject.
    - Case mapping and space trimming are those of ASCII.
    - The registration and exposition of Prometheus, the encoding of log lines, the
      messages of [log.Printf], the exporter and propagators of OpenTelemetry, TLS.
    - Streaming of HTTP bodies: an exchange with a plugin is the statuses it sends
      and how it ends.  Of net/http's server [Lifecycle] has what [Shutdown] and
      [ListenAndServe] document, not its goroutines; timeouts of single connections
      are among a connection's ways to end. *)

From stdpp Require Export base tactics option list gmap strings sorting.
From Stdlib Require Export ZArith Lia.
From Stdlib Require Ascii String.
Export Stdlib.Strings.Ascii (ascii(..), N_of_ascii, ascii_of_N, ascii_N_embedding).
Export (notations) Stdlib.Strings.Ascii.

#[global] Open Scope string_scope.
#[global] Open Scope Z_scope.
#[global] Set Default Goal Selector "!".
#[global] Set Warnings "-clear-no-such-hyp".

(** ** Notations of the development *)

Declare Scope gateway_scope.
Delimit Scope gateway_scope with gw.

(** ** Handlers: state, early answers

    A Go handler reads and changes shared state and may answer early
    ([c.JSON(...); return]).  [Handler S R A] threads the state [S]; a step
    either answers with [R], which ends the handler, or goes on with [A]. *)

Definition Handler (S R A : Type) : Type := S → S * (R + A).

#[export] Instance handler_ret {S R} : MRet (Handler S R) :=
  λ A a s, (s, inr a).
#[export] Instance handler_bind {S R} : MBind (Handler S R) :=
  λ A B f m s,
    match m s with
    | (s', inl r) => (s', inl r)
    | (s', inr a) => f a s'
    end.

(** [c.JSON(...); return] *)
Definition answer {S R A} (r : R) : Handler S R A := λ s, (s, inl r).
(** Reading and replacing the shared state. *)
Definition get_state {S R} : Handler S R S := λ s, (s, inr s).
Definition modify {S R} (f : S → S) : Handler S R unit := λ s, (f s, inr tt).
(** [if cond { answer; return }] *)
Definition reject_if {S R} (b : bool) (r : R) : Handler S R unit :=
  if b then answer r else mret tt.
(** [defer f()]: runs however the rest of the handler ends. *)
Definition deferring {S R A} (f : S → S) (m : Handler S R A) : Handler S R A :=
  λ s, let '(s', r) := m s in (f s', r).
(** A handler whose every path answers has no continuation value left. *)
Definition run_handler {S R} (m : Handler S R R) (s : S) : S * R :=
  match m s with
  | (s', inl r) => (s', r)
  | (s', inr r) => (s', r)
  end.

(** A handler written against one part of the state, run on the whole. *)
Definition zoom {W S R A} (get : W → S) (put : S → W → W) (m : Handler S R A) : Handler W R A :=
  λ w, let '(s, r) := m (get w) in (put s w, r).

(** *** Reasoning about handlers

    [wp m QR QA s]: run from [s], [m] either answers with [QR] or goes on with
    [QA]. *)
Definition wp {S R A} (m : Handler S R A) (QR : S → R → Prop) (QA : S → A → Prop) (s : S) : Prop :=
  match m s with
  | (s', inl r) => QR s' r
  | (s', inr a) => QA s' a
  end.

Section wp.
Context {S R : Type}.
Implicit Types (QR : S → R → Prop) (s : S).

Lemma wp_ret {A} (a : A) QR (QA : S → A → Prop) s : QA s a → wp (mret a) QR QA s.
Proof. done. Qed.
Lemma wp_answer {A} (r : R) QR (QA : S → A → Prop) s : QR s r → wp (answer r) QR QA s.
Proof. done. Qed.
Lemma wp_get_state QR (QA : S → S → Prop) s : QA s s → wp get_state QR QA s.
Proof. done. Qed.
Lemma wp_modify (f : S → S) QR (QA : S → unit → Prop) s : QA (f s) tt → wp (modify f) QR QA s.
Proof. done. Qed.
Lemma wp_bind {A B} (m : Handler S R A) (f : A → Handler S R B) QR QA s :
  wp m QR (λ s a, wp (f a) QR QA s) s → wp (m ≫= f) QR QA s.
Proof.
  unfold wp, mbind, handler_bind. destruct (m s) as [s' [r|a]]; [done|]. by destruct (f a s').
Qed.
Lemma wp_deferring {A} (f : S → S) (m : Handler S R A) QR QA s :
  wp m (λ s r, QR (f s) r) (λ s a, QA (f s) a) s → wp (deferring f m) QR QA s.
Proof. unfold wp, deferring. by destruct (m s) as [s' [r|a]]. Qed.
Lemma wp_mono {A} (m : Handler S R A) QR QR' (QA QA' : S → A → Prop) s :
  wp m QR QA s → (∀ s r, QR s r → QR' s r) → (∀ s a, QA s a → QA' s a) → wp m QR' QA' s.
Proof. unfold wp. destruct (m s) as [s' [r|a]]; auto. Qed.
(** What holds of any state at all. *)
Lemma wp_any {A} (m : Handler S R A) QR (QA : S → A → Prop) s :
  (∀ s r, QR s r) → (∀ s a, QA s a) → wp m QR QA s.
Proof. unfold wp. destruct (m s) as [s' [r|a]]; auto. Qed.
(** What holds of the state however the handler ends. *)
Lemma wp_state {A} (P : S → Prop) (m : Handler S R A) s :
  wp m (λ s _, P s) (λ s _, P s) s → P (m s).1.
Proof. unfold wp. by destruct (m s) as [s' [r|a]]. Qed.
Lemma wp_outcome {A} (m : Handler S R A) QR (QA : S → A → Prop) s :
  wp m QR QA s →
  let '(s', res) := m s in match res with inl r => QR s' r | inr a => QA s' a end.
Proof. unfold wp. by destruct (m s) as [s' [r|a]]. Qed.
Lemma wp_run_handler (m : Handler S R R) (Q : S → R → Prop) s :
  wp m Q Q s → Q (run_handler m s).1 (run_handler m s).2.
Proof. unfold wp, run_handler. by destruct (m s) as [s' [r|r]]. Qed.
End wp.

(** Walk through a handler, one operation at a time. *)
Ltac wp_step :=
  first
  [ apply wp_bind | apply wp_ret | apply wp_answer | apply wp_get_state | apply wp_modify
  | apply wp_deferring ].
Ltac wp_steps := repeat (wp_step; cbv beta iota).

(** ** 64-bit integers *)

Definition int64_min : Z := - 2 ^ 63.
Definition int64_max : Z := 2 ^ 63 - 1.
(** Go's wrap-around on [int64] (and [int], which is 64 bits wide here). *)
Definition wrap64 (z : Z) : Z := (z + 2 ^ 63) mod 2 ^ 64 - 2 ^ 63.
Definition in_int64 (z : Z) : Prop := int64_min ≤ z ≤ int64_max.

Lemma wrap64_range z : in_int64 (wrap64 z).
Proof.
  unfold in_int64, wrap64, int64_min, int64_max.
  pose proof (Z.mod_pos_bound (z + 2 ^ 63) (2 ^ 64) eq_refl). lia.
Qed.

Lemma wrap64_id z : in_int64 z → wrap64 z = z.
Proof.
  unfold in_int64, wrap64, int64_min, int64_max. intros.
  rewrite Z.mod_small; lia.
Qed.

(** ** Time

    [time.Time] values are nanoseconds since the Unix epoch, [time.Duration]
    nanoseconds. *)

Definition Nanosecond : Z := 1.
Definition Millisecond : Z := 1000000.
Definition Second : Z := 1000000000.
Definition Minute : Z := 60 * Second.
Definition Hour : Z := 60 * Minute.

(** [t.Unix()] *)
Definition Unix (t : Z) : Z := t / Second.

Lemma Unix_mono t t' : t ≤ t' → Unix t ≤ Unix t'.
Proof. intros. apply Z.div_le_mono; unfold Second; lia. Qed.

(** [t.Sub(u)], also [time.Since(u)] at [t]: saturates at the ends of [int64]. *)
Definition time_Sub (t u : Z) : Z := Z.max int64_min (Z.min int64_max (t - u)).
(** The zero [time.Time], January 1 of year 1. *)
Definition zero_time : Z := -62135596800 * Second.

Lemma time_Sub_small t u : in_int64 (t - u) → time_Sub t u = t - u.
Proof. unfold in_int64, time_Sub. lia. Qed.
Lemma time_Sub_mono t t' u : t ≤ t' → time_Sub t u ≤ time_Sub t' u.
Proof. unfold time_Sub. lia. Qed.

(** ** Map defaults

    A Go map read of an absent key gives the zero value. *)

Definition map_get {V} (d : V) (m : gmap string V) (k : string) : V :=
  default d (m !! k).

Lemma map_get_insert_eq {V} (d : V) m k v : map_get d (<[k:=v]> m) k = v.
Proof. unfold map_get. by rewrite lookup_insert_eq. Qed.
Lemma map_get_insert_ne {V} (d : V) m k k' v :
  k ≠ k' → map_get d (<[k:=v]> m) k' = map_get d m k'.
Proof. intros. unfold map_get. by rewrite lookup_insert_ne. Qed.
Lemma map_get_delete_ne {V} (d : V) (m : gmap string V) k k' :
  k ≠ k' → map_get d (delete k m) k' = map_get d m k'.
Proof. intros. unfold map_get. by rewrite lookup_delete_ne. Qed.
Lemma map_get_empty {V} (d : V) k : map_get d (∅ : gmap string V) k = d.
Proof. unfold map_get. by rewrite lookup_empty. Qed.

(** ** Map iteration

    [for k, v := range m] visits every entry once, in an order Go does not
    specify.  The order is a parameter: a theorem over every [MapOrder] holds
    whatever order the runtime picks. *)

Class MapOrder := {
  range {V} : gmap string V → list (string * V);
  range_perm {V} (m : gmap string V) : range m ≡ₚ map_to_list m
}.

(** One concrete order, to evaluate definitions with. *)
Definition sorted_order : MapOrder := {| range V m := map_to_list m; range_perm V m := reflexivity _ |}.

(** And another, to compare it with. *)
#[program] Definition reversed_order : MapOrder := {| range V m := reverse (map_to_list m) |}.
Next Obligation. intros V m. apply reverse_Permutation. Qed.

Section range.
Context `{MapOrder} {V : Type}.
Implicit Types m : gmap string V.

Lemma elem_of_range m k v : (k, v) ∈ range m ↔ m !! k = Some v.
Proof. by rewrite range_perm, elem_of_map_to_list. Qed.
Lemma NoDup_range m : NoDup (range m).*1.
Proof. rewrite range_perm. apply NoDup_fst_map_to_list. Qed.
Lemma length_range m : length (range m) = size m.
Proof. by rewrite range_perm, length_map_to_list. Qed.
End range.

(** ** Automation *)

Create HintDb gateway discriminated.
Create Rewrite HintDb gateway.
#[export] Hint Resolve wrap64_range Unix_mono : gateway.
#[export] Hint Rewrite @map_get_insert_eq @map_get_empty : gateway.
#[export] Hint Rewrite @map_get_insert_ne @map_get_delete_ne
  using (first [done | congruence]) : gateway.

(** Split every boolean conjunction, disjunction or comparison in sight. *)
Ltac bool_simpl :=
  repeat match goal with
  | H : (_ && _)%bool = true |- _ => apply andb_true_iff in H as [? ?]
  | H : (_ || _)%bool = false |- _ => apply orb_false_iff in H as [? ?]
  | H : negb _ = true |- _ => apply negb_true_iff in H
  | H : negb _ = false |- _ => apply negb_false_iff in H
  | H : String.eqb _ _ = true |- _ => apply String.eqb_eq in H
  | H : String.eqb _ _ = false |- _ => apply String.eqb_neq in H
  | H : Ascii.eqb _ _ = true |- _ => apply Ascii.eqb_eq in H
  | H : Ascii.eqb _ _ = false |- _ => apply Ascii.eqb_neq in H
  | H : (_ <? _)%Z = true |- _ => apply Z.ltb_lt in H
  | H : (_ <? _)%Z = false |- _ => apply Z.ltb_ge in H
  | H : (_ <=? _)%Z = true |- _ => apply Z.leb_le in H
  | H : (_ <=? _)%Z = false |- _ => apply Z.leb_gt in H
  | H : (_ =? _)%Z = true |- _ => apply Z.eqb_eq in H
  | H : (_ =? _)%Z = false |- _ => apply Z.eqb_neq in H
  end.

(** Run the plumbing of a handler: binds, reads, updates and answers. *)
Ltac run_steps :=
  cbv beta iota zeta delta [mbind mret handler_bind handler_ret get_state modify answer];
  cbn beta iota.

(** Case on every test of the goal, forgetting how each came out. *)
Ltac branches :=
  repeat match goal with |- context [match ?x with _ => _ end] => destruct x end.

(** ** Lists *)

(** Rule induction, for an invariant. *)
Lemma rtc_preserved {A} (R : relation A) (P : A → Prop) x y :
  (∀ x y, P x → R x y → P y) → P x → rtc R x y → P y.
Proof. intros HR Hx Hr. induction Hr; eauto. Qed.

Lemma filter_none {A} (P : A → Prop) `{!∀ x, Decision (P x)} (l : list A) :
  (∀ x, x ∈ l → ¬ P x) → filter P l = [].
Proof.
  induction l as [|x l IH]; intros Hl; [done|].
  rewrite filter_cons_False by (apply Hl; left). apply IH. intros y Hy. apply Hl. by right.
Qed.
Lemma filter_same {A} (P Q : A → Prop) `{!∀ x, Decision (P x), !∀ x, Decision (Q x)} (l : list A) :
  (∀ x, x ∈ l → P x ↔ Q x) → filter P l = filter Q l.
Proof.
  induction l as [|x l IH]; intros Hpq; [done|]. rewrite !filter_cons, IH by (intros y Hy; apply Hpq; by right).
  assert (P x ↔ Q x) as Hx by (apply Hpq; left). repeat case_decide; tauto.
Qed.
Lemma StronglySorted_within {A} (R S : A → A → Prop) (l : list A) :
  (∀ x y, x ∈ l → y ∈ l → R x y → S x y) → StronglySorted R l → StronglySorted S l.
Proof.
  intros H. induction 1 as [|x l Hs IH Hx]; constructor.
  - apply IH. intros y z Hy Hz. by apply H; right.
  - rewrite Forall_forall in *. intros y Hy. apply H; [left|by right|auto].
Qed.
Lemma filter_all {A} (P : A → Prop) `{!∀ x, Decision (P x)} (l : list A) :
  (∀ x, x ∈ l → P x) → filter P l = l.
Proof.
  induction l as [|x l IH]; intros Hl; [done|].
  rewrite filter_cons_True by (apply Hl; left). f_equal. apply IH. intros y Hy. apply Hl. by right.
Qed.

(** ** Stable sorting

    [sort.SliceStable(x, less)]: for a strict weak order the result is the one
    list that is sorted and keeps equivalent elements in their input order, so
    insertion sort stands for the library's merge. *)

Section stable_sort.
Context {A : Type} (less : A → A → bool).

Fixpoint insert_stable (x : A) (l : list A) : list A :=
  match l with
  | [] => [x]
  | y :: l' => if less y x then y :: insert_stable x l' else x :: y :: l'
  end.

(** Elements are inserted from the right, each before its equals. *)
Definition SliceStable (l : list A) : list A := foldr insert_stable [] l.

Lemma insert_stable_perm x l : insert_stable x l ≡ₚ x :: l.
Proof.
  induction l as [|y l IH]; simpl; [done|].
  destruct (less y x); [|done]. rewrite IH. constructor.
Qed.

Lemma SliceStable_perm l : SliceStable l ≡ₚ l.
Proof.
  induction l as [|x l IH]; simpl; [done|].
  rewrite insert_stable_perm. by f_equiv.
Qed.

(** Incomparable elements are equivalent. *)
Definition sort_equiv (x y : A) : bool := negb (less x y) && negb (less y x).

Class StrictWeak : Prop := {
  sw_irrefl x : less x x = false;
  sw_trans x y z : less x y = true → less y z = true → less x z = true;
  sw_negtrans x y z : less x y = false → less y z = false → less x z = false
}.

Context `{SW : StrictWeak}.

Definition le_of (x y : A) : Prop := less y x = false.

Lemma sw_asym x y : less x y = true → less y x = false.
Proof.
  intros H. destruct (less y x) eqn:E; [|done].
  rewrite <- (sw_irrefl x). symmetry. eauto using sw_trans.
Qed.

#[export] Instance le_of_trans : Transitive le_of.
Proof. unfold le_of. intros x y z ? ?. eauto using sw_negtrans. Qed.

Lemma insert_stable_sorted x l :
  StronglySorted le_of l → StronglySorted le_of (insert_stable x l).
Proof.
  induction l as [|y l IH]; simpl; intros Hs.
  - repeat constructor.
  - apply StronglySorted_inv in Hs as [Hs Hy].
    destruct (less y x) eqn:E.
    + constructor; [by apply IH|].
      rewrite insert_stable_perm. constructor; [by apply sw_asym|done].
    + constructor; [by constructor|]. constructor; [done|].
      eapply Forall_impl; [exact Hy|]. intros z Hz. by transitivity y.
Qed.

Lemma SliceStable_sorted l : StronglySorted le_of (SliceStable l).
Proof. induction l; simpl; [constructor|]. by apply insert_stable_sorted. Qed.

Lemma sort_equiv_spec x y :
  sort_equiv x y = true ↔ less x y = false ∧ less y x = false.
Proof.
  unfold sort_equiv. rewrite andb_true_iff, !negb_true_iff. done.
Qed.

(** Stability: within a class of equivalent elements the order is kept. *)
Lemma insert_stable_class k x l :
  filter (λ y, sort_equiv k y = true) (insert_stable x l) =
  filter (λ y, sort_equiv k y = true) (x :: l).
Proof.
  induction l as [|y l IH]; [done|]. cbn [insert_stable].
  destruct (less y x) eqn:E; [|done].
  rewrite filter_cons, IH.
  destruct (decide (sort_equiv k y = true)) as [Hy|Hy].
  - assert (sort_equiv k x ≠ true) as Hx.
    { intros Hx. apply sort_equiv_spec in Hx as [Hx1 Hx2].
      apply sort_equiv_spec in Hy as [Hy1 Hy2].
      enough (less y x = false) by congruence. eauto using sw_negtrans. }
    rewrite (filter_cons_False _ x) by done.
    rewrite (filter_cons_False _ x) by done.
    by rewrite filter_cons_True by done.
  - destruct (decide (sort_equiv k x = true)).
    + rewrite !(filter_cons_True _ x) by done.
      by rewrite filter_cons_False by done.
    + rewrite !(filter_cons_False _ x) by done.
      by rewrite filter_cons_False by done.
Qed.

Lemma SliceStable_class k l :
  filter (λ y, sort_equiv k y = true) (SliceStable l) =
  filter (λ y, sort_equiv k y = true) l.
Proof.
  induction l as [|x l IH]; [done|]. cbn [SliceStable foldr].
  fold (SliceStable l). rewrite insert_stable_class.
  rewrite !filter_cons, IH. done.
Qed.

Lemma class_refl x : sort_equiv x x = true.
Proof. apply sort_equiv_spec. by rewrite sw_irrefl. Qed.

Lemma class_transfer (x : A) (l l' : list A) :
  (∀ k, filter (λ y, sort_equiv k y = true) l =
        filter (λ y, sort_equiv k y = true) l') →
  x ∈ l → x ∈ l'.
Proof.
  intros Hf Hx.
  assert (x ∈ filter (λ y, sort_equiv x y = true) l) as Hin.
  { apply list_elem_of_filter. auto using class_refl. }
  rewrite Hf in Hin. by apply list_elem_of_filter in Hin as [_ ?].
Qed.

(** Two sorted lists with the same classes are the same list. *)
Lemma sorted_classes_eq (l l' : list A) :
  StronglySorted le_of l → StronglySorted le_of l' →
  (∀ k, filter (λ y, sort_equiv k y = true) l =
        filter (λ y, sort_equiv k y = true) l') →
  l = l'.
Proof.
  intros Hs. revert l'. induction Hs as [|x l Hs IH Hx]; intros l' Hs' Hf.
  - destruct l' as [|y l']; [done|]. exfalso.
    assert (y ∈ ([] : list A)) as Hy; [|by apply not_elem_of_nil in Hy].
    eapply class_transfer; [intros; symmetry; apply Hf|constructor].
  - destruct l' as [|y l'].
    { exfalso. assert (x ∈ ([] : list A)) as Hy; [|by apply not_elem_of_nil in Hy].
      eapply class_transfer; [apply Hf|constructor]. }
    apply StronglySorted_inv in Hs' as [Hs' Hy].
    assert (le_of y x) as Hyx.
    { assert (x ∈ y :: l') as [->|Hin]%elem_of_cons
        by (eapply class_transfer; [apply Hf|constructor]).
      - apply sw_irrefl.
      - rewrite Forall_forall in Hy. by apply Hy. }
    assert (le_of x y) as Hxy.
    { assert (y ∈ x :: l) as [->|Hin]%elem_of_cons
        by (eapply class_transfer; [intros; symmetry; apply Hf|constructor]).
      - apply sw_irrefl.
      - rewrite Forall_forall in Hx. by apply Hx. }
    assert (sort_equiv x y = true) as Hxy' by (by apply sort_equiv_spec).
    pose proof (Hf x) as Hfx.
    rewrite !filter_cons_True in Hfx by (done || apply class_refl).
    injection Hfx as <- Hfx. f_equal. apply IH; [done|].
    intros k. specialize (Hf k). rewrite !filter_cons in Hf.
    destruct (decide _); [by injection Hf|done].
Qed.

(** The sort is determined by the classes of its input. *)
Lemma SliceStable_classes_eq (l l' : list A) :
  (∀ k, filter (λ y, sort_equiv k y = true) l =
        filter (λ y, sort_equiv k y = true) l') →
  SliceStable l = SliceStable l'.
Proof.
  intros Hf. apply sorted_classes_eq; auto using SliceStable_sorted.
  intros k. by rewrite !SliceStable_class.
Qed.
End stable_sort.
Arguments StrictWeak {A} less.

Lemma SliceStable_ext {A} (less less' : A → A → bool) l :
  (∀ x y, less x y = less' x y) → SliceStable less l = SliceStable less' l.
Proof.
  intros H. induction l as [|x l IH]; [done|]. cbn [SliceStable foldr].
  unfold SliceStable in IH. rewrite IH. generalize (foldr (insert_stable less') [] l).
  intros l'. induction l' as [|y l' IH']; [done|]. simpl. rewrite H. by destruct (less' y x); f_equal.
Qed.

(** Sorting by what a function makes of the elements. *)
Section sort_fmap.
Context {A B : Type} (f : A → B) (less : B → B → bool).
#[local] Abbreviation less_f := (λ x y, less (f x) (f y)).

Lemma SliceStable_fmap l : SliceStable less (f <$> l) = f <$> SliceStable less_f l.
Proof.
  induction l as [|x l IH]; [done|]. cbn [fmap list_fmap SliceStable foldr] in *.
  fold (SliceStable less (f <$> l)). fold (SliceStable less_f l).
  change (foldr _ [] (list_fmap _ _ f l)) with (SliceStable less (f <$> l)). rewrite IH.
  generalize (SliceStable less_f l). intros l'. induction l' as [|y l' IH']; [done|].
  cbn [insert_stable fmap list_fmap]. destruct (less (f y) (f x)); [|done]. cbn [fmap list_fmap]. by f_equal.
Qed.
#[export] Instance preimage_strict_weak `{!StrictWeak less} : StrictWeak less_f.
Proof. split; intros; [apply (sw_irrefl less)|by eapply (sw_trans less)|by eapply (sw_negtrans less)]. Qed.
End sort_fmap.

(** Comparing by a key first and by [less] among equal keys. *)
Class StrictTotal {K : Type} (ltb : K → K → bool) : Prop := {
  st_irrefl x : ltb x x = false;
  st_trans x y z : ltb x y = true → ltb y z = true → ltb x z = true;
  st_total x y : x ≠ y → ltb x y = true ∨ ltb y x = true
}.

#[export] Instance Z_ltb_total : StrictTotal Z.ltb.
Proof. split; intros *; rewrite ?Z.ltb_lt, ?Z.ltb_irrefl; try done; lia. Qed.

Section lexicographic.
Context {A K : Type} `{EqDecision K} (key : A → K) (ltb : K → K → bool) (less : A → A → bool).

Definition lex (x y : A) : bool :=
  if decide (key x = key y) then less x y else ltb (key x) (key y).

#[export] Instance lex_strict_weak `{!StrictTotal ltb} `{!StrictWeak less} : StrictWeak lex.
Proof.
  assert (∀ a b c, ltb a b = false → ltb b c = false → ltb a c = false) as Hneg.
  { intros a b c Hab Hbc. destruct (ltb a c) eqn:Hac; [|done].
    destruct (decide (a = b)) as [->|Hne]; [congruence|].
    destruct (st_total a b Hne) as [|Hba]; [congruence|].
    pose proof (st_trans _ _ _ Hba Hac). congruence. }
  split; unfold lex.
  - intros x. rewrite decide_True by done. apply (sw_irrefl less).
  - intros x y z. repeat case_decide; intros Hxy Hyz; try congruence.
    + eauto using sw_trans.
    + replace (key z) with (key x) in Hyz by congruence.
      pose proof (st_trans _ _ _ Hxy Hyz) as Hx. by rewrite st_irrefl in Hx.
    + eauto using st_trans.
  - intros x y z. repeat case_decide; intros Hxy Hyz; try congruence.
    + eauto using sw_negtrans.
    + exfalso. destruct (st_total (key x) (key y)); [done|congruence|].
      replace (key z) with (key x) in Hyz by congruence. congruence.
    + eauto.
Qed.
End lexicographic.

(** Comparing by a key alone. *)
Section by_key.
Context {A K : Type} (key : A → K) (ltb : K → K → bool).
Definition by_key (x y : A) : bool := ltb (key x) (key y).

#[export] Instance by_key_strict_weak `{!StrictTotal ltb} `{EqDecision K} : StrictWeak by_key.
Proof.
  split; unfold by_key.
  - intros. apply st_irrefl.
  - eauto using st_trans.
  - intros x y z Hxy Hyz. destruct (ltb (key x) (key z)) eqn:Hxz; [|done].
    destruct (decide (key x = key y)) as [E|Hne]; [congruence|].
    destruct (st_total _ _ Hne) as [|H]; [congruence|].
    pose proof (st_trans _ _ _ H Hxz). congruence.
Qed.
Lemma by_key_equiv `{!StrictTotal ltb} `{EqDecision K} x y :
  sort_equiv by_key x y = true → key x = key y.
Proof.
  rewrite sort_equiv_spec. unfold by_key. intros [H1 H2].
  destruct (decide (key x = key y)) as [|Hne]; [done|].
  by destruct (st_total _ _ Hne); congruence.
Qed.
End by_key.

Lemma lex_equiv {A K} `{EqDecision K} (key : A → K) ltb less `{!StrictTotal ltb} x y :
  sort_equiv (lex key ltb less) x y = true → key x = key y ∧ sort_equiv less x y = true.
Proof.
  rewrite !sort_equiv_spec. unfold lex. destruct (decide (key x = key y)) as [E|Hne].
  - rewrite decide_True by done. done.
  - rewrite decide_False by congruence. intros [H1 H2].
    by destruct (st_total _ _ Hne); congruence.
Qed.
