(* ===== verification/GoStrings.v ===== *)
(** The part of Go's [strings], [strconv] and [net] packages that the gateway
    calls, on byte strings ([Strings.String.string], one [ascii] per byte).

    Case mapping and space trimming are the ASCII ones: a byte from 128 up is
    left alone.  Separators and cutsets are single bytes, as in every call of
    the program. *)

From S2P Require Import Prelude.
From Stdlib Require Import DecimalString DecimalZ DecimalN.

Notation "s1 ++ s2" := (String.append s1 s2) : gateway_scope.
#[global] Open Scope gateway_scope.
#[global] Arguments String.append : simpl nomatch.

Definition byte_eqb : ascii → ascii → bool := Ascii.eqb.

(** [strings.HasPrefix(s, p)] *)
Fixpoint HasPrefix (s p : string) {struct p} : bool :=
  match p, s with
  | EmptyString, _ => true
  | String c p', String d s' => byte_eqb c d && HasPrefix s' p'
  | String _ _, EmptyString => false
  end.

(** [strings.TrimPrefix(s, p)] *)
Fixpoint drop_prefix (s p : string) {struct p} : string :=
  match p, s with
  | String _ p', String _ s' => drop_prefix s' p'
  | _, _ => s
  end.
Definition TrimPrefix (s p : string) : string :=
  if HasPrefix s p then drop_prefix s p else s.

(** [strings.TrimSuffix(s, p)]: the text before the suffix, if it is there. *)
Fixpoint TrimSuffix (s p : string) : string :=
  if String.eqb s p then "" else
  match s with
  | EmptyString => ""
  | String c s' => String c (TrimSuffix s' p)
  end.

(** [strings.Contains(s, sub)] *)
Fixpoint Contains (s sub : string) : bool :=
  HasPrefix s sub ||
  match s with
  | EmptyString => false
  | String _ s' => Contains s' sub
  end.

(** [strings.IndexByte(s, c) >= 0] *)
Fixpoint has_byte (c : ascii) (s : string) : bool :=
  match s with
  | EmptyString => false
  | String d s' => byte_eqb c d || has_byte c s'
  end.

(** [strings.Split(s, sep)] for a one-byte separator. *)
Fixpoint Split (s : string) (sep : ascii) : list string :=
  match s with
  | EmptyString => [""]
  | String c s' =>
      if byte_eqb c sep then "" :: Split s' sep
      else match Split s' sep with
           | w :: ws => String c w :: ws
           | [] => [String c ""]
           end
  end.

(** [strings.Join(ss, sep)] *)
Fixpoint Join (ss : list string) (sep : string) : string :=
  match ss with
  | [] => ""
  | [s] => s
  | s :: ss' => s ++ sep ++ Join ss' sep
  end.

(** [strings.Cut(s, sep)]: around the first separator. *)
Fixpoint Cut (s : string) (sep : ascii) : string * string * bool :=
  match s with
  | EmptyString => ("", "", false)
  | String c s' =>
      if byte_eqb c sep then ("", s', true)
      else match Cut s' sep with
           | (b, a, true) => (String c b, a, true)
           | (_, _, false) => (s, "", false)
           end
  end.

(** Trimming the bytes that satisfy [p] on the left, on the right, on both sides. *)
Fixpoint trim_left (p : ascii → bool) (s : string) : string :=
  match s with
  | EmptyString => ""
  | String c s' => if p c then trim_left p s' else s
  end.
Fixpoint trim_right (p : ascii → bool) (s : string) : string :=
  match s with
  | EmptyString => ""
  | String c s' =>
      match trim_right p s' with
      | EmptyString => if p c then "" else String c ""
      | t => String c t
      end
  end.
Definition trim_both (p : ascii → bool) (s : string) : string :=
  trim_right p (trim_left p s).

(** [strings.Trim(s, string(c))] *)
Definition Trim (s : string) (c : ascii) : string := trim_both (byte_eqb c) s.

(** Tab, newline, vertical tab, form feed, carriage return, space. *)
Definition is_space (c : ascii) : bool :=
  let n := N_of_ascii c in ((9 <=? n) && (n <=? 13) || (n =? 32))%N.
(** [strings.TrimSpace(s)] *)
Definition TrimSpace (s : string) : string := trim_both is_space s.

Definition lower_byte (c : ascii) : ascii :=
  let n := N_of_ascii c in
  if ((65 <=? n) && (n <=? 90))%N then ascii_of_N (n + 32)%N else c.
Definition upper_byte (c : ascii) : ascii :=
  let n := N_of_ascii c in
  if ((97 <=? n) && (n <=? 122))%N then ascii_of_N (n - 32)%N else c.
Fixpoint map_bytes (f : ascii → ascii) (s : string) : string :=
  match s with
  | EmptyString => ""
  | String c s' => String (f c) (map_bytes f s')
  end.
(** [strings.ToLower(s)], [strings.ToUpper(s)], [strings.EqualFold(s, t)] *)
Definition ToLower (s : string) : string := map_bytes lower_byte s.
Definition ToUpper (s : string) : string := map_bytes upper_byte s.
Definition EqualFold (s t : string) : bool := String.eqb (ToLower s) (ToLower t).

(** [s[:n]] and [s[n:]] *)
Fixpoint take_bytes (n : nat) (s : string) : string :=
  match n, s with
  | S n', String c s' => String c (take_bytes n' s')
  | _, _ => ""
  end.
Fixpoint drop_bytes (n : nat) (s : string) : string :=
  match n, s with
  | S n', String _ s' => drop_bytes n' s'
  | _, _ => s
  end.

(** Byte-wise [<] on strings, Go's string order. *)
Fixpoint str_ltb (s t : string) : bool :=
  match s, t with
  | EmptyString, EmptyString => false
  | EmptyString, String _ _ => true
  | String _ _, EmptyString => false
  | String c s', String d t' =>
      if byte_eqb c d then str_ltb s' t' else (N_of_ascii c <? N_of_ascii d)%N
  end.

(** ** strconv *)

(** [strconv.FormatInt(i, 10)] *)
Definition FormatInt (i : Z) : string := NilZero.string_of_int (Z.to_int i).

(** [strconv.ParseInt(s, 10, 64)]: an optional sign, then one digit or more. *)
Definition parse_digits (s : string) : option Z :=
  u ← NilZero.uint_of_string s; Some (Z.of_uint u).
Definition ParseInt (s : string) : option Z :=
  match s with
  | EmptyString => None
  | String c s' =>
      n ← (if byte_eqb c "-" then Z.opp <$> parse_digits s'
           else if byte_eqb c "+" then parse_digits s'
           else parse_digits s);
      if (int64_min <=? n) && (n <=? int64_max) then Some n else None
  end.

(** ** net.SplitHostPort *)

Fixpoint index_byte (c : ascii) (s : string) : option nat :=
  match s with
  | EmptyString => None
  | String d s' => if byte_eqb c d then Some 0%nat else S <$> index_byte c s'
  end.
Fixpoint last_index_byte (c : ascii) (s : string) : option nat :=
  match s with
  | EmptyString => None
  | String d s' =>
      match last_index_byte c s' with
      | Some i => Some (S i)
      | None => if byte_eqb c d then Some 0%nat else None
      end
  end.

(** The host and the port, or [None] where Go returns an error. *)
Definition SplitHostPort (hostport : string) : option (string * string) :=
  i ← last_index_byte ":" hostport;
  let port := drop_bytes (S i) hostport in
  match hostport with
  | String "[" _ =>
      end_ ← index_byte "]" hostport;
      if Nat.eqb (S end_) i then
        let host := drop_bytes 1 (take_bytes end_ hostport) in
        if has_byte "[" (drop_bytes 1 hostport) then None
        else if has_byte "]" (drop_bytes (S end_) hostport) then None
        else Some (host, port)
      else None
  | _ =>
      let host := take_bytes i hostport in
      if has_byte ":" host then None
      else if has_byte "[" hostport then None
      else if has_byte "]" hostport then None
      else Some (host, port)
  end.

(** ** Facts *)

Lemma byte_eqb_eq c d : byte_eqb c d = true ↔ c = d.
Proof. apply Ascii.eqb_eq. Qed.
Lemma byte_eqb_refl c : byte_eqb c c = true.
Proof. apply Ascii.eqb_refl. Qed.
Lemma byte_eqb_neq c d : byte_eqb c d = false ↔ c ≠ d.
Proof. apply Ascii.eqb_neq. Qed.

Lemma append_nil_r s : s ++ "" = s.
Proof. induction s; simpl; congruence. Qed.
Lemma append_assoc s t u : (s ++ t) ++ u = s ++ (t ++ u).
Proof. induction s; simpl; congruence. Qed.
Lemma append_inj_l s t u : s ++ t = s ++ u → t = u.
Proof. induction s; simpl; intros H; [done|]. injection H. auto. Qed.
Lemma length_append s t : String.length (s ++ t) = (String.length s + String.length t)%nat.
Proof. induction s; simpl; congruence. Qed.
Lemma append_length_inj s s' t t' :
  String.length s = String.length s' → s ++ t = s' ++ t' → s = s' ∧ t = t'.
Proof.
  revert s'. induction s as [|c s IH]; intros [|c' s'] Hl H; simpl in *; try done.
  injection H as -> H. injection Hl as Hl. by destruct (IH _ Hl H) as [-> ->].
Qed.

Lemma HasPrefix_iff s p : HasPrefix s p = true ↔ ∃ t, s = p ++ t.
Proof.
  revert s. induction p as [|c p IH]; intros s; simpl.
  - split; [eauto|done].
  - destruct s as [|d s]; simpl.
    + split; [done|]. by intros [? ?].
    + rewrite andb_true_iff, byte_eqb_eq, IH. split.
      * intros [-> [t ->]]. eauto.
      * intros [t H]. injection H as -> ->. eauto.
Qed.

Lemma drop_prefix_app p t : drop_prefix (p ++ t) p = t.
Proof. induction p; simpl; [by destruct t|done]. Qed.

Lemma TrimPrefix_app p t : TrimPrefix (p ++ t) p = t.
Proof.
  unfold TrimPrefix. rewrite (proj2 (HasPrefix_iff _ _)) by eauto.
  apply drop_prefix_app.
Qed.

Lemma HasPrefix_app s p t : HasPrefix s p = true → HasPrefix (s ++ t) p = true.
Proof. rewrite !HasPrefix_iff. intros [u ->]. rewrite append_assoc. eauto. Qed.

Lemma TrimSuffix_self p : TrimSuffix p p = "".
Proof. destruct p; cbn [TrimSuffix]; by rewrite String.eqb_refl. Qed.

Lemma TrimSuffix_app s p : TrimSuffix (s ++ p) p = s.
Proof.
  induction s as [|c s IH]; [apply TrimSuffix_self|].
  change (String c s ++ p) with (String c (s ++ p)). cbn [TrimSuffix].
  destruct (String.eqb (String c (s ++ p)) p) eqn:E; [|by rewrite IH].
  apply String.eqb_eq in E. apply (f_equal String.length) in E.
  simpl in E. rewrite length_append in E. lia.
Qed.

(** [TrimSuffix] changes its argument only when it really ends in the suffix. *)
Lemma TrimSuffix_spec s p : s = TrimSuffix s p ++ p ∨ TrimSuffix s p = s.
Proof.
  induction s as [|c s IH]; cbn [TrimSuffix].
  - destruct (String.eqb "" p) eqn:E; [|by right]. apply String.eqb_eq in E as <-. by left.
  - destruct (String.eqb (String c s) p) eqn:E.
    + apply String.eqb_eq in E as <-. by left.
    + destruct IH as [IH|IH]; [left; simpl; congruence|right; congruence].
Qed.

Lemma has_byte_append c s t : has_byte c (s ++ t) = has_byte c s || has_byte c t.
Proof. induction s; simpl; [done|]. rewrite IHs. by rewrite orb_assoc. Qed.

Lemma Contains_byte s c : Contains s (String c "") = has_byte c s.
Proof.
  induction s as [|d s IH]; simpl; [done|]. rewrite IH, andb_true_r. done.
Qed.

Lemma Split_nonempty s sep : Split s sep ≠ [].
Proof. destruct s; simpl; [done|]. by repeat case_match. Qed.

Lemma Split_no_sep s sep : has_byte sep s = false → Split s sep = [s].
Proof.
  induction s as [|c s IH]; simpl; [done|]. intros H. bool_simpl.
  destruct (byte_eqb c sep) eqn:E.
  - apply byte_eqb_eq in E as ->. by rewrite byte_eqb_refl in *.
  - by rewrite IH.
Qed.

Lemma Split_app s sep t :
  has_byte sep s = false → Split (s ++ String sep t) sep = s :: Split t sep.
Proof.
  induction s as [|c s IH]; simpl; intros H.
  - by rewrite byte_eqb_refl.
  - bool_simpl. destruct (byte_eqb c sep) eqn:E.
    + apply byte_eqb_eq in E as ->. by rewrite byte_eqb_refl in *.
    + by rewrite IH.
Qed.

(** Every separator makes one more field. *)
Fixpoint count_byte (c : ascii) (s : string) : nat :=
  match s with
  | EmptyString => 0
  | String d s' => if byte_eqb c d then S (count_byte c s') else count_byte c s'
  end.
Lemma byte_eqb_sym c d : byte_eqb c d = byte_eqb d c.
Proof. apply Ascii.eqb_sym. Qed.
Lemma length_Split s sep : length (Split s sep) = S (count_byte sep s).
Proof.
  induction s as [|c s IH]; simpl; [done|]. rewrite (byte_eqb_sym sep c).
  destruct (byte_eqb c sep); simpl; [by rewrite IH|].
  pose proof (Split_nonempty s sep). by destruct (Split s sep).
Qed.
Lemma count_byte_append c s t :
  count_byte c (s ++ t) = (count_byte c s + count_byte c t)%nat.
Proof. induction s; simpl; [done|]. case_match; simpl; congruence. Qed.
Lemma has_byte_count c s : has_byte c s = true ↔ (0 < count_byte c s)%nat.
Proof.
  induction s; simpl; [split; [done|lia]|].
  destruct (byte_eqb c a); simpl; [split; [lia|done]|done].
Qed.

(** No field of a split holds the separator, and joining restores the text. *)
Lemma Split_fields s sep w : w ∈ Split s sep → has_byte sep w = false.
Proof.
  revert w. induction s as [|c s IH]; simpl; intros w.
  - by intros ->%list_elem_of_singleton.
  - destruct (byte_eqb c sep) eqn:E.
    + intros [->|Hw]%elem_of_cons; [done|auto].
    + destruct (Split s sep) as [|v vs] eqn:Es; [by destruct (Split_nonempty s sep)|].
      intros [->|Hw]%elem_of_cons; [|apply IH; by right].
      simpl. rewrite byte_eqb_sym, E. apply IH. by left.
Qed.
Lemma Join_Split s sep : Join (Split s sep) (String sep "") = s.
Proof.
  induction s as [|c s IH]; simpl; [done|].
  destruct (byte_eqb c sep) eqn:E.
  - apply byte_eqb_eq in E as ->. pose proof (Split_nonempty s sep) as Hne.
    destruct (Split s sep) as [|w ws] eqn:Es; [done|].
    change ("" ++ String sep "" ++ Join (w :: ws) (String sep "") = String sep s).
    by rewrite IH.
  - destruct (Split s sep) as [|w ws] eqn:Es; [by destruct (Split_nonempty s sep)|].
    destruct ws; simpl in *; by rewrite IH.
Qed.

Lemma Cut_no_sep s sep : has_byte sep s = false → Cut s sep = (s, "", false).
Proof.
  induction s as [|c s IH]; simpl; intros H; [done|]. bool_simpl.
  rewrite byte_eqb_sym. rewrite IH by done. by destruct (byte_eqb sep c).
Qed.
Lemma Cut_app s sep t :
  has_byte sep s = false → Cut (s ++ String sep t) sep = (s, t, true).
Proof.
  induction s as [|c s IH]; simpl; intros H.
  - by rewrite byte_eqb_refl.
  - bool_simpl. rewrite byte_eqb_sym. rewrite IH by done. by destruct (byte_eqb sep c).
Qed.
(** A separated pair is read back from its first part on. *)
Lemma append_byte_inj c s s' t t' :
  has_byte c s = false → has_byte c s' = false →
  s ++ String c t = s' ++ String c t' → s = s' ∧ t = t'.
Proof.
  intros Hs Hs' H. apply (f_equal (λ u, Cut u c)) in H.
  rewrite !Cut_app in H by done. by simplify_eq.
Qed.
Lemma Cut_true s sep b a :
  Cut s sep = (b, a, true) → s = b ++ String sep a ∧ has_byte sep b = false.
Proof.
  revert b a. induction s as [|c s IH]; simpl; intros b a H; [done|].
  destruct (byte_eqb c sep) eqn:E.
  - apply byte_eqb_eq in E as ->. by injection H as <- <-.
  - destruct (Cut s sep) as [[b' a'] []] eqn:Ec; [|done]. injection H as <- <-.
    destruct (IH _ _ eq_refl) as [-> Hb]. split; [done|].
    simpl. by rewrite byte_eqb_sym, E.
Qed.
Lemma Cut_false s sep b a :
  Cut s sep = (b, a, false) → b = s ∧ a = "" ∧ has_byte sep s = false.
Proof.
  revert b a. induction s as [|c s IH]; simpl; intros b a H; [by simplify_eq|].
  destruct (byte_eqb c sep) eqn:E; [done|].
  destruct (Cut s sep) as [[b' a'] []] eqn:Ec; [done|]. simplify_eq.
  destruct (IH _ _ eq_refl) as (-> & -> & Hs). split; [done|]. split; [done|].
  simpl. by rewrite byte_eqb_sym, E.
Qed.

(** Strings all of whose bytes satisfy [p]. *)
Fixpoint all_bytes (p : ascii → bool) (s : string) : bool :=
  match s with
  | EmptyString => true
  | String c s' => p c && all_bytes p s'
  end.
Lemma all_bytes_no_byte p s d : all_bytes p s = true → p d = false → has_byte d s = false.
Proof.
  induction s as [|c s IH]; simpl; [done|]. intros [Hc Hs]%andb_true_iff Hd.
  rewrite IH by done. rewrite orb_false_r. apply byte_eqb_neq. congruence.
Qed.
Lemma all_bytes_append p s t : all_bytes p (s ++ t) = all_bytes p s && all_bytes p t.
Proof. induction s; simpl; [done|]. by rewrite IHs, andb_assoc. Qed.

(** [str_ltb] is a strict total order. *)
Lemma str_ltb_irrefl s : str_ltb s s = false.
Proof. induction s; simpl; [done|]. by rewrite byte_eqb_refl. Qed.
Lemma N_of_ascii_inj c d : N_of_ascii c = N_of_ascii d → c = d.
Proof. intros H. rewrite <- (ascii_N_embedding c), H. apply ascii_N_embedding. Qed.
Lemma str_ltb_trans s t u :
  str_ltb s t = true → str_ltb t u = true → str_ltb s u = true.
Proof.
  revert t u. induction s as [|c s IH]; intros [|d t] [|e u]; simpl; try done.
  destruct (byte_eqb c d) eqn:E1; [apply byte_eqb_eq in E1 as ->|].
  - destruct (byte_eqb d e); eauto.
  - destruct (byte_eqb d e) eqn:E2; [apply byte_eqb_eq in E2 as ->; by rewrite E1|].
    rewrite !N.ltb_lt. intros H1 H2.
    destruct (byte_eqb c e) eqn:E3; [apply byte_eqb_eq in E3 as ->; lia|].
    apply N.ltb_lt. lia.
Qed.
Lemma str_ltb_total s t : str_ltb s t = false → str_ltb t s = false → s = t.
Proof.
  revert t. induction s as [|c s IH]; intros [|d t]; simpl; try done.
  rewrite (byte_eqb_sym d c). destruct (byte_eqb c d) eqn:E.
  - apply byte_eqb_eq in E as ->. intros. f_equal. auto.
  - rewrite !N.ltb_ge. intros. apply byte_eqb_neq in E. destruct E.
    apply N_of_ascii_inj. lia.
Qed.
#[export] Instance str_ltb_strict_total : StrictTotal str_ltb.
Proof.
  split; [apply str_ltb_irrefl|apply str_ltb_trans|]. intros s t Hne.
  destruct (str_ltb s t) eqn:E1, (str_ltb t s) eqn:E2; auto.
  by destruct Hne; apply str_ltb_total.
Qed.

(** Case mapping. *)
Lemma map_bytes_append f s t : map_bytes f (s ++ t) = map_bytes f s ++ map_bytes f t.
Proof. induction s; simpl; congruence. Qed.
Lemma lower_byte_idem c : lower_byte (lower_byte c) = lower_byte c.
Proof. by destruct c as [[] [] [] [] [] [] [] []]. Qed.
Lemma upper_byte_idem c : upper_byte (upper_byte c) = upper_byte c.
Proof. by destruct c as [[] [] [] [] [] [] [] []]. Qed.
Lemma map_bytes_idem f s :
  (∀ c, f (f c) = f c) → map_bytes f (map_bytes f s) = map_bytes f s.
Proof. intros H. induction s; simpl; congruence. Qed.
Lemma ToLower_idem s : ToLower (ToLower s) = ToLower s.
Proof. apply map_bytes_idem, lower_byte_idem. Qed.
Lemma ToUpper_idem s : ToUpper (ToUpper s) = ToUpper s.
Proof. apply map_bytes_idem, upper_byte_idem. Qed.

(** Trimmed text neither starts nor ends with a trimmed byte. *)
Lemma trim_left_id p s :
  match s with String c _ => p c = false | EmptyString => True end → trim_left p s = s.
Proof. destruct s; simpl; intros H; [done|]. by rewrite H. Qed.
Lemma trim_left_head p s :
  match trim_left p s with String c _ => p c = false | EmptyString => True end.
Proof. induction s; simpl; [done|]. destruct (p a) eqn:E; simpl; auto. Qed.
Lemma trim_right_head p s :
  match s with String c _ => p c = false | EmptyString => True end →
  match trim_right p s with String c _ => p c = false | EmptyString => True end.
Proof.
  destruct s; simpl; [done|]. intros H.
  destruct (trim_right p s); simpl; [by rewrite H|done].
Qed.
Lemma trim_right_idem p s : trim_right p (trim_right p s) = trim_right p s.
Proof.
  induction s as [|c s IH]; simpl; [done|].
  destruct (trim_right p s) as [|d t] eqn:E.
  - destruct (p c) eqn:Ec; simpl; [done|]. by rewrite Ec.
  - cbn [trim_right] in *. by rewrite IH.
Qed.
Lemma trim_both_empty p s c : trim_both p s = "" → has_byte c s = true → p c = true.
Proof.
  unfold trim_both. intros H. assert (trim_left p s = "") as Hl.
  { pose proof (trim_left_head p s) as Hh. destruct (trim_left p s) as [|d t]; [done|].
    cbn [trim_right] in H. rewrite Hh in H. by destruct (trim_right p t). }
  clear H. induction s as [|d s IH]; [done|]. simpl in *.
  destruct (p d) eqn:E; [|done]. intros [Hd|Hs]%orb_true_iff; [|auto].
  by apply byte_eqb_eq in Hd as ->.
Qed.
Lemma trim_both_idem p s : trim_both p (trim_both p s) = trim_both p s.
Proof.
  unfold trim_both. rewrite (trim_left_id p (trim_right p (trim_left p s))).
  - apply trim_right_idem.
  - apply trim_right_head, trim_left_head.
Qed.

(** ** Decimal round trip *)

Lemma parse_digits_to_uint p :
  parse_digits (NilZero.string_of_uint (Pos.to_uint p)) = Some (Z.pos p).
Proof.
  unfold parse_digits. rewrite NilZero.usu.
  - simpl. unfold Z.of_uint. by rewrite DecimalPos.Unsigned.of_to.
  - apply DecimalPos.Unsigned.to_uint_nonnil.
Qed.

(** A printed unsigned number starts with a digit and holds only digits. *)
Definition is_digit (c : ascii) : bool :=
  ((48 <=? N_of_ascii c) && (N_of_ascii c <=? 57))%N.
Lemma string_of_uint_digits u c :
  has_byte c (NilEmpty.string_of_uint u) = true → is_digit c = true.
Proof.
  induction u; simpl; intros H; [done|..];
    (apply orb_true_iff in H as [->%byte_eqb_eq|H]; [done|auto]).
Qed.
Lemma nz_string_of_uint u :
  u ≠ Decimal.Nil → NilZero.string_of_uint u = NilEmpty.string_of_uint u.
Proof. by destruct u. Qed.
Lemma ParseInt_unsigned s :
  (∀ c, has_byte c s = true → is_digit c = true) → s ≠ "" →
  ParseInt s =
    (n ← parse_digits s;
     if (int64_min <=? n) && (n <=? int64_max) then Some n else None).
Proof.
  intros Hd Hne. destruct s as [|c s]; [done|].
  assert (is_digit c = true) as Hc by (apply Hd; simpl; by rewrite byte_eqb_refl).
  unfold ParseInt. destruct (byte_eqb c "-") eqn:E1; [by apply byte_eqb_eq in E1 as ->|].
  destruct (byte_eqb c "+") eqn:E2; [by apply byte_eqb_eq in E2 as ->|]. done.
Qed.

Lemma FormatInt_digits i c :
  has_byte c (FormatInt i) = true → is_digit c = true ∨ c = "-"%char.
Proof.
  unfold FormatInt. destruct i as [|p|p]; simpl.
  - rewrite orb_false_r. intros ->%byte_eqb_eq. by left.
  - rewrite nz_string_of_uint by apply DecimalPos.Unsigned.to_uint_nonnil.
    left. by eapply string_of_uint_digits.
  - rewrite nz_string_of_uint by apply DecimalPos.Unsigned.to_uint_nonnil.
    rewrite orb_true_iff, byte_eqb_eq. intros [?|?]; [by right|].
    left. by eapply string_of_uint_digits.
Qed.
Lemma FormatInt_no_dot i : has_byte "." (FormatInt i) = false.
Proof.
  destruct (has_byte _ _) eqn:E; [|done]. by apply FormatInt_digits in E as [?|?].
Qed.

(** Reading back a printed [int64] gives it unchanged. *)
Lemma ParseInt_FormatInt i : in_int64 i → ParseInt (FormatInt i) = Some i.
Proof.
  intros [H1 H2].
  assert ((int64_min <=? i) && (i <=? int64_max) = true) as Hr.
  { apply andb_true_iff. by rewrite !Z.leb_le. }
  unfold FormatInt. destruct i as [|p|p]; [done|..]; cbn [Z.to_int NilZero.string_of_int].
  - pose proof (DecimalPos.Unsigned.to_uint_nonnil p) as Hn. rewrite ParseInt_unsigned.
    + rewrite parse_digits_to_uint. cbn [mbind option_bind]. by rewrite Hr.
    + rewrite nz_string_of_uint by done. apply string_of_uint_digits.
    + rewrite nz_string_of_uint by done. by destruct (Pos.to_uint p).
  - cbn [ParseInt]. rewrite byte_eqb_refl, parse_digits_to_uint.
    cbn [fmap option_fmap option_map mbind option_bind].
    change (- Z.pos p) with (Z.neg p). by rewrite Hr.
Qed.

#[export] Hint Resolve FormatInt_no_dot : gateway.
#[export] Hint Rewrite has_byte_append byte_eqb_refl append_assoc
  TrimPrefix_app TrimSuffix_app : gateway.
