(* ===== verification/Float64.v ===== *)
(** Go's [float64] as the gateway uses it: IEEE 754 binary64 with rounding to
    nearest, ties to even.

    A finite value is an integer number of units of 2^-1074, the smallest
    positive binary64, so subnormals need no case of their own: rounding keeps
    53 significant bits of that integer, and below 2^53 units nothing is lost.
    The sign of a zero is not kept; the program never divides by a computed
    value, so it cannot be observed. *)

From S2P Require Import Prelude.

Inductive f64 : Type :=
| NaN
| Inf (negative : bool)
| Fin (units : Z).

#[export] Instance f64_eq_dec : EqDecision f64.
Proof. solve_decision. Defined.

(** One, in units. *)
Definition ONE : Z := 2 ^ 1074.
(** 2^1024 in units: results from here on are infinite. *)
Definition f64_top : Z := 2 ^ 2098.

(** ** Rounding *)

(** [n / u] rounded to the nearest integer, ties to even. *)
Definition rne (n u : Z) : Z :=
  let q := n / u in
  let r := n mod u in
  if 2 * r <? u then q
  else if u <? 2 * r then q + 1
  else if Z.even q then q else q + 1.

(** How many low bits of a value of [q] units binary64 cannot keep. *)
Definition shift_of (q : Z) : Z := Z.max 0 (Z.log2 q - 52).

(** The non-negative rational [n / d], in units, rounded to binary64. *)
Definition rnd_pos (n d : Z) : Z :=
  let s := shift_of (n / d) in rne n (d * 2 ^ s) * 2 ^ s.

Definition pack (z : Z) : f64 :=
  if f64_top <=? Z.abs z then Inf (z <? 0) else Fin z.

Definition rnd (n d : Z) : f64 :=
  if n <? 0 then pack (- rnd_pos (- n) d) else pack (rnd_pos n d).

(** ** Arithmetic *)

Definition f64_of_Z (z : Z) : f64 := rnd (z * ONE) 1.

Definition f64_add (x y : f64) : f64 :=
  match x, y with
  | Fin a, Fin b => rnd (a + b) 1
  | NaN, _ | _, NaN => NaN
  | Inf s, Inf t => if Bool.eqb s t then Inf s else NaN
  | Inf s, _ => Inf s
  | _, Inf t => Inf t
  end.
Definition f64_opp (x : f64) : f64 :=
  match x with NaN => NaN | Inf s => Inf (negb s) | Fin a => Fin (- a) end.
Definition f64_sub (x y : f64) : f64 := f64_add x (f64_opp y).
Definition f64_neg_sign (x : f64) : bool :=
  match x with NaN => false | Inf s => s | Fin a => a <? 0 end.
Definition f64_is_zero (x : f64) : bool :=
  match x with Fin a => a =? 0 | _ => false end.
Definition f64_mul (x y : f64) : f64 :=
  match x, y with
  | Fin a, Fin b => rnd (a * b) ONE
  | NaN, _ | _, NaN => NaN
  | _, _ =>
      if f64_is_zero x || f64_is_zero y then NaN
      else Inf (xorb (f64_neg_sign x) (f64_neg_sign y))
  end.
(** Division by a positive finite constant, the only kind in the program. *)
Definition f64_div_pos (x : f64) (d : Z) : f64 :=
  match x with
  | Fin a => rnd a d
  | _ => x
  end.

Definition f64_ltb (x y : f64) : bool :=
  match x, y with
  | Fin a, Fin b => a <? b
  | NaN, _ | _, NaN => false
  | Inf s, Inf t => s && negb t
  | Inf s, Fin _ => s
  | Fin _, Inf t => negb t
  end.
Definition f64_eqb (x y : f64) : bool :=
  match x, y with
  | Fin a, Fin b => a =? b
  | Inf s, Inf t => Bool.eqb s t
  | _, _ => false
  end.
Definition f64_leb (x y : f64) : bool := f64_ltb x y || f64_eqb x y.
(** Conversion to [int] truncates toward zero. *)
Definition f64_to_int (x : f64) : Z :=
  match x with Fin a => Z.quot a ONE | _ => int64_min end.

(** [d.Seconds()]: whole seconds plus the rest over 1e9. *)
Definition Seconds (d : Z) : f64 :=
  f64_add (f64_of_Z (Z.quot d Second))
          (f64_div_pos (f64_of_Z (Z.rem d Second)) Second).

(** ** Rounding facts *)

Lemma rne_exact q u : 0 < u → rne (q * u) u = q.
Proof.
  intros. unfold rne. rewrite Z.div_mul, Z.mod_mul by lia.
  by destruct (2 * 0 <? u) eqn:E; bool_simpl; [|lia].
Qed.

Lemma rne_between n u : 0 < u → n / u ≤ rne n u ≤ n / u + 1.
Proof. intros. unfold rne. repeat case_match; lia. Qed.

Lemma rne_error n u : 0 < u → 2 * Z.abs (rne n u * u - n) ≤ u.
Proof.
  intros Hu. unfold rne. pose proof (Z.mod_pos_bound n u Hu).
  pose proof (Z.div_mod n u ltac:(lia)).
  repeat case_match; bool_simpl; nia.
Qed.

(** Rounding is monotone; the two numerators may have different denominators. *)
Lemma rne_mono n u n' u' :
  0 < u → 0 < u' → n * u' ≤ n' * u → rne n u ≤ rne n' u'.
Proof.
  intros Hu Hu' H.
  pose proof (Z.mod_pos_bound n u Hu) as Hr. pose proof (Z.div_mod n u ltac:(lia)) as Hd.
  pose proof (Z.mod_pos_bound n' u' Hu') as Hr'.
  pose proof (Z.div_mod n' u' ltac:(lia)) as Hd'.
  assert (n / u ≤ n' / u') as Hq by (apply Z.div_le_lower_bound; nia || nia).
  destruct (Z.eq_dec (n / u) (n' / u')) as [Heq|Hne].
  - unfold rne. rewrite <- Heq in *. set (q := n / u) in *.
    assert ((n mod u) * u' ≤ (n' mod u') * u) by nia.
    repeat case_match; bool_simpl; try lia; exfalso; nia.
  - pose proof (rne_between n u Hu). pose proof (rne_between n' u' Hu'). lia.
Qed.

Lemma shift_nonneg q : 0 ≤ shift_of q.
Proof. unfold shift_of. lia. Qed.

Lemma rnd_pos_nonneg n d : 0 ≤ n → 0 < d → 0 ≤ rnd_pos n d.
Proof.
  intros. unfold rnd_pos. set (s := shift_of _).
  assert (0 < 2 ^ s) by (apply Z.pow_pos_nonneg; [lia|apply shift_nonneg]).
  pose proof (rne_between n (d * 2 ^ s) ltac:(nia)).
  pose proof (Z.div_pos n (d * 2 ^ s)). nia.
Qed.

(** The integer part of a value fits in 53 bits above its shift, *)
Lemma shift_upper q : 0 ≤ q → q < 2 ^ (shift_of q + 53).
Proof.
  intros Hq. destruct (Z.eq_dec q 0) as [->|]; [by apply Z.pow_pos_nonneg|].
  apply Z.lt_le_trans with (2 ^ (Z.succ (Z.log2 q))).
  - apply Z.log2_spec. lia.
  - apply Z.pow_le_mono_r; unfold shift_of; lia.
Qed.
(** and needs all of them when the shift is positive. *)
Lemma shift_lower q : 0 < shift_of q → 2 ^ (shift_of q + 52) ≤ q.
Proof.
  unfold shift_of. intros H.
  assert (0 < q) by (destruct (Z_lt_le_dec 0 q); [done|]; rewrite Z.log2_nonpos in H; lia).
  replace (Z.max 0 (Z.log2 q - 52) + 52) with (Z.log2 q) by lia.
  by apply Z.log2_spec.
Qed.
Lemma shift_mono q q' : q ≤ q' → shift_of q ≤ shift_of q'.
Proof. intros. unfold shift_of. pose proof (Z.log2_le_mono q q'). lia. Qed.

Lemma pow_shift_pos s : 0 ≤ s → 0 < 2 ^ s.
Proof. intros. by apply Z.pow_pos_nonneg. Qed.

Lemma rnd_pos_upper n d :
  0 ≤ n → 0 < d → rnd_pos n d ≤ 2 ^ (shift_of (n / d) + 53).
Proof.
  intros Hn Hd. unfold rnd_pos. set (s := shift_of (n / d)).
  pose proof (shift_nonneg (n / d) : 0 ≤ s) as Hs.
  pose proof (pow_shift_pos s Hs) as Hp.
  assert (n < d * 2 ^ (s + 53)) as Hlt.
  { pose proof (shift_upper (n / d) ltac:(apply Z.div_pos; lia)) as Hq. fold s in Hq.
    pose proof (Z.div_mod n d ltac:(lia)). pose proof (Z.mod_pos_bound n d Hd). nia. }
  rewrite Z.pow_add_r in * by lia.
  pose proof (rne_mono n (d * 2 ^ s) (2 ^ 53 * (d * 2 ^ s)) (d * 2 ^ s)
    ltac:(nia) ltac:(nia) ltac:(nia)) as Hm.
  rewrite rne_exact in Hm by nia. nia.
Qed.

Lemma rnd_pos_lower n d :
  0 ≤ n → 0 < d → 0 < shift_of (n / d) → 2 ^ (shift_of (n / d) + 52) ≤ rnd_pos n d.
Proof.
  intros Hn Hd Hpos. unfold rnd_pos. set (s := shift_of (n / d)) in *.
  pose proof (pow_shift_pos s ltac:(lia)) as Hp.
  assert (d * 2 ^ (s + 52) ≤ n) as Hle.
  { pose proof (shift_lower (n / d) Hpos) as Hq. fold s in Hq.
    pose proof (Z.mul_div_le n d ltac:(lia)). nia. }
  rewrite Z.pow_add_r in * by lia.
  pose proof (rne_mono (2 ^ 52 * (d * 2 ^ s)) (d * 2 ^ s) n (d * 2 ^ s)
    ltac:(nia) ltac:(nia) ltac:(nia)) as Hm.
  rewrite rne_exact in Hm by nia. nia.
Qed.

Lemma rnd_pos_mono n d n' d' :
  0 ≤ n → 0 < d → 0 < d' → n * d' ≤ n' * d → rnd_pos n d ≤ rnd_pos n' d'.
Proof.
  intros Hn Hd Hd' H. assert (0 ≤ n') as Hn' by nia.
  assert (n / d ≤ n' / d') as Hq.
  { apply Z.div_le_lower_bound; [done|]. pose proof (Z.mul_div_le n d ltac:(lia)). nia. }
  pose proof (shift_mono _ _ Hq) as Hs. pose proof (shift_nonneg (n / d)) as Hs0.
  destruct (Z.eq_dec (shift_of (n / d)) (shift_of (n' / d'))) as [Heq|Hne].
  - unfold rnd_pos. rewrite <- Heq. set (s := shift_of (n / d)) in *.
    pose proof (pow_shift_pos s Hs0).
    apply Z.mul_le_mono_nonneg_r; [lia|]. apply rne_mono; nia.
  - pose proof (rnd_pos_upper n d Hn Hd). pose proof (rnd_pos_lower n' d' Hn' Hd' ltac:(lia)).
    assert (2 ^ (shift_of (n / d) + 53) ≤ 2 ^ (shift_of (n' / d') + 52))
      by (apply Z.pow_le_mono_r; lia).
    lia.
Qed.

(** ** Representable values *)

Definition repr (z : Z) : Prop := ∃ m s, 0 ≤ s ∧ 0 ≤ m < 2 ^ 53 ∧ z = m * 2 ^ s.

Lemma repr_small z : 0 ≤ z < 2 ^ 53 → repr z.
Proof. intros. exists z, 0. rewrite Z.mul_1_r. lia. Qed.
Lemma repr_nonneg z : repr z → 0 ≤ z.
Proof. intros (m & s & Hs & Hm & ->). pose proof (pow_shift_pos s Hs). nia. Qed.

(** Rounding leaves representable values alone, *)
Lemma rnd_pos_id z : repr z → rnd_pos z 1 = z.
Proof.
  intros (m & s & Hs & Hm & ->). pose proof (pow_shift_pos s Hs) as Hp.
  unfold rnd_pos. rewrite Z.div_1_r, Z.mul_1_l.
  set (z := m * 2 ^ s) in *. set (k := shift_of z).
  pose proof (shift_nonneg z : 0 ≤ k) as Hk. pose proof (pow_shift_pos k Hk) as Hpk.
  assert (k ≤ s) as Hks.
  { destruct (Z_le_gt_dec k s) as [|Hgt]; [done|exfalso].
    pose proof (shift_lower z ltac:(fold k; lia)) as Hl. fold k in Hl.
    assert (2 ^ (53 + s) ≤ 2 ^ (k + 52)) by (apply Z.pow_le_mono_r; lia).
    assert (z < 2 ^ (53 + s)) by (rewrite Z.pow_add_r by lia; unfold z; nia). lia. }
  assert (z = m * 2 ^ (s - k) * 2 ^ k) as E.
  { unfold z. rewrite <- Z.mul_assoc, <- Z.pow_add_r by lia. do 2 f_equal. lia. }
  clearbody k z. rewrite E. by rewrite rne_exact.
Qed.

(** and always produces one. *)
Lemma rnd_pos_repr n d : 0 ≤ n → 0 < d → repr (rnd_pos n d).
Proof.
  intros Hn Hd. pose proof (rnd_pos_upper n d Hn Hd) as Hu.
  pose proof (rnd_pos_nonneg n d Hn Hd) as H0. unfold rnd_pos in *.
  set (s := shift_of (n / d)) in *. set (m := rne n (d * 2 ^ s)) in *.
  pose proof (shift_nonneg (n / d) : 0 ≤ s) as Hs. pose proof (pow_shift_pos s Hs) as Hp.
  rewrite Z.pow_add_r in Hu by lia. assert (0 ≤ m ≤ 2 ^ 53) as Hm by nia.
  destruct (Z.eq_dec m (2 ^ 53)) as [->|].
  - exists (2 ^ 52), (s + 1). rewrite Z.pow_add_r by lia. lia.
  - exists m, s. lia.
Qed.

(** A sum of representable values is off by at most one part in 2^53. *)
Lemma rnd_pos_error z : 0 ≤ z → 2 ^ 53 * Z.abs (rnd_pos z 1 - z) ≤ z.
Proof.
  intros Hz. unfold rnd_pos. rewrite Z.div_1_r, Z.mul_1_l. set (s := shift_of z).
  pose proof (shift_nonneg z : 0 ≤ s) as Hs. pose proof (pow_shift_pos s Hs) as Hp.
  pose proof (rne_error z (2 ^ s) Hp) as He.
  destruct (Z.eq_dec s 0) as [E|].
  - rewrite E in *. change (2 ^ 0) with 1 in *. lia.
  - pose proof (shift_lower z ltac:(fold s; lia)) as Hl. fold s in Hl.
    rewrite Z.pow_add_r in Hl by lia. lia.
Qed.

(** One can be taken from any representable value below 2^53 exactly. *)
Lemma repr_sub_one z : repr z → ONE ≤ z → z ≤ 2 ^ 53 * ONE → repr (z - ONE).
Proof.
  intros (m & s & Hs & Hm & ->) H1 H2. pose proof (pow_shift_pos s Hs) as Hp.
  unfold ONE in *. destruct (Z_le_gt_dec s 1074) as [Hle|Hgt].
  - assert (2 ^ 1074 = 2 ^ (1074 - s) * 2 ^ s) as E
      by (rewrite <- Z.pow_add_r by lia; f_equal; lia).
    pose proof (pow_shift_pos (1074 - s) ltac:(lia)).
    exists (m - 2 ^ (1074 - s)), s. rewrite E in *. nia.
  - assert (2 ^ s = 2 ^ (s - 1074) * 2 ^ 1074) as E
      by (rewrite <- Z.pow_add_r by lia; f_equal; lia).
    pose proof (pow_shift_pos (s - 1074) ltac:(lia)).
    pose proof (pow_shift_pos 1074 ltac:(lia)).
    exists (m * 2 ^ (s - 1074) - 1), 1074. rewrite E in *. set (o := 2 ^ 1074) in *. nia.
Qed.

(** ** Non-negative finite values *)

Definition pos_fin (x : f64) : Prop := ∃ z, x = Fin z ∧ repr z ∧ z < f64_top.

(** A float result is either the rounded value or, past the top, +Inf. *)
Lemma rnd_nonneg_cases n d :
  0 ≤ n → 0 < d →
  (rnd n d = Fin (rnd_pos n d) ∧ rnd_pos n d < f64_top) ∨
  (rnd n d = Inf false ∧ f64_top ≤ rnd_pos n d).
Proof.
  intros Hn Hd. pose proof (rnd_pos_nonneg n d Hn Hd). unfold rnd.
  destruct (Z.ltb_spec n 0); [lia|]. unfold pack. rewrite Z.abs_eq by done.
  destruct (Z.leb_spec f64_top (rnd_pos n d)); [right|left; done].
  split; [|done]. f_equal. apply Z.ltb_ge. lia.
Qed.

Lemma repr_mul_one m : 0 ≤ m ≤ 2 ^ 53 → repr (m * ONE).
Proof.
  intros. destruct (Z.eq_dec m (2 ^ 53)) as [->|].
  - exists 1, (53 + 1074). rewrite Z.pow_add_r by lia. unfold ONE. lia.
  - exists m, 1074. unfold ONE. lia.
Qed.
Lemma repr_pow_one k : 0 ≤ k → repr (2 ^ k * ONE).
Proof. intros. exists 1, (k + 1074). rewrite Z.pow_add_r by lia. unfold ONE. lia. Qed.

(** A representable bound of the exact value bounds the rounded one. *)
Lemma rnd_pos_le n d b : 0 ≤ n → 0 < d → repr b → n ≤ b * d → rnd_pos n d ≤ b.
Proof.
  intros. rewrite <- (rnd_pos_id b) by done. apply rnd_pos_mono; lia.
Qed.
Lemma rnd_pos_ge n d b : 0 < d → repr b → b * d ≤ n → b ≤ rnd_pos n d.
Proof.
  intros ? Hb ?. rewrite <- (rnd_pos_id b) by done.
  pose proof (repr_nonneg b Hb). apply rnd_pos_mono; lia.
Qed.

Lemma rnd_small n d b :
  0 ≤ n → 0 < d → repr b → b < f64_top → n ≤ b * d → rnd n d = Fin (rnd_pos n d).
Proof.
  intros Hn Hd Hb Ht Hle. pose proof (rnd_pos_le n d b Hn Hd Hb Hle).
  destruct (rnd_nonneg_cases n d Hn Hd) as [[? _]|[_ ?]]; [done|lia].
Qed.

Lemma top_of_pow k : 0 ≤ k < 1024 → 2 ^ k * ONE < f64_top.
Proof.
  intros. unfold ONE, f64_top. rewrite <- Z.pow_add_r by lia. apply Z.pow_lt_mono_r; lia.
Qed.

Lemma f64_of_Z_small m : 0 ≤ m ≤ 2 ^ 53 → f64_of_Z m = Fin (m * ONE).
Proof.
  intros. unfold f64_of_Z. assert (0 < ONE) by (by apply Z.pow_pos_nonneg).
  rewrite (rnd_small _ _ (2 ^ 53 * ONE)); try nia.
  - rewrite rnd_pos_id; [done|]. by apply repr_mul_one.
  - by apply repr_pow_one.
  - by apply top_of_pow.
Qed.

(** *** Seconds of a duration *)

Definition seconds_units (d : Z) : Z :=
  rnd_pos (d / Second * ONE + rnd_pos (d mod Second * ONE) Second) 1.

Lemma ONE_pos : 0 < ONE.
Proof. by apply Z.pow_pos_nonneg. Qed.

Lemma sub_seconds_le d :
  0 ≤ rnd_pos (d mod Second * ONE) Second ≤ ONE.
Proof.
  pose proof (Z.mod_pos_bound d Second eq_refl). pose proof ONE_pos.
  split; [apply rnd_pos_nonneg; [nia|done]|].
  apply rnd_pos_le; [nia|done|apply (repr_pow_one 0 ltac:(lia))|nia].
Qed.

Lemma seconds_units_bound d : 0 ≤ d < 2 ^ 63 → 0 ≤ seconds_units d ≤ 2 ^ 34 * ONE.
Proof.
  intros Hd. pose proof (sub_seconds_le d). pose proof ONE_pos.
  assert (0 ≤ d / Second ≤ 9223372036).
  { split; [apply Z.div_pos; unfold Second; lia|]. apply Z.lt_succ_r, Z.div_lt_upper_bound; unfold Second; lia. }
  unfold seconds_units. split; [apply rnd_pos_nonneg; nia|].
  apply rnd_pos_le; [nia|done|by apply repr_pow_one|nia].
Qed.

Lemma Seconds_eq d : 0 ≤ d < 2 ^ 63 → Seconds d = Fin (seconds_units d).
Proof.
  intros Hd. unfold Seconds. pose proof ONE_pos. pose proof (sub_seconds_le d) as Hsub.
  assert (0 ≤ d / Second ≤ 9223372036).
  { split; [apply Z.div_pos; unfold Second; lia|]. apply Z.lt_succ_r, Z.div_lt_upper_bound; unfold Second; lia. }
  pose proof (Z.mod_pos_bound d Second eq_refl) as Hm. change Second with 1000000000 in Hm.
  rewrite Z.quot_div_nonneg, Z.rem_mod_nonneg by (unfold Second; lia).
  rewrite (f64_of_Z_small (d / Second)) by lia.
  rewrite (f64_of_Z_small (d mod Second)) by (unfold Second; lia). unfold f64_div_pos.
  rewrite (rnd_small (d mod Second * ONE) Second ONE).
  - unfold f64_add. rewrite (rnd_small _ 1 (2 ^ 34 * ONE)); [done|nia|done|..|nia].
    + by apply repr_pow_one.
    + by apply top_of_pow.
  - unfold Second. nia.
  - done.
  - apply (repr_pow_one 0 ltac:(lia)).
  - by apply (top_of_pow 0).
  - unfold Second. nia.
Qed.

Lemma seconds_units_mono d d' :
  0 ≤ d → d ≤ d' → seconds_units d ≤ seconds_units d'.
Proof.
  intros Hd Hdd. unfold seconds_units. pose proof ONE_pos.
  pose proof (sub_seconds_le d) as Hs. pose proof (sub_seconds_le d') as Hs'.
  assert (d / Second ≤ d' / Second) by (by apply Z.div_le_mono).
  assert (0 ≤ d / Second) by (apply Z.div_pos; unfold Second; lia).
  apply rnd_pos_mono; [nia|done|done|]. rewrite !Z.mul_1_r.
  destruct (Z.eq_dec (d / Second) (d' / Second)) as [E|]; [|nia].
  rewrite E. apply Z.add_le_mono_l. pose proof (Z.mod_pos_bound d Second eq_refl) as Hm.
  apply rnd_pos_mono; [apply Z.mul_nonneg_nonneg; lia|done|done|].
  pose proof (Z.div_mod d Second ltac:(done)). pose proof (Z.div_mod d' Second ltac:(done)).
  assert (d mod Second ≤ d' mod Second) by (rewrite E in *; lia).
  apply Z.mul_le_mono_nonneg_r; [unfold Second; lia|]. nia.
Qed.
Lemma seconds_units_repr d : 0 ≤ d → repr (seconds_units d).
Proof.
  intros. unfold seconds_units. pose proof (sub_seconds_le d). pose proof ONE_pos.
  assert (0 ≤ d / Second) by (apply Z.div_pos; unfold Second; lia). apply rnd_pos_repr; nia.
Qed.

(** *** Whole seconds, for durations under a quarter of an hour *)

Lemma whole_seconds k :
  0 ≤ k < 900 → seconds_units ((k + 1) * Second - 1) < (k + 1) * ONE.
Proof.
  intros Hk. set (u := 2 ^ 1031). assert (ONE = 2 ^ 43 * u) as HO by done.
  assert (0 < u) by done. unfold seconds_units.
  replace (((k + 1) * Second - 1) / Second) with k
    by (apply (Z.div_unique_pos _ _ _ (Second - 1)); unfold Second; lia).
  replace (((k + 1) * Second - 1) mod Second) with (Second - 1)
    by (apply (Z.mod_unique_pos _ _ k); unfold Second; lia).
  pose proof ONE_pos.
  assert (rnd_pos ((Second - 1) * ONE) Second ≤ (2 ^ 43 - 1) * u) as Hsub.
  { apply rnd_pos_le; [unfold Second; lia|done| |unfold Second; rewrite HO; nia].
    exists (2 ^ 43 - 1), 1031. unfold u. lia. }
  apply (Z.le_lt_trans _ (((k + 1) * 2 ^ 43 - 1) * u)); [|rewrite HO; nia].
  pose proof (rnd_pos_nonneg ((Second - 1) * ONE) Second ltac:(unfold Second; lia) eq_refl).
  apply rnd_pos_le; [nia|done| |].
  2: { rewrite HO in *. transitivity (k * (2 ^ 43 * u) + (2 ^ 43 - 1) * u); [lia|].
       apply Z.eq_le_incl. ring. }
  exists ((k + 1) * 2 ^ 43 - 1), 1031. unfold u. lia.
Qed.
Lemma Seconds_truncated d :
  0 ≤ d < 900 * Second → f64_to_int (Seconds d) = d / Second.
Proof.
  intros Hd.
  assert (0 ≤ d / Second < 900) as Hk.
  { split; [apply Z.div_pos; unfold Second; lia|apply Z.div_lt_upper_bound; unfold Second in *; lia]. }
  rewrite Seconds_eq by (unfold Second in *; lia). cbn [f64_to_int].
  pose proof (whole_seconds _ Hk) as Hup. pose proof ONE_pos.
  pose proof (Z.div_mod d Second ltac:(done)). pose proof (Z.mod_pos_bound d Second eq_refl).
  assert (seconds_units d ≤ seconds_units ((d / Second + 1) * Second - 1)) as Hmono
    by (apply seconds_units_mono; lia).
  assert (d / Second * ONE ≤ seconds_units d) as Hlow.
  { unfold seconds_units. pose proof (sub_seconds_le d).
    apply rnd_pos_ge; [done|apply repr_mul_one; lia|lia]. }
  rewrite Z.quot_div_nonneg by lia. symmetry. apply (Z.div_unique_pos _ _ _ (seconds_units d - d / Second * ONE)); lia.
Qed.

#[export] Hint Resolve ONE_pos repr_nonneg rnd_pos_nonneg rnd_pos_repr shift_nonneg
  seconds_units_repr : gateway.

(** The classic check: 0.1 + 0.2 is not 0.3 in binary64. *)
Example f64_tenths :
  f64_eqb (f64_add (f64_div_pos (f64_of_Z 1) 10) (f64_div_pos (f64_of_Z 2) 10))
          (f64_div_pos (f64_of_Z 3) 10) = false.
Proof. vm_compute. reflexivity. Qed.
