(* ===== verification/Crypto.v ===== *)
(** The standard-library codecs and digests the gateway calls:
    [crypto/sha256], [crypto/hmac], [encoding/hex] and [encoding/base64],
    executable on byte strings. *)

From S2P Require Import Prelude GoStrings.

(** ** Bytes *)

Definition bytes_of (s : string) : list N := N_of_ascii <$> String.list_ascii_of_string s.
Definition string_of (l : list N) : string :=
  String.string_of_list_ascii (ascii_of_N <$> l).

(** ** SHA-256 (FIPS 180-4) *)

Module Sha256.
Local Open Scope N_scope.

Definition word : N := 2 ^ 32.
Definition addw (x y : N) : N := (x + y) mod word.
Definition rotr (n x : N) : N :=
  N.lor (N.shiftr x n) (N.shiftl x (32 - n) mod word).
Definition notw (x : N) : N := N.lxor x (word - 1).

Definition big0 x := N.lxor (N.lxor (rotr 2 x) (rotr 13 x)) (rotr 22 x).
Definition big1 x := N.lxor (N.lxor (rotr 6 x) (rotr 11 x)) (rotr 25 x).
Definition small0 x := N.lxor (N.lxor (rotr 7 x) (rotr 18 x)) (N.shiftr x 3).
Definition small1 x := N.lxor (N.lxor (rotr 17 x) (rotr 19 x)) (N.shiftr x 10).
Definition choose x y z := N.lxor (N.land x y) (N.land (notw x) z).
Definition majority x y z := N.lxor (N.lxor (N.land x y) (N.land x z)) (N.land y z).

Definition round_constants : list N :=
  [1116352408;1899447441;3049323471;3921009573;961987163;1508970993;2453635748;
   2870763221;3624381080;310598401;607225278;1426881987;1925078388;2162078206;
   2614888103;3248222580;3835390401;4022224774;264347078;604807628;770255983;
   1249150122;1555081692;1996064986;2554220882;2821834349;2952996808;3210313671;
   3336571891;3584528711;113926993;338241895;666307205;773529912;1294757372;
   1396182291;1695183700;1986661051;2177026350;2456956037;2730485921;2820302411;
   3259730800;3345764771;3516065817;3600352804;4094571909;275423344;430227734;
   506948616;659060556;883997877;958139571;1322822218;1537002063;1747873779;
   1955562222;2024104815;2227730452;2361852424;2428436474;2756734187;3204031479;
   3329325298].

Definition initial : list N :=
  [1779033703;3144134277;1013904242;2773480762;1359893119;2600822924;528734635;
   1541459225].

(** Big-endian words of a byte list. *)
Fixpoint words (l : list N) : list N :=
  match l with
  | a :: b :: c :: d :: l' =>
      (N.shiftl a 24 + N.shiftl b 16 + N.shiftl c 8 + d) :: words l'
  | _ => []
  end.
Definition bytes_of_word (w : N) : list N :=
  [N.shiftr w 24 mod 256; N.shiftr w 16 mod 256; N.shiftr w 8 mod 256; w mod 256].

(** One padding bit, zeros up to 56 mod 64, then the bit length on 8 bytes. *)
Definition pad (l : list N) : list N :=
  let len := N.of_nat (length l) in
  let zeros := N.to_nat ((119 - len mod 64) mod 64) in
  let bits := 8 * len in
  app l (128 :: app (replicate zeros 0)
    (app (bytes_of_word (N.shiftr bits 32 mod word)) (bytes_of_word (bits mod word)))).

(** The message schedule, latest word first. *)
Fixpoint extend (n : nat) (w : list N) : list N :=
  match n with
  | O => w
  | S n' =>
      let t := addw (addw (small1 (nth 1 w 0)) (nth 6 w 0))
                    (addw (small0 (nth 14 w 0)) (nth 15 w 0)) in
      extend n' (t :: w)
  end.
Definition schedule (block : list N) : list N := rev (extend 48 (rev block)).

Definition step (h : list N) (kw : N * N) : list N :=
  match h with
  | [a; b; c; d; e; f; g; h0] =>
      let t1 := addw (addw (addw h0 (big1 e)) (addw (choose e f g) kw.1)) kw.2 in
      let t2 := addw (big0 a) (majority a b c) in
      [addw t1 t2; a; b; c; addw d t1; e; f; g]
  | _ => h
  end.

Definition compress (h block : list N) : list N :=
  zip_with addw h (foldl step h (zip round_constants (schedule block))).

Fixpoint blocks (n : nat) (h w : list N) : list N :=
  match n with
  | O => h
  | S n' => blocks n' (compress h (take 16 w)) (drop 16 w)
  end.

Definition digest (msg : list N) : list N :=
  let w := words (pad msg) in
  mjoin (bytes_of_word <$> blocks (Nat.div (length w) 16) initial w).

Lemma step_length h kw : length h = 8%nat → length (step h kw) = 8%nat.
Proof. unfold step. intros. by repeat case_match. Qed.
Lemma foldl_step_length l h : length h = 8%nat → length (foldl step h l) = 8%nat.
Proof. revert h. induction l; simpl; auto using step_length. Qed.
Lemma compress_length h b : length h = 8%nat → length (compress h b) = 8%nat.
Proof.
  intros Hh. unfold compress. rewrite length_zip_with, foldl_step_length, Hh; done.
Qed.
Lemma blocks_length n h w : length h = 8%nat → length (blocks n h w) = 8%nat.
Proof. revert h w. induction n; simpl; auto using compress_length. Qed.
Lemma digest_length m : length (digest m) = 32%nat.
Proof.
  unfold digest. generalize (words (pad m)) as w. intros w.
  pose proof (blocks_length (Nat.div (length w) 16) initial w eq_refl) as H.
  generalize dependent (blocks (Nat.div (length w) 16) initial w). intros l Hl.
  do 8 (destruct l as [|? l]; [done|]). by destruct l.
Qed.
End Sha256.

(** [sha256.Sum256([]byte(s))] *)
Definition Sum256 (s : string) : string := string_of (Sha256.digest (bytes_of s)).

(** [hmac.New(sha256.New, key)] applied to one message. *)
Definition Hmac256 (key msg : string) : string :=
  let k := bytes_of key in
  let k := if (64 <? length k)%nat then Sha256.digest k else k in
  let k := app k (replicate (64 - length k) 0%N) in
  let inner := Sha256.digest (app (N.lxor 54 <$> k) (bytes_of msg)) in
  string_of (Sha256.digest (app (N.lxor 92 <$> k) inner)).

(** ** encoding/hex *)

Definition hex_digit (n : N) : ascii := ascii_of_N (if n <? 10 then 48 + n else 87 + n)%N.
Fixpoint hex_encode (s : string) : string :=
  match s with
  | EmptyString => ""
  | String c s' =>
      let n := N_of_ascii c in
      String (hex_digit (n / 16)) (String (hex_digit (n mod 16)) (hex_encode s'))
  end.

(** FIPS 180-4 and RFC 4231 test vectors. *)
Example sha256_abc :
  hex_encode (Sum256 "abc") =
  "ba7816bf8f01cfea414140de5dae2223b00361a396177a9cb410ff61f20015ad".
Proof. vm_compute. reflexivity. Qed.
Example sha256_two_blocks :
  hex_encode (Sum256 "abcdbcdecdefdefgefghfghighijhijkijkljklmklmnlmnomnopnopq") =
  "248d6a61d20638b8e5c026930c3e6039a33ce45964ff2167f6ecedd419db06c1".
Proof. vm_compute. reflexivity. Qed.
Example hmac_jefe :
  hex_encode (Hmac256 "Jefe" "what do ya want for nothing?") =
  "5bdcc146bf60754e6a042426089575c75a003f089d2739839dec58b964ec3843".
Proof. vm_compute. reflexivity. Qed.

Lemma length_bytes_of s : length (bytes_of s) = String.length s.
Proof.
  unfold bytes_of. rewrite length_fmap. induction s; simpl; congruence.
Qed.
Lemma length_string_of l : String.length (string_of l) = length l.
Proof.
  unfold string_of. induction l as [|x l IH]; [done|].
  rewrite fmap_cons. simpl. by rewrite IH.
Qed.
Lemma Sum256_length s : String.length (Sum256 s) = 32%nat.
Proof. unfold Sum256. rewrite length_string_of. apply Sha256.digest_length. Qed.
Lemma hex_encode_length s : String.length (hex_encode s) = (2 * String.length s)%nat.
Proof. induction s; simpl; lia. Qed.

(** Hex text holds only [0-9a-f]. *)
Definition is_hex (c : ascii) : bool :=
  let n := N_of_ascii c in ((48 <=? n) && (n <=? 57) || (97 <=? n) && (n <=? 102))%N.
Lemma hex_digit_is_hex c :
  is_hex (hex_digit (N_of_ascii c / 16)) = true ∧
  is_hex (hex_digit (N_of_ascii c mod 16)) = true.
Proof. by destruct c as [[] [] [] [] [] [] [] []]. Qed.
Lemma hex_encode_is_hex s d : has_byte d (hex_encode s) = true → is_hex d = true.
Proof.
  induction s as [|c s IH]; simpl; [done|]. destruct (hex_digit_is_hex c) as [H1 H2].
  rewrite !orb_true_iff, !byte_eqb_eq. by intros [->|[->|?]]; auto.
Qed.
Lemma hex_encode_no_byte s d : is_hex d = false → has_byte d (hex_encode s) = false.
Proof.
  intros Hd. destruct (has_byte d _) eqn:E; [|done].
  apply hex_encode_is_hex in E. congruence.
Qed.

(** ** encoding/base64

    A sextet is six bits, most significant first; re-grouping the bits of three
    bytes as four sextets is the shifting and masking of the Go code. *)

Definition sextet : Type := bool * bool * bool * bool * bool * bool.
Definition sextet_val (x : sextet) : N :=
  let '(a, b, c, d, e, f) := x in
  let v (y : bool) := if y then 1%N else 0%N in
  (32 * v a + 16 * v b + 8 * v c + 4 * v d + 2 * v e + v f)%N.

Inductive alphabet := StdAlphabet | URLAlphabet.

(** The 63rd and 64th letters tell the two alphabets apart. *)
Definition sextet_char (al : alphabet) (x : sextet) : ascii :=
  let n := sextet_val x in
  if (n <? 26)%N then ascii_of_N (65 + n)
  else if (n <? 52)%N then ascii_of_N (71 + n)
  else if (n <? 62)%N then ascii_of_N (n - 4)
  else match al, (n =? 62)%N with
       | StdAlphabet, true => "+"
       | StdAlphabet, false => "/"
       | URLAlphabet, true => "-"
       | URLAlphabet, false => "_"
       end%char.

Definition sextet_of_val (n : N) : sextet :=
  (N.testbit n 5, N.testbit n 4, N.testbit n 3, N.testbit n 2, N.testbit n 1, N.testbit n 0).
Definition char_sextet (al : alphabet) (c : ascii) : option sextet :=
  let n := N_of_ascii c in
  if ((65 <=? n) && (n <=? 90))%N then Some (sextet_of_val (n - 65))
  else if ((97 <=? n) && (n <=? 122))%N then Some (sextet_of_val (n - 71))
  else if ((48 <=? n) && (n <=? 57))%N then Some (sextet_of_val (n + 4))
  else match al with
       | StdAlphabet => if byte_eqb c "+" then Some (sextet_of_val 62)
                        else if byte_eqb c "/" then Some (sextet_of_val 63) else None
       | URLAlphabet => if byte_eqb c "-" then Some (sextet_of_val 62)
                        else if byte_eqb c "_" then Some (sextet_of_val 63) else None
       end.

Lemma char_sextet_char al x : char_sextet al (sextet_char al x) = Some x.
Proof. by destruct al, x as [[[[[[] []] []] []] []] []]. Qed.

(** [Encode]: full groups of three bytes, then a partial one, padded or not. *)
Fixpoint b64_encode (al : alphabet) (padded : bool) (s : string) : string :=
  let ch := sextet_char al in
  match s with
  | String (Ascii a0 a1 a2 a3 a4 a5 a6 a7)
     (String (Ascii b0 b1 b2 b3 b4 b5 b6 b7)
       (String (Ascii c0 c1 c2 c3 c4 c5 c6 c7) s')) =>
      String (ch (a7, a6, a5, a4, a3, a2)) (String (ch (a1, a0, b7, b6, b5, b4))
        (String (ch (b3, b2, b1, b0, c7, c6)) (String (ch (c5, c4, c3, c2, c1, c0))
          (b64_encode al padded s'))))
  | String (Ascii a0 a1 a2 a3 a4 a5 a6 a7) (String (Ascii b0 b1 b2 b3 b4 b5 b6 b7) "") =>
      String (ch (a7, a6, a5, a4, a3, a2)) (String (ch (a1, a0, b7, b6, b5, b4))
        (String (ch (b3, b2, b1, b0, false, false)) (if padded then "=" else "")))
  | String (Ascii a0 a1 a2 a3 a4 a5 a6 a7) "" =>
      String (ch (a7, a6, a5, a4, a3, a2)) (String (ch (a1, a0, false, false, false, false))
        (if padded then "==" else ""))
  | EmptyString => ""
  end.

Definition RawURLEncode : string → string := b64_encode URLAlphabet false.
Definition StdEncode : string → string := b64_encode StdAlphabet true.

(** [RawURLEncoding.DecodeString]: line breaks are skipped, any other letter
    outside the alphabet is an error, and so is a lone last letter.  The spare
    bits of a partial group are ignored. *)
Fixpoint strip_breaks (s : string) : string :=
  match s with
  | EmptyString => ""
  | String c s' =>
      if byte_eqb c "010" || byte_eqb c "013" then strip_breaks s' else String c (strip_breaks s')
  end.
Fixpoint sextets_of (s : string) : option (list sextet) :=
  match s with
  | EmptyString => Some []
  | String c s' => x ← char_sextet URLAlphabet c; xs ← sextets_of s'; Some (x :: xs)
  end.
Fixpoint group_sextets (l : list sextet) : option string :=
  match l with
  | (a7, a6, a5, a4, a3, a2) :: (a1, a0, b7, b6, b5, b4) :: (b3, b2, b1, b0, c7, c6)
      :: (c5, c4, c3, c2, c1, c0) :: l' =>
      rest ← group_sextets l';
      Some (String (Ascii a0 a1 a2 a3 a4 a5 a6 a7)
        (String (Ascii b0 b1 b2 b3 b4 b5 b6 b7)
          (String (Ascii c0 c1 c2 c3 c4 c5 c6 c7) rest)))
  | [(a7, a6, a5, a4, a3, a2); (a1, a0, b7, b6, b5, b4); (b3, b2, b1, b0, _, _)] =>
      Some (String (Ascii a0 a1 a2 a3 a4 a5 a6 a7) (String (Ascii b0 b1 b2 b3 b4 b5 b6 b7) ""))
  | [(a7, a6, a5, a4, a3, a2); (a1, a0, _, _, _, _)] =>
      Some (String (Ascii a0 a1 a2 a3 a4 a5 a6 a7) "")
  | [] => Some ""
  | [_] => None
  end.
Definition RawURLDecode (s : string) : option string :=
  sextets_of (strip_breaks s) ≫= group_sextets.

(** Letters of the alphabet. *)
Definition is_url64 (c : ascii) : bool :=
  match char_sextet URLAlphabet c with Some _ => true | None => false end.
Lemma sextet_char_url64 x : is_url64 (sextet_char URLAlphabet x) = true.
Proof. unfold is_url64. by rewrite char_sextet_char. Qed.

(** Induction three bytes at a time. *)
Lemma string_ind3 (P : string → Prop) :
  P "" → (∀ a, P (String a "")) → (∀ a b, P (String a (String b ""))) →
  (∀ a b c s, P s → P (String a (String b (String c s)))) → ∀ s, P s.
Proof.
  intros H0 H1 H2 H3 s. enough (∀ n s, (String.length s < n)%nat → P s) by eauto.
  clear s. intros n. induction n as [|n IH]; intros s Hn; [lia|].
  destruct s as [|a [|b [|c s]]]; auto. apply H3, IH. simpl in Hn. lia.
Qed.

Lemma RawURLEncode_url64 s : all_bytes is_url64 (RawURLEncode s) = true.
Proof.
  unfold RawURLEncode. induction s as [|[]|[] []|[] [] [] s IH] using string_ind3;
    cbn [b64_encode all_bytes]; by rewrite ?sextet_char_url64, ?IH.
Qed.

Lemma strip_breaks_id s : all_bytes is_url64 s = true → strip_breaks s = s.
Proof.
  induction s as [|c s IH]; simpl; [done|]. intros [Hc Hs]%andb_true_iff.
  rewrite IH by done.
  destruct (byte_eqb c "010") eqn:E1; [by apply byte_eqb_eq in E1 as ->|].
  destruct (byte_eqb c "013") eqn:E2; [by apply byte_eqb_eq in E2 as ->|]. done.
Qed.

(** Decoding undoes encoding. *)
Lemma RawURLDecode_Encode s : RawURLDecode (RawURLEncode s) = Some s.
Proof.
  unfold RawURLDecode. rewrite strip_breaks_id by apply RawURLEncode_url64.
  unfold RawURLEncode. induction s as [|[]|[] []|[] [] [] s IH] using string_ind3;
    cbn [b64_encode sextets_of]; [done|..];
    rewrite !char_sextet_char; cbn [mbind option_bind]; try done.
  destruct (sextets_of (b64_encode URLAlphabet false s)) as [l|]; [|done].
  cbn [mbind option_bind] in *. cbn [group_sextets]. by rewrite IH.
Qed.

(** A digest in text never contains a dot. *)
Lemma RawURLEncode_no_dot s : has_byte "." (RawURLEncode s) = false.
Proof. by eapply all_bytes_no_byte; [apply RawURLEncode_url64|]. Qed.

(** Padded base64 takes four letters per started group of three bytes. *)
Lemma StdEncode_length s :
  String.length (StdEncode s) = (4 * ((String.length s + 2) / 3))%nat.
Proof.
  unfold StdEncode. induction s as [|[]|[] []|[] [] [] s IH] using string_ind3; try done.
  cbn [b64_encode String.length]. rewrite IH.
  replace (S (S (S (String.length s))) + 2)%nat with (String.length s + 2 + 1 * 3)%nat by lia.
  rewrite Nat.div_add by lia. lia.
Qed.

Example base64_vectors :
  StdEncode "foobar" = "Zm9vYmFy" ∧ StdEncode "foob" = "Zm9vYg==" ∧
  RawURLEncode "fooba" = "Zm9vYmE" ∧ RawURLDecode "Zm9vYmE" = Some "fooba" ∧
  RawURLDecode "Zm9vY" = None ∧ RawURLDecode "Zm=v" = None.
Proof. by vm_compute. Qed.

#[export] Hint Resolve RawURLEncode_no_dot Sum256_length hex_encode_no_byte : gateway.
#[export] Hint Rewrite hex_encode_length Sum256_length RawURLDecode_Encode : gateway.
