(* ===== verification/Manifest.v ===== *)
(** [internal/manifest]: the document a plugin serves, and the name of the
    Postgres schema its tenant-scoped tables live in. *)

From S2P Require Import Prelude GoStrings Crypto.

(** ** Manifest types *)

Record Route := {
  Method : string;
  Path : string;
  Public : bool;
  Permission : string;
  Summary : string;
  Tags : list string
}.

Record Migration := { mig_Version : string; mig_Name : string; UpSQL : string; DownSQL : string }.

Record DomainSurface := { Surface : string; PathPrefix : string; SessionScoped : bool }.

Definition TenantSchemaShared : string := "shared".

Record NavItem := {
  Key : string;
  (** [None] is a nil map. *)
  Labels : option (gmap string string);
  Icon : string;
  Href : string;
  nav_Permission : string;
  Feature : string;
  Group : string;
  Sort : Z;
  GroupLabels : gmap string string;
  GroupSort : Z
}.

(** Fields kept as raw JSON text in the code are strings here too. *)
Record Manifest := {
  Name : string;
  Version : string;
  Description : string;
  PluginType : string;
  Routes : list Route;
  PublicPaths : list string;
  DomainSurfaces : list DomainSurface;
  Migrations : list Migration;
  OpenAPISpec : string;
  TenantSchema : string;
  Nav : list NavItem;
  Permissions : string;
  Roles : string;
  Features : string
}.

Definition empty_manifest : Manifest := {|
  Name := ""; Version := ""; Description := ""; PluginType := ""; Routes := [];
  PublicPaths := []; DomainSurfaces := []; Migrations := []; OpenAPISpec := "";
  TenantSchema := ""; Nav := []; Permissions := ""; Roles := ""; Features := "" |}.

(** ** tenantschema.go *)

Definition maxIdentifier : nat := 63.

Definition TenantSchemaFor (base plugin mode : string) : string :=
  if String.eqb base "" || String.eqb mode TenantSchemaShared then base
  else
    let name := base ++ "__" ++ plugin in
    if (String.length name <=? maxIdentifier)%nat then name
    else
      let suffix := "_" ++ take_bytes 8 (hex_encode (Sum256 name)) in
      take_bytes (maxIdentifier - String.length suffix) name ++ suffix.

(** ** Facts *)

Lemma length_take_bytes n s : String.length (take_bytes n s) = Nat.min n (String.length s).
Proof. revert s. induction n; intros [|c s]; simpl; auto. Qed.
Lemma take_bytes_append n s t :
  (n <= String.length s)%nat → take_bytes n (s ++ t) = take_bytes n s.
Proof.
  revert s. induction n as [|n IH]; intros [|c s] H; simpl in *; try done; [lia|].
  f_equal. apply IH. lia.
Qed.
Lemma take_drop_bytes n s : take_bytes n s ++ drop_bytes n s = s.
Proof. revert s. induction n; intros [|c s]; simpl; congruence. Qed.
Lemma has_byte_take d n s : has_byte d s = false → has_byte d (take_bytes n s) = false.
Proof.
  revert s. induction n as [|n IH]; intros [|c s]; simpl; try done.
  intros [Hc ?]%orb_false_iff. rewrite Hc. simpl. auto.
Qed.

(** The digest tail is nine bytes. *)
Definition schema_tail (name : string) : string :=
  "_" ++ take_bytes 8 (hex_encode (Sum256 name)).
Lemma schema_tail_length name : String.length (schema_tail name) = 9%nat.
Proof.
  unfold schema_tail. rewrite length_append, length_take_bytes, hex_encode_length, Sum256_length.
  done.
Qed.

(** The two own-schema branches. *)
Lemma TenantSchemaFor_own base plugin mode :
  base ≠ "" → mode ≠ TenantSchemaShared →
  let name := base ++ "__" ++ plugin in
  TenantSchemaFor base plugin mode =
    if (String.length name <=? maxIdentifier)%nat then name
    else take_bytes 54 name ++ schema_tail name.
Proof.
  intros Hb Hm name. unfold TenantSchemaFor.
  rewrite (proj2 (String.eqb_neq _ _) Hb), (proj2 (String.eqb_neq _ _) Hm). simpl orb.
  cbv zeta. fold name. destruct (_ <=? _)%nat; [done|].
  fold (schema_tail name). by rewrite schema_tail_length.
Qed.

(** ** Properties *)

(** A schema name Core derives for a plugin is never longer than
    Postgres's 63-byte identifier limit, so it is never silently truncated. *)
Theorem TenantSchemaFor_fits base plugin mode :
  mode ≠ TenantSchemaShared →
  base ≠ "" →
  (String.length (TenantSchemaFor base plugin mode) <= maxIdentifier)%nat.
Proof.
  intros Hm Hb. rewrite TenantSchemaFor_own by done. cbv zeta.
  destruct (_ <=? _)%nat eqn:E; [by apply Nat.leb_le|]. apply Nat.leb_gt in E.
  rewrite length_append, schema_tail_length, length_take_bytes. unfold maxIdentifier in *. lia.
Qed.

Lemma TenantSchemaFor_fits_witness :
  "own" ≠ TenantSchemaShared ∧
  (String.length (TenantSchemaFor "tenant_a_rather_long_slug_for_one_institution"
     "a_rather_long_plugin_name" "own") <= maxIdentifier)%nat.
Proof. split; [done|]. by apply TenantSchemaFor_fits. Defined.

(** C37: Two plugins of one tenant are given the same own schema only
    if they are the same plugin, or one of the two full names was cut and the
    54 leading bytes or the digest of the uncut names coincide: with both names
    within the limit the schemas are distinct, and two cut names can only
    collide if they share their first 54 bytes and their digest tail. *)
Theorem TenantSchemaFor_separates base p p' mode mode' :
  base ≠ "" → mode ≠ TenantSchemaShared → mode' ≠ TenantSchemaShared →
  TenantSchemaFor base p mode = TenantSchemaFor base p' mode' →
  let name := base ++ "__" ++ p in
  let name' := base ++ "__" ++ p' in
  p = p' ∨
  ((maxIdentifier < String.length name)%nat ∧ (maxIdentifier < String.length name')%nat ∧
   take_bytes 54 name = take_bytes 54 name' ∧ schema_tail name = schema_tail name') ∨
  ((maxIdentifier < String.length name)%nat ∧ name' = take_bytes 54 name ++ schema_tail name) ∨
  ((maxIdentifier < String.length name')%nat ∧ name = take_bytes 54 name' ++ schema_tail name').
Proof.
  intros Hb Hm Hm'. rewrite !TenantSchemaFor_own by done. cbv zeta.
  set (name := base ++ "__" ++ p). set (name' := base ++ "__" ++ p').
  destruct (String.length name <=? _)%nat eqn:E, (String.length name' <=? _)%nat eqn:E'; intros H;
    try apply Nat.leb_gt in E; try apply Nat.leb_gt in E'.
  - left. unfold name, name' in H. apply append_inj_l in H. by apply append_inj_l in H.
  - right. right. right. eauto.
  - right. right. left. eauto.
  - right. left. unfold maxIdentifier in *.
    apply append_length_inj in H as [? ?]; [done|]. rewrite !length_take_bytes. lia.
Qed.

Lemma TenantSchemaFor_separates_witness :
  TenantSchemaFor "tenant_acme" "pos" "own" = TenantSchemaFor "tenant_acme" "pos" "" ∧
  ("pos" = "pos" ∨ (maxIdentifier < String.length "tenant_acme__pos")%nat).
Proof.
  split; [done|].
  destruct (TenantSchemaFor_separates "tenant_acme" "pos" "pos" "own" "" ltac:(done)
    ltac:(done) ltac:(done) eq_refl) as [?|[[? _]|[[? _]|[? _]]]]; auto.
Defined.

(** The digest tail does not make schemas "distinct wherever
    the full names differ": one tenant has two different plugin names, one cut
    and one not, whose own schemas are equal, and two different tenants can
    share a schema because the joining "__" may also occur in a slug. *)
Theorem TenantSchemaFor_collisions :
  (∃ base p p', p ≠ p' ∧ base ≠ "" ∧
     TenantSchemaFor base p "own" = TenantSchemaFor base p' "own") ∧
  (∃ base base' p p', base ≠ base' ∧ p ≠ p' ∧ base ≠ "" ∧ base' ≠ "" ∧
     TenantSchemaFor base p "own" = TenantSchemaFor base' p' "own").
Proof.
  split.
  - exists "tenant_acme", "inventory_and_warehouse_management_for_regional_depots",
      (drop_bytes 13 (TenantSchemaFor "tenant_acme"
         "inventory_and_warehouse_management_for_regional_depots" "own")).
    split; [by vm_compute|]. split; [done|]. vm_compute. reflexivity.
  - exists "tenant_acme", "tenant_acme__north", "north__pos", "pos".
    repeat (split; [done|]). vm_compute. reflexivity.
Qed.

#[export] Hint Rewrite length_take_bytes length_append : gateway.
