(* ===== verification/Protection.v ===== *)
(** [internal/protection] without the rate limiter: the route firewall, the
    bulkhead, the circuit breaker and the metric labels. *)

From S2P Require Import Prelude GoStrings.

(** * firewall.go *)

Module Firewall.

Definition blockedPrefixes : list string := ["/internal/"; "/admin/"; "/_core/"].
Definition maxBodySize : Z := 10 * 1024 * 1024.

(** [for _, prefix := range blockedPrefixes { if HasPrefix { return true } }] *)
Fixpoint any_prefix (path : string) (ps : list string) : bool :=
  match ps with
  | [] => false
  | prefix :: ps' => if HasPrefix path prefix then true else any_prefix path ps'
  end.
Definition IsRouteBlocked (path : string) : bool := any_prefix path blockedPrefixes.
Definition IsBodyTooLarge (size : Z) : bool := maxBodySize <? size.

Lemma any_prefix_spec path ps :
  any_prefix path ps = true ↔ ∃ p t, p ∈ ps ∧ path = p ++ t.
Proof.
  induction ps as [|p ps IH]; simpl.
  - split; [done|]. intros (? & ? & H & _). by apply not_elem_of_nil in H.
  - destruct (HasPrefix path p) eqn:E.
    + apply HasPrefix_iff in E as [t ->]. split; [|done]. intros _. exists p, t.
      split; [constructor|done].
    + rewrite IH. split.
      * intros (q & t & Hq & ->). exists q, t. split; [by right|done].
      * intros (q & t & [->|Hq]%elem_of_cons & ->); [|eauto].
        rewrite (proj2 (HasPrefix_iff _ _)) in E by eauto. done.
Qed.

Lemma IsRouteBlocked_spec path :
  IsRouteBlocked path = true ↔ ∃ p t, p ∈ blockedPrefixes ∧ path = p ++ t.
Proof. apply any_prefix_spec. Qed.

(** Whatever follows a blocked path is blocked too. *)
Lemma IsRouteBlocked_app path t :
  IsRouteBlocked path = true → IsRouteBlocked (path ++ t) = true.
Proof.
  rewrite !IsRouteBlocked_spec. intros (p & u & Hp & ->). exists p, (u ++ t).
  by rewrite append_assoc.
Qed.

End Firewall.

(** * bulkhead.go *)

Module Bulkhead.

Record t := { active : gmap string Z; maxConc : Z }.

Inductive error := ErrBulkheadFull.

Definition New (maxConcurrent : Z) : t := {| active := ∅; maxConc := maxConcurrent |}.

Definition Active (b : t) (pluginID : string) : Z := map_get 0 (active b) pluginID.
Definition Max (b : t) : Z := maxConc b.

Definition Acquire (pluginID : string) (b : t) : t * option error :=
  if maxConc b <=? map_get 0 (active b) pluginID then (b, Some ErrBulkheadFull)
  else ({| active := <[pluginID := map_get 0 (active b) pluginID + 1]> (active b);
           maxConc := maxConc b |}, None).

Definition Release (pluginID : string) (b : t) : t :=
  if 0 <? map_get 0 (active b) pluginID then
    {| active := <[pluginID := map_get 0 (active b) pluginID - 1]> (active b);
       maxConc := maxConc b |}
  else b.

(** ** Interleaved requests

    [in_flight] lists, one entry per request, the plugin of every request that
    has acquired a slot and not released it yet.  Requests start and end in any
    order, each [Acquire] and [Release] being atomic under the mutex. *)

Record world := { bh : t; in_flight : list string }.

Definition flying (w : world) (p : string) : Z := Z.of_nat (length (filter (λ q, p = q) (in_flight w))).

Inductive step : world → world → Prop :=
| start_request w p b' :
    Acquire p (bh w) = (b', None) →
    step w {| bh := b'; in_flight := p :: in_flight w |}
| refuse_request w p b' e :
    Acquire p (bh w) = (b', Some e) →
    step w {| bh := b'; in_flight := in_flight w |}
| finish_request w p pre post :
    in_flight w = app pre (p :: post) →
    step w {| bh := Release p (bh w); in_flight := app pre post |}.

Definition start (n : Z) : world := {| bh := New n; in_flight := [] |}.

(** Every slot in use belongs to a request in flight. *)
Definition accounted (n : Z) (w : world) : Prop :=
  maxConc (bh w) = n ∧
  ∀ p, Active (bh w) p = flying w p ∧ (Active (bh w) p ≤ Z.max 0 n).

Lemma flying_cons b p fs q :
  flying {| bh := b; in_flight := p :: fs |} q =
  (if decide (q = p) then 1 else 0) + flying {| bh := b; in_flight := fs |} q.
Proof.
  unfold flying. simpl. rewrite filter_cons. destruct (decide (q = p)); simpl; lia.
Qed.
Lemma flying_middle b p pre post q :
  flying {| bh := b; in_flight := app pre (p :: post) |} q =
  (if decide (q = p) then 1 else 0) + flying {| bh := b; in_flight := app pre post |} q.
Proof.
  unfold flying. simpl. rewrite !filter_app, filter_cons, !length_app.
  destruct (decide (q = p)); simpl; lia.
Qed.

Lemma Acquire_active p b b' q :
  Acquire p b = (b', None) →
  Active b' q = (if decide (q = p) then 1 else 0) + Active b q ∧
  Active b p < maxConc b ∧ maxConc b' = maxConc b.
Proof.
  unfold Acquire, Active. destruct (Z.leb_spec (maxConc b) (map_get 0 (active b) p)); [done|].
  intros [= <-]. simpl. split; [|done]. destruct (decide (q = p)) as [->|].
  - rewrite map_get_insert_eq. lia.
  - by rewrite map_get_insert_ne by done.
Qed.
Lemma Release_active p b q :
  0 < Active b p →
  Active (Release p b) q = Active b q - (if decide (q = p) then 1 else 0).
Proof.
  unfold Release, Active. intros H. rewrite (proj2 (Z.ltb_lt _ _) H). simpl.
  destruct (decide (q = p)) as [->|].
  - by rewrite map_get_insert_eq.
  - rewrite map_get_insert_ne by done. lia.
Qed.
Lemma Release_max p b : maxConc (Release p b) = maxConc b.
Proof. unfold Release. by case_match. Qed.

Lemma step_accounted n w w' : accounted n w → step w w' → accounted n w'.
Proof.
  intros [Hn Hw] Hs. destruct Hs as [w p b' HA|w p b' e HA|w p pre post Hf].
  - split; [simpl; by destruct (Acquire_active _ _ _ p HA) as (_ & _ & ->)|].
    intros q. destruct (Acquire_active _ _ _ q HA) as (Hq & Hlt & _).
    destruct (Hw q) as [Hq1 Hq2]. rewrite flying_cons. simpl bh. rewrite Hq.
    destruct w as [b fs]; simpl in *. split; [by rewrite Hq1|].
    destruct (decide (q = p)) as [->|]; lia.
  - unfold Acquire in HA. case_match; [|done]. simplify_eq.
    by destruct w.
  - split; [simpl; by rewrite Release_max|]. intros q.
    assert (∀ q, Active (bh w) q = (if decide (q = p) then 1 else 0) +
              flying {| bh := bh w; in_flight := app pre post |} q) as Ha.
    { intros r. rewrite (proj1 (Hw r)). destruct w as [b fs]. simpl in *. subst fs.
      apply flying_middle. }
    assert (0 < Active (bh w) p).
    { rewrite Ha, decide_True by done. unfold flying. lia. }
    simpl bh. rewrite Release_active by done. destruct (Hw q) as [_ Hle].
    split; [|case_decide; lia]. rewrite Ha. unfold flying. simpl. lia.
Qed.

Lemma reachable_accounted n w : rtc step (start n) w → accounted n w.
Proof.
  apply rtc_preserved; [apply step_accounted|]. split; [done|]. intros p. unfold Active, flying.
  simpl. rewrite map_get_empty. simpl. lia.
Qed.

(** However requests start, are refused and finish, a plugin never has more
    than the configured number of requests in flight, the counter always equals
    the number actually in flight, and a request is refused exactly when all
    slots are taken (no slot leaks). *)
Theorem bulkhead_caps_concurrency n w p :
  0 ≤ n →
  rtc step (start n) w →
  flying w p ≤ n ∧ Active (bh w) p = flying w p ∧
  ((Acquire p (bh w)).2 = Some ErrBulkheadFull ↔ flying w p = n).
Proof.
  intros Hn0 Hr. destruct (reachable_accounted n w Hr) as [Hn Hw].
  destruct (Hw p) as [H1 H2]. split; [lia|]. split; [done|].
  unfold Acquire. fold (Active (bh w) p). rewrite Hn, H1 in *.
  destruct (Z.leb_spec n (flying w p)); simpl; split; intros; try done; lia.
Qed.

(** Two requests to a plugin capped at two, one done, another one in. *)
Lemma bulkhead_caps_concurrency_witness :
  ∃ w, rtc step (start 2) w ∧ flying w "pos" = 2 ∧
       (Acquire "pos" (bh w)).2 = Some ErrBulkheadFull ∧ flying w "pos" ≤ 2.
Proof.
  pose (b1 := {| active := {["pos" := 1]}; maxConc := 2 |}).
  pose (b2 := {| active := {["pos" := 2]}; maxConc := 2 |}).
  assert (rtc step (start 2) {| bh := b2; in_flight := ["pos"; "pos"] |}) as Hr.
  { eapply rtc_l; [apply (start_request (start 2) "pos" b1); reflexivity|].
    eapply rtc_l; [apply (start_request {| bh := b1; in_flight := ["pos"] |} "pos" b2);
      reflexivity|].
    apply rtc_refl. }
  exists {| bh := b2; in_flight := ["pos"; "pos"] |}.
  destruct (bulkhead_caps_concurrency 2 _ "pos" ltac:(lia) Hr) as (Hle & _ & Hiff).
  split; [exact Hr|]. split; [reflexivity|]. split; [apply Hiff; reflexivity|exact Hle].
Defined.

End Bulkhead.

(** * circuit_breaker.go *)

Module CircuitBreaker.

Inductive cbState := stateClosed | stateOpen | stateHalfOpen.
#[export] Instance cbState_eq_dec : EqDecision cbState.
Proof. solve_decision. Defined.

Inductive error := ErrCircuitOpen.

(** The maps are keyed by plugin id; an absent state is the zero value,
    [stateClosed]. *)
Record t := {
  states : gmap string cbState;
  failures : gmap string Z;
  lastFailure : gmap string Z;
  threshold : Z;
  resetTimeout : Z
}.

Definition New (threshold resetTimeout : Z) : t :=
  {| states := ∅; failures := ∅; lastFailure := ∅;
     threshold := threshold; resetTimeout := resetTimeout |}.

Definition state_of (cb : t) (p : string) : cbState := map_get stateClosed (states cb) p.
Definition failures_of (cb : t) (p : string) : Z := map_get 0 (failures cb) p.
Definition last_of (cb : t) (p : string) : Z := map_get zero_time (lastFailure cb) p.

Definition set_state (p : string) (s : cbState) (cb : t) : t :=
  {| states := <[p := s]> (states cb); failures := failures cb;
     lastFailure := lastFailure cb; threshold := threshold cb;
     resetTimeout := resetTimeout cb |}.
Definition set_failures (p : string) (n : Z) (cb : t) : t :=
  {| states := states cb; failures := <[p := n]> (failures cb);
     lastFailure := lastFailure cb; threshold := threshold cb;
     resetTimeout := resetTimeout cb |}.
Definition set_last (p : string) (now : Z) (cb : t) : t :=
  {| states := states cb; failures := failures cb;
     lastFailure := <[p := now]> (lastFailure cb); threshold := threshold cb;
     resetTimeout := resetTimeout cb |}.

Definition Allow (now : Z) (p : string) (cb : t) : t * option error :=
  match state_of cb p with
  | stateOpen =>
      if resetTimeout cb <? time_Sub now (last_of cb p)
      then (set_state p stateHalfOpen cb, None)
      else (cb, Some ErrCircuitOpen)
  | _ => (cb, None)
  end.

Definition RecordSuccess (p : string) (cb : t) : t :=
  set_state p stateClosed (set_failures p 0 cb).

Definition RecordFailure (now : Z) (p : string) (cb : t) : t :=
  let cb := set_last p now (set_failures p (failures_of cb p + 1) cb) in
  if threshold cb <=? failures_of cb p then set_state p stateOpen cb else cb.

Definition Reset (p : string) (cb : t) : t :=
  set_state p stateClosed (set_failures p 0 cb).

Definition ForceOpen (now : Z) (p : string) (cb : t) : t :=
  set_last p now (set_state p stateOpen cb).

Definition IsOpen (cb : t) (p : string) : bool := bool_decide (state_of cb p = stateOpen).

(** [float64] 0, 1 and 2. *)
Definition StateMetric (cb : t) (p : string) : Z :=
  match state_of cb p with stateOpen => 2 | stateHalfOpen => 1 | stateClosed => 0 end.
Definition State (cb : t) (p : string) : string :=
  match state_of cb p with
  | stateOpen => "open" | stateHalfOpen => "half-open" | stateClosed => "closed"
  end.

(** ** Field equations *)

Lemma map_get_insert {V} (d : V) m p q v :
  map_get d (<[p := v]> m) q = if decide (q = p) then v else map_get d m q.
Proof.
  destruct (decide (q = p)) as [->|]; [apply map_get_insert_eq|by apply map_get_insert_ne].
Qed.

Section fields.
Context (p q : string) (cb : t).

Lemma state_set_state s :
  state_of (set_state p s cb) q = if decide (q = p) then s else state_of cb q.
Proof. apply map_get_insert. Qed.
Lemma failures_set_failures n :
  failures_of (set_failures p n cb) q = if decide (q = p) then n else failures_of cb q.
Proof. apply map_get_insert. Qed.
Lemma last_set_last now :
  last_of (set_last p now cb) q = if decide (q = p) then now else last_of cb q.
Proof. apply map_get_insert. Qed.
Lemma state_set_failures n : state_of (set_failures p n cb) q = state_of cb q.
Proof. done. Qed.
Lemma state_set_last n : state_of (set_last p n cb) q = state_of cb q.
Proof. done. Qed.
Lemma failures_set_state s : failures_of (set_state p s cb) q = failures_of cb q.
Proof. done. Qed.
Lemma failures_set_last n : failures_of (set_last p n cb) q = failures_of cb q.
Proof. done. Qed.
Lemma last_set_state s : last_of (set_state p s cb) q = last_of cb q.
Proof. done. Qed.
Lemma last_set_failures n : last_of (set_failures p n cb) q = last_of cb q.
Proof. done. Qed.
End fields.

Create Rewrite HintDb breaker.
#[export] Hint Rewrite state_set_state failures_set_failures last_set_last
  state_set_failures state_set_last failures_set_state failures_set_last
  last_set_state last_set_failures : breaker.

(** ** One plugin's breaker as an automaton

    What the shared maps mean for one plugin: its state, its consecutive
    failures and when the last one was. *)

Record view := { v_state : cbState; v_failures : Z; v_last : Z }.

Definition view_of (cb : t) (p : string) : view :=
  {| v_state := state_of cb p; v_failures := failures_of cb p; v_last := last_of cb p |}.

Inductive event :=
| EvAllow (now : Z) | EvSuccess | EvFailure (now : Z) | EvReset | EvForceOpen (now : Z).

(** The specification: one breaker, no maps. *)
Definition spec_step (thr reset : Z) (v : view) (e : event) : view :=
  match e with
  | EvAllow now =>
      match v_state v with
      | stateOpen =>
          if reset <? time_Sub now (v_last v)
          then {| v_state := stateHalfOpen; v_failures := v_failures v; v_last := v_last v |}
          else v
      | _ => v
      end
  | EvSuccess | EvReset => {| v_state := stateClosed; v_failures := 0; v_last := v_last v |}
  | EvFailure now =>
      {| v_state := if thr <=? v_failures v + 1 then stateOpen else v_state v;
         v_failures := v_failures v + 1; v_last := now |}
  | EvForceOpen now =>
      {| v_state := stateOpen; v_failures := v_failures v; v_last := now |}
  end.

(** The implementation's step on plugin [p]. *)
Definition impl_step (cb : t) (pe : string * event) : t :=
  let '(p, e) := pe in
  match e with
  | EvAllow now => (Allow now p cb).1
  | EvSuccess => RecordSuccess p cb
  | EvFailure now => RecordFailure now p cb
  | EvReset => Reset p cb
  | EvForceOpen now => ForceOpen now p cb
  end.

Definition run (cb : t) (es : list (string * event)) : t := foldl impl_step cb es.
(** The events of one plugin in a mixed trace. *)
Definition events_of (p : string) (es : list (string * event)) : list event :=
  snd <$> filter (λ pe, pe.1 = p) es.

Lemma impl_step_params cb pe :
  threshold (impl_step cb pe) = threshold cb ∧ resetTimeout (impl_step cb pe) = resetTimeout cb.
Proof.
  destruct pe as [p []]; simpl; try done.
  - unfold Allow. by repeat case_match.
  - unfold RecordFailure. by repeat case_match.
Qed.

Lemma view_eq v v' :
  v_state v = v_state v' → v_failures v = v_failures v' → v_last v = v_last v' → v = v'.
Proof. destruct v, v'. simpl. congruence. Qed.

(** Rewrites every field read over every field write, then cases on the keys. *)
Ltac breaker_view :=
  apply view_eq; simpl; autorewrite with breaker; by repeat case_decide.

Lemma impl_step_view cb p q e :
  view_of (impl_step cb (p, e)) q =
  if decide (q = p)
  then spec_step (threshold cb) (resetTimeout cb) (view_of cb p) e
  else view_of cb q.
Proof.
  destruct e as [now| |now| |now]; simpl.
  - unfold Allow. destruct (state_of cb p) eqn:E; [by case_decide; subst| |by case_decide; subst].
    destruct (resetTimeout cb <? _); [|by case_decide; subst].
    case_decide; subst; breaker_view.
  - unfold RecordSuccess. case_decide; subst; breaker_view.
  - unfold RecordFailure. autorewrite with breaker. rewrite decide_True by done. simpl.
    destruct (threshold cb <=? failures_of cb p + 1); case_decide; subst; breaker_view.
  - unfold Reset. case_decide; subst; breaker_view.
  - unfold ForceOpen. case_decide; subst; breaker_view.
Qed.

Lemma run_view cb es p :
  view_of (run cb es) p =
  foldl (spec_step (threshold cb) (resetTimeout cb)) (view_of cb p) (events_of p es).
Proof.
  revert cb. induction es as [|[q e] es IH]; intros cb; [done|].
  unfold run, events_of in *. cbn [foldl]. rewrite IH.
  destruct (impl_step_params cb (q, e)) as [-> ->]. rewrite filter_cons. simpl fst.
  destruct (decide (q = p)) as [->|Hq].
  - rewrite fmap_cons. cbn [foldl snd]. by rewrite impl_step_view, decide_True.
  - by rewrite impl_step_view, decide_False.
Qed.

(** C31: The shared breaker refines one independent automaton per plugin: after
    any interleaving of operations of any plugins, a plugin's state, failure
    count and failure time are those the specification automaton reaches on that
    plugin's own operations alone. *)
Theorem breaker_refines_per_plugin cb es p :
  view_of (run cb es) p =
  foldl (spec_step (threshold cb) (resetTimeout cb)) (view_of cb p) (events_of p es).
Proof.
  apply run_view.
Qed.

(** ** What a trace means

    Counted from the latest success or reset: the failures, and whether the
    health monitor forced the breaker open. *)
Definition tally (acc : Z * bool) (e : event) : Z * bool :=
  match e with
  | EvSuccess | EvReset => (0, false)
  | EvFailure _ => (acc.1 + 1, acc.2)
  | EvForceOpen _ => (acc.1, true)
  | EvAllow _ => acc
  end.
Definition tally_of (es : list event) : Z * bool := foldl tally (0, false) es.

Definition consistent (thr : Z) (v : view) (c : Z * bool) : Prop :=
  0 ≤ c.1 ∧ v_failures v = c.1 ∧
  (v_state v = stateClosed ↔ c.1 < thr ∧ c.2 = false).

Lemma spec_step_consistent thr reset v c e :
  0 < thr → consistent thr v c → consistent thr (spec_step thr reset v e) (tally c e).
Proof.
  intros Hthr (H0 & Hf & Hs). destruct c as [n forced]; simpl in *.
  destruct e as [now| |now| |now]; unfold consistent; simpl.
  - destruct (v_state v) eqn:E; [by rewrite E| |by rewrite E].
    case_match; simpl; [|by rewrite E]. split; [done|]. split; [done|]. by rewrite <- Hs.
  - split; [lia|]. split; [done|]. split; [lia|done].
  - split; [lia|]. split; [by rewrite Hf|]. rewrite Hf.
    destruct (Z.leb_spec thr (n + 1)); [split; [done|lia]|].
    rewrite Hs. split; intros []; split; auto; lia.
  - split; [lia|]. split; [done|]. split; [lia|done].
  - split; [done|]. split; [done|]. split; [done|]. by intros [].
Qed.

Lemma spec_run_consistent thr reset es v c :
  0 < thr → consistent thr v c →
  consistent thr (foldl (spec_step thr reset) v es) (foldl tally c es).
Proof.
  intros Hthr. revert v c. induction es; simpl; intros; auto using spec_step_consistent.
Qed.

(** Starting from a new breaker, whatever all plugins do, a plugin's breaker
    is closed exactly when, since its last success or manual reset, it has had
    fewer than [threshold] failures and has not been forced open; its failure
    counter is the number of those failures.  In particular it opens on exactly
    the [threshold]-th consecutive failure. *)
Theorem breaker_closed_iff_below_threshold thr reset es p :
  0 < thr →
  let cb := run (New thr reset) es in
  let c := tally_of (events_of p es) in
  (state_of cb p = stateClosed ↔ c.1 < thr ∧ c.2 = false) ∧ failures_of cb p = c.1.
Proof.
  intros Hthr cb c.
  assert (consistent thr (view_of cb p) c) as (_ & Hf & Hs); [|done].
  unfold cb. rewrite run_view. apply spec_run_consistent; [done|].
  split; [done|]. split; [done|]. simpl. split; [done|]. intros. apply map_get_empty.
Qed.

Lemma breaker_closed_iff_below_threshold_witness :
  state_of (run (New 2 (30 * Second)) [("pos", EvFailure 1); ("crm", EvFailure 1);
     ("pos", EvSuccess); ("pos", EvFailure 2)]) "pos" = stateClosed ∧
  state_of (run (New 2 (30 * Second)) [("pos", EvFailure 1); ("pos", EvFailure 2)]) "pos"
    ≠ stateClosed.
Proof.
  split.
  - apply (breaker_closed_iff_below_threshold 2 (30 * Second)
      [("pos", EvFailure 1); ("crm", EvFailure 1); ("pos", EvSuccess); ("pos", EvFailure 2)]
      "pos"); [lia|]. by vm_compute.
  - intros H. apply (breaker_closed_iff_below_threshold 2 (30 * Second)
      [("pos", EvFailure 1); ("pos", EvFailure 2)] "pos") in H; [|lia].
    vm_compute in H. destruct H as [H _]. done.
Defined.

(** [Allow] refuses a request exactly when the breaker is open and no more
    than [resetTimeout] has passed since the last failure; the first request
    after that is let through and leaves the breaker half-open, and in every
    other case [Allow] changes nothing. *)
Theorem Allow_refuses_iff now p cb :
  ((Allow now p cb).2 = Some ErrCircuitOpen ↔
     state_of cb p = stateOpen ∧ time_Sub now (last_of cb p) ≤ resetTimeout cb) ∧
  (state_of cb p = stateOpen → resetTimeout cb < time_Sub now (last_of cb p) →
     (Allow now p cb).2 = None ∧ state_of (Allow now p cb).1 p = stateHalfOpen) ∧
  (state_of cb p ≠ stateOpen ∨ (Allow now p cb).2 = Some ErrCircuitOpen →
     (Allow now p cb).1 = cb).
Proof.
  unfold Allow. destruct (state_of cb p) eqn:E; simpl.
  - split; [by split; [|intros []]|]. done.
  - destruct (Z.ltb_spec (resetTimeout cb) (time_Sub now (last_of cb p))); simpl.
    + split; [by split; [|lia]|]. split; [|by intros []].
      intros _ _. split; [done|]. by rewrite state_set_state, decide_True.
    + split; [done|]. split; [intros; lia|done].
  - split; [by split; [|intros []]|]. done.
Qed.

(** A half-open breaker does not limit itself to one probe: every request is
    let through, however many arrive before the first result is recorded. *)
Theorem half_open_admits_every_request cb p (nows : list Z) :
  state_of cb p = stateHalfOpen →
  Forall (λ now, (Allow now p (run cb ((λ t, (p, EvAllow t)) <$> nows))).2 = None) nows ∧
  run cb ((λ t, (p, EvAllow t)) <$> nows) = cb.
Proof.
  intros E. assert (run cb ((λ t, (p, EvAllow t)) <$> nows) = cb) as ->.
  { unfold run. induction nows as [|t ts IH]; [done|]. rewrite fmap_cons. cbn [foldl].
    simpl impl_step. unfold Allow. rewrite E. apply IH. }
  split; [|done]. apply Forall_forall. intros now _. unfold Allow. by rewrite E.
Qed.

Lemma half_open_admits_every_request_witness :
  let cb := set_state "pos" stateHalfOpen (New 5 (30 * Second)) in
  Forall (λ now, (Allow now "pos" (run cb ((λ t, ("pos", EvAllow t)) <$> [1; 2; 3]))).2 = None)
    [1; 2; 3].
Proof.
  intros cb. apply (half_open_admits_every_request cb "pos" [1; 2; 3]). reflexivity.
Defined.

(** With a threshold above one, neither a manual reset nor a forced opening
    is undone by "the next failed request": after a reset one failure leaves the
    breaker closed, and after a health-check trip of a breaker with no counted
    failures, the failed half-open probe leaves it half-open, still admitting. *)
Theorem one_failure_does_not_reopen cb p t0 t1 t2 :
  1 < threshold cb →
  state_of (RecordFailure t1 p (Reset p cb)) p = stateClosed ∧
  (failures_of cb p = 0 → resetTimeout cb < time_Sub t1 t0 →
   let cb' := RecordFailure t2 p (Allow t1 p (ForceOpen t0 p cb)).1 in
   state_of cb' p = stateHalfOpen ∧ (Allow t2 p cb').2 = None).
Proof.
  intros Hthr. split.
  - change (v_state (view_of (run cb [(p, EvReset); (p, EvFailure t1)]) p) = stateClosed).
    rewrite run_view. unfold events_of. rewrite !filter_cons_True by done. simpl.
    by destruct (Z.leb_spec (threshold cb) (0 + 1)); [lia|].
  - intros Hf Ht cb'. assert (state_of cb' p = stateHalfOpen) as Hs.
    { change cb' with (run cb [(p, EvForceOpen t0); (p, EvAllow t1); (p, EvFailure t2)]).
      match goal with |- state_of ?r p = _ => change (v_state (view_of r p) = stateHalfOpen) end.
      rewrite run_view. unfold events_of. rewrite !filter_cons_True by done. simpl.
      rewrite (proj2 (Z.ltb_lt _ _) Ht), Hf. simpl.
      by destruct (Z.leb_spec (threshold cb) (0 + 1)); [lia|]. }
    split; [done|]. unfold Allow. by rewrite Hs.
Qed.

Lemma one_failure_does_not_reopen_witness :
  let cb := New 5 (30 * Second) in
  state_of (RecordFailure 1 "pos" (Reset "pos" cb)) "pos" = stateClosed ∧
  state_of (RecordFailure (41 * Second) "pos"
     (Allow (40 * Second) "pos" (ForceOpen 0 "pos" cb)).1) "pos" = stateHalfOpen.
Proof.
  intros cb. destruct (one_failure_does_not_reopen cb "pos" 0 1 0) as [H _]; [by vm_compute|].
  split; [exact H|].
  destruct (one_failure_does_not_reopen cb "pos" 0 (40 * Second) (41 * Second)) as [_ H2];
    [by vm_compute|]. apply H2; [reflexivity|by vm_compute].
Defined.

End CircuitBreaker.

(** * metrics.go *)

Module Metrics.

Definition StatusClass (code : Z) : string :=
  if 500 <=? code then "5xx"
  else if 400 <=? code then "4xx"
  else if 300 <=? code then "3xx"
  else if 200 <=? code then "2xx"
  else "other".

(** The label set is bounded. *)
Lemma StatusClass_labels code : StatusClass code ∈ ["5xx"; "4xx"; "3xx"; "2xx"; "other"].
Proof. unfold StatusClass. repeat case_match; set_solver. Qed.

End Metrics.
