(* ===== verification/RateLimiter.v ===== *)
(** [internal/protection/ratelimiter.go]: the token bucket, with Go's [float64]
    arithmetic. *)

From S2P Require Import Prelude GoStrings Float64.

Record t := {
  tokens : gmap string f64;
  lastSeen : gmap string Z;
  rate : f64;
  burst : f64
}.

Definition New (ratePerSec burst : f64) : t :=
  {| tokens := ∅; lastSeen := ∅; rate := ratePerSec; burst := burst |}.

(** The package's own [min]. *)
Definition fmin (a b : f64) : f64 := if f64_ltb a b then a else b.

Definition one : f64 := Fin ONE.
Definition tokens_at (r : t) (key : string) : f64 := map_get (Fin 0) (tokens r) key.

(** The bucket for [key] as of [now]: full when first seen, refilled otherwise. *)
Definition refill (now : Z) (key : string) (r : t) : t :=
  match lastSeen r !! key with
  | None =>
      {| tokens := <[key := burst r]> (tokens r); lastSeen := <[key := now]> (lastSeen r);
         rate := rate r; burst := burst r |}
  | Some last =>
      let elapsed := Seconds (time_Sub now last) in
      {| tokens := <[key := fmin (burst r)
                       (f64_add (tokens_at r key) (f64_mul elapsed (rate r)))]> (tokens r);
         lastSeen := <[key := now]> (lastSeen r);
         rate := rate r; burst := burst r |}
  end.

Definition Allow (now : Z) (key : string) (r : t) : t * bool :=
  let r := refill now key r in
  if f64_leb one (tokens_at r key) then
    ({| tokens := <[key := f64_sub (tokens_at r key) one]> (tokens r);
        lastSeen := lastSeen r; rate := rate r; burst := burst r |}, true)
  else (r, false).

Definition Tokens (r : t) (key : string) : f64 := default (burst r) (tokens r !! key).
Definition Burst (r : t) : f64 := burst r.

(** Keys last seen before the cutoff are dropped from both maps. *)
Definition EvictIdle (now maxIdle : Z) (r : t) : t :=
  let cutoff := now + - maxIdle in
  let stale := filter (λ kv : string * Z, kv.2 < cutoff) (lastSeen r) in
  {| tokens := filter (λ kv : string * f64, stale !! kv.1 = None) (tokens r);
     lastSeen := filter (λ kv : string * Z, ¬ kv.2 < cutoff) (lastSeen r);
     rate := rate r; burst := burst r |}.

(** ** Buckets

    [burst] is [b] units and [rate] is [rt] units of 2^-1074, both non-negative
    and finite.  Instants are nanoseconds that fit an [int64]. *)

Definition instant (t : Z) : Prop := 0 ≤ t < 2 ^ 63.

Definition limits (b rt : Z) (r : t) : Prop :=
  burst r = Fin b ∧ rate r = Fin rt ∧ repr b ∧ b < f64_top ∧ 0 ≤ rt.

(** A key is unknown, or holds between nothing and [burst] tokens and was last
    seen no later than [now]. *)
Definition bucket (b now : Z) (r : t) (key : string) : Prop :=
  match lastSeen r !! key, tokens r !! key with
  | None, None => True
  | Some last, Some (Fin z) => repr z ∧ z ≤ b ∧ 0 ≤ last ≤ now
  | _, _ => False
  end.

(** What the elapsed time puts back, before the cap, and the cap. *)
Definition gain (rt elapsed : Z) : Z :=
  match f64_mul (Seconds elapsed) (Fin rt) with Fin g => g | _ => f64_top end.
Definition capped (b z : Z) : Z := Z.min b (rnd_pos z 1).

(** The level a request at [now] finds. *)
Definition level (b rt now : Z) (r : t) (key : string) : Z :=
  match lastSeen r !! key, tokens r !! key with
  | Some last, Some (Fin z) => capped b (z + gain rt (now - last))
  | _, _ => b
  end.

Lemma gain_nonneg rt e : 0 ≤ rt → 0 ≤ e < 2 ^ 63 → 0 ≤ gain rt e.
Proof.
  intros Hr He. unfold gain. rewrite Seconds_eq by done. cbn [f64_mul].
  pose proof (seconds_units_bound e He). pose proof ONE_pos.
  destruct (rnd_nonneg_cases (seconds_units e * rt) ONE) as [[-> _]|[-> _]]; [nia|done|..].
  - apply rnd_pos_nonneg; nia.
  - by apply Z.pow_nonneg.
Qed.

Lemma gain_mono rt e e' :
  0 ≤ rt → 0 ≤ e → e ≤ e' → e' < 2 ^ 63 → gain rt e ≤ gain rt e'.
Proof.
  intros Hr He Hee He'. unfold gain. rewrite !Seconds_eq by lia. cbn [f64_mul].
  pose proof (seconds_units_bound e ltac:(lia)) as Hb.
  pose proof (seconds_units_bound e' ltac:(lia)) as Hb'.
  pose proof (seconds_units_mono e e' He Hee) as Hm. pose proof ONE_pos.
  assert (rnd_pos (seconds_units e * rt) ONE ≤ rnd_pos (seconds_units e' * rt) ONE)
    by (apply rnd_pos_mono; [nia|done|done|]; apply Z.mul_le_mono_nonneg_r; nia).
  destruct (rnd_nonneg_cases (seconds_units e * rt) ONE) as [[-> ?]|[-> ?]]; [nia|done|..];
    destruct (rnd_nonneg_cases (seconds_units e' * rt) ONE) as [[-> ?]|[-> ?]];
    try done; try nia; lia.
Qed.

(** Adding the gain and capping, in units. *)
Lemma fmin_add b rt z e :
  repr b → b < f64_top → 0 ≤ rt → repr z → z ≤ b → 0 ≤ e < 2 ^ 63 →
  fmin (Fin b) (f64_add (Fin z) (f64_mul (Seconds e) (Fin rt))) = Fin (capped b (z + gain rt e)).
Proof.
  intros Hb Hbt Hr Hz Hzb He. pose proof (gain_nonneg rt e Hr He) as Hg.
  pose proof (repr_nonneg z Hz). unfold gain in *. rewrite Seconds_eq in * by done.
  cbn [f64_mul] in *. pose proof (seconds_units_bound e He). pose proof ONE_pos.
  destruct (rnd_nonneg_cases (seconds_units e * rt) ONE) as [[E ?]|[E ?]]; [nia|done|..];
    rewrite E in *.
  - cbn [f64_add]. set (g := rnd_pos (seconds_units e * rt) ONE) in *.
    destruct (rnd_nonneg_cases (z + g) 1) as [[-> ?]|[-> ?]]; [lia|done|..];
      unfold fmin, capped; simpl.
    + destruct (Z.ltb_spec b (rnd_pos (z + g) 1)); f_equal; lia.
    + f_equal. lia.
  - unfold fmin, capped. simpl. f_equal.
    assert (f64_top ≤ rnd_pos (z + f64_top) 1); [|lia].
    apply rnd_pos_ge; [done| |lia]. exists 1, 2098. unfold f64_top. lia.
Qed.

Lemma capped_repr b z : repr b → 0 ≤ z → repr (capped b z) ∧ capped b z ≤ b.
Proof.
  intros Hb Hz. unfold capped. split; [|lia].
  destruct (Z.min_spec b (rnd_pos z 1)) as [[_ ->]|[_ ->]]; [done|]. by apply rnd_pos_repr.
Qed.

Lemma level_repr b rt now r key :
  limits b rt r → instant now → bucket b now r key →
  repr (level b rt now r key) ∧ level b rt now r key ≤ b.
Proof.
  intros (_ & _ & Hb & _ & Hr) Hn Hk. unfold level, bucket in *.
  destruct (lastSeen r !! key) as [last|]; [|done].
  destruct (tokens r !! key) as [[| |z]|]; try done. destruct Hk as (Hz & Hzb & Hl).
  apply capped_repr; [done|]. unfold instant in Hn. pose proof (repr_nonneg z Hz).
  pose proof (gain_nonneg rt (now - last) Hr ltac:(lia)). lia.
Qed.

(** [refill] puts exactly the level in the bucket and records the time. *)
Lemma refill_spec b rt now r key :
  limits b rt r → instant now → bucket b now r key →
  refill now key r =
    {| tokens := <[key := Fin (level b rt now r key)]> (tokens r);
       lastSeen := <[key := now]> (lastSeen r); rate := rate r; burst := burst r |}.
Proof.
  intros (Hb & Hr & Hrb & Hbt & Hr0) Hn Hk. unfold refill, level, bucket in *.
  destruct (lastSeen r !! key) as [last|] eqn:El; [|by rewrite Hb].
  destruct (tokens r !! key) as [[| |z]|] eqn:Et; try done. destruct Hk as (Hz & Hzb & Hl).
  assert (tokens_at r key = Fin z) as -> by (unfold tokens_at, map_get; by rewrite Et).
  unfold instant in Hn. cbv zeta.
  rewrite time_Sub_small by (unfold in_int64, int64_min, int64_max; lia).
  rewrite Hb, Hr, fmin_add by (done || lia). done.
Qed.

(** Taking one token, rounded. *)
Lemma take_one z :
  repr z → z < f64_top → ONE ≤ z →
  f64_sub (Fin z) one = Fin (rnd_pos (z - ONE) 1) ∧ repr (rnd_pos (z - ONE) 1) ∧
  rnd_pos (z - ONE) 1 ≤ z.
Proof.
  intros Hz Ht H1. pose proof ONE_pos. cbn [f64_sub f64_opp f64_add one].
  change (z + - ONE) with (z - ONE).
  rewrite (rnd_small _ 1 z) by (done || lia). split; [done|].
  split; [apply rnd_pos_repr; lia|apply rnd_pos_le; done || lia].
Qed.
Lemma take_one_exact z : repr z → ONE ≤ z → z ≤ 2 ^ 53 * ONE → rnd_pos (z - ONE) 1 = z - ONE.
Proof. intros. apply rnd_pos_id. by apply repr_sub_one. Qed.

(** One request: granted exactly when the level is at least one token. *)
Lemma Allow_spec b rt now r key :
  limits b rt r → instant now → bucket b now r key →
  let z := level b rt now r key in
  Allow now key r =
    ({| tokens := <[key := Fin (if ONE <=? z then rnd_pos (z - ONE) 1 else z)]> (tokens r);
        lastSeen := <[key := now]> (lastSeen r); rate := rate r; burst := burst r |},
     ONE <=? z).
Proof.
  intros HL Hn Hk z. destruct (level_repr b rt now r key HL Hn Hk) as [Hz Hzb]. fold z in Hz, Hzb.
  unfold Allow. rewrite (refill_spec b rt) by done. fold z. cbv zeta.
  unfold tokens_at. cbn [tokens lastSeen rate burst]. rewrite map_get_insert_eq.
  assert (f64_leb one (Fin z) = (ONE <=? z)) as ->.
  { unfold f64_leb, one. cbn [f64_ltb f64_eqb].
    destruct (Z.ltb_spec ONE z), (Z.eqb_spec ONE z), (Z.leb_spec ONE z); done || lia. }
  destruct (Z.leb_spec ONE z); [|done]. destruct HL as (_ & _ & _ & Hbt & _).
  destruct (take_one z Hz ltac:(lia) ltac:(done)) as [-> _].
  by rewrite insert_insert_eq.
Qed.

Lemma Allow_limits b rt now r key :
  limits b rt r → instant now → bucket b now r key → limits b rt (Allow now key r).1.
Proof. intros HL Hn Hk. by rewrite (Allow_spec b rt) by done. Qed.

(** ** Properties *)

(** Every bucket always holds between zero and [burst] tokens, in [float64]
    arithmetic with its rounding: a request for any key at a later instant keeps
    every key's bucket within bounds, and leaves the other keys' buckets as they
    were. *)
Theorem Allow_keeps_buckets_bounded b rt now now' r key k :
  limits b rt r → instant now' → now ≤ now' →
  bucket b now r key → bucket b now r k →
  let r' := (Allow now' key r).1 in
  limits b rt r' ∧ bucket b now' r' k ∧
  (k ≠ key → tokens r' !! k = tokens r !! k ∧ lastSeen r' !! k = lastSeen r !! k).
Proof.
  intros HL Hn Hnn Hk Hk' r'.
  assert (∀ q, bucket b now r q → bucket b now' r q) as Hmono.
  { unfold bucket. intros q Hq. repeat case_match; try done. destruct Hq as (? & ? & ?).
    split_and!; done || lia. }
  split; [by apply Allow_limits; auto|].
  unfold r'. rewrite (Allow_spec b rt) by auto. cbn [fst].
  destruct (decide (k = key)) as [->|Hne].
  - split; [|done]. unfold bucket. cbn [tokens lastSeen]. rewrite !lookup_insert_eq.
    destruct (level_repr b rt now' r key HL Hn (Hmono _ Hk)) as [Hz Hzb].
    destruct (Z.leb_spec ONE (level b rt now' r key)) as [H1|].
    + destruct HL as (_ & _ & _ & Hbt & _).
      destruct (take_one _ Hz ltac:(lia) H1) as (_ & ? & ?).
      unfold instant in Hn. split_and!; done || lia.
    + unfold instant in Hn. split_and!; done || lia.
  - cbn [tokens lastSeen]. rewrite !lookup_insert_ne by done. split; [|done].
    pose proof (Hmono _ Hk') as H. unfold bucket in *. cbn [tokens lastSeen].
    by rewrite !lookup_insert_ne by done.
Qed.

(** A limiter as configured: [n] tokens per second, bursts of [m]. *)
Definition limiter (n m : Z) : t := New (f64_of_Z n) (f64_of_Z m).
Lemma limiter_limits n m :
  0 ≤ n ≤ 2 ^ 53 → 0 ≤ m ≤ 2 ^ 53 → limits (m * ONE) (n * ONE) (limiter n m).
Proof.
  intros Hn Hm. unfold limits, limiter, New. cbn [burst rate].
  rewrite !f64_of_Z_small by done. pose proof ONE_pos.
  assert (m * ONE ≤ 2 ^ 53 * ONE) by (apply Z.mul_le_mono_nonneg_r; lia).
  pose proof (top_of_pow 53 ltac:(lia)). split_and!; try done; try lia.
  by apply repr_mul_one.
Qed.
Lemma limiter_bucket n m now key : bucket (m * ONE) now (limiter n m) key.
Proof. unfold bucket, limiter. simpl. by rewrite !lookup_empty. Qed.

Lemma Allow_keeps_buckets_bounded_witness :
  let r' := (Allow 5 "p" (limiter 100 20)).1 in
  limits (20 * ONE) (100 * ONE) r' ∧ bucket (20 * ONE) 5 r' "p".
Proof.
  destruct (Allow_keeps_buckets_bounded (20 * ONE) (100 * ONE) 0 5 (limiter 100 20) "p" "p")
    as (H1 & H2 & _); [apply limiter_limits; lia|done|done|apply limiter_bucket..|]. by split.
Defined.

(** ** Sequences of requests for one key *)

Fixpoint serve (key : string) (nows : list Z) (r : t) : t * nat :=
  match nows with
  | [] => (r, 0%nat)
  | now :: nows' =>
      let '(r, ok) := Allow now key r in
      let '(r, n) := serve key nows' r in
      (r, ((if ok then 1 else 0) + n)%nat)
  end.

(** Instants in order, starting at [last]. *)
Fixpoint in_order (last : Z) (nows : list Z) : Prop :=
  match nows with
  | [] => True
  | now :: nows' => last ≤ now ∧ instant now ∧ in_order now nows'
  end.

(** Everything the clock puts back between the requests. *)
Fixpoint gains (rt last : Z) (nows : list Z) : Z :=
  match nows with
  | [] => 0
  | now :: nows' => gain rt (now - last) + gains rt now nows'
  end.

(** The bucket holds [z] units and was last touched at [last]. *)
Definition holds (z last : Z) (r : t) (key : string) : Prop :=
  lastSeen r !! key = Some last ∧ tokens r !! key = Some (Fin z).

Lemma holds_bucket b now z last r key :
  holds z last r key → repr z → z ≤ b → 0 ≤ last ≤ now → bucket b now r key.
Proof. intros [H1 H2] ???. unfold bucket. by rewrite H1, H2. Qed.
Lemma holds_level b rt now z last r key :
  holds z last r key → level b rt now r key = capped b (z + gain rt (now - last)).
Proof. intros [H1 H2]. unfold level. by rewrite H1, H2. Qed.

(** What a request leaves behind. *)
Lemma Allow_holds b rt now r key :
  limits b rt r → instant now → bucket b now r key →
  let z := level b rt now r key in
  holds (if ONE <=? z then rnd_pos (z - ONE) 1 else z) now (Allow now key r).1 key.
Proof.
  intros HL Hn Hk z. rewrite (Allow_spec b rt) by done. fold z.
  unfold holds. cbn [fst tokens lastSeen]. by rewrite !lookup_insert_eq.
Qed.

(** The cap can round up, by at most one part in 2^53 of the burst. *)
Lemma capped_error b z : 0 ≤ b → 0 ≤ z → 2 ^ 53 * capped b z ≤ 2 ^ 53 * z + b.
Proof. intros Hb Hz. unfold capped. pose proof (rnd_pos_error z Hz). lia. Qed.
Lemma capped_exact b z : repr z → z ≤ b → capped b z = z.
Proof. intros Hz Hb. unfold capped. rewrite rnd_pos_id by done. lia. Qed.

Lemma gain_zero rt : gain rt 0 = 0.
Proof. unfold gain. rewrite Seconds_eq by lia. by vm_compute. Qed.

Section one_key.
Context (b rt : Z) (key : string).
Hypothesis Hexact : b ≤ 2 ^ 53 * ONE.

(** One request spends a token or nothing, out of a level the gain bounds. *)
Lemma Allow_spends now last z r :
  limits b rt r → holds z last r key → repr z → z ≤ b → 0 ≤ last ≤ now → instant now →
  ∃ z' (ok : bool),
    (Allow now key r).2 = ok ∧ holds z' now (Allow now key r).1 key ∧
    limits b rt (Allow now key r).1 ∧ repr z' ∧ z' ≤ b ∧
    2 ^ 53 * (z' + if ok then ONE else 0) ≤ 2 ^ 53 * (z + gain rt (now - last)) + b.
Proof.
  intros HL Hh Hz Hzb Hl Hn. pose proof (holds_bucket b now z last r key Hh Hz Hzb Hl) as Hk.
  pose proof (Allow_holds b rt now r key HL Hn Hk) as Hh'. cbv zeta in Hh'.
  pose proof (Allow_limits b rt now r key HL Hn Hk) as HL'.
  destruct (level_repr b rt now r key HL Hn Hk) as [Hlr Hlb].
  assert (2 ^ 53 * level b rt now r key ≤ 2 ^ 53 * (z + gain rt (now - last)) + b) as Herr.
  { rewrite (holds_level b rt now z last) by done.
    destruct HL as (_ & _ & Hb & _ & Hr). unfold instant in Hn.
    pose proof (gain_nonneg rt (now - last) Hr ltac:(lia)).
    pose proof (repr_nonneg z Hz). pose proof (repr_nonneg b Hb). apply capped_error; lia. }
  set (l := level b rt now r key) in *.
  exists (if ONE <=? l then rnd_pos (l - ONE) 1 else l), (ONE <=? l).
  split; [by rewrite (Allow_spec b rt)|]. split; [done|]. split; [done|].
  destruct (Z.leb_spec ONE l) as [H1|]; [|split_and!; [done|done|lia]].
  rewrite take_one_exact by (done || lia).
  split_and!; [by apply repr_sub_one; [|done|lia]|pose proof ONE_pos; lia|lia].
Qed.

Lemma serve_bound nows last z r :
  limits b rt r → holds z last r key → repr z → z ≤ b → 0 ≤ last → in_order last nows →
  2 ^ 53 * (Z.of_nat (serve key nows r).2 * ONE) ≤
  2 ^ 53 * (z + gains rt last nows) + Z.of_nat (length nows) * b.
Proof.
  revert last z r. induction nows as [|now nows IH]; intros last z r HL Hh Hz Hzb Hl Ho.
  - simpl. pose proof (repr_nonneg z Hz). lia.
  - destruct Ho as (Hle & Hn & Ho).
    destruct (Allow_spends now last z r HL Hh Hz Hzb ltac:(lia) Hn)
      as (z' & ok & Hok & Hh' & HL' & Hz' & Hzb' & Hs).
    cbn [serve gains length]. destruct (Allow now key r) as [r' ok']. simpl in *. subst ok'.
    specialize (IH now z' r' HL' Hh' Hz' Hzb' ltac:(lia) Ho).
    destruct (serve key nows r') as [r'' n]. simpl in *.
    destruct ok; lia.
Qed.
End one_key.

(** C32: A rate limit really limits, where the rate and the burst are whole numbers of
    tokens up to 2^53.  Over any sequence of requests for a key that starts with a
    full bucket, the number granted, times one token, is at most
    the burst plus everything the clock refilled, up to a rounding slack of one
    part in 2^53 of the burst per request. *)
Theorem granted_at_most_burst_plus_refill n m key now nows :
  0 ≤ n ≤ 2 ^ 53 → 0 ≤ m ≤ 2 ^ 53 → instant now → in_order now nows →
  let granted := (serve key (now :: nows) (limiter n m)).2 in
  2 ^ 53 * (Z.of_nat granted * ONE) ≤
  2 ^ 53 * (m * ONE + gains (n * ONE) now nows) + Z.of_nat (length nows) * (m * ONE).
Proof.
  intros Hn Hm Hnow Ho. pose proof (limiter_limits n m Hn Hm) as HL. pose proof ONE_pos as H1.
  assert (m * ONE ≤ 2 ^ 53 * ONE) as Hex by (apply Z.mul_le_mono_nonneg_r; lia).
  pose proof (limiter_bucket n m now key) as Hk. set (b := m * ONE) in *.
  cbn [serve]. pose proof (Allow_holds b _ now _ key HL Hnow Hk) as Hh. cbv zeta in Hh.
  pose proof (Allow_limits b _ now _ key HL Hnow Hk) as HL'.
  assert (level b (n * ONE) now (limiter n m) key = b) as El by done. rewrite El in Hh.
  pose proof (Allow_spec b _ now _ key HL Hnow Hk) as Hs. cbv zeta in Hs. rewrite El in Hs.
  apply (f_equal snd) in Hs. simpl snd in Hs at 2.
  destruct (Allow now key (limiter n m)) as [r ok]. simpl in Hs, Hh, HL'. subst ok.
  destruct HL as (_ & _ & Hb & _ & _). pose proof (repr_nonneg b Hb).
  destruct (Z.leb_spec ONE b) as [Hob|Hob].
  - rewrite take_one_exact in Hh by (done || lia).
    pose proof (serve_bound b (n * ONE) key Hex nows now (b - ONE) r HL' Hh
      (repr_sub_one b Hb Hob ltac:(lia)) ltac:(lia) ltac:(unfold instant in *; lia) Ho) as Hbd.
    destruct (serve key nows r) as [r' k]. simpl in *. lia.
  - pose proof (serve_bound b (n * ONE) key Hex nows now b r HL' Hh Hb ltac:(lia)
      ltac:(unfold instant in *; lia) Ho) as Hbd.
    destruct (serve key nows r) as [r' k]. simpl in *. lia.
Qed.

Lemma granted_at_most_burst_plus_refill_witness :
  let nows := [2000000000; 2500000000; 2500000000; 2500000001] in
  2 ^ 53 * (Z.of_nat (serve "p" (2000000000 :: nows) (limiter 2 3)).2 * ONE) ≤
  2 ^ 53 * (3 * ONE + gains (2 * ONE) 2000000000 nows) + 4 * (3 * ONE).
Proof.
  apply (granted_at_most_burst_plus_refill 2 3 "p" 2000000000
    [2000000000; 2500000000; 2500000000; 2500000001]);
    unfold instant; simpl; unfold instant; lia.
Defined.

(** ** Requests in one instant *)

Lemma serve_instant b rt key now k z r :
  b ≤ 2 ^ 53 * ONE → limits b rt r → holds z now r key → repr z → z ≤ b → instant now →
  Z.of_nat (serve key (replicate k now) r).2 = Z.min (Z.of_nat k) (z / ONE).
Proof.
  intros Hex. pose proof ONE_pos as H1. revert z r.
  induction k as [|k IH]; intros z r HL Hh Hz Hzb Hn; simpl replicate.
  - simpl. pose proof (Z.div_pos z ONE (repr_nonneg z Hz) H1). lia.
  - assert (bucket b now r key) as Hk.
    { unfold instant in Hn. eapply holds_bucket; eauto. lia. }
    pose proof (Allow_holds b rt now r key HL Hn Hk) as Hh'. cbv zeta in Hh'.
    pose proof (Allow_limits b rt now r key HL Hn Hk) as HL'.
    pose proof (Allow_spec b rt now r key HL Hn Hk) as Hs. cbv zeta in Hs.
    apply (f_equal snd) in Hs. simpl snd in Hs at 2.
    rewrite (holds_level b rt now z now) in * by done.
    rewrite Z.sub_diag, gain_zero, Z.add_0_r, capped_exact in * by done.
    cbn [serve]. destruct (Allow now key r) as [r' ok]. simpl in Hs, Hh', HL'. subst ok.
    destruct (Z.leb_spec ONE z) as [Hoz|Hoz].
    + rewrite take_one_exact in Hh' by (done || lia).
      specialize (IH (z - ONE) r' HL' Hh' (repr_sub_one z Hz Hoz ltac:(lia)) ltac:(lia) Hn).
      destruct (serve key (replicate k now) r') as [r'' g]. simpl in *.
      assert ((z - ONE) / ONE = z / ONE - 1) as Hd.
      { replace z with ((z - ONE) + 1 * ONE) at 2 by lia. rewrite Z.div_add by lia. lia. }
      rewrite Hd in IH. lia.
    + specialize (IH z r' HL' Hh' Hz Hzb Hn).
      destruct (serve key (replicate k now) r') as [r'' g]. simpl in *.
      rewrite (Z.div_small z ONE) in * by (pose proof (repr_nonneg z Hz); lia). lia.
Qed.

(** In a single instant a full bucket of [m] tokens grants exactly [m] of any
    larger number of requests, and all of a smaller number: float rounding never
    costs or creates a token. *)
Theorem burst_is_exact n m key now k :
  0 ≤ n ≤ 2 ^ 53 → 0 ≤ m ≤ 2 ^ 53 → instant now →
  Z.of_nat (serve key (replicate k now) (limiter n m)).2 = Z.min (Z.of_nat k) m.
Proof.
  intros Hn Hm Hnow. destruct k as [|k]; [simpl; lia|]. simpl replicate.
  pose proof (limiter_limits n m Hn Hm) as HL. pose proof ONE_pos as H1.
  assert (m * ONE ≤ 2 ^ 53 * ONE) as Hex by (apply Z.mul_le_mono_nonneg_r; lia).
  pose proof (limiter_bucket n m now key) as Hk.
  pose proof (Allow_holds _ _ now _ key HL Hnow Hk) as Hh. cbv zeta in Hh.
  pose proof (Allow_limits _ _ now _ key HL Hnow Hk) as HL'.
  assert (level (m * ONE) (n * ONE) now (limiter n m) key = m * ONE) as El by done.
  rewrite El in Hh.
  pose proof (Allow_spec _ _ now _ key HL Hnow Hk) as Hs. cbv zeta in Hs. rewrite El in Hs.
  apply (f_equal snd) in Hs. simpl snd in Hs at 2.
  cbn [serve]. destruct (Allow now key (limiter n m)) as [r ok]. simpl in Hs, Hh, HL'. subst ok.
  destruct HL as (_ & _ & Hb & _ & _).
  destruct (Z.leb_spec ONE (m * ONE)) as [Hob|Hob].
  - rewrite take_one_exact in Hh by (done || lia).
    pose proof (serve_instant _ _ key now k (m * ONE - ONE) r Hex HL' Hh
      (repr_sub_one _ Hb Hob ltac:(lia)) ltac:(lia) Hnow) as Hserve.
    destruct (serve key (replicate k now) r) as [r' g]. simpl in *.
    replace (m * ONE - ONE) with ((m - 1) * ONE) in Hserve by lia.
    rewrite Z.div_mul in Hserve by lia. lia.
  - assert (m = 0) as -> by nia.
    pose proof (serve_instant _ _ key now k (0 * ONE) r Hex HL' Hh Hb ltac:(lia) Hnow) as Hserve.
    destruct (serve key (replicate k now) r) as [r' g]. simpl in *.
    rewrite Z.div_0_l in Hserve by lia. lia.
Qed.

Lemma burst_is_exact_witness :
  Z.of_nat (serve "p" (replicate 7 1000) (limiter 1000 5)).2 = 5.
Proof. exact (burst_is_exact 1000 5 "p" 1000 7 ltac:(lia) ltac:(lia) ltac:(done)). Defined.

(** ** Idle eviction *)

Lemma EvictIdle_lastSeen te idle r k :
  lastSeen (EvictIdle te idle r) !! k =
  match lastSeen r !! k with
  | Some last => if decide (last < te - idle) then None else Some last
  | None => None
  end.
Proof.
  unfold EvictIdle. cbn [lastSeen]. rewrite map_lookup_filter.
  destruct (lastSeen r !! k) as [last|]; [|done]. cbn [mbind option_bind].
  case_guard as H; case_decide; simpl in *; done || lia.
Qed.
Lemma EvictIdle_tokens te idle r k :
  tokens (EvictIdle te idle r) !! k =
  match lastSeen r !! k with
  | Some last => if decide (last < te - idle) then None else tokens r !! k
  | None => tokens r !! k
  end.
Proof.
  unfold EvictIdle. cbn [tokens]. rewrite map_lookup_filter.
  destruct (tokens r !! k) as [x|]; cbn [mbind option_bind].
  - case_guard as H; simpl; revert H; simpl; rewrite map_lookup_filter;
      destruct (lastSeen r !! k) as [last|]; simpl; try done;
      case_guard; case_decide; simpl in *; done || lia.
  - destruct (lastSeen r !! k); [by case_decide|done].
Qed.

Lemma EvictIdle_bucket b te idle now r k :
  bucket b now r k → bucket b now (EvictIdle te idle r) k.
Proof.
  unfold bucket. rewrite EvictIdle_lastSeen, EvictIdle_tokens.
  destruct (lastSeen r !! k) as [last|]; [|done]. by case_decide.
Qed.
Lemma EvictIdle_limits b rt te idle r : limits b rt r → limits b rt (EvictIdle te idle r).
Proof. done. Qed.

Lemma full_after b rt e z :
  repr b → 0 ≤ rt → 0 ≤ z → b ≤ gain rt e → capped b (z + gain rt e) = b.
Proof.
  intros Hb Hr Hz Hg. unfold capped.
  assert (b ≤ rnd_pos (z + gain rt e) 1) by (apply rnd_pos_ge; done || lia). lia.
Qed.

(** C34: Sweeping idle tenants is invisible as long as a full bucket refills within
    the idle limit: every later request of every key is answered the same, and
    leaves the same bucket, whether or not the sweep ran. *)
Theorem eviction_is_invisible b rt te idle now r key :
  limits b rt r → instant now → te ≤ now → 0 ≤ idle → b ≤ gain rt idle →
  bucket b te r key →
  (Allow now key (EvictIdle te idle r)).2 = (Allow now key r).2 ∧
  tokens (Allow now key (EvictIdle te idle r)).1 !! key = tokens (Allow now key r).1 !! key ∧
  lastSeen (Allow now key (EvictIdle te idle r)).1 !! key = lastSeen (Allow now key r).1 !! key.
Proof.
  intros HL Hn Hle Hi Hg Hk. assert (bucket b now r key) as Hk'.
  { unfold bucket in *. repeat case_match; try done. destruct Hk as (? & ? & ?).
    split_and!; done || lia. }
  rewrite (Allow_spec b rt now (EvictIdle te idle r) key), (Allow_spec b rt now r key)
    by auto using EvictIdle_bucket.
  assert (level b rt now (EvictIdle te idle r) key = level b rt now r key) as ->.
  { unfold level. rewrite EvictIdle_lastSeen, EvictIdle_tokens. unfold bucket in Hk.
    destruct (lastSeen r !! key) as [last|] eqn:El; [|done].
    destruct (decide (last < te - idle)) as [Hold|]; [|done].
    destruct (tokens r !! key) as [[| |z]|]; try done. destruct Hk as (Hz & _ & Hl).
    destruct HL as (_ & _ & Hb & _ & Hr). unfold instant in Hn. symmetry.
    apply full_after; [done|done|by apply repr_nonneg|].
    etransitivity; [exact Hg|]. apply gain_mono; lia. }
  cbn [fst snd tokens lastSeen]. by rewrite !lookup_insert_eq.
Qed.

(** The sweep of the server, 30 minutes, on a tenant limit of 50 per second. *)
Lemma eviction_is_invisible_witness :
  let r := (Allow 1000 "p:t" (limiter 50 100)).1 in
  (Allow (31 * Minute) "p:t" (EvictIdle (31 * Minute) (30 * Minute) r)).2 =
  (Allow (31 * Minute) "p:t" r).2.
Proof.
  intros r.
  assert (bucket (100 * ONE) 1000 (limiter 50 100) "p:t") as H0 by apply limiter_bucket.
  pose proof (limiter_limits 50 100 ltac:(lia) ltac:(lia)) as HL.
  refine (proj1 (eviction_is_invisible (100 * ONE) (50 * ONE) (31 * Minute) (30 * Minute)
    (31 * Minute) r "p:t" _ _ _ _ _ _)).
  - apply Allow_limits; done.
  - done.
  - lia.
  - by vm_compute.
  - by vm_compute.
  - unfold r. rewrite (Allow_spec (100 * ONE) (50 * ONE)) by done.
    unfold bucket. cbn [fst tokens lastSeen]. rewrite !lookup_insert_eq.
    match goal with |- repr ?z ∧ _ => replace z with (99 * ONE) by (by vm_compute) end.
    split_and!; [apply repr_mul_one; lia|by vm_compute..].
Defined.
