(* ===== verification/Config.v ===== *)
(** [internal/config]: protection limits from built-in defaults, an optional YAML
    file and the environment. *)

From S2P Require Import Prelude GoStrings Float64.

Record Limits := {
  RatePerSec : f64;
  RateBurst : f64;
  TenantRatePerSec : f64;
  TenantRateBurst : f64;
  BulkheadMax : Z;
  CBThreshold : Z;
  CBResetTimeout : Z;
  RequestTimeout : Z
}.

Record Config := {
  Default : Limits;
  Plugins : gmap string Limits;
  HealthInterval : Z
}.

Definition zero_limits : Limits := {|
  RatePerSec := Fin 0; RateBurst := Fin 0; TenantRatePerSec := Fin 0;
  TenantRateBurst := Fin 0; BulkheadMax := 0; CBThreshold := 0; CBResetTimeout := 0;
  RequestTimeout := 0 |}.

Definition Defaults : Config := {|
  Default := {|
    RatePerSec := f64_of_Z 1000; RateBurst := f64_of_Z 1000;
    TenantRatePerSec := Fin 0; TenantRateBurst := Fin 0;
    BulkheadMax := 100; CBThreshold := 5;
    CBResetTimeout := 30 * Second; RequestTimeout := 30 * Second |};
  Plugins := ∅;
  HealthInterval := 30 * Second |}.

(** [if x == 0 { x = def }] *)
Definition or_float (x def : f64) : f64 := if f64_eqb x (Fin 0) then def else x.
Definition or_int (x def : Z) : Z := if x =? 0 then def else x.

Definition withDefaults (l def : Limits) : Limits := {|
  RatePerSec := or_float (RatePerSec l) (RatePerSec def);
  RateBurst := or_float (RateBurst l) (RateBurst def);
  TenantRatePerSec := or_float (TenantRatePerSec l) (TenantRatePerSec def);
  TenantRateBurst := or_float (TenantRateBurst l) (TenantRateBurst def);
  BulkheadMax := or_int (BulkheadMax l) (BulkheadMax def);
  CBThreshold := or_int (CBThreshold l) (CBThreshold def);
  CBResetTimeout := or_int (CBResetTimeout l) (CBResetTimeout def);
  RequestTimeout := or_int (RequestTimeout l) (RequestTimeout def) |}.

Definition For (c : Config) (pluginName : string) : Limits :=
  match Plugins c !! pluginName with
  | Some l => withDefaults l (Default c)
  | None => Default c
  end.

(** A YAML file without [plugins] gives the empty map, like a nil one. *)
Definition mergeFile (cfg file : Config) : Config := {|
  Default := withDefaults (Default file) (Default cfg);
  Plugins := Plugins file ∪ Plugins cfg;
  HealthInterval :=
    if 0 <? HealthInterval file then HealthInterval file else HealthInterval cfg |}.

Section environment.
(** The process environment and the two library parsers whose grammars the
    code does not look into: [strconv.ParseFloat(s, 64)], [time.ParseDuration]. *)
Context (Getenv : string → string).
Context (ParseFloat : string → option f64) (ParseDuration : string → option Z).
(** [os.ReadFile] and [yaml.Unmarshal] into a [Config]. *)
Context (ReadFile : string → option string) (Unmarshal : string → option Config).

Definition envFloat (k : string) : f64 := default (Fin 0) (ParseFloat (Getenv k)).
Definition envInt (k : string) : Z := default 0 (ParseInt (Getenv k)).
Definition envDuration (k : string) : Z := default 0 (ParseDuration (Getenv k)).

Definition pos_int (v old : Z) : Z := if 0 <? v then v else old.

Definition applyEnv (l : Limits) : Limits :=
  let v := envFloat "RATE_PER_SEC" in
  let set_rate := f64_ltb (Fin 0) v in {|
    RatePerSec := if set_rate then v else RatePerSec l;
    RateBurst := if set_rate && f64_ltb (RateBurst l) v then v else RateBurst l;
    TenantRatePerSec := TenantRatePerSec l;
    TenantRateBurst := TenantRateBurst l;
    BulkheadMax := pos_int (envInt "BULKHEAD_MAX") (BulkheadMax l);
    CBThreshold := pos_int (envInt "CB_THRESHOLD") (CBThreshold l);
    CBResetTimeout := pos_int (envDuration "CB_RESET_TIMEOUT") (CBResetTimeout l);
    RequestTimeout := pos_int (envDuration "REQUEST_TIMEOUT") (RequestTimeout l) |}.

(** The configuration, or [None] where [Load] returns an error. *)
Definition Load : option Config :=
  let path := Getenv "CONFIG_FILE" in
  cfg ← (if String.eqb path "" then Some Defaults
         else b ← ReadFile path; file ← Unmarshal b; Some (mergeFile Defaults file));
  Some {| Default := applyEnv (Default cfg);
          Plugins := Plugins cfg;
          HealthInterval := pos_int (envDuration "HEALTH_INTERVAL") (HealthInterval cfg) |}.

(** *** Which source a setting comes from *)

(** The configuration a named file holds. *)
Definition in_file (f : Config) : Prop :=
  Getenv "CONFIG_FILE" ≠ "" ∧ ∃ b, ReadFile (Getenv "CONFIG_FILE") = Some b ∧ Unmarshal b = Some f.

(** [v] is what the first source gives, else what the second gives, else [builtin]. *)
Definition first_given {A} (first second : A → Prop) (builtin v : A) : Prop :=
  (∀ x, first x → v = x) ∧
  ((∀ x, ¬ first x) → ∀ y, second y → v = y) ∧
  ((∀ x, ¬ first x) → (∀ y, ¬ second y) → v = builtin).
Definition nowhere {A} (_ : A) : Prop := False.
Lemma not_nowhere {A} (x : A) : ¬ nowhere x.
Proof. intros []. Qed.
#[local] Hint Resolve not_nowhere : core.

(** The environment gives positive values, the file non-zero ones. *)
Definition env_int (k : string) (x : Z) : Prop := ParseInt (Getenv k) = Some x ∧ 0 < x.
Definition env_duration (k : string) (x : Z) : Prop := ParseDuration (Getenv k) = Some x ∧ 0 < x.
Definition env_float (k : string) (x : f64) : Prop := ParseFloat (Getenv k) = Some x ∧ f64_ltb (Fin 0) x = true.
Definition file_int (field : Limits → Z) (x : Z) : Prop := ∃ f, in_file f ∧ field (Default f) = x ∧ x ≠ 0.
Definition file_float (field : Limits → f64) (x : f64) : Prop :=
  ∃ f, in_file f ∧ field (Default f) = x ∧ f64_eqb x (Fin 0) = false.
Definition file_interval (x : Z) : Prop := ∃ f, in_file f ∧ HealthInterval f = x ∧ 0 < x.

Lemma first_given_pos (parsed : option Z) (second : Z → Prop) builtin old :
  first_given nowhere second builtin old →
  first_given (λ x, parsed = Some x ∧ 0 < x) second builtin (pos_int (default 0 parsed) old).
Proof.
  intros (_ & H2 & H3). unfold pos_int. destruct parsed as [x|]; cbn [default from_option id].
  - destruct (Z.ltb_spec 0 x) as [Hx|Hx].
    + split_and!; [by intros ? [[= ->] _]|intros Hn; exfalso; by apply (Hn x)..].
    + split_and!; [intros ? [[= ->] ?]; lia|intros _; apply H2; auto|intros _; apply H3; auto].
  - split_and!; [by intros ? []|intros _; apply H2; auto|intros _; apply H3; auto].
Qed.

(** Whether a file is named decides which sources the second one is. *)
Lemma in_file_unique f f' : in_file f → in_file f' → f = f'.
Proof. intros (_ & b & H1 & H2) (_ & b' & H3 & H4). congruence. Qed.

Lemma first_given_file (field : Limits → Z) (def : Z) f :
  in_file f → first_given nowhere (file_int field) def (or_int (field (Default f)) def).
Proof.
  intros Hf. unfold or_int. split; [by intros ? []|]. destruct (Z.eqb_spec (field (Default f)) 0) as [E|E]; split; intros _.
  - intros y (f' & Hf' & Hy & Hne). by rewrite (in_file_unique f' f Hf' Hf) in Hy; subst.
  - done.
  - intros y (f' & Hf' & Hy & _). by rewrite (in_file_unique f' f Hf' Hf) in Hy.
  - intros Hn. destruct (Hn (field (Default f))). by exists f.
Qed.
Lemma first_given_file_float (field : Limits → f64) def f :
  in_file f → first_given nowhere (file_float field) def (or_float (field (Default f)) def).
Proof.
  intros Hf. unfold or_float. split; [by intros ? []|].
  destruct (f64_eqb (field (Default f)) (Fin 0)) eqn:E; split; intros _.
  - intros y (f' & Hf' & Hy & Hne). rewrite (in_file_unique f' f Hf' Hf) in Hy. subst. congruence.
  - done.
  - intros y (f' & Hf' & Hy & _). by rewrite (in_file_unique f' f Hf' Hf) in Hy.
  - intros Hn. destruct (Hn (field (Default f))). by exists f.
Qed.
Lemma first_given_nofile {A} (P : Config → A → Prop) def :
  Getenv "CONFIG_FILE" = "" → first_given nowhere (λ x, ∃ f, in_file f ∧ P f x) def def.
Proof. intros He. split_and!; [by intros ? []| |done]. intros _ y (f & [Hn _] & _). done. Qed.

(** What the defaults and the file leave for the environment to override. *)
Lemma loaded_cases c :
  Load = Some c → ∃ base,
    c = {| Default := applyEnv (Default base); Plugins := Plugins base;
           HealthInterval := pos_int (envDuration "HEALTH_INTERVAL") (HealthInterval base) |} ∧
    ((Getenv "CONFIG_FILE" = "" ∧ base = Defaults) ∨ ∃ f, in_file f ∧ base = mergeFile Defaults f).
Proof.
  unfold Load. destruct (String.eqb_spec (Getenv "CONFIG_FILE") "") as [E|E].
  - intros [= <-]. exists Defaults. split; [done|by left].
  - destruct (ReadFile (Getenv "CONFIG_FILE")) as [b|] eqn:Eb; cbn [mbind option_bind]; [|done].
    destruct (Unmarshal b) as [f|] eqn:Ef; cbn [mbind option_bind]; [|done]. intros [= <-].
    exists (mergeFile Defaults f). split; [done|]. right. exists f. split; [|done]. split; [done|]. by exists b.
Qed.

(** The defaults and the file, knob by knob. *)
Lemma base_int (field : Limits → Z) base :
  (∀ l def, field (withDefaults l def) = or_int (field l) (field def)) →
  ((Getenv "CONFIG_FILE" = "" ∧ base = Defaults) ∨ ∃ f, in_file f ∧ base = mergeFile Defaults f) →
  first_given nowhere (file_int field) (field (Default Defaults)) (field (Default base)).
Proof.
  intros Hw [[He ->]|(f & Hf & ->)]; [by apply first_given_nofile|]. unfold mergeFile. cbn [Default].
  rewrite Hw. by apply first_given_file.
Qed.
Lemma base_float (field : Limits → f64) base :
  (∀ l def, field (withDefaults l def) = or_float (field l) (field def)) →
  ((Getenv "CONFIG_FILE" = "" ∧ base = Defaults) ∨ ∃ f, in_file f ∧ base = mergeFile Defaults f) →
  first_given nowhere (file_float field) (field (Default Defaults)) (field (Default base)).
Proof.
  intros Hw [[He ->]|(f & Hf & ->)]; [by apply first_given_nofile|]. unfold mergeFile. cbn [Default].
  rewrite Hw. by apply first_given_file_float.
Qed.
Lemma base_interval base :
  ((Getenv "CONFIG_FILE" = "" ∧ base = Defaults) ∨ ∃ f, in_file f ∧ base = mergeFile Defaults f) →
  first_given nowhere file_interval (30 * Second) (HealthInterval base).
Proof.
  intros [[He ->]|(f & Hf & ->)]; [by apply first_given_nofile|]. unfold mergeFile. cbn [HealthInterval].
  split; [by intros ? []|]. destruct (Z.ltb_spec 0 (HealthInterval f)) as [Hp|Hp]; split; intros _.
  - intros y (f' & Hf' & Hy & _). by rewrite (in_file_unique f' f Hf' Hf) in Hy.
  - intros Hn. destruct (Hn (HealthInterval f)). by exists f.
  - intros y (f' & Hf' & Hy & ?). rewrite (in_file_unique f' f Hf' Hf) in Hy. lia.
  - done.
Qed.

(** The rate of the environment, and the burst it raises. *)
Lemma env_rate l (second : f64 → Prop) builtin :
  first_given nowhere second builtin (RatePerSec l) →
  first_given (env_float "RATE_PER_SEC") second builtin (RatePerSec (applyEnv l)).
Proof.
  intros (_ & H2 & H3). unfold env_float, applyEnv, envFloat. cbn [RatePerSec].
  destruct (ParseFloat (Getenv "RATE_PER_SEC")) as [v|]; cbn [default from_option id].
  - destruct (f64_ltb (Fin 0) v) eqn:E; split_and!.
    + by intros ? [[= ->] _].
    + intros Hn. exfalso. by apply (Hn v).
    + intros Hn. exfalso. by apply (Hn v).
    + intros ? [[= ->] ?]. congruence.
    + intros _. apply H2. auto.
    + intros _. apply H3. auto.
  - split_and!; [by intros ? []|intros _; apply H2; auto|intros _; apply H3; auto].
Qed.
Lemma env_burst l :
  first_given (λ v, env_float "RATE_PER_SEC" v ∧ f64_ltb (RateBurst l) v = true) nowhere (RateBurst l)
    (RateBurst (applyEnv l)).
Proof.
  unfold env_float, applyEnv, envFloat. cbn [RateBurst].
  destruct (ParseFloat (Getenv "RATE_PER_SEC")) as [v|]; cbn [default from_option id].
  - destruct (f64_ltb (Fin 0) v) eqn:E; [destruct (f64_ltb (RateBurst l) v) eqn:E'|]; cbn [andb].
    + split_and!; [by intros ? [[[= ->] _] _]|by intros _ ? []|]. intros Hn. exfalso. by apply (Hn v).
    + split_and!; [intros ? [[[= ->] _] ?]; congruence|by intros _ ? []|done].
    + split_and!; [intros ? [[[= ->] ?] _]; congruence|by intros _ ? []|done].
  - by split_and!; [intros ? [[? _] _]|intros _ ? []|].
Qed.

(** A plugin's own settings, over the global ones. *)
Definition own_int (c : Config) (p : string) (field : Limits → Z) (x : Z) : Prop :=
  ∃ l, Plugins c !! p = Some l ∧ field l = x ∧ x ≠ 0.
Definition own_float (c : Config) (p : string) (field : Limits → f64) (x : f64) : Prop :=
  ∃ l, Plugins c !! p = Some l ∧ field l = x ∧ f64_eqb x (Fin 0) = false.

Lemma For_int (field : Limits → Z) c p :
  (∀ l def, field (withDefaults l def) = or_int (field l) (field def)) →
  first_given (own_int c p field) nowhere (field (Default c)) (field (For c p)).
Proof.
  intros Hw. unfold For, own_int. destruct (Plugins c !! p) as [l|]; [rewrite Hw; unfold or_int|].
  - destruct (Z.eqb_spec (field l) 0) as [E|E]; split_and!.
    + intros x (l' & [= <-] & <- & ?). done.
    + by intros _ y [].
    + done.
    + by intros x (l' & [= <-] & <- & _).
    + by intros _ y [].
    + intros Hn. destruct (Hn (field l)). by exists l.
  - by split_and!; [intros x (l & ? & _)|intros _ y []|].
Qed.
Lemma For_float (field : Limits → f64) c p :
  (∀ l def, field (withDefaults l def) = or_float (field l) (field def)) →
  first_given (own_float c p field) nowhere (field (Default c)) (field (For c p)).
Proof.
  intros Hw. unfold For, own_float. destruct (Plugins c !! p) as [l|]; [rewrite Hw; unfold or_float|].
  - destruct (f64_eqb (field l) (Fin 0)) eqn:E; split_and!.
    + intros x (l' & [= <-] & <- & ?). congruence.
    + by intros _ y [].
    + done.
    + by intros x (l' & [= <-] & <- & _).
    + by intros _ y [].
    + intros Hn. destruct (Hn (field l)). by exists l.
  - by split_and!; [intros x (l & ? & _)|intros _ y []|].
Qed.

(** The knobs of every kind. *)
Definition durations : list ((Limits → Z) * string * Z) :=
  [(CBResetTimeout, "CB_RESET_TIMEOUT", 30 * Second); (RequestTimeout, "REQUEST_TIMEOUT", 30 * Second)].
Definition counts : list ((Limits → Z) * string * Z) :=
  [(BulkheadMax, "BULKHEAD_MAX", 100); (CBThreshold, "CB_THRESHOLD", 5)].
Definition tenant_rates : list (Limits → f64) := [TenantRatePerSec; TenantRateBurst].
Definition rates : list (Limits → f64) := RatePerSec :: RateBurst :: tenant_rates.

(** C40: Every setting comes from the first source that gives it.  Counts and durations:
    a positive environment variable, else a non-zero value of the file (positive, for
    the health interval), else the built-in value.  The rate likewise; a rate from
    the environment also raises a lower burst to itself; the burst and the tenant
    rates come from the file or are built in.  A plugin's own non-zero settings, which are
    exactly the file's, come before the global ones.  Loading fails exactly when
    a named file cannot be read or parsed. *)
Theorem Load_precedence :
  (Load = None ↔ Getenv "CONFIG_FILE" ≠ "" ∧
     (ReadFile (Getenv "CONFIG_FILE") ≫= Unmarshal) = None) ∧
  ∀ c, Load = Some c →
  (∀ field k builtin, (field, k, builtin) ∈ counts →
     first_given (env_int k) (file_int field) builtin (field (Default c))) ∧
  (∀ field k builtin, (field, k, builtin) ∈ durations →
     first_given (env_duration k) (file_int field) builtin (field (Default c))) ∧
  first_given (env_duration "HEALTH_INTERVAL") file_interval (30 * Second) (HealthInterval c) ∧
  first_given (env_float "RATE_PER_SEC") (file_float RatePerSec) (f64_of_Z 1000) (RatePerSec (Default c)) ∧
  (∃ burst, first_given nowhere (file_float RateBurst) (f64_of_Z 1000) burst ∧
     first_given (λ v, env_float "RATE_PER_SEC" v ∧ f64_ltb burst v = true) nowhere burst (RateBurst (Default c))) ∧
  (∀ field, field ∈ tenant_rates → first_given nowhere (file_float field) (Fin 0) (field (Default c))) ∧
  (∀ p l, Plugins c !! p = Some l ↔ ∃ f, in_file f ∧ Plugins f !! p = Some l) ∧
  ∀ p, (∀ field k builtin, (field, k, builtin) ∈ app counts durations →
          first_given (own_int c p field) nowhere (field (Default c)) (field (For c p))) ∧
       (∀ field, field ∈ rates → first_given (own_float c p field) nowhere (field (Default c)) (field (For c p))).
Proof.
  split; [|intros c (base & -> & Hb)%loaded_cases; cbn [Default Plugins HealthInterval]; split_and!].
  - unfold Load. destruct (String.eqb_spec (Getenv "CONFIG_FILE") "") as [E|E]; cbn [mbind option_bind]; [naive_solver|].
    destruct (ReadFile _) as [b|]; cbn [mbind option_bind]; [|naive_solver].
    destruct (Unmarshal b); cbn [mbind option_bind]; naive_solver.
  - intros field k builtin [[= -> -> ->]|[[= -> -> ->]|[]%elem_of_nil]%elem_of_cons]%elem_of_cons;
      apply first_given_pos; by apply base_int.
  - intros field k builtin [[= -> -> ->]|[[= -> -> ->]|[]%elem_of_nil]%elem_of_cons]%elem_of_cons;
      apply first_given_pos; by apply base_int.
  - apply first_given_pos. by apply base_interval.
  - apply env_rate. by apply (base_float RatePerSec).
  - exists (RateBurst (Default base)). split; [by apply (base_float RateBurst)|]. apply env_burst.
  - intros field [->|[->|[]%elem_of_nil]%elem_of_cons]%elem_of_cons; by apply base_float.
  - intros p l. destruct Hb as [[He ->]|(f & Hf & ->)]; cbn [mergeFile Plugins Defaults].
    + split; [done|]. by intros (f & [Hn _] & _).
    + rewrite (map_union_empty (Plugins f)). split; [by exists f|].
      intros (f' & Hf' & Hl). by rewrite (in_file_unique f' f Hf' Hf) in Hl.
  - intros p. split; [intros field k builtin|intros field].
    all: unfold counts, durations, rates, tenant_rates; cbn [app]; rewrite !elem_of_cons, elem_of_nil; intros Hf; apply For_int || apply For_float; naive_solver.
Qed.

(** The interval of the health monitor, whose ticker panics on any other. *)
Lemma Load_HealthInterval_positive c : Load = Some c → 0 < HealthInterval c.
Proof.
  unfold Load. destruct (if String.eqb _ _ then _ else _) as [cfg|] eqn:E; [|done]. intros [= <-]. cbn.
  assert (0 < HealthInterval cfg) as Hc.
  { destruct (String.eqb _ _); [by injection E as <-|].
    destruct (ReadFile _) as [b|]; [|done]. cbn in E. destruct (Unmarshal b) as [f|]; [|done].
    injection E as <-. cbn. by destruct (Z.ltb_spec 0 (HealthInterval f)). }
  unfold pos_int. by destruct (Z.ltb_spec 0 (envDuration "HEALTH_INTERVAL")).
Qed.

(** A rate set in the environment never exceeds its burst: after [Load],
    if RATE_PER_SEC is positive the default rate is that value and the burst
    is at least as large. *)
Theorem Load_rate_within_burst c v :
  Load = Some c → envFloat "RATE_PER_SEC" = Fin v → 0 < v →
  RatePerSec (Default c) = Fin v ∧
  f64_ltb (RateBurst (Default c)) (Fin v) = false.
Proof.
  unfold Load. intros HL Hv Hpos. destruct (if String.eqb _ _ then _ else _) as [cfg|]; [|done].
  injection HL as <-. cbn. rewrite Hv. cbn [f64_ltb]. rewrite (proj2 (Z.ltb_lt 0 v) Hpos).
  split; [done|]. cbn [andb].
  destruct (f64_ltb (RateBurst (Default cfg)) (Fin v)) eqn:E; [|done].
  simpl. by rewrite Z.ltb_irrefl.
Qed.
End environment.

Lemma Load_precedence_witness :
  let getenv := λ k, if String.eqb k "BULKHEAD_MAX" then "7" else "" in
  ∃ c, Load getenv (λ _, None) (λ _, None) (λ _, None) (λ _, None) = Some c ∧
       BulkheadMax (Default c) = 7.
Proof.
  intros getenv. eexists. split; [reflexivity|].
  destruct (Load_precedence getenv (λ _, None) (λ _, None) (λ _, None) (λ _, None)) as [_ Hc].
  destruct (Hc _ eq_refl) as (Hcount & _). 
  by apply (proj1 (Hcount BulkheadMax "BULKHEAD_MAX" 100 ltac:(by left)) 7).
Defined.

Lemma Load_rate_within_burst_witness :
  let getenv := λ k, if String.eqb k "RATE_PER_SEC" then "2000" else "" in
  let parse := λ s, if String.eqb s "2000" then Some (Fin (2000 * ONE)) else None in
  ∃ c, Load getenv parse (λ _, None) (λ _, None) (λ _, None) = Some c ∧
       RatePerSec (Default c) = Fin (2000 * ONE).
Proof.
  intros getenv parse. eexists. split; [reflexivity|].
  apply (Load_rate_within_burst getenv parse (λ _, None) (λ _, None) (λ _, None) _
    (2000 * ONE) eq_refl); [reflexivity|by vm_compute].
Defined.

(** The limits of a plugin are its own non-zero settings, with the global
    default for each setting it leaves at zero; a plugin without an entry gets
    the default unchanged. *)
Theorem For_fieldwise c p :
  let own := default zero_limits (Plugins c !! p) in
  RatePerSec (For c p) = or_float (RatePerSec own) (RatePerSec (Default c)) ∧
  RateBurst (For c p) = or_float (RateBurst own) (RateBurst (Default c)) ∧
  TenantRatePerSec (For c p) = or_float (TenantRatePerSec own) (TenantRatePerSec (Default c)) ∧
  TenantRateBurst (For c p) = or_float (TenantRateBurst own) (TenantRateBurst (Default c)) ∧
  BulkheadMax (For c p) = or_int (BulkheadMax own) (BulkheadMax (Default c)) ∧
  CBThreshold (For c p) = or_int (CBThreshold own) (CBThreshold (Default c)) ∧
  CBResetTimeout (For c p) = or_int (CBResetTimeout own) (CBResetTimeout (Default c)) ∧
  RequestTimeout (For c p) = or_int (RequestTimeout own) (RequestTimeout (Default c)).
Proof. unfold For. by destruct (Plugins c !! p). Qed.

Lemma withDefaults_zero def : withDefaults zero_limits def = def.
Proof. by destruct def. Qed.
Lemma or_float_idem x d : or_float (or_float x d) d = or_float x d.
Proof. unfold or_float. destruct (f64_eqb x (Fin 0)) eqn:E; [by case_match|by rewrite E]. Qed.
Lemma or_int_idem x d : or_int (or_int x d) d = or_int x d.
Proof. unfold or_int. destruct (x =? 0) eqn:E; [by case_match|by rewrite E]. Qed.
Lemma withDefaults_idem l def : withDefaults (withDefaults l def) def = withDefaults l def.
Proof. unfold withDefaults. cbn. by rewrite !or_float_idem, !or_int_idem. Qed.
