(* ===== verification/Auth.v ===== *)
(** [internal/auth]: resolving device tokens and custom domains through the
    Identity plugin, behind a 30-second cache. *)

From S2P Require Import Prelude GoStrings Crypto.

(** ** Results *)

Inductive error :=
| ErrInvalidToken | ErrMembershipRevoked | ErrUnavailable | ErrDomainNotFound.
#[export] Instance error_eq_dec : EqDecision error.
Proof. solve_decision. Defined.

Record Identity := {
  TenantID : string; TenantSlug : string; TenantName : string; SchemaName : string;
  BranchID : string; BranchSlug : string; BranchName : string;
  UserID : string; FullName : string; UserType : string;
  Roles : list string; Permissions : list string; Features : list string;
  TokenHash : string
}.

(** [id.TokenHash = h] *)
Definition with_TokenHash (h : string) (id : Identity) : Identity := {|
  TenantID := TenantID id; TenantSlug := TenantSlug id; TenantName := TenantName id;
  SchemaName := SchemaName id; BranchID := BranchID id; BranchSlug := BranchSlug id;
  BranchName := BranchName id; UserID := UserID id; FullName := FullName id;
  UserType := UserType id; Roles := Roles id; Permissions := Permissions id;
  Features := Features id; TokenHash := h |}.

Record ResolvedDomain := {
  rd_TenantID : string; rd_TenantSlug : string; rd_SchemaName : string;
  rd_BranchID : string; rd_Surface : string
}.

Definition HashToken (raw : string) : string := hex_encode (Sum256 raw).

Definition cacheTTL : Z := 30 * Second.

(** ** The interface to the registry

    How the resolvers find the live Identity plugin.  [serves r name url] says
    that [r] holds a live plugin called [name] at base URL [url]. *)
Class BaseURLLookup (R : Type) := {
  GetBaseURL : R → string → option string;
  serves : R → string → string → Prop;
  GetBaseURL_sound r name url : GetBaseURL r name = Some url → serves r name url;
  GetBaseURL_complete r name : GetBaseURL r name = None → ∀ url, ¬ serves r name url
}.

(** ** Calls to Identity *)

Inductive call_body :=
| introspectRequest (token_hash acting_user_id platform_token : string)
| resolveDomainRequest (hostname : string).

Record call := { c_URL : string; c_PluginKey : string; c_Body : call_body }.
Record reply := { r_StatusCode : Z; r_Body : string }.

(** [strings.TrimRight(s, "/")] *)
Definition TrimRight_slash (s : string) : string := trim_right (byte_eqb "/") s.

(** ** The cache

    [Resolve], [ResolvePlatform] and [DomainResolver.Resolve] share one shape: a
    fresh entry is answered as it stands; otherwise Identity is asked, and any
    definitive answer replaces the entry after every expired one is swept. *)

Section cache.
Context {V : Type}.

Definition outcome : Type := option V * option error.
Record cacheEntry := { ce_res : option V; ce_err : option error; ce_exp : Z }.
Definition cache_t : Type := gmap string cacheEntry.

(** [for k, e := range cache { if now.After(e.exp) { delete(cache, k) } }] *)
Definition sweep (now : Z) (c : gmap string cacheEntry) : gmap string cacheEntry :=
  filter (λ kv : string * cacheEntry, ¬ ce_exp kv.2 < now) c.

(** [now] is the time of the lookup, [done] the time the call returned.  The
    last component says whether Identity was asked. *)
Definition resolve_cached (now done : Z) (key : string) (fetch : outcome)
    (c : gmap string cacheEntry) : gmap string cacheEntry * outcome * bool :=
  let miss :=
    let c :=
      if bool_decide (fetch.2 = Some ErrUnavailable) then c
      else <[key := {| ce_res := fetch.1; ce_err := fetch.2; ce_exp := done + cacheTTL |}]>
             (sweep done c) in
    (c, fetch, true) in
  match c !! key with
  | Some e => if now <? ce_exp e then (c, (ce_res e, ce_err e), false) else miss
  | None => miss
  end.

(** What holds of every outcome fetched holds of every outcome answered. *)
Definition all_cached (P : outcome → Prop) (c : gmap string cacheEntry) : Prop :=
  map_Forall (λ _ e, P (ce_res e, ce_err e)) c.

Lemma resolve_cached_all P now done key fetch c :
  P fetch → all_cached P c →
  let '(c', o, _) := resolve_cached now done key fetch c in all_cached P c' ∧ P o.
Proof.
  intros Hf Hc. unfold resolve_cached. set (miss := (_, fetch, true)).
  assert (let '(c', o, _) := miss in all_cached P c' ∧ P o) as Hm.
  { unfold miss. split; [|done]. case_bool_decide; [done|].
    apply map_Forall_insert_2; [by destruct fetch|]. intros k e He.
    unfold sweep in He. apply map_lookup_filter_Some in He as [He _]. by apply (Hc k). }
  destruct (c !! key) as [e|] eqn:E; [|exact Hm].
  destruct (now <? ce_exp e); [|exact Hm]. split; [done|]. by apply (Hc key).
Qed.

(** *** Histories of one cache *)

Record request := { q_now : Z; q_done : Z; q_key : string; q_fetch : outcome }.

Fixpoint serve (qs : list request) (c : gmap string cacheEntry) :
    gmap string cacheEntry * list (outcome * bool) :=
  match qs with
  | [] => (c, [])
  | q :: qs' =>
      let '(c, o, asked) := resolve_cached (q_now q) (q_done q) (q_key q) (q_fetch q) c in
      let '(c, os) := serve qs' c in (c, (o, asked) :: os)
  end.

(** Every entry was fetched for its own key by some earlier request, is
    definitive, and expires [cacheTTL] after that. *)
Definition sourced (past : list request) (c : gmap string cacheEntry) : Prop :=
  ∀ k e, c !! k = Some e →
    ∃ q, q ∈ past ∧ q_key q = k ∧ q_fetch q = (ce_res e, ce_err e) ∧
         ce_exp e = q_done q + cacheTTL ∧ ce_err e ≠ Some ErrUnavailable.

Lemma sweep_lookup now c k e : sweep now c !! k = Some e → c !! k = Some e.
Proof. unfold sweep. rewrite map_lookup_filter_Some. by intros []. Qed.

Lemma sourced_mono past past' c : past ⊆ past' → sourced past c → sourced past' c.
Proof. intros Hp Hs k e He. destruct (Hs k e He) as (q & ? & ?). eauto. Qed.

Lemma resolve_cached_sourced past q c :
  sourced past c →
  sourced (q :: past) (resolve_cached (q_now q) (q_done q) (q_key q) (q_fetch q) c).1.1.
Proof.
  intros Hs. assert (sourced (q :: past) c) as Hs'.
  { eapply sourced_mono; [|exact Hs]. set_solver. }
  unfold resolve_cached. set (miss := if bool_decide _ then _ else _).
  assert (sourced (q :: past) miss) as Hm.
  { unfold miss. case_bool_decide as Hu; [done|]. intros k e.
    rewrite lookup_insert_Some. intros [[<- <-]|[_ He]].
    - exists q. split_and!; try done; [set_solver|]. by destruct (q_fetch q).
    - apply sweep_lookup in He. by apply Hs'. }
  destruct (c !! q_key q) as [e|]; [|done]. by destruct (q_now q <? ce_exp e).
Qed.

(** A served answer is the one just fetched, or one fetched for the same key
    less than [cacheTTL] ago. *)
Lemma resolve_cached_fresh past q c :
  sourced past c →
  let '(_, o, asked) := resolve_cached (q_now q) (q_done q) (q_key q) (q_fetch q) c in
  (asked = true ∧ o = q_fetch q) ∨
  (asked = false ∧ ∃ q', q' ∈ past ∧ q_key q' = q_key q ∧ q_fetch q' = o ∧
     q_now q < q_done q' + cacheTTL ∧ o.2 ≠ Some ErrUnavailable).
Proof.
  intros Hs. unfold resolve_cached. destruct (c !! q_key q) as [e|] eqn:E; [|by left].
  destruct (Z.ltb_spec (q_now q) (ce_exp e)); [right|by left]. split; [done|].
  destruct (Hs _ _ E) as (q' & Hin & Hk & Hf & Hexp & Hu). exists q'.
  split_and!; try done. lia.
Qed.

Lemma serve_fresh qs past c :
  sourced past c →
  ∀ i o asked, (serve qs c).2 !! i = Some (o, asked) →
  ∃ q, qs !! i = Some q ∧
    ((asked = true ∧ o = q_fetch q) ∨
     (asked = false ∧ ∃ q', q' ∈ app (take i qs) past ∧ q_key q' = q_key q ∧ q_fetch q' = o ∧
        q_now q < q_done q' + cacheTTL ∧ o.2 ≠ Some ErrUnavailable)).
Proof.
  revert past c. induction qs as [|q qs IH]; intros past c Hs i o asked Hi; [done|].
  cbn [serve] in Hi. pose proof (resolve_cached_fresh past q c Hs) as Hf.
  pose proof (resolve_cached_sourced past q c Hs) as Hs'.
  destruct (resolve_cached _ _ _ _ c) as [[c' o'] asked']. simpl in Hs'.
  destruct (serve qs c') as [c'' os] eqn:E. simpl in Hi. destruct i as [|i]; simpl in Hi.
  - injection Hi as <- <-. exists q. split; [done|]. done.
  - specialize (IH (q :: past) c' Hs' i o asked). rewrite E in IH. simpl in IH.
    destruct (IH Hi) as (q0 & Hq0 & Hcase). exists q0. split; [done|].
    destruct Hcase as [?|(? & q' & Hin & ?)]; [by left|right]. split; [done|].
    exists q'. split; [|done]. rewrite firstn_cons.
    rewrite !elem_of_app, ?elem_of_cons in *. tauto.
Qed.
End cache.
Arguments outcome : clear implicits.
Arguments cacheEntry : clear implicits.
Arguments request : clear implicits.

(** ** Introspector *)

Section resolvers.
Context {R : Type} `{!BaseURLLookup R}.
(** The HTTP client ([None] is a transport error or a URL it rejects) and the
    JSON decoders of the two reply types. *)
Context (Do : call → option reply).
Context (DecodeIdentity : string → option Identity).
Context (DecodeDomain : string → option ResolvedDomain).

Record Introspector := { i_pluginKey : string; i_cache : gmap string (cacheEntry Identity) }.
Definition NewIntrospector (pluginKey : string) : Introspector :=
  {| i_pluginKey := pluginKey; i_cache := ∅ |}.

Definition introspect_call (key baseURL : string) (b : call_body) : call :=
  {| c_URL := TrimRight_slash baseURL ++ "/internal/introspect"; c_PluginKey := key;
     c_Body := b |}.

Definition fetchPlatform (reg : R) (key rawToken : string) : outcome Identity :=
  match GetBaseURL reg "identity" with
  | None => (None, Some ErrUnavailable)
  | Some baseURL =>
      match Do (introspect_call key baseURL (introspectRequest "" "" rawToken)) with
      | None => (None, Some ErrUnavailable)
      | Some resp =>
          if r_StatusCode resp =? 200 then
            match DecodeIdentity (r_Body resp) with
            | None => (None, Some ErrUnavailable)
            | Some id => (Some id, None)
            end
          else if r_StatusCode resp =? 401 then (None, Some ErrInvalidToken)
          else (None, Some ErrUnavailable)
      end
  end.

(** The body of a 401 is read up to 4096 bytes. *)
Definition fetch (reg : R) (key tokenHash actingUserID : string) : outcome Identity :=
  match GetBaseURL reg "identity" with
  | None => (None, Some ErrUnavailable)
  | Some baseURL =>
      match Do (introspect_call key baseURL (introspectRequest tokenHash actingUserID "")) with
      | None => (None, Some ErrUnavailable)
      | Some resp =>
          if r_StatusCode resp =? 200 then
            match DecodeIdentity (r_Body resp) with
            | None => (None, Some ErrUnavailable)
            | Some id => (Some (with_TokenHash tokenHash id), None)
            end
          else if r_StatusCode resp =? 401 then
            if Contains (take_bytes 4096 (r_Body resp)) "membership revoked"
            then (None, Some ErrMembershipRevoked)
            else (None, Some ErrInvalidToken)
          else (None, Some ErrUnavailable)
      end
  end.

Definition device_key (tokenHash actingUserID : string) : string :=
  tokenHash ++ "|" ++ actingUserID.
Definition platform_key (rawToken : string) : string := "platform|" ++ rawToken.

Definition Resolve (now done : Z) (reg : R) (tokenHash actingUserID : string)
    (i : Introspector) : Introspector * outcome Identity * bool :=
  let '(c, o, asked) :=
    resolve_cached now done (device_key tokenHash actingUserID)
      (fetch reg (i_pluginKey i) tokenHash actingUserID) (i_cache i) in
  ({| i_pluginKey := i_pluginKey i; i_cache := c |}, o, asked).

Definition ResolvePlatform (now done : Z) (reg : R) (rawToken : string)
    (i : Introspector) : Introspector * outcome Identity * bool :=
  let '(c, o, asked) :=
    resolve_cached now done (platform_key rawToken)
      (fetchPlatform reg (i_pluginKey i) rawToken) (i_cache i) in
  ({| i_pluginKey := i_pluginKey i; i_cache := c |}, o, asked).

(** ** DomainResolver *)

Record DomainResolver := {
  d_pluginKey : string; d_cache : gmap string (cacheEntry ResolvedDomain)
}.
Definition NewDomainResolver (pluginKey : string) : DomainResolver :=
  {| d_pluginKey := pluginKey; d_cache := ∅ |}.

Definition domain_fetch (reg : R) (key hostname : string) : outcome ResolvedDomain :=
  match GetBaseURL reg "identity" with
  | None => (None, Some ErrUnavailable)
  | Some baseURL =>
      match Do {| c_URL := TrimRight_slash baseURL ++ "/internal/resolve-domain";
                  c_PluginKey := key; c_Body := resolveDomainRequest hostname |} with
      | None => (None, Some ErrUnavailable)
      | Some resp =>
          if r_StatusCode resp =? 200 then
            match DecodeDomain (r_Body resp) with
            | None => (None, Some ErrUnavailable)
            | Some res => (Some res, None)
            end
          else if r_StatusCode resp =? 404 then (None, Some ErrDomainNotFound)
          else (None, Some ErrUnavailable)
      end
  end.

Definition normalize_host (hostname : string) : string := ToLower (TrimSpace hostname).

Definition domain_Resolve (now done : Z) (reg : R) (hostname : string)
    (d : DomainResolver) : DomainResolver * outcome ResolvedDomain * bool :=
  let hostname := normalize_host hostname in
  let '(c, o, asked) :=
    resolve_cached now done hostname (domain_fetch reg (d_pluginKey d) hostname)
      (d_cache d) in
  ({| d_pluginKey := d_pluginKey d; d_cache := c |}, o, asked).

(** ** What Identity's answers become *)

(** The documented outcomes: an identity and no error, or one of the errors. *)
Definition well_formed {V} (o : outcome V) : Prop :=
  (is_Some o.1 ∧ o.2 = None) ∨ (o.1 = None ∧ is_Some o.2).

Lemma fetch_well_formed reg key h a : well_formed (fetch reg key h a).
Proof. unfold fetch, well_formed. branches; simpl; eauto. Qed.
Lemma fetchPlatform_well_formed reg key raw : well_formed (fetchPlatform reg key raw).
Proof. unfold fetchPlatform, well_formed. branches; simpl; eauto. Qed.
Lemma domain_fetch_well_formed reg key h : well_formed (domain_fetch reg key h).
Proof. unfold domain_fetch, well_formed. branches; simpl; eauto. Qed.

(** Every cached answer is a documented outcome, and stays so. *)
Definition introspector_ok (i : Introspector) : Prop := all_cached well_formed (i_cache i).
Definition resolver_ok (d : DomainResolver) : Prop := all_cached well_formed (d_cache d).

Lemma NewIntrospector_ok key : introspector_ok (NewIntrospector key).
Proof. apply map_Forall_empty. Qed.
Lemma NewDomainResolver_ok key : resolver_ok (NewDomainResolver key).
Proof. apply map_Forall_empty. Qed.

Lemma Resolve_ok now done reg h a i :
  introspector_ok i →
  let '(i', o, _) := Resolve now done reg h a i in introspector_ok i' ∧ well_formed o.
Proof.
  intros Hi. unfold Resolve.
  pose proof (resolve_cached_all well_formed now done (device_key h a) _ _
    (fetch_well_formed reg (i_pluginKey i) h a) Hi) as H.
  by destruct (resolve_cached _ _ _ _ _) as [[c o] asked].
Qed.
Lemma ResolvePlatform_ok now done reg raw i :
  introspector_ok i →
  let '(i', o, _) := ResolvePlatform now done reg raw i in introspector_ok i' ∧ well_formed o.
Proof.
  intros Hi. unfold ResolvePlatform.
  pose proof (resolve_cached_all well_formed now done (platform_key raw) _ _
    (fetchPlatform_well_formed reg (i_pluginKey i) raw) Hi) as H.
  by destruct (resolve_cached _ _ _ _ _) as [[c o] asked].
Qed.
Lemma domain_Resolve_ok now done reg host d :
  resolver_ok d →
  let '(d', o, _) := domain_Resolve now done reg host d in resolver_ok d' ∧ well_formed o.
Proof.
  intros Hd. unfold domain_Resolve.
  pose proof (resolve_cached_all well_formed now done (normalize_host host) _ _
    (domain_fetch_well_formed reg (d_pluginKey d) (normalize_host host)) Hd) as H.
  by destruct (resolve_cached _ _ _ _ _) as [[c o] asked].
Qed.

(** Introspection maps every answer of Identity to exactly one result: no
    live Identity plugin, a transport failure, an undecodable body or any status
    other than 200 and 401 is [ErrUnavailable]; a 401 is [ErrMembershipRevoked]
    when its body says so and [ErrInvalidToken] otherwise; a 200 yields the
    decoded identity carrying the hash that was asked about. *)
Theorem fetch_outcomes reg key h a :
  match GetBaseURL reg "identity" with
  | None => fetch reg key h a = (None, Some ErrUnavailable) ∧
            ∀ url, ¬ serves reg "identity" url
  | Some url =>
      serves reg "identity" url ∧
      match Do (introspect_call key url (introspectRequest h a "")) with
      | None => fetch reg key h a = (None, Some ErrUnavailable)
      | Some resp =>
          (r_StatusCode resp = 200 → ∀ id, DecodeIdentity (r_Body resp) = Some id →
             fetch reg key h a = (Some (with_TokenHash h id), None)) ∧
          (r_StatusCode resp = 200 → DecodeIdentity (r_Body resp) = None →
             fetch reg key h a = (None, Some ErrUnavailable)) ∧
          (r_StatusCode resp = 401 →
             fetch reg key h a =
               (None, Some (if Contains (take_bytes 4096 (r_Body resp)) "membership revoked"
                            then ErrMembershipRevoked else ErrInvalidToken))) ∧
          (r_StatusCode resp ≠ 200 → r_StatusCode resp ≠ 401 →
             fetch reg key h a = (None, Some ErrUnavailable))
      end
  end.
Proof.
  destruct (GetBaseURL reg "identity") as [url|] eqn:E.
  - split; [by apply GetBaseURL_sound|]. unfold fetch. rewrite E.
    destruct (Do _) as [resp|]; [|done]. split_and!.
    + by intros -> id ->.
    + by intros -> ->.
    + intros ->. simpl. by case_match.
    + intros H1 H2. apply Z.eqb_neq in H1 as ->. by apply Z.eqb_neq in H2 as ->.
  - split; [unfold fetch; by rewrite E|]. by apply GetBaseURL_complete.
Qed.
End resolvers.

(** ** Cache keys *)

Lemma HashToken_length raw : String.length (HashToken raw) = 64%nat.
Proof. unfold HashToken. by rewrite hex_encode_length, Sum256_length. Qed.

(** No cached identity is ever reachable under another caller's key: the keys
    of two device requests are equal only for the same token hash and the same
    acting user, and no device key equals a platform-session key. *)
Theorem cache_keys_separate raw raw' acting acting' ptok :
  (device_key (HashToken raw) acting = device_key (HashToken raw') acting' →
   HashToken raw = HashToken raw' ∧ acting = acting') ∧
  device_key (HashToken raw) acting ≠ platform_key ptok.
Proof.
  unfold device_key, platform_key. split.
  - intros H. apply append_length_inj in H as [-> H]; [|by rewrite !HashToken_length].
    by injection H.
  - pose proof (HashToken_length raw) as Hl.
    pose proof (hex_encode_no_byte (Sum256 raw) "p" eq_refl) as Hp.
    unfold HashToken in *. destruct (hex_encode (Sum256 raw)) as [|c s]; [done|].
    simpl in *. intros H. injection H as -> _. done.
Qed.

Lemma cache_keys_separate_witness :
  HashToken "zdt_a" = HashToken "zdt_a" ∧ "u1" = "u1".
Proof. by apply (cache_keys_separate "zdt_a" "zdt_a" "u1" "u1" ""). Defined.

(** ** Staleness *)

(** An answer is never older than 30 seconds, never another caller's, and
    never a cached outage: over any sequence of requests on an initially empty
    cache, each result is either what Identity answered to that very request, or
    what it answered to an earlier request with the same key whose call returned
    less than 30 seconds before, and then it is not [ErrUnavailable]. *)
Theorem answers_are_fresh {V} (qs : list (request V)) i o asked :
  (serve qs ∅).2 !! i = Some (o, asked) →
  ∃ q, qs !! i = Some q ∧
    ((asked = true ∧ o = q_fetch q) ∨
     (asked = false ∧ ∃ q', q' ∈ take i qs ∧ q_key q' = q_key q ∧ q_fetch q' = o ∧
        q_now q < q_done q' + cacheTTL ∧ o.2 ≠ Some ErrUnavailable)).
Proof.
  intros Hi. destruct (serve_fresh qs [] ∅) with (i := i) (o := o) (asked := asked)
    as (q & Hq & Hc); [|done|].
  - intros k e. by rewrite lookup_empty.
  - exists q. split; [done|]. by rewrite app_nil_r in Hc.
Qed.

(** Two requests ten seconds apart: the second is answered from the cache. *)
Lemma answers_are_fresh_witness :
  let q1 := {| q_now := 0; q_done := 1; q_key := "k"; q_fetch := (Some 1%nat, None) |} in
  let q2 := {| q_now := 10 * Second; q_done := 10 * Second; q_key := "k";
               q_fetch := (Some 2%nat, None) |} in
  ∃ q, [q1; q2] !! 1%nat = Some q ∧
       (true = false ∨ ∃ q', q' ∈ [q1] ∧ q_fetch q' = (Some 1%nat, None)).
Proof.
  intros q1 q2.
  destruct (answers_are_fresh [q1; q2] 1 (Some 1%nat, None) false) as (q & Hq & [H|H]);
    [by vm_compute|..].
  - exists q. split; [done|]. destruct H as [H _]. done.
  - exists q. split; [done|]. right. destruct H as (_ & q' & Hin & _ & Hf & _). by exists q'.
Defined.

#[export] Hint Resolve HashToken_length fetch_well_formed fetchPlatform_well_formed
  domain_fetch_well_formed : gateway.
