(* ===== verification/Caches.v ===== *)
(** The resolvers' caches ([internal/auth]) under overlapping requests: the look-up and
    the store of one call are two critical sections with the call to Identity, outside
    the lock, between them. *)

From S2P Require Import Prelude GoStrings Crypto Auth.

Lemma size_list_to_set_le (l : list string) : (size (list_to_set l : gset string) ≤ length l)%nat.
Proof.
  induction l as [|x l IH]; cbn [list_to_set length]; [by rewrite size_empty|]. rewrite size_union_alt, size_singleton.
  assert (size (list_to_set l ∖ {[x]} : gset string) ≤ size (list_to_set l : gset string))%nat
    by (apply subseteq_size; set_solver). lia.
Qed.

Section caches.
Context {V : Type}.
#[local] Abbreviation outcome := (outcome V).
#[local] Abbreviation cache := (gmap string (cacheEntry V)).

(** ** The two critical sections *)

(** A fresh entry's answer. *)
Definition looked_up (now : Z) (key : string) (c : cache) : option outcome :=
  e ← c !! key; if now <? ce_exp e then Some (ce_res e, ce_err e) else None.

(** [if !errors.Is(err, ErrUnavailable) { ... }] *)
Definition kept (now : Z) (key : string) (o : outcome) (c : cache) : cache :=
  if bool_decide (o.2 = Some ErrUnavailable) then c
  else <[key := {| ce_res := o.1; ce_err := o.2; ce_exp := now + cacheTTL |}]> (sweep now c).

(** Alone, a call is the one followed by the other. *)
Lemma resolve_cached_split now done key o (c : cache) :
  resolve_cached now done key o c =
  match looked_up now key c with Some a => (c, a, false) | None => (kept done key o c, o, true) end.
Proof.
  unfold resolve_cached, looked_up. destruct (c !! key) as [e|]; [|done]. cbn [mbind option_bind].
  by destruct (now <? ce_exp e).
Qed.

(** ** Overlapping calls *)

(** A call between its critical sections: waiting for Identity, or with an answer. *)
Inductive call :=
| Fetching (key : string) (asked : Z)
| Fetched (key : string) (asked answered : Z) (o : outcome).

Record resolver := { clock : Z; cached : cache; calls : list call }.
Definition fresh (now : Z) : resolver := {| clock := now; cached := ∅; calls := [] |}.

(** What happens: a call is answered from the cache; it misses; Identity's answer is
    there; the call stores it and returns it. *)
Inductive event :=
| Hit (key : string) (now : Z) (o : outcome)
| Miss (key : string) (now : Z)
| Answered (key : string) (asked now : Z) (o : outcome)
| Returned (key : string) (asked answered now : Z) (o : outcome).

(** Times only grow: the clock is read under the lock. *)
Inductive step (s : resolver) : event → resolver → Prop :=
| hits key now o :
    clock s ≤ now → looked_up now key (cached s) = Some o →
    step s (Hit key now o) {| clock := now; cached := cached s; calls := calls s |}
| misses key now :
    clock s ≤ now → looked_up now key (cached s) = None →
    step s (Miss key now) {| clock := now; cached := cached s; calls := Fetching key now :: calls s |}
| answers pre key asked post now o :
    clock s ≤ now → calls s = app pre (Fetching key asked :: post) →
    step s (Answered key asked now o)
      {| clock := now; cached := cached s; calls := app pre (Fetched key asked now o :: post) |}
| returns pre key asked answered o post now :
    clock s ≤ now → calls s = app pre (Fetched key asked answered o :: post) →
    step s (Returned key asked answered now o)
      {| clock := now; cached := kept now key o (cached s); calls := app pre post |}.

(** A run, by its events, the last first. *)
Inductive run (now : Z) : list event → resolver → Prop :=
| run_nil : run now [] (fresh now)
| run_step es s e s' : run now es s → step s e s' → run now (e :: es) s'.

(** A caller is told [o] at [now]. *)
Definition told (key : string) (now : Z) (o : outcome) (e : event) : Prop :=
  e = Hit key now o ∨ ∃ asked answered, e = Returned key asked answered now o.

(** ** The invariant *)

(** Every entry is the definitive answer some call has stored. *)
Definition backed (es : list event) (c : cache) : Prop :=
  ∀ k e, c !! k = Some e → ce_err e ≠ Some ErrUnavailable ∧
    ∃ asked answered, Returned k asked answered (ce_exp e - cacheTTL) (ce_res e, ce_err e) ∈ es.

(** Every answer in hand or returned was given by Identity, and asked for before. *)
Definition call_ok (es : list event) (t : Z) (c : call) : Prop :=
  match c with
  | Fetching _ asked => asked ≤ t
  | Fetched k asked answered o => asked ≤ answered ≤ t ∧ Answered k asked answered o ∈ es
  end.
Definition event_ok (es : list event) (t : Z) (e : event) : Prop :=
  match e with
  | Returned k asked answered now o => asked ≤ answered ≤ now ∧ now ≤ t ∧ Answered k asked answered o ∈ es
  | Hit k now o => o.2 ≠ Some ErrUnavailable ∧
      ∃ asked answered stored, Returned k asked answered stored o ∈ es ∧ stored ≤ now < stored + cacheTTL
  | _ => True
  end.
Definition resolver_ok (es : list event) (s : resolver) : Prop :=
  backed es (cached s) ∧ Forall (call_ok es (clock s)) (calls s) ∧ Forall (event_ok es (clock s)) es.

Lemma kept_Some now key o (c : cache) k e :
  kept now key o c !! k = Some e →
  (k = key ∧ e = {| ce_res := o.1; ce_err := o.2; ce_exp := now + cacheTTL |} ∧ o.2 ≠ Some ErrUnavailable) ∨
  c !! k = Some e.
Proof.
  unfold kept. case_bool_decide as Hu; [by right|]. rewrite lookup_insert_Some.
  intros [[<- <-]|[_ He%sweep_lookup]]; [by left|by right].
Qed.

Lemma backed_mono es e c : backed es c → backed (e :: es) c.
Proof.
  intros Hb k x Hx. destruct (Hb k x Hx) as (Hu & a & b & Hin). split; [done|]. exists a, b. by right.
Qed.

Lemma calls_mono es e t t' cs : t ≤ t' → Forall (call_ok es t) cs → Forall (call_ok (e :: es) t') cs.
Proof.
  intros Ht Hf. eapply Forall_impl; [exact Hf|]. intros [k a|k a b o]; cbn; [lia|]. intros [? ?]. split; [lia|by right].
Qed.
Lemma events_mono es e t t' es' : t ≤ t' → Forall (event_ok es t) es' → Forall (event_ok (e :: es) t') es'.
Proof.
  intros Ht Hf. eapply Forall_impl; [exact Hf|]. intros [k n o| | |k a b n o]; cbn; try done.
  - intros (? & a & b & st & ? & ?). split; [done|]. exists a, b, st. split; [by right|done].
  - intros (? & ? & ?). split_and!; [lia..|by right].
Qed.

(** What a look-up finds was stored less than [cacheTTL] before. *)
Lemma looked_up_backed es s :
  backed es (cached s) → Forall (event_ok es (clock s)) es →
  ∀ k now o, clock s ≤ now → looked_up now k (cached s) = Some o → o.2 ≠ Some ErrUnavailable ∧
    ∃ asked answered stored, Returned k asked answered stored o ∈ es ∧ stored ≤ now < stored + cacheTTL.
Proof.
  intros Hb He k now o Hn. unfold looked_up. destruct (cached s !! k) as [e|] eqn:E; [|done].
  cbn [mbind option_bind]. destruct (Z.ltb_spec now (ce_exp e)); [|done]. intros [= <-].
  destruct (Hb k e E) as (Hu & a & b & Hin). split; [done|]. exists a, b, (ce_exp e - cacheTTL).
  split; [done|]. rewrite Forall_forall in He. destruct (He _ Hin) as (_ & ? & _). lia.
Qed.

Lemma cache_step_ok es s e s' : resolver_ok es s → step s e s' → resolver_ok (e :: es) s'.
Proof.
  intros (Hb & Hc & He) Hs. assert (clock s ≤ clock s') as Hn by by destruct Hs.
  pose proof (looked_up_backed es s Hb He) as Hlook.
  apply (calls_mono es e _ _ _ Hn) in Hc. apply (events_mono es e _ _ _ Hn) in He.
  destruct Hs as [k now o _ Hl|k now _ _|pre k asked post now o _ Hp|pre k asked answered o post now _ Hp];
    cbn [clock] in *; try rewrite Hp in Hc.
  - split; [by apply backed_mono|]. split; [done|]. constructor; [|done].
    destruct (Hlook _ _ _ Hn Hl) as (Hu & a & b & st & Hin & Ht). split; [done|]. exists a, b, st. split; [by right|done].
  - split; [by apply backed_mono|]. split; [by constructor; cbn|]. by constructor.
  - apply Forall_app in Hc as [Hpre [Ha Hpost]%Forall_cons]. split; [by apply backed_mono|]. split; [|by constructor].
    cbn in *. apply Forall_app. split; [done|]. constructor; [|done]. cbn. split; [lia|by left].
  - apply Forall_app in Hc as [Hpre [[Ht Hin] Hpost]%Forall_cons]. split; [|split].
    + intros k' x [(-> & -> & Hu)|Hx]%kept_Some; [|by apply (backed_mono es _ _ Hb)].
      split; [done|]. exists asked, answered. cbn. replace (now + cacheTTL - cacheTTL) with now by lia.
      destruct o. by left.
    + by apply Forall_app.
    + constructor; [|done]. by split_and!; cbn; try lia.
Qed.

Lemma cache_run_ok now es s : run now es s → resolver_ok es s.
Proof.
  induction 1 as [|es s e s' _ IH Hs]; [|by eapply cache_step_ok].
  split; [intros k x; cbn; by rewrite lookup_empty|]. by split; constructor.
Qed.

(** ** How stale an answer can be *)

(** Identity says [truth k u] of [k] at time [u], and answers a call with what it says
    at some time while the call is under way, or not at all. *)
Definition honest (truth : string → Z → outcome) (es : list event) : Prop :=
  ∀ k asked now o, Answered k asked now o ∈ es →
    o.2 = Some ErrUnavailable ∨ ∃ u, asked ≤ u ≤ now ∧ o = truth k u.
(** No call takes longer than [T] from its look-up to its store (the client's
    timeout, and the lock). *)
Definition prompt (T : Z) (es : list event) : Prop :=
  ∀ k asked answered now o, Returned k asked answered now o ∈ es → now ≤ asked + T.

Lemma told_recent truth T now es s k t o e :
  run now es s → honest truth es → prompt T es → e ∈ es → told k t o e →
  o.2 = Some ErrUnavailable ∨ ∃ u, t - (cacheTTL + T) < u ≤ t ∧ o = truth k u.
Proof.
  intros (_ & _ & He)%cache_run_ok Hh Hp Hin Ht. rewrite Forall_forall in He. assert (0 < cacheTTL) by done.
  assert (∀ a b st, Returned k a b st o ∈ es → st ≤ t < st + cacheTTL →
    o.2 = Some ErrUnavailable ∨ ∃ u, t - (cacheTTL + T) < u ≤ t ∧ o = truth k u) as Hr.
  { intros a b st Hret Hst. destruct (He _ Hret) as (? & _ & Ha). apply Hp in Hret.
    destruct (Hh _ _ _ _ Ha) as [?|(u & ? & ?)]; [by left|]. right. exists u. split; [lia|done]. }
  destruct Ht as [->|(a & b & ->)].
  - destruct (He _ Hin) as (_ & a & b & st & Hret & Hst). by eapply Hr.
  - eapply Hr; [exact Hin|]. lia.
Qed.

(** C12: However calls overlap, an answer told at [t] is what Identity said of the same
    token, acting user or hostname at some time within the window that ends at [t]:
    30 seconds and the time a call may take.  So a change at Identity that stays,
    a revocation or a new role, holds for every answer from one such window on:
    only an outage can be told instead. *)
Theorem revocations_take_effect truth T now es s k t o e :
  run now es s → honest truth es → prompt T es → e ∈ es → told k t o e →
  (o.2 = Some ErrUnavailable ∨ ∃ u, t - (cacheTTL + T) < u ≤ t ∧ o = truth k u) ∧
  (∀ r o', (∀ u, r ≤ u → truth k u = o') → r + cacheTTL + T ≤ t → o = o' ∨ o.2 = Some ErrUnavailable).
Proof.
  intros Hrun Hh Hp Hin Ht. pose proof (told_recent _ _ _ _ _ _ _ _ _ Hrun Hh Hp Hin Ht) as Hrec.
  split; [done|]. intros r o' Hr Hlate. destruct Hrec as [?|(u & Hu & ->)]; [by right|]. left. apply Hr. lia.
Qed.

(** ** How large the cache can be *)

(** A definitive answer stored within the last 30 seconds. *)
Definition recent (t : Z) (e : event) : Prop :=
  match e with Returned _ _ _ now o => o.2 ≠ Some ErrUnavailable ∧ t - cacheTTL ≤ now | _ => False end.
#[export] Instance recent_dec t e : Decision (recent t e).
Proof. destruct e; apply _. Defined.
Definition key_of (e : event) : string :=
  match e with Hit k _ _ | Miss k _ | Answered k _ _ _ | Returned k _ _ _ _ => k end.

Lemma kept_unexpired now key (o : outcome) (c : cache) k e :
  o.2 ≠ Some ErrUnavailable → kept now key o c !! k = Some e → now ≤ ce_exp e.
Proof.
  intros Hu. unfold kept. rewrite bool_decide_eq_false_2 by done. assert (0 < cacheTTL) by done.
  rewrite lookup_insert_Some. intros [[_ <-]|[_ He]]; [cbn; lia|].
  unfold sweep in He. apply map_lookup_filter_Some in He as [_ He]. cbn in He. lia.
Qed.

(** C33: The cache does not grow with time: whenever an answer has just been stored, it
    holds at most one entry for each definitive answer stored in the last 30
    seconds, and only those, however many calls are under way. *)
Theorem cache_holds_the_last_window now es s s' k asked answered t o :
  run now es s → step s (Returned k asked answered t o) s' → o.2 ≠ Some ErrUnavailable →
  let recently := filter (recent t) (Returned k asked answered t o :: es) in
  (∀ k' e, cached s' !! k' = Some e → ∃ a b n, n = ce_exp e - cacheTTL ∧
     Returned k' a b n (ce_res e, ce_err e) ∈ recently) ∧
  (size (cached s') ≤ length recently)%nat.
Proof.
  intros Hrun Hs Hu recently. assert (run now (Returned k asked answered t o :: es) s') as Hrun' by by econstructor.
  destruct (cache_run_ok _ _ _ Hrun') as (Hb & _ & _).
  assert (∀ k' e, cached s' !! k' = Some e → ∃ a b n, n = ce_exp e - cacheTTL ∧
     Returned k' a b n (ce_res e, ce_err e) ∈ recently) as Hin.
  { intros k' e He. destruct (Hb k' e He) as (Hue & a & b & Hret). exists a, b, (ce_exp e - cacheTTL).
    split; [done|]. apply list_elem_of_filter. split; [|done]. split; [done|].
    inversion Hs; subst. apply kept_unexpired in He; [lia|done]. }
  split; [done|]. rewrite <- size_dom.
  assert (dom (cached s') ⊆ (list_to_set (key_of <$> recently) : gset string)) as Hsub.
  { intros k' [e He]%elem_of_dom. apply elem_of_list_to_set, list_elem_of_fmap.
    destruct (Hin k' e He) as (a & b & n & _ & Hr). eexists. split; [|exact Hr]. done. }
  apply subseteq_size in Hsub. etransitivity; [exact Hsub|].
  etransitivity; [apply size_list_to_set_le|]. by rewrite length_fmap.
Qed.

(** ** One call at a time *)

(** [Auth.serve], where each call ends before the next begins, is one of the runs. *)
Fixpoint in_turn (t : Z) (qs : list (request V)) : Prop :=
  match qs with [] => True | q :: qs' => t ≤ q_now q ≤ q_done q ∧ in_turn (q_done q) qs' end.
Lemma in_turn_earlier t t' qs : t' ≤ t → in_turn t qs → in_turn t' qs.
Proof. destruct qs; cbn; [done|]. intros ? []. split; [lia|done]. Qed.

Lemma serve_runs now qs es s :
  run now es s → calls s = [] → in_turn (clock s) qs →
  ∃ es' s', run now es' s' ∧ calls s' = [] ∧ cached s' = (serve qs (cached s)).1.
Proof.
  revert es s. induction qs as [|q qs IH]; intros es s Hr Hc Ht; [by exists es, s|].
  destruct Ht as [Hq Ht]. cbn [serve]. rewrite resolve_cached_split.
  destruct (looked_up (q_now q) (q_key q) (cached s)) as [o|] eqn:Hl.
  - assert (step s (Hit (q_key q) (q_now q) o) {| clock := q_now q; cached := cached s; calls := calls s |}) as Hs
      by (constructor; [lia|done]).
    apply (run_step _ _ _ _ _ Hr) in Hs. destruct (IH _ _ Hs Hc) as (es' & s' & Hr' & Hc' & He').
    { apply (in_turn_earlier (q_done q)); [cbn; lia|done]. }
    exists es', s'. split_and!; [done..|]. rewrite He'. cbn [cached]. by destruct (serve qs _).
  - pose proof (misses s (q_key q) (q_now q) ltac:(lia) Hl) as H1. rewrite Hc in H1.
    apply (run_step _ _ _ _ _ Hr) in H1.
    pose proof (answers {| clock := q_now q; cached := cached s; calls := [Fetching (q_key q) (q_now q)] |}
      [] (q_key q) (q_now q) [] (q_done q) (q_fetch q) ltac:(cbn; lia) eq_refl) as H2.
    apply (run_step _ _ _ _ _ H1) in H2.
    pose proof (returns {| clock := q_done q; cached := cached s;
        calls := [Fetched (q_key q) (q_now q) (q_done q) (q_fetch q)] |}
      [] _ _ _ _ [] (q_done q) ltac:(cbn; lia) eq_refl) as H3.
    apply (run_step _ _ _ _ _ H2) in H3. destruct (IH _ _ H3 eq_refl) as (es' & s' & Hr' & Hc' & He').
    { exact Ht. }
    exists es', s'. split_and!; [done..|]. rewrite He'. cbn [cached]. by destruct (serve qs _).
Qed.
End caches.
Arguments event : clear implicits.
Arguments resolver : clear implicits.

(** *** The relation, executed *)

Section exec.
Context {V : Type} `{!EqDecision V}.
#[export] Instance call_eq_dec : EqDecision (@call V).
Proof. solve_decision. Defined.

(** Where a call is among those under way, for another to take its place. *)
Definition exchange (c : call) (by_ : list call) (cs : list call) : option (list call) :=
  '(i, _) ← list_find (λ c', c' = c) cs; Some (app (take i cs) (app by_ (drop (S i) cs))).
Definition exec (s : resolver V) (e : event V) : option (resolver V) :=
  match e with
  | Hit k now o =>
      if bool_decide (clock s ≤ now ∧ looked_up now k (cached s) = Some o)
      then Some {| clock := now; cached := cached s; calls := calls s |} else None
  | Miss k now =>
      if bool_decide (clock s ≤ now ∧ looked_up now k (cached s) = None)
      then Some {| clock := now; cached := cached s; calls := Fetching k now :: calls s |} else None
  | Answered k asked now o =>
      cs ← exchange (Fetching k asked) [Fetched k asked now o] (calls s);
      if bool_decide (clock s ≤ now) then Some {| clock := now; cached := cached s; calls := cs |} else None
  | Returned k asked answered now o =>
      cs ← exchange (Fetched k asked answered o) [] (calls s);
      if bool_decide (clock s ≤ now) then Some {| clock := now; cached := kept now k o (cached s); calls := cs |}
      else None
  end.

Lemma exchange_Some c by_ cs cs' :
  exchange c by_ cs = Some cs' → ∃ pre post, cs = app pre (c :: post) ∧ cs' = app pre (app by_ post).
Proof.
  unfold exchange. destruct (list_find _ cs) as [[i c']|] eqn:E; [|done]. intros [= <-].
  apply list_find_Some in E as (Hi & -> & _). exists (take i cs), (drop (S i) cs). split; [|done].
  by rewrite take_drop_middle.
Qed.
Lemma exec_step s e s' : exec s e = Some s' → step s e s'.
Proof.
  destruct e as [k now o|k now|k asked now o|k asked answered now o]; cbn [exec].
  1,2: case_bool_decide as H; [destruct H|done]; intros [= <-]; by constructor.
  all: destruct (exchange _ _ _) as [cs|] eqn:E; [|done]; cbn [mbind option_bind]; case_bool_decide; [|done].
  all: intros [= <-]; apply exchange_Some in E as (pre & post & E & ->); by econstructor.
Qed.

Lemma exec_run now es s :
  foldr (λ e s, s ← s; exec s e) (Some (fresh now)) es = Some s → run now es s.
Proof.
  revert s. induction es as [|e es IH]; intros s; cbn [foldr]; [intros [= <-]; constructor|].
  destruct (foldr _ _ es) as [s0|]; [|done]. intros He%exec_step. econstructor; [by apply IH|done].
Qed.
End exec.

(** ** What modelling showed *)

Section growth.
Context {V : Type}.
Definition unknown_token : cacheEntry V := {| ce_res := None; ce_err := Some ErrInvalidToken; ce_exp := cacheTTL |}.

(** The bound is attained: every token a client makes up takes an entry for 30 seconds. *)
Lemma made_up_tokens_fill_the_cache (ks : list string) :
  NoDup ks → ∃ es (s : resolver V), run 0 es s ∧ calls s = [] ∧ clock s = 0 ∧ size (cached s) = length ks.
Proof.
  intros Hks. assert (∃ es (s : resolver V), run 0 es s ∧ calls s = [] ∧ clock s = 0 ∧
    ∀ k, cached s !! k = if decide (k ∈ ks) then Some unknown_token else None) as (es & s & Hr & Hc & Ht & Hl).
  { induction Hks as [|k ks Hk Hks (es & s & Hr & Hc & Ht & Hl)].
    { exists [], (fresh 0). split_and!; [constructor|done..]. }
    assert (looked_up 0 k (cached s) = None) as Hmiss by (unfold looked_up; by rewrite Hl, decide_False).
    pose proof (misses s k 0 ltac:(lia) Hmiss) as H1. rewrite Hc in H1. apply (run_step _ _ _ _ _ Hr) in H1.
    pose proof (answers {| clock := 0; cached := cached s; calls := [Fetching k 0] |}
      [] k 0 [] 0 (None, Some ErrInvalidToken) ltac:(done) eq_refl) as H2. apply (run_step _ _ _ _ _ H1) in H2.
    pose proof (returns {| clock := 0; cached := cached s; calls := [Fetched k 0 0 (None, Some ErrInvalidToken)] |}
      [] _ _ _ _ [] 0 ltac:(done) eq_refl) as H3. apply (run_step _ _ _ _ _ H2) in H3.
    eexists _, _. split_and!; [exact H3|done..|]. intros k'. cbn [cached]. unfold kept.
    rewrite bool_decide_eq_false_2 by done. destruct (decide (k' = k)) as [->|Hne].
    - rewrite lookup_insert_eq, decide_True by set_solver. done.
    - rewrite lookup_insert_ne by done. unfold sweep. rewrite map_lookup_filter, Hl.
      rewrite (decide_ext (k' ∈ k :: ks) (k' ∈ ks)) by set_solver. by destruct (decide (k' ∈ ks)). }
  exists es, s. split_and!; [done..|]. rewrite <- size_dom.
  replace (dom (cached s)) with (list_to_set ks : gset string); [by apply size_list_to_set|].
  apply set_eq. intros k. rewrite elem_of_list_to_set, elem_of_dom, Hl. destruct (decide (k ∈ ks)); split; try done.
Qed.
End growth.

(** Identity revokes at second 2. *)
Definition demo_truth (_ : string) (u : Z) : outcome nat :=
  if u <? 2 * Second then (Some 7%nat, None) else (None, Some ErrMembershipRevoked).
Definition demo_events : list (event nat) := [
  Hit "k" (34 * Second) (Some 7%nat, None);
  Returned "k" 0 (5 * Second) (5 * Second) (Some 7%nat, None);
  Answered "k" 0 (5 * Second) (Some 7%nat, None);
  Returned "k" (3 * Second) (4 * Second) (4 * Second) (None, Some ErrMembershipRevoked);
  Answered "k" (3 * Second) (4 * Second) (None, Some ErrMembershipRevoked);
  Miss "k" (3 * Second); Miss "k" 0].

Lemma demo_cache_run : ∃ s, run 0 demo_events s ∧ clock s = 34 * Second.
Proof.
  destruct (foldr (λ e s, s ← s; exec s e) (Some (fresh 0)) demo_events) as [s|] eqn:E; [|by vm_compute in E].
  exists s. split; [by apply exec_run|]. assert (Some (clock s) = Some (34 * Second)) as [= ->]; [|done].
  change (clock <$> Some s = Some (34 * Second)). rewrite <- E. by vm_compute.
Qed.
Lemma demo_honest : honest demo_truth demo_events ∧ prompt (5 * Second) demo_events.
Proof.
  split.
  - intros k a n o Hin. unfold demo_events in Hin. rewrite !elem_of_cons in Hin.
    destruct Hin as [?|[?|[[= -> -> -> ->]|[?|[[= -> -> -> ->]|[?|[?|?%not_elem_of_nil]]]]]]]; try done; right.
    + by exists Second.
    + by exists (3 * Second).
  - intros k a b n o Hin. unfold demo_events in Hin. rewrite !elem_of_cons in Hin.
    destruct Hin as [?|[[= -> -> -> -> ->]|[?|[[= -> -> -> -> ->]|[?|[?|[?|?%not_elem_of_nil]]]]]]]; done.
Qed.

(** A caller that was told it is revoked can be let in again: the answer of an earlier
    call that arrives later replaces the newer one, and stands for 30 seconds more.
    So a revocation can take longer than [cacheTTL] to hold. *)
Theorem told_revoked_then_let_in :
  ∃ es s, run 0 es s ∧ honest demo_truth es ∧ prompt (5 * Second) es ∧
    (∃ e, e ∈ es ∧ told "k" (4 * Second) (None, Some ErrMembershipRevoked) e) ∧
    (∃ e, e ∈ es ∧ told "k" (34 * Second) (Some 7%nat, None) e) ∧
    (∀ u, 34 * Second - cacheTTL ≤ u → demo_truth "k" u = (None, Some ErrMembershipRevoked)).
Proof.
  destruct demo_cache_run as (s & Hr & _). destruct demo_honest as [Hh Hp]. exists demo_events, s.
  split_and!; [done..| | |].
  - eexists. split; [do 3 right; left|]. right. by eexists _, _.
  - eexists. split; [left|]. by left.
  - intros u Hu. unfold demo_truth. unfold cacheTTL, Second in *. by destruct (Z.ltb_spec u (2 * 1000000000)); [lia|].
Qed.

Lemma revocations_take_effect_witness :
  ∃ s, run 0 demo_events s ∧
    ∃ u, 34 * Second - (cacheTTL + 5 * Second) < u ≤ 34 * Second ∧ (Some 7%nat, None) = demo_truth "k" u.
Proof.
  destruct demo_cache_run as (s & Hr & _). destruct demo_honest as [Hh Hp]. exists s. split; [exact Hr|].
  destruct (revocations_take_effect demo_truth (5 * Second) 0 demo_events s "k" (34 * Second) (Some 7%nat, None)
    (Hit "k" (34 * Second) (Some 7%nat, None)) Hr Hh Hp ltac:(by left) ltac:(by left)) as [[H|H] _];
    [discriminate H|exact H].
Defined.

Lemma cache_holds_the_last_window_witness :
  ∃ es (s s' : resolver nat), run 0 es s ∧ step s (Returned "k" 0 1 2 (Some 7%nat, None)) s' ∧
    (size (cached s') ≤ 1)%nat.
Proof.
  pose proof (run_step _ _ _ _ _ (run_step _ _ _ _ _ (run_nil 0)
    (misses (V := nat) (fresh 0) "k" 0 ltac:(done) eq_refl))
    (answers (V := nat) {| clock := 0; cached := ∅; calls := [Fetching "k" 0] |} [] "k" 0 [] 1 (Some 7%nat, None) ltac:(done) eq_refl)) as Hr.
  pose proof (returns (V := nat) {| clock := 1; cached := ∅; calls := [Fetched "k" 0 1 (Some 7%nat, None)] |}
    [] "k" 0 1 (Some 7%nat, None) [] 2 ltac:(done) eq_refl) as Hs.
  eexists _, _, _. split; [exact Hr|]. split; [exact Hs|].
  exact (proj2 (cache_holds_the_last_window _ _ _ _ _ _ _ _ _ Hr Hs ltac:(done))).
Defined.
