(* ===== verification/Registry.v ===== *)
(** [internal/registry]: the in-memory store of plugins and of maintenance
    windows. *)

From S2P Require Import Prelude GoStrings Manifest Auth.

(** ** Data *)

(** The parts of [*url.URL] the gateway reads. *)
Record URL := { Scheme : string; Host : string }.

Record PluginInfo := {
  PluginID : string; PluginName : string; info_Version : string;
  info_BaseURL : string; Status : string; info_Routes : nat
}.

(** A reverse proxy is known by the URL its director rewrites requests to. *)
Record PluginEntry := {
  Info : PluginInfo;
  Manifest : Manifest;
  BaseURL : string;
  Target : URL;
  Proxy : URL;
  RegisteredAt : Z;
  LastHeartbeat : Z;
  Alive : bool
}.

Record Maintenance := { Reason : string; Since : Z; Until : Z }.

(** [maint] is keyed by plugin name, [plugins] by plugin id. *)
Record Registry := {
  plugins : gmap string PluginEntry;
  maint : gmap string Maintenance
}.

Definition New : Registry := {| plugins := ∅; maint := ∅ |}.

Definition set_plugins (ps : gmap string PluginEntry) (r : Registry) : Registry :=
  {| plugins := ps; maint := maint r |}.
Definition set_maint (ws : gmap string Maintenance) (r : Registry) : Registry :=
  {| plugins := plugins r; maint := ws |}.

(** ** registry.go *)

(** The entry built by [Register]; [proxyFor] is the dispatcher's factory. *)
Definition new_entry (now : Z) (pluginID name baseURL version : string) (m : Manifest.Manifest)
    (target : URL) (proxyFor : URL → URL) : PluginEntry := {|
  Info := {| PluginID := pluginID; PluginName := name; info_Version := version;
             info_BaseURL := baseURL; Status := "healthy"; info_Routes := length (Routes m) |};
  Manifest := m; BaseURL := baseURL; Target := target; Proxy := proxyFor target;
  RegisteredAt := now; LastHeartbeat := now; Alive := true |}.

(** [None] where [url.Parse] fails and [Register] returns an error. *)
Definition Register (url_Parse : string → option URL) (now : Z)
    (pluginID name baseURL version pluginType : string) (m : Manifest.Manifest)
    (proxyFor : URL → URL) (r : Registry) : option Registry :=
  target ← url_Parse baseURL;
  Some (set_plugins
    (<[pluginID := new_entry now pluginID name baseURL version m target proxyFor]> (plugins r)) r).

Definition beat (now : Z) (e : PluginEntry) : PluginEntry := {|
  Info := {| PluginID := PluginID (Info e); PluginName := PluginName (Info e);
             info_Version := info_Version (Info e); info_BaseURL := info_BaseURL (Info e);
             Status := "healthy"; info_Routes := info_Routes (Info e) |};
  Manifest := Manifest e; BaseURL := BaseURL e; Target := Target e; Proxy := Proxy e;
  RegisteredAt := RegisteredAt e; LastHeartbeat := now; Alive := true |}.

(** [false] is "plugin not found". *)
Definition Heartbeat (now : Z) (pluginID : string) (r : Registry) : Registry * bool :=
  match plugins r !! pluginID with
  | None => (r, false)
  | Some e => (set_plugins (<[pluginID := beat now e]> (plugins r)) r, true)
  end.

Definition Deregister (pluginID : string) (r : Registry) : Registry :=
  set_plugins (delete pluginID (plugins r)) r.

Definition kill (e : PluginEntry) : PluginEntry := {|
  Info := {| PluginID := PluginID (Info e); PluginName := PluginName (Info e);
             info_Version := info_Version (Info e); info_BaseURL := info_BaseURL (Info e);
             Status := "unhealthy"; info_Routes := info_Routes (Info e) |};
  Manifest := Manifest e; BaseURL := BaseURL e; Target := Target e; Proxy := Proxy e;
  RegisteredAt := RegisteredAt e; LastHeartbeat := LastHeartbeat e; Alive := false |}.

Definition MarkDead (pluginID : string) (r : Registry) : Registry :=
  match plugins r !! pluginID with
  | None => r
  | Some e => set_plugins (<[pluginID := kill e]> (plugins r)) r
  end.

Definition Get (pluginID : string) (r : Registry) : option PluginEntry := plugins r !! pluginID.

Section iteration.
Context `{MapOrder}.

Definition List (r : Registry) : list PluginEntry := (range (plugins r)).*2.

Fixpoint first_named (name : string) (es : list (string * PluginEntry)) : option PluginEntry :=
  match es with
  | [] => None
  | (_, e) :: es' =>
      if String.eqb (PluginName (Info e)) name && Alive e then Some e
      else first_named name es'
  end.
Definition FindByName (name : string) (r : Registry) : option PluginEntry :=
  first_named name (range (plugins r)).

Definition IDsByName (name : string) (r : Registry) : list string :=
  (filter (λ kv : string * PluginEntry, PluginName (Info kv.2) = name) (range (plugins r))).*1.

Definition base_url (name : string) (r : Registry) : option string :=
  BaseURL <$> FindByName name r.

Definition GetManifest (name : string) (r : Registry) : option Manifest.Manifest :=
  Manifest <$> FindByName name r.

Fixpoint surface_in (surface : string) (ss : list DomainSurface) : option DomainSurface :=
  match ss with
  | [] => None
  | s :: ss' => if String.eqb (Surface s) surface then Some s else surface_in surface ss'
  end.
Fixpoint first_surface (surface : string) (es : list (string * PluginEntry)) :
    option (PluginEntry * DomainSurface) :=
  match es with
  | [] => None
  | (_, e) :: es' =>
      if Alive e then
        match surface_in surface (DomainSurfaces (Manifest e)) with
        | Some s => Some (e, s)
        | None => first_surface surface es'
        end
      else first_surface surface es'
  end.
Definition FindByDomainSurface (surface : string) (r : Registry) :
    option (PluginEntry * DomainSurface) := first_surface surface (range (plugins r)).
End iteration.

(** ** maintenance.go *)

Definition maxMaintenance : Z := 15 * Minute.

(** [now] and [now'] are the two readings of the clock. *)
Definition SetMaintenance (now now' : Z) (pluginName reason : string) (d : Z) (r : Registry) :
    Registry * Maintenance :=
  let d := if (d <=? 0) || (maxMaintenance <? d) then maxMaintenance else d in
  let since :=
    match maint r !! pluginName with
    | Some prev => if now' <? Until prev then Since prev else now
    | None => now
    end in
  let w := {| Reason := reason; Since := since; Until := now + d |} in
  (set_maint (<[pluginName := w]> (maint r)) r, w).

Definition ClearMaintenance (pluginName : string) (r : Registry) : Registry :=
  set_maint (delete pluginName (maint r)) r.

(** The read and the drop of an expired window are two critical sections. *)
Definition read_window (pluginName : string) (r : Registry) : option Maintenance :=
  maint r !! pluginName.
Definition MaintenanceFor (now : Z) (pluginName : string) (r : Registry) :
    Registry * option Maintenance :=
  match read_window pluginName r with
  | None => (r, None)
  | Some w => if Until w <? now then (ClearMaintenance pluginName r, None) else (r, Some w)
  end.

(** [Maintenances]: a snapshot of the names, then one look-up each. *)
Fixpoint collect (now : Z) (names : list string) (r : Registry) (out : gmap string Maintenance) :
    Registry * gmap string Maintenance :=
  match names with
  | [] => (r, out)
  | n :: names' =>
      let '(r, w) := MaintenanceFor now n r in
      collect now names' r (match w with Some w => <[n := w]> out | None => out end)
  end.
Definition Maintenances `{MapOrder} (now : Z) (r : Registry) :
    Registry * gmap string Maintenance :=
  collect now (range (maint r)).*1 r ∅.

(** ** The store's invariant *)

(** Entries sit under their own id, and a plugin is marked healthy exactly when
    it is alive. *)
Definition entry_ok (id : string) (e : PluginEntry) : Prop :=
  PluginID (Info e) = id ∧ BaseURL e = info_BaseURL (Info e) ∧ Proxy e = Target e ∧
  Status (Info e) = (if Alive e then "healthy" else "unhealthy").
Definition store_ok (r : Registry) : Prop := map_Forall entry_ok (plugins r).

Lemma New_store_ok : store_ok New.
Proof. apply map_Forall_empty. Qed.

Lemma Register_store_ok parse now id name url v ty m r r' :
  store_ok r → Register parse now id name url v ty m (λ t, t) r = Some r' → store_ok r'.
Proof.
  intros Hr H. unfold Register in H. destruct (parse url) as [t|]; [|done].
  injection H as <-. by apply map_Forall_insert_2.
Qed.
Lemma Heartbeat_store_ok now id r : store_ok r → store_ok (Heartbeat now id r).1.
Proof.
  intros Hr. unfold Heartbeat. destruct (plugins r !! id) as [e|] eqn:E; [|done].
  apply map_Forall_insert_2; [|done]. destruct (Hr id e E) as (? & ? & ? & _). done.
Qed.
Lemma MarkDead_store_ok id r : store_ok r → store_ok (MarkDead id r).
Proof.
  intros Hr. unfold MarkDead. destruct (plugins r !! id) as [e|] eqn:E; [|done].
  apply map_Forall_insert_2; [|done]. destruct (Hr id e E) as (? & ? & ? & _). done.
Qed.
Lemma Deregister_store_ok id r : store_ok r → store_ok (Deregister id r).
Proof. apply map_Forall_delete. Qed.
#[export] Hint Resolve New_store_ok Register_store_ok Heartbeat_store_ok MarkDead_store_ok
  Deregister_store_ok : gateway.

(** A registry with two plugins, to evaluate theorems on. *)
Definition demo_entry (id name : string) (m : Manifest.Manifest) : PluginEntry :=
  new_entry 0 id name "http://10.0.0.5:9000" "1.0" m
    {| Scheme := "http"; Host := "10.0.0.5:9000" |} (λ t, t).
Definition demo_registry (m m' : Manifest.Manifest) : Registry := {|
  plugins := <["pos-1" := demo_entry "pos-1" "pos" m]> {["crm-1" := demo_entry "crm-1" "crm" m']};
  maint := ∅ |}.
Lemma demo_registry_ok m m' : store_ok (demo_registry m m').
Proof. apply map_Forall_insert_2; [done|]. by apply map_Forall_singleton. Qed.

(** ** Look-ups *)

Section lookups.
Context `{MapOrder}.

Lemma first_named_Some name es e :
  first_named name es = Some e → e ∈ es.*2 ∧ PluginName (Info e) = name ∧ Alive e = true.
Proof.
  induction es as [|[id e'] es IH]; simpl; [done|].
  destruct (String.eqb _ _ && _) eqn:E.
  - intros [= ->]. bool_simpl. split; [constructor|done].
  - intros Hf. destruct (IH Hf) as (? & ? & ?). split; [by right|done].
Qed.
Lemma first_named_None name es e :
  first_named name es = None → e ∈ es.*2 → PluginName (Info e) = name → Alive e = false.
Proof.
  induction es as [|[id e'] es IH]; simpl; [by intros _ ?%not_elem_of_nil|].
  destruct (String.eqb _ _ && _) eqn:E; [done|].
  intros Hf [->|Hin]%elem_of_cons Hn; [|auto].
  rewrite (proj2 (String.eqb_eq _ _) Hn) in E. done.
Qed.

Lemma elem_of_List r e : e ∈ List r ↔ ∃ id, plugins r !! id = Some e.
Proof.
  unfold List. rewrite list_elem_of_fmap. split.
  - intros ([id e'] & -> & Hin). exists id. by apply elem_of_range.
  - intros [id Hid]. exists (id, e). split; [done|]. by apply elem_of_range.
Qed.

Lemma List_ids r : store_ok r → (λ e, PluginID (Info e)) <$> List r = (range (plugins r)).*1.
Proof.
  intros Hok. unfold List. rewrite <- list_fmap_compose. apply list_fmap_ext.
  intros i [id e] Hi. apply list_elem_of_lookup_2, elem_of_range in Hi.
  simpl. by destruct (Hok id e Hi).
Qed.
Lemma List_ids_NoDup r : store_ok r → NoDup ((λ e, PluginID (Info e)) <$> List r).
Proof. intros Hok. rewrite List_ids by done. apply NoDup_range. Qed.

Lemma FindByName_Some name r e :
  FindByName name r = Some e →
  ∃ id, plugins r !! id = Some e ∧ PluginName (Info e) = name ∧ Alive e = true.
Proof.
  intros (Hin & ? & ?)%first_named_Some. apply elem_of_List in Hin as [id ?]. eauto.
Qed.
Lemma FindByName_None name r id e :
  FindByName name r = None → plugins r !! id = Some e → PluginName (Info e) = name →
  Alive e = false.
Proof.
  intros Hf Hid. apply (first_named_None _ _ _ Hf). apply elem_of_List. eauto.
Qed.

Lemma elem_of_IDsByName name r id :
  id ∈ IDsByName name r ↔ ∃ e, plugins r !! id = Some e ∧ PluginName (Info e) = name.
Proof.
  unfold IDsByName. rewrite list_elem_of_fmap. split.
  - intros ([id' e] & -> & [Hn Hin]%list_elem_of_filter). exists e.
    split; [by apply elem_of_range|done].
  - intros (e & He & Hn). exists (id, e). split; [done|]. apply list_elem_of_filter.
    split; [done|]. by apply elem_of_range.
Qed.

(** The registry answers the resolvers' question. *)
#[export] Program Instance registry_lookup : BaseURLLookup Registry := {|
  GetBaseURL r name := base_url name r;
  serves r name url :=
    ∃ id e, plugins r !! id = Some e ∧ PluginName (Info e) = name ∧ Alive e = true ∧
            BaseURL e = url
|}.
Next Obligation.
  simpl. intros r name url (e & Hf & ->)%fmap_Some.
  apply FindByName_Some in Hf as (id & ? & ? & ?). eauto 6.
Qed.
Next Obligation.
  simpl. intros r name Hf%fmap_None url (id & e & Hid & Hn & Ha & _).
  rewrite (FindByName_None name r id e Hf Hid Hn) in Ha. done.
Qed.
End lookups.

(** A plugin's liveness follows its last event: it can be found by name right
    after it registers, not while it is marked dead, and again after a heartbeat;
    a heartbeat for an id that is not registered reports "not found" and changes
    nothing.  No event touches another plugin's entry. *)
Theorem liveness_follows_events parse now id name url v ty m target r r' :
  parse url = Some target →
  Register parse now id name url v ty m (λ t, t) r = Some r' →
  (∃ e, plugins r' !! id = Some e ∧ Alive e = true ∧ PluginName (Info e) = name) ∧
  (∃ e, plugins (MarkDead id r') !! id = Some e ∧ Alive e = false) ∧
  (∀ t, (Heartbeat t id (MarkDead id r')).2 = true ∧
        ∃ e, plugins (Heartbeat t id (MarkDead id r')).1 !! id = Some e ∧ Alive e = true ∧
             LastHeartbeat e = t ∧ Manifest e = m) ∧
  (∀ t, Heartbeat t id (Deregister id r') = (Deregister id r', false)) ∧
  (∀ id' t, id' ≠ id →
     plugins r' !! id' = plugins r !! id' ∧
     plugins (MarkDead id r') !! id' = plugins r !! id' ∧
     plugins (Heartbeat t id r').1 !! id' = plugins r !! id' ∧
     plugins (Deregister id r') !! id' = plugins r !! id').
Proof.
  intros Hp H. unfold Register in H. rewrite Hp in H. injection H as <-.
  unfold MarkDead, Heartbeat, Deregister. cbn [plugins set_plugins].
  rewrite !lookup_insert_eq, lookup_delete_eq. cbn [plugins set_plugins].
  rewrite !lookup_insert_eq. cbn [fst snd plugins set_plugins].
  split_and!; eauto.
  - intros t. rewrite !lookup_insert_eq. eauto 10.
  - intros id' t Hne. rewrite !lookup_insert_ne, lookup_delete_ne, lookup_insert_ne by done.
    done.
Qed.

Lemma liveness_follows_events_witness :
  let parse := λ s, Some {| Scheme := "http"; Host := s |} in
  ∃ r', Register parse 5 "pos-1" "pos" "h:1" "1.0" "internal" empty_manifest (λ t, t) New = Some r' ∧
        (Heartbeat 9 "pos-1" (MarkDead "pos-1" r')).2 = true.
Proof.
  intros parse. eexists. split; [reflexivity|].
  destruct (liveness_follows_events parse 5 "pos-1" "pos" "h:1" "1.0" "internal" empty_manifest
    {| Scheme := "http"; Host := "h:1" |} New _ eq_refl eq_refl) as (_ & _ & Hb & _).
  exact (proj1 (Hb 9)).
Defined.

Section surfaces.
Context `{MapOrder}.

Lemma surface_in_Some surface ss s :
  surface_in surface ss = Some s → s ∈ ss ∧ Surface s = surface.
Proof.
  induction ss as [|s' ss IH]; simpl; [done|].
  destruct (String.eqb _ _) eqn:E.
  - intros [= ->]. bool_simpl. split; [constructor|done].
  - intros Hs. destruct (IH Hs). split; [by right|done].
Qed.
Lemma surface_in_None surface ss s :
  surface_in surface ss = None → s ∈ ss → Surface s ≠ surface.
Proof.
  induction ss as [|s' ss IH]; simpl; [by intros _ ?%not_elem_of_nil|].
  destruct (String.eqb _ _) eqn:E; [done|].
  intros Hs [->|?]%elem_of_cons; [by bool_simpl|auto].
Qed.

(** A custom-domain surface resolves only to a live plugin that declares it,
    and it resolves whenever some live plugin does. *)
Theorem FindByDomainSurface_spec surface r :
  match FindByDomainSurface surface r with
  | Some (e, s) =>
      ∃ id, plugins r !! id = Some e ∧ Alive e = true ∧
            s ∈ DomainSurfaces (Manifest e) ∧ Surface s = surface
  | None =>
      ∀ id e s, plugins r !! id = Some e → Alive e = true →
                s ∈ DomainSurfaces (Manifest e) → Surface s ≠ surface
  end.
Proof.
  unfold FindByDomainSurface.
  assert (∀ id e, (id, e) ∈ range (plugins r) ↔ plugins r !! id = Some e) as Hr
    by (intros; apply elem_of_range).
  assert (∀ es, match first_surface surface es with
    | Some (e, s) => ∃ id, (id, e) ∈ es ∧ Alive e = true ∧
                      s ∈ DomainSurfaces (Manifest e) ∧ Surface s = surface
    | None => ∀ id e s, (id, e) ∈ es → Alive e = true →
                s ∈ DomainSurfaces (Manifest e) → Surface s ≠ surface
    end) as Hes.
  { induction es as [|[id e] es IH]; simpl; [by intros ??? ?%not_elem_of_nil|].
    destruct (Alive e) eqn:Ha;
      [destruct (surface_in surface (DomainSurfaces (Manifest e))) as [s|] eqn:Es|].
    - apply surface_in_Some in Es as [? ?]. exists id. split; [constructor|done].
    - destruct (first_surface surface es) as [[e' s']|].
      + destruct IH as (id' & ? & ?). exists id'. split; [by right|done].
      + intros id' e' s' [[= -> ->]|?]%elem_of_cons; [|eauto].
        intros _ Hin. by eapply surface_in_None.
    - destruct (first_surface surface es) as [[e' s']|].
      + destruct IH as (id' & ? & ?). exists id'. split; [by right|done].
      + intros id' e' s' [[= -> ->]|?]%elem_of_cons; [congruence|eauto]. }
  specialize (Hes (range (plugins r))).
  destruct (first_surface surface (range (plugins r))) as [[e s]|].
  - destruct Hes as (id & Hin & ?). exists id. by rewrite <- Hr.
  - intros id e s Hid. by apply (Hes id), Hr.
Qed.
End surfaces.

(** ** Maintenance windows *)

(** C36: However long a window is asked for (zero, negative or excessive), the one
    opened lies in the next fifteen minutes and closes on its own: the plugin is
    reported under maintenance up to its end, and from the first nanosecond
    after it the window is gone from the store.  Re-opening an open window keeps
    the time it started; other plugins' windows are untouched. *)
Theorem maintenance_window_expires now now' name reason d r :
  let '(r', w) := SetMaintenance now now' name reason d r in
  now < Until w ≤ now + maxMaintenance ∧
  (0 < d ≤ maxMaintenance → Until w = now + d) ∧
  (∀ prev, maint r !! name = Some prev → now' < Until prev → Since w = Since prev) ∧
  (∀ t, t ≤ Until w → MaintenanceFor t name r' = (r', Some w)) ∧
  (∀ t, Until w < t → MaintenanceFor t name r' = (ClearMaintenance name r', None) ∧
                      maint (ClearMaintenance name r') !! name = None) ∧
  (∀ other, other ≠ name → maint r' !! other = maint r !! other).
Proof.
  unfold SetMaintenance. cbv zeta. unfold maxMaintenance, Minute, Second.
  set (dd := if (d <=? 0) || (15 * (60 * 1000000000) <? d) then _ else d).
  assert (0 < dd ≤ 15 * (60 * 1000000000) ∧
          (0 < d ≤ 15 * (60 * 1000000000) → dd = d)) as [Hd1 Hd2].
  { unfold dd. destruct (Z.leb_spec d 0), (Z.ltb_spec (15 * (60 * 1000000000)) d); simpl; lia. }
  cbn [Until Since]. split_and!; [lia|lia|..].
  - intros; rewrite Hd2 by done. done.
  - intros prev -> Hlt. by rewrite (proj2 (Z.ltb_lt _ _) Hlt).
  - intros t Ht. unfold MaintenanceFor, read_window. cbn [maint set_maint].
    rewrite lookup_insert_eq. cbn [Until]. by destruct (Z.ltb_spec (now + dd) t); [lia|].
  - intros t Ht. unfold MaintenanceFor, read_window, ClearMaintenance. cbn [maint set_maint].
    rewrite lookup_insert_eq, lookup_delete_eq. cbn [Until].
    by destruct (Z.ltb_spec (now + dd) t); [|lia].
  - intros other Hne. cbn [maint set_maint]. by rewrite lookup_insert_ne.
Qed.

(** A window that is still open at [now]. *)
Definition open_at (now : Z) (w : Maintenance) : Prop := ¬ Until w < now.
#[export] Instance open_at_dec now w : Decision (open_at now w).
Proof. unfold open_at. apply _. Defined.
Definition open_windows (now : Z) (r : Registry) : gmap string Maintenance :=
  filter (λ kv : string * Maintenance, open_at now kv.2) (maint r).

Lemma MaintenanceFor_maint now n r :
  maint (MaintenanceFor now n r).1 =
    match maint r !! n with
    | Some w => if decide (open_at now w) then maint r else delete n (maint r)
    | None => maint r
    end ∧
  (MaintenanceFor now n r).2 =
    match maint r !! n with
    | Some w => if decide (open_at now w) then Some w else None
    | None => None
    end ∧
  plugins (MaintenanceFor now n r).1 = plugins r.
Proof.
  unfold MaintenanceFor, read_window. destruct (maint r !! n) as [w|]; [|done].
  destruct (Z.ltb_spec (Until w) now); case_decide as Ho; unfold open_at in Ho; simpl; done || lia.
Qed.

Lemma collect_spec now names r out :
  NoDup names →
  let res := collect now names r out in
  plugins res.1 = plugins r ∧
  ∀ k, maint res.1 !! k =
         (if decide (k ∈ names) then open_windows now r !! k else maint r !! k) ∧
       res.2 !! k =
         (if decide (k ∈ names) then open_windows now r !! k ∪ out !! k else out !! k).
Proof.
  revert r out. induction names as [|n names IH]; intros r out Hnd; simpl.
  - split; [done|]. intros k.
    destruct (decide (k ∈ ([] : list string))) as [Hk|]; [by apply not_elem_of_nil in Hk|done].
  - apply NoDup_cons in Hnd as [Hn Hnd].
    destruct (MaintenanceFor_maint now n r) as (Hm & Hw & Hp).
    destruct (MaintenanceFor now n r) as [r1 w]. simpl in Hm, Hw, Hp.
    set (out1 := match w with Some w => <[n:=w]> out | None => out end).
    destruct (IH r1 out1 Hnd) as [IHp IHk]. split; [by rewrite IHp|]. intros k.
    destruct (IHk k) as [-> ->].
    assert (open_windows now r1 !! k = open_windows now r !! k ∧
            (k = n → maint r1 !! k = open_windows now r !! k) ∧
            (k ≠ n → maint r1 !! k = maint r !! k)) as (E1 & E2 & E3).
    { unfold open_windows. rewrite Hm, !map_lookup_filter.
      destruct (maint r !! n) as [v|] eqn:Ev.
      - case_decide as Ho; [split_and!; try done|].
        + intros ->. rewrite Ev. simpl. by rewrite option_guard_True.
        + destruct (decide (k = n)) as [->|Hkn].
          * rewrite lookup_delete_eq, Ev. simpl. by rewrite option_guard_False.
          * by rewrite lookup_delete_ne by done.
      - split_and!; try done. intros ->. by rewrite Ev. }
    rewrite E1. destruct (decide (k = n)) as [->|Hkn].
    + rewrite !(decide_False (P := n ∈ names)) by done.
      rewrite !(decide_True (P := n ∈ n :: names)) by constructor.
      split; [by apply E2|]. unfold out1, open_windows. rewrite Hw, map_lookup_filter.
      destruct (maint r !! n) as [v|]; simpl; [|by destruct (out !! n)].
      case_decide as Ho.
      * rewrite lookup_insert_eq, option_guard_True by done. by destruct (out !! n).
      * rewrite option_guard_False by done. by destruct (out !! n).
    + assert (out1 !! k = out !! k) as -> by
        (unfold out1; destruct w; [by rewrite lookup_insert_ne|done]).
      rewrite E3 by done.
      destruct (decide (k ∈ names)) as [Hin|Hin].
      * by rewrite !decide_True by (by right).
      * by rewrite !decide_False by (rewrite elem_of_cons; tauto).
Qed.

Lemma Maintenances_plugins `{MapOrder} now r : plugins (Maintenances now r).1 = plugins r.
Proof. apply collect_spec, NoDup_range. Qed.

(** The maintenance listing is exactly the open windows, and building it drops
    exactly the expired ones, whatever order the map is walked in. *)
Theorem Maintenances_lists_open_windows `{MapOrder} now r :
  (Maintenances now r).2 = open_windows now r ∧
  maint (Maintenances now r).1 = open_windows now r ∧
  plugins (Maintenances now r).1 = plugins r.
Proof.
  unfold Maintenances.
  destruct (collect_spec now (range (maint r)).*1 r ∅ (NoDup_range _)) as [Hp Hk].
  assert (∀ k, k ∉ (range (maint r)).*1 → maint r !! k = None) as Hdom.
  { intros k Hk'. apply eq_None_not_Some. intros [w Hw]. apply Hk'.
    apply list_elem_of_fmap. exists (k, w). split; [done|]. by apply elem_of_range. }
  assert (∀ k, k ∉ (range (maint r)).*1 → open_windows now r !! k = None) as Hopen.
  { intros k Hk'. unfold open_windows. rewrite map_lookup_filter. by rewrite Hdom. }
  split_and!; [apply map_eq; intros k; destruct (Hk k) as [_ ->]
    |apply map_eq; intros k; destruct (Hk k) as [-> _]|done].
  - rewrite lookup_empty. case_decide as Hin; [by destruct (open_windows now r !! k)|].
    by rewrite Hopen.
  - case_decide as Hin; [done|]. by rewrite Hdom, Hopen.
Qed.

(** Dropping an expired window is not atomic with finding it expired: if the
    window is re-opened between the two critical sections of [MaintenanceFor],
    the new window is deleted and the plugin is reachable during the work it was
    to protect. *)
Theorem reopened_window_is_lost :
  ∃ r w now,
    read_window "pos" r = Some w ∧ Until w < now ∧
    (* another handler opens a new window before the lock is taken again *)
    let '(r1, w1) := SetMaintenance now now "pos" "migrate" (10 * Minute) r in
    now < Until w1 ∧
    (* the first handler now runs the second half of MaintenanceFor *)
    read_window "pos" (ClearMaintenance "pos" r1) = None.
Proof.
  exists {| plugins := ∅; maint := {["pos" := {| Reason := "old"; Since := 0; Until := 5 |}]} |},
    {| Reason := "old"; Since := 0; Until := 5 |}, 6.
  by vm_compute.
Qed.
