(* ===== verification/Entries.v ===== *)
(** [internal/registry/registry.go] with its pointers: [r.plugins] maps an id to a
    [*PluginEntry], [Get] and [List] hand that pointer out, and [Heartbeat] and
    [MarkDead] write through it, also under a request that still holds it. *)

From S2P Require Import Prelude GoStrings Manifest Protection Auth Registry.

(** A pointer to an entry; entries are never freed while one is held. *)
#[local] Abbreviation ptr := nat.
Record PRegistry := { heap : list PluginEntry; table : gmap string ptr }.

Definition New : PRegistry := {| heap := []; table := ∅ |}.

(** [r.plugins[pluginID] = &PluginEntry{...}] *)
Definition Register (url_Parse : string → option URL) (now : Z)
    (pluginID name baseURL version pluginType : string) (m : Manifest.Manifest)
    (proxyFor : URL → URL) (r : PRegistry) : option PRegistry :=
  target ← url_Parse baseURL;
  Some {| heap := app (heap r) [new_entry now pluginID name baseURL version m target proxyFor];
          table := <[pluginID := length (heap r)]> (table r) |}.

Definition Get (pluginID : string) (r : PRegistry) : option ptr := table r !! pluginID.
Definition List `{MapOrder} (r : PRegistry) : list ptr := (range (table r)).*2.
Definition load (p : ptr) (r : PRegistry) : option PluginEntry := heap r !! p.

(** [entry.Alive = true] and what goes with it *)
Definition store (p : ptr) (f : PluginEntry → PluginEntry) (r : PRegistry) : PRegistry :=
  {| heap := alter f p (heap r); table := table r |}.

Definition Heartbeat (now : Z) (pluginID : string) (r : PRegistry) : PRegistry * bool :=
  match Get pluginID r with
  | None => (r, false)
  | Some p => (store p (beat now) r, true)
  end.
Definition MarkDead (pluginID : string) (r : PRegistry) : PRegistry :=
  match Get pluginID r with
  | None => r
  | Some p => store p kill r
  end.
Definition Deregister (pluginID : string) (r : PRegistry) : PRegistry :=
  {| heap := heap r; table := delete pluginID (table r) |}.

(** ** Refinement *)

(** The entries the ids lead to. *)
Definition view (r : PRegistry) : gmap string PluginEntry := omap (λ p, heap r !! p) (table r).

(** Pointers lead somewhere, and no two ids to the same entry. *)
Record heap_ok (r : PRegistry) : Prop := {
  in_heap id p : table r !! id = Some p → (p < length (heap r))%nat;
  unshared id id' p : table r !! id = Some p → table r !! id' = Some p → id = id'
}.

(** The pointers stand for the registry of [Registry]. *)
Definition refines (r : PRegistry) (s : Registry) : Prop := heap_ok r ∧ plugins s = view r.

Lemma view_lookup r id : view r !! id = (p ← table r !! id; heap r !! p).
Proof. apply lookup_omap. Qed.

Lemma New_refines : refines New Registry.New.
Proof.
  split; [split; cbn; by intros * ?%lookup_empty_Some|]. apply map_eq. intros id.
  rewrite view_lookup. cbn. by rewrite !lookup_empty.
Qed.

Lemma view_insert r id e m :
  heap_ok r → m = <[id := length (heap r)]> (table r) →
  heap_ok {| heap := app (heap r) [e]; table := m |} ∧
  view {| heap := app (heap r) [e]; table := m |} = <[id := e]> (view r).
Proof.
  intros [Hin Hun] ->. split; [split; cbn|apply map_eq; intros i; rewrite view_lookup; cbn].
  - intros i p. rewrite length_app, lookup_insert_Some. cbn. intros [[_ <-]|[_ ?%Hin]]; lia.
  - intros i i' p. rewrite !lookup_insert_Some. intros [[<- <-]|[? Hi]] [[<- E]|[? Hi']]; [done| | |by eapply Hun].
    + apply Hin in Hi'. lia.
    + subst p. apply Hin in Hi. lia.
  - destruct (decide (i = id)) as [->|Hne].
    + rewrite !lookup_insert_eq. cbn. by rewrite lookup_app_r, Nat.sub_diag by lia.
    + rewrite !lookup_insert_ne, view_lookup by done. destruct (table r !! i) as [p|] eqn:E; [|done].
      cbn. by rewrite lookup_app_l by eauto.
Qed.
Lemma view_store r id p f :
  heap_ok r → table r !! id = Some p → heap_ok (store p f r) ∧ view (store p f r) = alter f id (view r).
Proof.
  intros [Hin Hun] Hid. split; [split; cbn; rewrite ?length_alter; eauto|].
  apply map_eq. intros i. rewrite view_lookup. cbn. destruct (decide (i = id)) as [->|Hne].
  - rewrite lookup_alter_eq, view_lookup, Hid. apply list_lookup_alter_eq.
  - rewrite lookup_alter_ne, view_lookup by done. destruct (table r !! i) as [q|] eqn:E; [|done]. cbn.
    apply list_lookup_alter_ne. intros ->. eauto.
Qed.

(** What changes the registry, by one call each. *)
Inductive op :=
| Registering (now : Z) (id name url version ty : string) (m : Manifest.Manifest)
| Beating (now : Z) (id : string)
| Killing (id : string)
| Removing (id : string).

Section runs.
Context (url_Parse : string → option URL) (proxyFor : URL → URL).

Definition exec (r : PRegistry) (o : op) : PRegistry :=
  match o with
  | Registering now id name url version ty m =>
      default r (Register url_Parse now id name url version ty m proxyFor r)
  | Beating now id => (Heartbeat now id r).1
  | Killing id => MarkDead id r
  | Removing id => Deregister id r
  end.
Definition spec (s : Registry) (o : op) : Registry :=
  match o with
  | Registering now id name url version ty m =>
      default s (Registry.Register url_Parse now id name url version ty m proxyFor s)
  | Beating now id => (Registry.Heartbeat now id s).1
  | Killing id => Registry.MarkDead id s
  | Removing id => Registry.Deregister id s
  end.

Lemma Get_view id r s :
  refines r s → Registry.Get id s = (p ← Get id r; load p r).
Proof. intros [_ Hv]. unfold Registry.Get. by rewrite Hv, view_lookup. Qed.
(** An id that is there leads to an entry. *)
Lemma Get_Some id p r s : refines r s → Get id r = Some p → is_Some (plugins s !! id).
Proof.
  intros [[Hin _] Hv] Hp. rewrite Hv, view_lookup. unfold Get in Hp. rewrite Hp. cbn.
  apply lookup_lt_is_Some. by eapply Hin.
Qed.

Lemma store_refines id p f r s e :
  refines r s → Get id r = Some p → plugins s !! id = Some e →
  refines (store p f r) (set_plugins (<[id := f e]> (plugins s)) s).
Proof.
  intros [Hok Hv] Hp He. destruct (view_store r id p f Hok Hp) as [Hok' Hv']. split; [done|].
  rewrite Hv', <- Hv. cbn. apply map_eq. intros i. destruct (decide (i = id)) as [->|].
  - by rewrite lookup_insert_eq, lookup_alter_eq, He.
  - by rewrite lookup_insert_ne, lookup_alter_ne.
Qed.

Lemma exec_refines r s o : refines r s → refines (exec r o) (spec s o).
Proof.
  intros Hr. destruct o as [now id name url version ty m|now id|id|id]; cbn [exec spec].
  - unfold Register, Registry.Register. destruct (url_Parse url) as [target|]; [|done]. cbn [mbind option_bind default].
    destruct Hr as [Hok Hv]. destruct (view_insert r id (new_entry now id name url version m target proxyFor) _ Hok eq_refl).
    split; [done|]. cbn. symmetry. by rewrite Hv.
  - unfold Heartbeat, Registry.Heartbeat. destruct (Get id r) as [p|] eqn:Hp.
    + destruct (Get_Some _ _ _ _ Hr Hp) as [e He]. rewrite He. by apply store_refines.
    + pose proof (Get_view id _ _ Hr) as Hg. rewrite Hp in Hg. unfold Registry.Get in Hg. by rewrite Hg.
  - unfold MarkDead, Registry.MarkDead. destruct (Get id r) as [p|] eqn:Hp.
    + destruct (Get_Some _ _ _ _ Hr Hp) as [e He]. rewrite He. by apply store_refines.
    + pose proof (Get_view id _ _ Hr) as Hg. rewrite Hp in Hg. unfold Registry.Get in Hg. by rewrite Hg.
  - destruct Hr as [[Hin Hun] Hv]. split; [split; cbn|].
    + by intros i p [_ ?]%lookup_delete_Some; eauto.
    + intros i i' p [_ ?]%lookup_delete_Some [_ ?]%lookup_delete_Some. eauto.
    + change (delete id (plugins s) = view (Deregister id r)). rewrite Hv. apply map_eq. intros i. rewrite view_lookup. cbn [heap table Deregister].
      destruct (decide (i = id)) as [->|Hne]; [by rewrite !lookup_delete_eq|].
      rewrite !(lookup_delete_ne _ id) by done. apply view_lookup.
Qed.
Lemma run_refines os r s : refines r s → refines (foldl exec r os) (foldl spec s os).
Proof. revert r s. induction os as [|o os IH]; intros r s Hr; [done|]. by apply IH, exec_refines. Qed.

(** What of an entry no operation writes. *)
Definition fixed (e : PluginEntry) :=
  (PluginID (Info e), PluginName (Info e), info_Version (Info e), info_Routes (Info e), Manifest e,
   BaseURL e, Target e, Proxy e, RegisteredAt e).

Lemma exec_fixed r o p e : load p r = Some e → ∃ e', load p (exec r o) = Some e' ∧ fixed e' = fixed e.
Proof.
  intros He. assert (∀ q f, (∀ e, fixed (f e) = fixed e) → ∃ e', load p (store q f r) = Some e' ∧ fixed e' = fixed e) as Hst.
  { intros q f Hf. unfold load, store in *. cbn. destruct (decide (q = p)) as [->|].
    - rewrite list_lookup_alter_eq, He. eexists. split; [done|]. apply Hf.
    - rewrite list_lookup_alter_ne by done. eauto. }
  destruct o as [now id name url version ty m|now id|id|id]; cbn [exec].
  - unfold Register. destruct (url_Parse url); cbn [mbind option_bind default]; [|eauto].
    exists e. split; [|done]. by apply lookup_app_l_Some.
  - unfold Heartbeat. destruct (Get id r); [by apply Hst|eauto].
  - unfold MarkDead. destruct (Get id r); [by apply Hst|eauto].
  - eauto.
Qed.
Lemma run_fixed os r p e : load p r = Some e → ∃ e', load p (foldl exec r os) = Some e' ∧ fixed e' = fixed e.
Proof.
  revert r e. induction os as [|o os IH]; intros r e He; [eauto|]. cbn [foldl].
  destruct (exec_fixed r o p e He) as (e1 & He1 & Hf1). destruct (IH _ _ He1) as (e2 & He2 & Hf2).
  exists e2. split; [done|]. congruence.
Qed.

(** Once no id leads to an entry, none will again, and it is not written. *)
Lemma exec_orphan r o p e :
  heap_ok r → load p r = Some e → (∀ id, Get id r ≠ Some p) →
  load p (exec r o) = Some e ∧ ∀ id, Get id (exec r o) ≠ Some p.
Proof.
  intros Hok He Ho. assert (∀ id q f, Get id r = Some q → load p (store q f r) = Some e) as Hst.
  { intros id q f Hq. unfold load, store in *. cbn. rewrite list_lookup_alter_ne; [done|]. intros ->. by eapply Ho. }
  destruct o as [now id name url version ty m|now id|id|id]; cbn [exec].
  - unfold Register. destruct (url_Parse url); cbn [mbind option_bind default]; [|done]. unfold load, Get in *. cbn.
    split; [by apply lookup_app_l_Some|]. intros i. destruct (decide (i = id)) as [->|].
    + rewrite lookup_insert_eq. intros [= <-]. apply lookup_lt_Some in He. lia.
    + by rewrite lookup_insert_ne.
  - unfold Heartbeat. destruct (Get id r) eqn:E; [|done]. split; [by eapply Hst|done].
  - unfold MarkDead. destruct (Get id r) eqn:E; [|done]. split; [by eapply Hst|done].
  - split; [done|]. intros i. unfold Get. cbn. destruct (decide (i = id)) as [->|].
    + by rewrite lookup_delete_eq.
    + rewrite lookup_delete_ne by done. apply Ho.
Qed.
Lemma run_orphan os r s p e :
  refines r s → load p r = Some e → (∀ id, Get id r ≠ Some p) →
  load p (foldl exec r os) = Some e ∧ ∀ id, Get id (foldl exec r os) ≠ Some p.
Proof.
  revert r s. induction os as [|o os IH]; intros r s Hr He Ho; [done|]. cbn [foldl].
  destruct (exec_orphan r o p e (proj1 Hr) He Ho) as [He' Ho']. by apply (IH _ (spec s o)); [apply exec_refines|..].
Qed.

(** C22: The registry of pointers is the registry of values: whatever calls have been
    made, in whatever order, an id leads to the entry the map of values holds.
    And a request may keep using the entry it looked up, outside the lock and
    through any later calls: its plugin, manifest, address and proxy stay those
    it read, only the liveness moves; once its plugin is deregistered not even
    that, and no call reaches the entry again. *)
Theorem pointers_refine_values os os' id p :
  let r := foldl exec New os in
  let r' := foldl exec r os' in
  (∀ i, Registry.Get i (foldl spec Registry.New os) = (q ← Get i r; load q r)) ∧
  (Get id r = Some p →
   ∃ e e', load p r = Some e ∧ plugins (foldl spec Registry.New os) !! id = Some e ∧
     load p r' = Some e' ∧ fixed e' = fixed e ∧
     let gone := foldl exec (Deregister id r) os' in
     load p gone = Some e ∧ ∀ i, Get i gone ≠ Some p).
Proof.
  intros r r'. assert (refines r (foldl spec Registry.New os)) as Hr by apply run_refines, New_refines.
  split; [intros i; by apply Get_view|]. intros Hp. destruct (Get_Some _ _ _ _ Hr Hp) as [e He].
  pose proof (Get_view id _ _ Hr) as Hg. unfold Registry.Get in Hg. rewrite Hp, He in Hg. symmetry in Hg. cbn in Hg.
  destruct (run_fixed os' r p e Hg) as (e' & He' & Hf). exists e, e'. split_and!; [done..|].
  apply (run_orphan os' (Deregister id r) (Registry.Deregister id (foldl spec Registry.New os))).
  - by apply (exec_refines _ _ (Removing id)).
  - exact Hg.
  - intros i. unfold Get, Deregister. cbn. destruct (decide (i = id)) as [->|]; [by rewrite lookup_delete_eq|].
    rewrite lookup_delete_ne by done. intros Hi. destruct Hr as [[_ Hun] _].
    by apply (Hun _ _ _ Hi) in Hp.
Qed.
End runs.

Definition demo_parse (s : string) : option URL := Some {| Scheme := "http"; Host := s |}.
Lemma pointers_refine_values_witness :
  let os := [Registering 5 "pos-1" "pos" "h:1" "1.0" "internal" empty_manifest] in
  let r := foldl (exec demo_parse (λ t, t)) New os in
  Get "pos-1" r = Some 0%nat ∧
  ∃ e, load 0 (foldl (exec demo_parse (λ t, t)) (Deregister "pos-1" r) [Beating 9 "pos-1"]) = Some e.
Proof.
  intros os r. assert (Get "pos-1" r = Some 0%nat) as Hp by (by vm_compute). split; [exact Hp|].
  destruct (pointers_refine_values demo_parse (λ t, t) os [Beating 9 "pos-1"] "pos-1" 0) as [_ Hh].
  destruct (Hh Hp) as (e & e' & _ & _ & _ & _ & Hg & _). by exists e.
Defined.
