(* ===== verification/Http.v ===== *)
(** The parts of [net/http], [net/url] and [encoding/json] the gateway is written
    against: header maps, URLs and their escaping, requests, JSON values, replies. *)

From S2P Require Import Prelude GoStrings.

(** ** Header maps

    [http.Header] maps canonical names to value lists; [Get], [Set] and [Del]
    canonicalise the name they are given. *)

(** Bytes of an RFC 7230 token. *)
Definition is_alnum (c : ascii) : bool :=
  let n := N_of_ascii c in
  ((48 <=? n) && (n <=? 57) || (65 <=? n) && (n <=? 90) || (97 <=? n) && (n <=? 122))%N.
Definition is_token_byte (c : ascii) : bool := is_alnum c || has_byte c "!#$%&'*+-.^_`|~".

(** Upper case at the start and after a hyphen, lower case elsewhere. *)
Fixpoint canonical (upper : bool) (s : string) : string :=
  match s with
  | EmptyString => ""
  | String.String c s' =>
      String.String (if upper then upper_byte c else lower_byte c)
        (canonical (byte_eqb c "-") s')
  end.
Definition CanonicalHeaderKey (s : string) : string :=
  if all_bytes is_token_byte s then canonical true s else s.

Abbreviation Header := (gmap string (list string)).

Definition Values (h : Header) (name : string) : list string :=
  map_get [] h (CanonicalHeaderKey name).
Definition Get (h : Header) (name : string) : string := default "" (head (Values h name)).
Definition Set_ (name value : string) (h : Header) : Header :=
  <[CanonicalHeaderKey name := [value]]> h.
Definition Del (name : string) (h : Header) : Header := delete (CanonicalHeaderKey name) h.
(** [if value != "" { h.Set(name, value) }] *)
Definition Set_nonempty (name value : string) (h : Header) : Header :=
  if String.eqb value "" then h else Set_ name value h.

Lemma Get_Set_eq h name v : Get (Set_ name v h) name = v.
Proof. unfold Get, Values, Set_. by rewrite map_get_insert_eq. Qed.
Lemma Get_Set_ne h name name' v :
  CanonicalHeaderKey name ≠ CanonicalHeaderKey name' → Get (Set_ name v h) name' = Get h name'.
Proof. intros. unfold Get, Values, Set_. by rewrite map_get_insert_ne. Qed.
Lemma Get_Del_eq h name : Get (Del name h) name = "".
Proof. unfold Get, Values, Del, map_get. by rewrite lookup_delete_eq. Qed.
Lemma Get_Del_ne h name name' :
  CanonicalHeaderKey name ≠ CanonicalHeaderKey name' → Get (Del name h) name' = Get h name'.
Proof. intros. unfold Get, Values, Del. by rewrite map_get_delete_ne. Qed.
Lemma Values_Set_eq h name v : Values (Set_ name v h) name = [v].
Proof. unfold Values, Set_. by rewrite map_get_insert_eq. Qed.
Lemma Values_Set_ne h name name' v :
  CanonicalHeaderKey name ≠ CanonicalHeaderKey name' →
  Values (Set_ name v h) name' = Values h name'.
Proof. intros. unfold Values, Set_. by rewrite map_get_insert_ne. Qed.
Lemma Values_Del_eq h name : Values (Del name h) name = [].
Proof. unfold Values, Del, map_get. by rewrite lookup_delete_eq. Qed.
Lemma Values_Del_ne h name name' :
  CanonicalHeaderKey name ≠ CanonicalHeaderKey name' →
  Values (Del name h) name' = Values h name'.
Proof. intros. unfold Values, Del. by rewrite map_get_delete_ne. Qed.
#[export] Hint Rewrite Get_Set_eq Get_Del_eq Values_Set_eq Values_Del_eq : gateway.

(** Deleting several names. *)
Lemma Values_foldl_Del names h name :
  Values (foldl (λ h n, Del n h) h names) name =
  if decide (CanonicalHeaderKey name ∈ map CanonicalHeaderKey names) then [] else Values h name.
Proof.
  revert h. induction names as [|n names IH]; intros h; cbn [foldl map].
  { rewrite decide_False; [done|apply not_elem_of_nil]. }
  rewrite IH. destruct (decide (CanonicalHeaderKey n = CanonicalHeaderKey name)) as [He|Hne].
  - rewrite (decide_True (P := _ ∈ _ :: _)) by (rewrite He; left). case_decide; [done|].
    unfold Values, Del. rewrite He. unfold map_get. by rewrite lookup_delete_eq.
  - rewrite Values_Del_ne by done. apply decide_ext. rewrite elem_of_cons. naive_solver.
Qed.

(** Two spellings of one name differ only in case. *)
Lemma lower_upper_byte c : lower_byte (upper_byte c) = lower_byte c.
Proof. destruct c as [[] [] [] [] [] [] [] []]; vm_compute; reflexivity. Qed.
Lemma ToLower_canonical u s : ToLower (canonical u s) = ToLower s.
Proof.
  revert u. induction s as [|c s IH]; intros u; [done|]. unfold ToLower in *. simpl.
  rewrite IH. destruct u; [by rewrite lower_upper_byte|by rewrite lower_byte_idem].
Qed.
Lemma hyphen_lower c : byte_eqb (lower_byte c) "-" = byte_eqb c "-".
Proof. destruct c as [[] [] [] [] [] [] [] []]; vm_compute; reflexivity. Qed.
Lemma upper_lower c : upper_byte (lower_byte c) = upper_byte c.
Proof. destruct c as [[] [] [] [] [] [] [] []]; vm_compute; reflexivity. Qed.
Lemma canonical_ToLower u s t : ToLower s = ToLower t → canonical u s = canonical u t.
Proof.
  revert u t. induction s as [|c s IH]; intros u [|d t]; simpl; try done.
  unfold ToLower in *. simpl. intros [= Hc Hs].
  rewrite <- (hyphen_lower c), <- (hyphen_lower d), <- (upper_lower c), <- (upper_lower d), Hc.
  by rewrite (IH _ t) by done.
Qed.

(** ** URL escaping *)

Definition hex_upper (n : N) : ascii :=
  ascii_of_N (if (n <? 10)%N then 48 + n else 55 + n)%N.
Definition escape_byte (c : ascii) : string :=
  String.String "%" (String.String (hex_upper (N_of_ascii c / 16))
    (String.String (hex_upper (N_of_ascii c mod 16)) "")).

Definition unhex (c : ascii) : option N :=
  let n := N_of_ascii c in
  if ((48 <=? n) && (n <=? 57))%N then Some (n - 48)%N
  else if ((97 <=? n) && (n <=? 102))%N then Some (n - 87)%N
  else if ((65 <=? n) && (n <=? 70))%N then Some (n - 55)%N
  else None.

Definition unreserved (c : ascii) : bool := is_alnum c || has_byte c "-_.~".
(** [shouldEscape(c, encodePath)], negated. *)
Definition path_safe (c : ascii) : bool := unreserved c || has_byte c "$&+,/:;=@".

(** [url.QueryEscape] *)
Fixpoint QueryEscape (s : string) : string :=
  match s with
  | EmptyString => ""
  | String.String c s' =>
      (if unreserved c then String.String c ""
       else if byte_eqb c " " then "+" else escape_byte c) ++ QueryEscape s'
  end.
(** [escape(s, encodePath)] *)
Fixpoint PathEscape (s : string) : string :=
  match s with
  | EmptyString => ""
  | String.String c s' =>
      (if path_safe c then String.String c "" else escape_byte c) ++ PathEscape s'
  end.
(** [unescape(s, mode)]; [plus] is the query mode, where [+] is a space. *)
Fixpoint unescape (plus : bool) (s : string) : option string :=
  match s with
  | EmptyString => Some ""
  | String.String c s' =>
      if byte_eqb c "%" then
        match s' with
        | String.String a (String.String b s'') =>
            match unhex a, unhex b, unescape plus s'' with
            | Some x, Some y, Some r => Some (String.String (ascii_of_N (16 * x + y)) r)
            | _, _, _ => None
            end
        | _ => None
        end
      else
        match unescape plus s' with
        | Some r => Some (String.String (if plus && byte_eqb c "+" then " "%char else c) r)
        | None => None
        end
  end.
Definition QueryUnescape : string → option string := unescape true.

(** [validEncoded(s, encodePath)] *)
Definition validEncoded (s : string) : bool :=
  all_bytes (λ c, has_byte c "!$&'()*+,;=:@[]%" || path_safe c) s.

Lemma unescape_escape_byte plus c s r :
  unescape plus s = Some r → unescape plus (escape_byte c ++ s) = Some (String.String c r).
Proof.
  intros H. unfold escape_byte. simpl. rewrite H.
  destruct c as [[] [] [] [] [] [] [] []]; vm_compute; reflexivity.
Qed.
Lemma unescape_plain plus c s r :
  byte_eqb c "%" = false → plus && byte_eqb c "+" = false →
  unescape plus s = Some r → unescape plus (String.String c "" ++ s) = Some (String.String c r).
Proof. intros Hc Hp H. simpl. by rewrite Hc, H, Hp. Qed.

Lemma unreserved_plain c : unreserved c = true → byte_eqb c "%" = false ∧ byte_eqb c "+" = false.
Proof. destruct c as [[] [] [] [] [] [] [] []]; vm_compute; done. Qed.
Lemma path_safe_plain c : path_safe c = true → byte_eqb c "%" = false.
Proof. destruct c as [[] [] [] [] [] [] [] []]; vm_compute; done. Qed.

Lemma QueryUnescape_Escape s : QueryUnescape (QueryEscape s) = Some s.
Proof.
  unfold QueryUnescape. induction s as [|c s IH]; [done|]. cbn [QueryEscape].
  destruct (unreserved c) eqn:E.
  - apply unreserved_plain in E as [? E]. apply unescape_plain; [done| |done].
    by rewrite E.
  - destruct (byte_eqb c " ") eqn:E'; [|by apply unescape_escape_byte].
    apply byte_eqb_eq in E' as ->. simpl. by rewrite IH.
Qed.
Lemma unescape_PathEscape s : unescape false (PathEscape s) = Some s.
Proof.
  induction s as [|c s IH]; [done|]. cbn [PathEscape].
  destruct (path_safe c) eqn:E; [|by apply unescape_escape_byte].
  apply path_safe_plain in E. by apply unescape_plain.
Qed.

(** ** URLs *)

Record URL := {
  u_Scheme : string; u_Host : string; u_Path : string; u_RawPath : string;
  u_ForceQuery : bool; u_RawQuery : string
}.
Definition with_Path (p : string) (u : URL) : URL := {|
  u_Scheme := u_Scheme u; u_Host := u_Host u; u_Path := p; u_RawPath := u_RawPath u;
  u_ForceQuery := u_ForceQuery u; u_RawQuery := u_RawQuery u |}.

Definition EscapedPath (u : URL) : string :=
  if negb (String.eqb (u_RawPath u) "") && validEncoded (u_RawPath u) &&
     bool_decide (unescape false (u_RawPath u) = Some (u_Path u))
  then u_RawPath u
  else if String.eqb (u_Path u) "*" then "*" else PathEscape (u_Path u).

(** [u.RequestURI()], for a URL without an opaque part. *)
Definition RequestURI (u : URL) : string :=
  (if String.eqb (EscapedPath u) "" then "/" else EscapedPath u) ++
  (if u_ForceQuery u || negb (String.eqb (u_RawQuery u) "") then "?" ++ u_RawQuery u else "").

(** Whatever spelling is picked, it decodes to the path. *)
Lemma EscapedPath_decodes u : unescape false (EscapedPath u) = Some (u_Path u).
Proof.
  unfold EscapedPath. destruct (negb _ && _ && bool_decide _) eqn:E.
  - apply andb_true_iff in E as [_ E]. by apply bool_decide_eq_true in E.
  - destruct (String.eqb_spec (u_Path u) "*") as [->|]; [done|apply unescape_PathEscape].
Qed.

(** ** Requests *)

Record Request := {
  rq_Method : string; rq_URL : URL; rq_Host : string; rq_Header : Header;
  rq_RequestURI : string; rq_RemoteAddr : string
}.
Definition with_Header (h : Header) (r : Request) : Request := {|
  rq_Method := rq_Method r; rq_URL := rq_URL r; rq_Host := rq_Host r; rq_Header := h;
  rq_RequestURI := rq_RequestURI r; rq_RemoteAddr := rq_RemoteAddr r |}.
(** [r.URL.Path = p] followed by [r.RequestURI = r.URL.RequestURI()] *)
Definition rewrite_path (p : string) (r : Request) : Request :=
  let u := with_Path p (rq_URL r) in {|
  rq_Method := rq_Method r; rq_URL := u; rq_Host := rq_Host r; rq_Header := rq_Header r;
  rq_RequestURI := RequestURI u; rq_RemoteAddr := rq_RemoteAddr r |}.
Definition GetHeader (r : Request) (name : string) : string := Get (rq_Header r) name.

(** ** JSON *)

Set Warnings "-register-all".
Inductive json :=
| JNull | JBool (b : bool) | JInt (z : Z) | JStr (s : string)
| JArr (l : list json) | JObj (fields : list (string * json)).

(** [gin.H{"error": msg}] *)
Definition error_body (msg : string) : json := JObj [("error", JStr msg)].

(** ** Replies *)

Inductive Reply :=
| JSON (code : Z) (body : json)
| Status (code : Z)
| Redirect (code : Z) (location : string)
| Data (code : Z) (content_type body : string).

Definition Reply_code (r : Reply) : Z :=
  match r with JSON c _ | Status c | Redirect c _ | Data c _ _ => c end.

(** ** Civil time

    [t.UTC().Format(time.RFC3339)] *)

(** Days since the epoch to year, month and day, by 400-year eras from March. *)
Definition civil (days : Z) : Z * Z * Z :=
  let z := days + 719468 in
  let era := z / 146097 in
  let doe := z mod 146097 in
  let yoe := (doe - doe / 1460 + doe / 36524 - doe / 146096) / 365 in
  let doy := doe - (365 * yoe + yoe / 4 - yoe / 100) in
  let mp := (5 * doy + 2) / 153 in
  let d := doy - (153 * mp + 2) / 5 + 1 in
  let m := if mp <? 10 then mp + 3 else mp - 9 in
  (yoe + era * 400 + (if m <=? 2 then 1 else 0), m, d).

Fixpoint zeros (n : nat) : string := match n with O => "" | S n => "0" ++ zeros n end.
Definition pad (w : nat) (z : Z) : string :=
  let s := FormatInt z in zeros (w - String.length s) ++ s.

Definition FormatRFC3339 (t : Z) : string :=
  let secs := Unix t in
  let '(y, m, d) := civil (secs / 86400) in
  let s := secs mod 86400 in
  pad 4 y ++ "-" ++ pad 2 m ++ "-" ++ pad 2 d ++ "T" ++
  pad 2 (s / 3600) ++ ":" ++ pad 2 (s / 60 mod 60) ++ ":" ++ pad 2 (s mod 60) ++ "Z".

Example FormatRFC3339_samples :
  FormatRFC3339 0 = "1970-01-01T00:00:00Z" ∧
  FormatRFC3339 (1709210096 * Second + 5) = "2024-02-29T12:34:56Z" ∧
  FormatRFC3339 (951868799 * Second) = "2000-02-29T23:59:59Z".
Proof. by vm_compute. Qed.
