(* ===== verification/Docs.v ===== *)
(** The documentation page of server/http.go: [scalarHTML] with what html/template
    writes at the page's two places, a title and the value of an attribute that
    holds a URL. *)

From S2P Require Import Prelude GoStrings Crypto Http.

(** ** html/template *)

Definition dq : ascii := "034"%char.
Definition tab : string := String "009" "".

(** [htmlReplacer] with [htmlReplacementTable]: what [{{.Title}}] in an element's text
    and the value of a quoted attribute go through. *)
Definition html_byte (c : ascii) : string :=
  if byte_eqb c "000" then String "239" (String "191" (String "189" ""))
  else if byte_eqb c dq then "&#34;"
  else if byte_eqb c "&" then "&amp;"
  else if byte_eqb c "'" then "&#39;"
  else if byte_eqb c "+" then "&#43;"
  else if byte_eqb c "<" then "&lt;"
  else if byte_eqb c ">" then "&gt;"
  else String c "".
Fixpoint htmlReplacer (s : string) : string :=
  match s with
  | EmptyString => ""
  | String c s' => html_byte c ++ htmlReplacer s'
  end.

(** [urlFilter]: a URL of another scheme than these is not written. *)
Definition isSafeURL (s : string) : bool :=
  let '(protocol, _, found) := Cut s ":" in
  if found && negb (has_byte "/" protocol)
  then EqualFold protocol "http" || EqualFold protocol "https" || EqualFold protocol "mailto"
  else true.
Definition urlFilter (s : string) : string := if isSafeURL s then s else "#ZgotmplZ".

(** [processURLOnto] with [norm]: what may not stand in a URL is percent-encoded, an
    escape that is there stays. *)
Definition url_byte (c : ascii) : bool := is_alnum c || has_byte c "!#$&*+,/:;=?@[]-._~".
Definition isHex (c : ascii) : bool :=
  let n := N_of_ascii c in
  ((48 <=? n) && (n <=? 57) || (97 <=? n) && (n <=? 102) || (65 <=? n) && (n <=? 70))%N.
Fixpoint urlNormalizer (s : string) : string :=
  match s with
  | EmptyString => ""
  | String c s' =>
      let escape :=
        match s' with
        | String a (String b _) => byte_eqb c "%" && isHex a && isHex b
        | _ => false
        end in
      if url_byte c || escape then String c (urlNormalizer s')
      else "%" ++ hex_encode (String c "") ++ urlNormalizer s'
  end.

(** [data-url] names a URL: its value is filtered, normalized, and escaped for the quotes. *)
Definition url_attribute (s : string) : string := htmlReplacer (urlNormalizer (urlFilter s)).

(** ** The page *)

Definition lines (ls : list string) : string := String.concat (String "010" "") ls.
Definition quoted (s : string) : string := String dq s ++ String dq "".

Definition scalarHTML (title specURL : string) : string := lines [
  "<!doctype html>";
  "<html>";
  "<head>";
  tab ++ "<title>" ++ htmlReplacer title ++ " - Scalar</title>";
  tab ++ "<meta charset=" ++ quoted "utf-8" ++ "/>";
  tab ++ "<meta name=" ++ quoted "viewport" ++ " content=" ++ quoted "width=device-width, initial-scale=1" ++ "/>";
  "</head>";
  "<body>";
  "<script id=" ++ quoted "api-reference" ++ " data-url=" ++ quoted (url_attribute specURL) ++ "></script>";
  "<script src=" ++ quoted "https://cdn.jsdelivr.net/npm/@scalar/api-reference" ++ "></script>";
  "</body>";
  "</html>"].

(** ** What is written for an argument *)

(** Nothing an argument holds ends the text or the attribute it is written to. *)
Definition inert (c : ascii) : bool := negb (byte_eqb c dq || has_byte c "<>'").
Lemma html_byte_inert c : all_bytes inert (html_byte c) = true.
Proof. by destruct c as [[] [] [] [] [] [] [] []]. Qed.
Lemma htmlReplacer_inert s : all_bytes inert (htmlReplacer s) = true.
Proof.
  induction s as [|c s IH]; [done|]. cbn [htmlReplacer]. by rewrite all_bytes_append, IH, html_byte_inert.
Qed.
Lemma url_attribute_inert s : all_bytes inert (url_attribute s) = true.
Proof. apply htmlReplacer_inert. Qed.

(** Text of ordinary bytes is written as it is. *)
Definition plain_byte (c : ascii) : bool := is_alnum c || has_byte c "/._-".
Lemma plain_byte_facts c :
  plain_byte c = true → html_byte c = String c "" ∧ url_byte c = true ∧ byte_eqb c ":" = false.
Proof. by destruct c as [[] [] [] [] [] [] [] []]. Qed.
Lemma htmlReplacer_plain s : all_bytes plain_byte s = true → htmlReplacer s = s.
Proof.
  induction s as [|c s IH]; cbn [all_bytes htmlReplacer]; [done|].
  intros [(-> & _)%plain_byte_facts Hs]%andb_true_iff. by rewrite IH.
Qed.
Lemma urlNormalizer_plain s : all_bytes plain_byte s = true → urlNormalizer s = s.
Proof.
  induction s as [|c s IH]; cbn [all_bytes urlNormalizer]; [done|].
  intros [(_ & Hu & _)%plain_byte_facts Hs]%andb_true_iff. by rewrite Hu, IH.
Qed.
Lemma url_attribute_plain s : all_bytes plain_byte s = true → url_attribute s = s.
Proof.
  intros Hs. unfold url_attribute, urlFilter, isSafeURL.
  rewrite Cut_no_sep by (by apply (all_bytes_no_byte plain_byte)). cbn [andb].
  by rewrite urlNormalizer_plain, htmlReplacer_plain.
Qed.
