(* ===== verification/Middleware.v ===== *)
(** [internal/middleware]: device-token authentication, permission matching,
    CORS and the trusted tenant headers. *)

From S2P Require Import Prelude GoStrings Http Auth.

(** What a request carries through the middleware chain: the request itself, the
    response headers set so far, and the two context keys the chain uses. *)
Record Gin := {
  g_req : Request;
  g_resp : Header;
  g_identity : option Identity;
  g_host_tenant : option string
}.
Definition arrive (r : Request) : Gin :=
  {| g_req := r; g_resp := ∅; g_identity := None; g_host_tenant := None |}.
Definition set_req (r : Request) (c : Gin) : Gin := {|
  g_req := r; g_resp := g_resp c; g_identity := g_identity c; g_host_tenant := g_host_tenant c |}.
Definition set_resp (h : Header) (c : Gin) : Gin := {|
  g_req := g_req c; g_resp := h; g_identity := g_identity c; g_host_tenant := g_host_tenant c |}.
(** [SetIdentity(c, id)], [c.Set(identityKey, id)] *)
Definition SetIdentity (id : option Identity) (c : Gin) : Gin := {|
  g_req := g_req c; g_resp := g_resp c; g_identity := id; g_host_tenant := g_host_tenant c |}.
Definition IdentityFrom (c : Gin) : option Identity := g_identity c.
(** [c.Header(name, value)], for a non-empty value *)
Definition respond_header (name value : string) (c : Gin) : Gin :=
  set_resp (Set_ name value (g_resp c)) c.
Definition on_header (f : Header → Header) (c : Gin) : Gin :=
  set_req (with_Header (f (rq_Header (g_req c))) (g_req c)) c.

(** ** authz.go *)

Definition permMatch (granted required : string) : bool :=
  if String.eqb granted required || String.eqb granted "*:*" then true
  else
    let '(gr, ga, ok1) := Cut granted ":" in
    let '(rr, ra, ok2) := Cut required ":" in
    if negb ok1 || negb ok2 then false
    else (String.eqb gr "*" || String.eqb gr rr) && (String.eqb ga "*" || String.eqb ga ra).

Definition PermissionAllowed (granted : list string) (required : string) : bool :=
  if String.eqb required "" then true
  else existsb (λ g, permMatch g required) granted.

(** ** auth.go *)

Definition TokenCookie : string := "apicorex_token".
Definition HeaderActingUser : string := "X-Acting-User".

Definition wantsHTML (r : Request) : bool :=
  if negb (String.eqb (rq_Method r) "GET") && negb (String.eqb (rq_Method r) "HEAD") then false
  else Contains (GetHeader r "Accept") "text/html".

(** [c.Redirect(http.StatusSeeOther, ...)] or [c.AbortWithStatusJSON(401, ...)] *)
Definition rejectUnauthenticated (c : Gin) (loginURL reason : string) : Reply :=
  if negb (String.eqb loginURL "") && wantsHTML (g_req c) then
    Redirect 303 (loginURL ++ "?next=" ++ QueryEscape (RequestURI (rq_URL (g_req c))))
  else JSON 401 (error_body reason).

Section auth.
Context {R : Type} {Lookup : BaseURLLookup R}.
Context (Do : call → option reply) (DecodeIdentity : string → option Identity).
(** Gin's cookie reader. *)
Context (Cookie : Request → string → option string).

Definition deviceToken (r : Request) : option string :=
  let h := GetHeader r "Authorization" in
  let t := TrimPrefix h "Bearer " in
  if HasPrefix h "Bearer " && negb (String.eqb t "") then Some t
  else
    match Cookie r TokenCookie with
    | Some t => if String.eqb t "" then None else Some t
    | None => None
    end.

(** The switch both middlewares make on the token's prefix: [None] is its default
    case, which asks nobody. *)
Definition resolve_token (now done : Z) (reg : R) (acting tokenStr : string) (i : Introspector) :
    option (Introspector * outcome Identity) :=
  if HasPrefix tokenStr "zps_" then
    Some (ResolvePlatform Do DecodeIdentity now done reg tokenStr i).1
  else if HasPrefix tokenStr "zdt_" then
    Some (Resolve Do DecodeIdentity now done reg (HashToken tokenStr) acting i).1
  else None.

(** The state of the two middlewares: the introspector, [None] when
    authentication is disabled, and the request's context. *)
Definition auth_state : Type := option Introspector * Gin.

Definition AuthWithLogin (now done : Z) (reg : R) (loginURL : string) :
    Handler auth_state Reply unit :=
  '(intro, c) ← get_state;
  match intro with
  | None => mret tt
  | Some i =>
      match deviceToken (g_req c) with
      | None => answer (rejectUnauthenticated c loginURL "missing authorization header")
      | Some tokenStr =>
          match resolve_token now done reg (GetHeader (g_req c) HeaderActingUser) tokenStr i with
          | None => answer (rejectUnauthenticated c loginURL "invalid token")
          | Some (i', (id, err)) =>
              modify (λ _, (Some i', c));;
              match err with
              | Some ErrMembershipRevoked =>
                  answer (rejectUnauthenticated c loginURL "membership revoked")
              | Some ErrInvalidToken =>
                  answer (rejectUnauthenticated c loginURL "invalid token")
              | Some _ => answer (JSON 503 (error_body "auth unavailable"))
              | None => modify (λ _, (Some i', SetIdentity id c))
              end
          end
      end
  end.

Definition OptionalAuth (now done : Z) (reg : R) : Handler auth_state Reply unit :=
  '(intro, c) ← get_state;
  match intro with
  | None => mret tt
  | Some i =>
      match deviceToken (g_req c) with
      | None => mret tt
      | Some tokenStr =>
          match resolve_token now done reg (GetHeader (g_req c) HeaderActingUser) tokenStr i with
          | None => mret tt
          | Some (i', (id, err)) =>
              modify (λ _, (Some i', if err is Some _ then c else SetIdentity id c))
          end
      end
  end.
End auth.

(** ** tenant.go *)

Definition HeaderTenantID : string := "X-ApiCoreX-Tenant-ID".
Definition HeaderTenantSlug : string := "X-ApiCoreX-Tenant-Slug".
Definition HeaderTenantName : string := "X-ApiCoreX-Tenant-Name".
Definition HeaderSchema : string := "X-ApiCoreX-Schema".
Definition HeaderTenantSchema : string := "X-ApiCoreX-Tenant-Schema".
Definition HeaderNav : string := "X-ApiCoreX-Nav".
Definition HeaderBranchID : string := "X-ApiCoreX-Branch-ID".
Definition HeaderBranchSlug : string := "X-ApiCoreX-Branch-Slug".
Definition HeaderBranchName : string := "X-ApiCoreX-Branch-Name".
Definition HeaderUserID : string := "X-ApiCoreX-User-ID".
Definition HeaderUserName : string := "X-ApiCoreX-User-Name".
Definition HeaderUserType : string := "X-ApiCoreX-User-Type".
Definition HeaderRoles : string := "X-ApiCoreX-Roles".
Definition HeaderPermissions : string := "X-ApiCoreX-Permissions".
Definition HeaderFeatures : string := "X-ApiCoreX-Features".
Definition HeaderRequestID : string := "X-ApiCoreX-Request-ID".
Definition HeaderTokenHash : string := "X-ApiCoreX-Token-Hash".
Definition HeaderForwardedHost : string := "X-ApiCoreX-Forwarded-Host".
Definition HeaderHostPrefix : string := "X-ApiCoreX-Host-Prefix".

Definition apicorexHeaders : list string := [
  HeaderTenantID; HeaderTenantSlug; HeaderSchema; HeaderTenantSchema; HeaderNav;
  HeaderBranchID; HeaderBranchSlug; HeaderTenantName; HeaderBranchName;
  HeaderUserID; HeaderUserName; HeaderUserType; HeaderRoles; HeaderPermissions; HeaderFeatures;
  HeaderRequestID; HeaderTokenHash; HeaderForwardedHost; HeaderHostPrefix].

Definition StripSpoofedHeaders : Gin → Gin :=
  on_header (λ h, foldl (λ h name, Del name h) h apicorexHeaders).

Definition InjectForwardedHost (c : Gin) : Gin :=
  let host := rq_Host (g_req c) in
  if String.eqb host "" then c else on_header (Set_ HeaderForwardedHost host) c.

Definition tenant_headers (id : Identity) (schema nav : string) (h : Header) : Header :=
  let h := Del HeaderActingUser h in
  let h := Set_ HeaderTenantID (TenantID id) h in
  let h := Set_ HeaderTenantSlug (TenantSlug id) h in
  let h := Set_ HeaderSchema schema h in
  let h := Set_ HeaderTenantSchema (SchemaName id) h in
  let h := Set_nonempty HeaderNav nav h in
  let h := Set_ HeaderBranchID (BranchID id) h in
  let h := Set_ HeaderBranchSlug (BranchSlug id) h in
  let h := Set_nonempty HeaderTenantName (TenantName id) h in
  let h := Set_nonempty HeaderBranchName (BranchName id) h in
  let h := Set_ HeaderUserID (UserID id) h in
  let h := Set_nonempty HeaderUserName (FullName id) h in
  let h := Set_ HeaderUserType (UserType id) h in
  let h := Set_ HeaderRoles (Join (Roles id) ",") h in
  let h := Set_ HeaderPermissions (Join (Permissions id) ",") h in
  let h := Set_ HeaderFeatures (Join (Features id) ",") h in
  let h := Set_ HeaderTokenHash (TokenHash id) h in
  Set_nonempty HeaderRequestID (Get h "X-Request-ID") h.

Definition InjectTenantHeaders (c : Gin) (schema nav : string) : Gin :=
  match IdentityFrom c with
  | None => c
  | Some id => on_header (tenant_headers id schema nav) c
  end.

(** ** cors.go *)

(** The origins [CORS] collects before serving: [allowAll] and the set [allow]. *)
Definition cors_step (acc : bool * gset string) (o : string) : bool * gset string :=
  let o := TrimSpace o in
  (acc.1 || String.eqb o "*", if String.eqb o "" then acc.2 else {[o]} ∪ acc.2).
Definition cors_config (allowedOrigins : list string) : bool * gset string :=
  foldl cors_step (match allowedOrigins with [] => true | _ => false end, ∅) allowedOrigins.

Definition CORS (allowedOrigins : list string) : Handler Gin Reply unit :=
  let '(allowAll, allow) := cors_config allowedOrigins in
  c ← get_state;
  let origin := GetHeader (g_req c) "Origin" in
  (if negb (String.eqb origin "") && (allowAll || bool_decide (origin ∈ allow)) then
     let reqHeaders := GetHeader (g_req c) "Access-Control-Request-Headers" in
     modify (λ c,
       respond_header "Access-Control-Max-Age" "600" $
       respond_header "Access-Control-Allow-Headers"
         (if String.eqb reqHeaders "" then "Authorization, Content-Type" else reqHeaders) $
       respond_header "Access-Control-Allow-Methods"
         "GET, POST, PUT, PATCH, DELETE, OPTIONS" $
       respond_header "Access-Control-Allow-Credentials" "true" $
       respond_header "Vary" "Origin" $
       respond_header "Access-Control-Allow-Origin" origin c)
   else mret tt);;
  reject_if (String.eqb (rq_Method (g_req c)) "OPTIONS") (Status 204).

Definition ParseOrigins (env : string) : list string :=
  if String.eqb (TrimSpace env) "" then []
  else filter (λ s, s ≠ "") (map TrimSpace (Split env ",")).

(** ** Permissions *)

Lemma permMatch_colon g r a :
  has_byte ":" r = false →
  permMatch g (r ++ ":" ++ a) = true ↔
  g = r ++ ":" ++ a ∨ g = r ++ ":*" ∨ g = "*:" ++ a ∨ g = "*:*".
Proof.
  intros Hr. unfold permMatch. change (":" ++ a) with (String.String ":" a).
  rewrite Cut_app by done.
  destruct (String.eqb_spec g (r ++ String.String ":" a)) as [|Hne]; [naive_solver|].
  destruct (String.eqb_spec g "*:*") as [|Hne']; [naive_solver|]. cbn [orb].
  destruct (Cut g ":") as [[gr ga] [|]] eqn:E.
  - apply Cut_true in E as [-> Hgr]. simpl negb. simpl orb. cbv iota.
    rewrite andb_true_iff, !orb_true_iff, !String.eqb_eq. split.
    + intros [[->| ->] [->| ->]]; auto.
    + intros [H|[H|[H|H]]]; try done.
      * change (r ++ ":*") with (r ++ String.String ":" "*") in H.
        apply append_byte_inj in H as [-> ->]; [auto|done..].
      * change ("*:" ++ a) with ("*" ++ String.String ":" a) in H.
        apply append_byte_inj in H as [-> ->]; [auto|done..].
  - apply Cut_false in E as (-> & -> & Hg). simpl. split; [done|].
    intros [->|[->|[->| ->]]]; rewrite ?has_byte_append in Hg; simpl in Hg;
      rewrite ?orb_true_r in Hg; done.
Qed.

(** A permission [resource:action] is satisfied exactly by a grant of itself,
    of the whole resource, of the action on every resource, or of everything; a
    route that declares no permission is satisfied by anyone. *)
Theorem PermissionAllowed_spec granted r a :
  has_byte ":" r = false →
  (PermissionAllowed granted (r ++ ":" ++ a) = true ↔
   r ++ ":" ++ a ∈ granted ∨ r ++ ":*" ∈ granted ∨ "*:" ++ a ∈ granted ∨ "*:*" ∈ granted) ∧
  PermissionAllowed granted "" = true.
Proof.
  intros Hr. split; [|done]. unfold PermissionAllowed.
  replace (String.eqb (r ++ ":" ++ a) "") with false by (by destruct r).
  rewrite existsb_exists. split.
  - intros (g & Hg & Hm). apply list_elem_of_In in Hg.
    apply permMatch_colon in Hm; [|done]. naive_solver.
  - intros H.
    assert (∃ g, g ∈ granted ∧ (g = r ++ ":" ++ a ∨ g = r ++ ":*" ∨ g = "*:" ++ a ∨ g = "*:*"))
      as (g & Hg & Hm) by naive_solver.
    exists g. split; [by apply list_elem_of_In|by apply permMatch_colon].
Qed.

Lemma PermissionAllowed_spec_witness :
  PermissionAllowed ["staff:read"; "branch:*"] ("branch" ++ ":" ++ "create") = true.
Proof.
  apply (proj1 (PermissionAllowed_spec ["staff:read"; "branch:*"] "branch" "create" eq_refl)).
  right; left. by right; left.
Defined.

(** ** Authentication *)

Section auth_theorems.
Context {R : Type} {Lookup : BaseURLLookup R}.
Context (Do : call → option reply) (DecodeIdentity : string → option Identity).
Context (Cookie : Request → string → option string).
Context (now done : Z) (reg : R).

Lemma resolve_token_ok acting tok i i' o :
  introspector_ok i → resolve_token Do DecodeIdentity now done reg acting tok i = Some (i', o) →
  introspector_ok i' ∧ well_formed o.
Proof.
  intros Hi. unfold resolve_token.
  pose proof (ResolvePlatform_ok Do DecodeIdentity now done reg tok i Hi) as Hp.
  pose proof (Resolve_ok Do DecodeIdentity now done reg (HashToken tok) acting i Hi) as Hr.
  destruct (HasPrefix tok "zps_"); [|destruct (HasPrefix tok "zdt_"); [|done]].
  - destruct (ResolvePlatform _ _ _ _ _ _ _) as [[i1 o1] a]. by intros [= <- <-].
  - destruct (Resolve _ _ _ _ _ _ _ _) as [[i1 o1] a]. by intros [= <- <-].
Qed.

(** The token a request presents and what the introspector makes of it. *)
Definition presented (c : Gin) (i : Introspector) : option (Introspector * outcome Identity) :=
  tok ← deviceToken Cookie (g_req c);
  resolve_token Do DecodeIdentity now done reg (GetHeader (g_req c) HeaderActingUser) tok i.

(** With authentication enabled, a request goes on only with an identity that
    the introspector vouches for, stored in its context and nothing else changed;
    every other request is answered: 503 when Identity cannot be asked, and
    otherwise 401, or a redirect to the login for a browser's page load. *)
Theorem auth_gate loginURL i c :
  introspector_ok i →
  let '((intro, c'), res) :=
    AuthWithLogin Do DecodeIdentity Cookie now done reg loginURL (Some i, c) in
  match res with
  | inr tt =>
      ∃ i' id, presented c i = Some (i', (Some id, None)) ∧ intro = Some i' ∧
               c' = SetIdentity (Some id) c
  | inl r =>
      c' = c ∧
      (presented c i = None ∧ (Reply_code r = 401 ∨ Reply_code r = 303) ∨
       ∃ i' e, presented c i = Some (i', (None, Some e)) ∧ intro = Some i' ∧
         if decide (e = ErrInvalidToken ∨ e = ErrMembershipRevoked)
         then Reply_code r = 401 ∨ Reply_code r = 303 else Reply_code r = 503) ∧
      (Reply_code r = 303 → loginURL ≠ "" ∧ wantsHTML (g_req c) = true)
  end.
Proof.
  intros Hi. unfold AuthWithLogin, presented. run_steps.
  assert (∀ reason, let r := rejectUnauthenticated c loginURL reason in
    (Reply_code r = 401 ∨ Reply_code r = 303) ∧
    (Reply_code r = 303 → loginURL ≠ "" ∧ wantsHTML (g_req c) = true)) as Hrej.
  { intros reason. unfold rejectUnauthenticated.
    destruct (String.eqb_spec loginURL ""), (wantsHTML (g_req c)); simpl; auto; split; auto; done. }
  destruct (deviceToken Cookie (g_req c)) as [tok|]; cbn;
    [|split; [done|]; split; [left; split; [done|]|]; apply Hrej].
  destruct (resolve_token _ _ _ _ _ _ _ _) as [[i' [id err]]|] eqn:E; cbn;
    [|split; [done|]; split; [left; split; [done|]|]; apply Hrej].
  apply resolve_token_ok in E as [_ Ho]; [|done].
  destruct Ho as [[[id' Hid] Herr]|[Hid [e Herr]]]; cbn in Hid, Herr; subst id err; cbn; [eauto|].
  destruct e; cbn; (split; [done|]); (split; [|try apply Hrej; try done]);
    right; exists i'; eexists; (split; [done|]); (split; [done|]); try apply Hrej; done.
Qed.

(** On a public route the same token is resolved the same way, but nothing is
    refused: [OptionalAuth] always goes on, stores exactly the identity
    [AuthWithLogin] would have stored, leaves the context alone where
    [AuthWithLogin] would have answered, and leaves the same cache behind. *)
Theorem optional_auth_agrees loginURL s :
  let '((intro, c), res) := AuthWithLogin Do DecodeIdentity Cookie now done reg loginURL s in
  OptionalAuth Do DecodeIdentity Cookie now done reg s =
    ((intro, if res is inr _ then c else s.2), inr tt).
Proof.
  destruct s as [[i|] c]; unfold AuthWithLogin, OptionalAuth; run_steps; [|done].
  destruct (deviceToken Cookie (g_req c)) as [tok|]; cbn; [|done].
  destruct (resolve_token _ _ _ _ _ _ _ _) as [[i' [id [[]|]]]|]; done.
Qed.

(** A bearer token, when there is one, decides: the cookie is not looked at. *)
Lemma bearer_beats_cookie (Cookie' : Request → string → option string) r t :
  GetHeader r "Authorization" = "Bearer " ++ t → t ≠ "" →
  deviceToken Cookie r = Some t ∧ deviceToken Cookie' r = Some t.
Proof.
  intros H Ht. unfold deviceToken. rewrite H, HasPrefix_app, TrimPrefix_app by done.
  destruct (String.eqb_spec t ""); done.
Qed.
End auth_theorems.

(** A request for a page at [path], as a browser makes it. *)
Definition page_request (host path : string) : Request := {|
  rq_Method := "GET";
  rq_URL := {| u_Scheme := ""; u_Host := ""; u_Path := path; u_RawPath := "";
               u_ForceQuery := false; u_RawQuery := "" |};
  rq_Host := host; rq_Header := {["Accept" := ["text/html"]]};
  rq_RequestURI := path; rq_RemoteAddr := "198.51.100.7:4000" |}.

(** A deployment with one plugin, Identity. *)
#[program] Definition one_identity : BaseURLLookup unit := {|
  GetBaseURL _ name := if String.eqb name "identity" then Some "http://id:1" else None;
  serves _ name url := name = "identity" ∧ url = "http://id:1" |}.
Next Obligation.
  intros r name url. simpl. destruct (String.eqb_spec name "identity"); [by intros [= <-]|done].
Qed.
Next Obligation.
  intros r name. simpl. destruct (String.eqb_spec name "identity"); [done|by intros _ url []].
Qed.

(** An answer of Identity, and a request that presents a device token. *)
Definition some_identity : Identity := {|
  TenantID := "t1"; TenantSlug := "acme"; TenantName := "Acme"; SchemaName := "tenant_acme";
  BranchID := "b1"; BranchSlug := "main"; BranchName := ""; UserID := "u1"; FullName := "Ann";
  UserType := "staff"; Roles := ["clerk"]; Permissions := ["branch:*"]; Features := ["pos:stock"];
  TokenHash := "" |}.
Definition device_request : Request :=
  with_Header {["Authorization" := ["Bearer zdt_a"]]} (page_request "h" "/pos/items").

Lemma auth_gate_witness :
  ∃ i id, AuthWithLogin (Lookup := one_identity) (λ _, Some {| r_StatusCode := 200; r_Body := "" |})
      (λ _, Some some_identity) (λ _ _, None) 0 0 tt "" (Some (NewIntrospector "k"), arrive device_request) =
    ((Some i, SetIdentity (Some id) (arrive device_request)), inr tt).
Proof.
  pose proof (auth_gate (Lookup := one_identity) (λ _, Some {| r_StatusCode := 200; r_Body := "" |})
    (λ _, Some some_identity) (λ _ _, None) 0 0 tt "" (NewIntrospector "k") (arrive device_request)
    (NewIntrospector_ok "k")) as Hg.
  destruct (AuthWithLogin _ _ _ _ _ _ _ _) as [[intro c'] [r|[]]] eqn:E.
  - apply (f_equal snd) in E. vm_compute in E. discriminate.
  - destruct Hg as (i & id & _ & -> & ->). eauto.
Defined.

(** ** The login redirect *)

Definition query_safe (c : ascii) : bool := unreserved c || byte_eqb c "%" || byte_eqb c "+".

Lemma QueryEscape_safe s : all_bytes query_safe (QueryEscape s) = true.
Proof.
  induction s as [|c s IH]; [done|]. cbn [QueryEscape]. rewrite all_bytes_append, IH, andb_true_r.
  clear IH. by destruct c as [[] [] [] [] [] [] [] []].
Qed.

(** A browser is redirected only for a page load (GET or HEAD asking for HTML),
    to the login URL with one parameter, [next]: it holds no byte that could end
    it, and decodes to the path and query the request was for. *)
Theorem login_redirect_returns_here c loginURL reason code loc :
  rejectUnauthenticated c loginURL reason = Redirect code loc →
  code = 303 ∧ (rq_Method (g_req c) = "GET" ∨ rq_Method (g_req c) = "HEAD") ∧
  ∃ next, loc = loginURL ++ "?next=" ++ next ∧ all_bytes query_safe next = true ∧
          QueryUnescape next = Some (RequestURI (rq_URL (g_req c))).
Proof.
  unfold rejectUnauthenticated. destruct (_ && _) eqn:E; [|done]. intros [= <- <-]. bool_simpl.
  split_and!; [done| |eauto using QueryEscape_safe, QueryUnescape_Escape].
  unfold wantsHTML in *.
  destruct (String.eqb_spec (rq_Method (g_req c)) "GET"); [auto|].
  destruct (String.eqb_spec (rq_Method (g_req c)) "HEAD"); [auto|done].
Qed.

Lemma login_redirect_returns_here_witness :
  ∃ next, "/login?next=%2Fstudents" = "/login" ++ "?next=" ++ next ∧
          QueryUnescape next = Some "/students".
Proof.
  destruct (login_redirect_returns_here (arrive (page_request "h" "/students")) "/login" "x" 303
    "/login?next=%2Fstudents" eq_refl) as (_ & _ & next & H & _ & Hn).
  exists next. split; [exact H|exact Hn].
Defined.

(** The path handed to the login can still leave this origin: for a request
    whose path starts with two slashes, [next] is a URL that a browser resolves
    against the scheme alone, on a host the request named. *)
Theorem login_next_names_another_host host reason :
  let c := arrive (page_request host "//evil.example/login") in
  rejectUnauthenticated c "/login" reason =
    Redirect 303 "/login?next=%2F%2Fevil.example%2Flogin" ∧
  QueryUnescape "%2F%2Fevil.example%2Flogin" = Some "//evil.example/login".
Proof. by vm_compute. Qed.

(** ** Trusted headers *)

Lemma is_token_lower c : is_token_byte (lower_byte c) = is_token_byte c.
Proof. by destruct c as [[] [] [] [] [] [] [] []]. Qed.
Lemma all_token_lower s : all_bytes is_token_byte (ToLower s) = all_bytes is_token_byte s.
Proof.
  unfold ToLower. induction s as [|c s IH]; [done|]. simpl. by rewrite is_token_lower, IH.
Qed.
(** Header names are the same up to case. *)
Lemma CanonicalHeaderKey_ToLower s t :
  ToLower s = ToLower t → all_bytes is_token_byte t = true →
  CanonicalHeaderKey s = CanonicalHeaderKey t.
Proof.
  intros H Ht. unfold CanonicalHeaderKey.
  rewrite <- (all_token_lower s), H, all_token_lower, Ht. by apply canonical_ToLower.
Qed.

Lemma StripSpoofedHeaders_Values c name :
  Values (rq_Header (g_req (StripSpoofedHeaders c))) name =
  if decide (CanonicalHeaderKey name ∈ map CanonicalHeaderKey apicorexHeaders) then []
  else Values (rq_Header (g_req c)) name.
Proof. apply Values_foldl_Del. Qed.

(** Whatever spelling a client uses, none of the nineteen trusted headers
    survives stripping, and no other header of the request is touched. *)
Theorem StripSpoofedHeaders_spec c name :
  Values (rq_Header (g_req (StripSpoofedHeaders c))) name =
  if decide (ToLower name ∈ map ToLower apicorexHeaders) then []
  else Values (rq_Header (g_req c)) name.
Proof.
  rewrite StripSpoofedHeaders_Values. apply decide_ext.
  assert (∀ h, h ∈ apicorexHeaders → all_bytes is_token_byte h = true) as Htok.
  { intros h Hh%list_elem_of_In. revert h Hh. apply forallb_forall. vm_compute. reflexivity. }
  assert (∀ h, h ∈ apicorexHeaders → CanonicalHeaderKey name = CanonicalHeaderKey h ↔
                                     ToLower name = ToLower h) as Heq.
  { intros h Hh. split; [|intros; apply CanonicalHeaderKey_ToLower; auto].
    unfold CanonicalHeaderKey at 2. rewrite (Htok h Hh). unfold CanonicalHeaderKey.
    destruct (all_bytes is_token_byte name).
    - intros H. apply (f_equal ToLower) in H. by rewrite !ToLower_canonical in H.
    - intros ->. by rewrite ToLower_canonical. }
  rewrite !list_elem_of_In, !in_map_iff. setoid_rewrite <- list_elem_of_In.
  split; intros (h & He & Hh); exists h; (split; [symmetry; apply Heq|]; done).
Qed.

(** A sequence of header writes; [None] is a write its guard skips. *)
Definition put (h : Header) (w : string * option string) : Header :=
  match w.2 with Some v => Set_ w.1 v h | None => h end.
(** What such a sequence writes under a name, if anything. *)
Fixpoint written (ws : list (string * option string)) (name : string) : option string :=
  match ws with
  | [] => None
  | (n, v) :: ws' =>
      if decide (CanonicalHeaderKey n = CanonicalHeaderKey name) then v else written ws' name
  end.

Lemma written_absent ws name :
  CanonicalHeaderKey name ∉ map (CanonicalHeaderKey ∘ fst) ws → written ws name = None.
Proof.
  induction ws as [|[n v] ws IH]; simpl; [done|]. rewrite not_elem_of_cons. intros [Hne Hin].
  rewrite decide_False by congruence. by apply IH.
Qed.
Lemma Values_foldl_put ws h name :
  NoDup (map (CanonicalHeaderKey ∘ fst) ws) →
  Values (foldl put h ws) name =
  match written ws name with Some v => [v] | None => Values h name end.
Proof.
  revert h. induction ws as [|[n v] ws IH]; intros h Hnd; [done|].
  apply NoDup_cons in Hnd as [Hn Hnd]. cbn [foldl written]. rewrite IH by done.
  destruct (decide (CanonicalHeaderKey n = CanonicalHeaderKey name)) as [He|Hne].
  - rewrite written_absent by (rewrite <- He; exact Hn). destruct v as [v|]; [|done].
    unfold put, Values, Set_. simpl. by rewrite He, map_get_insert_eq.
  - destruct (written ws name); [done|]. destruct v as [v|]; [|done].
    unfold put. simpl. by rewrite Values_Set_ne.
Qed.

Definition nonempty (s : string) : option string := if String.eqb s "" then None else Some s.

(** The headers a plugin may trust, for an identity. *)
Definition identity_headers (id : Identity) (schema nav rid : string) :
    list (string * option string) := [
  (HeaderTenantID, Some (TenantID id)); (HeaderTenantSlug, Some (TenantSlug id));
  (HeaderSchema, Some schema); (HeaderTenantSchema, Some (SchemaName id));
  (HeaderNav, nonempty nav);
  (HeaderBranchID, Some (BranchID id)); (HeaderBranchSlug, Some (BranchSlug id));
  (HeaderTenantName, nonempty (TenantName id)); (HeaderBranchName, nonempty (BranchName id));
  (HeaderUserID, Some (UserID id)); (HeaderUserName, nonempty (FullName id));
  (HeaderUserType, Some (UserType id)); (HeaderRoles, Some (Join (Roles id) ","));
  (HeaderPermissions, Some (Join (Permissions id) ","));
  (HeaderFeatures, Some (Join (Features id) ",")); (HeaderTokenHash, Some (TokenHash id));
  (HeaderRequestID, nonempty rid)].

Lemma identity_headers_names id schema nav rid :
  map (CanonicalHeaderKey ∘ fst) (identity_headers id schema nav rid) =
  map (CanonicalHeaderKey ∘ fst) (identity_headers some_identity "" "" "").
Proof. reflexivity. Qed.
Lemma identity_headers_NoDup id schema nav rid :
  NoDup (map (CanonicalHeaderKey ∘ fst) (identity_headers id schema nav rid)).
Proof. rewrite identity_headers_names. apply (bool_decide_unpack _). vm_compute. exact I. Qed.

Lemma put_nonempty n v h : put h (n, nonempty v) = Set_nonempty n v h.
Proof. unfold put, nonempty, Set_nonempty. simpl. by destruct (String.eqb v ""). Qed.

Lemma tenant_headers_put id schema nav h :
  tenant_headers id schema nav h =
  foldl put (Del HeaderActingUser h) (identity_headers id schema nav (Get h "X-Request-ID")).
Proof.
  unfold identity_headers. cbn [foldl]. rewrite !put_nonempty. unfold put. cbn [fst snd].
  unfold tenant_headers. f_equal. unfold Set_nonempty.
  repeat match goal with |- context [if String.eqb ?x "" then _ else _] =>
    destruct (String.eqb x "") end;
  rewrite ?Get_Set_ne by (vm_compute; done); rewrite ?Get_Del_ne by (vm_compute; done); done.
Qed.

Lemma tenant_headers_Values id schema nav h name :
  Values (tenant_headers id schema nav h) name =
  match written (identity_headers id schema nav (Get h "X-Request-ID")) name with
  | Some v => [v]
  | None => Values (Del HeaderActingUser h) name
  end.
Proof. rewrite tenant_headers_put. apply Values_foldl_put, identity_headers_NoDup. Qed.
#[export] Hint Rewrite tenant_headers_Values StripSpoofedHeaders_Values : gateway.

(** ** CORS *)

Lemma cors_config_spec os acc origin :
  origin ≠ "" →
  ((foldl cors_step acc os).1 = true ↔ acc.1 = true ∨ ∃ o, o ∈ os ∧ TrimSpace o = "*") ∧
  (origin ∈ (foldl cors_step acc os).2 ↔ origin ∈ acc.2 ∨ ∃ o, o ∈ os ∧ TrimSpace o = origin).
Proof.
  intros Ho. revert acc. induction os as [|o os IH]; intros [all allow]; cbn [foldl].
  { split; (split; [auto|]); intros [|(? & ?%not_elem_of_nil & _)]; done. }
  destruct (IH (cors_step (all, allow) o)) as [-> ->]. simpl. setoid_rewrite elem_of_cons. split.
  - rewrite orb_true_iff, String.eqb_eq. naive_solver.
  - destruct (String.eqb_spec (TrimSpace o) "") as [E|E]; [|set_solver]. naive_solver congruence.
Qed.

(** An origin the configuration lets in. *)
Definition origin_allowed (allowedOrigins : list string) (origin : string) : Prop :=
  origin ≠ "" ∧ (allowedOrigins = [] ∨
    ∃ o, o ∈ allowedOrigins ∧ (TrimSpace o = "*" ∨ TrimSpace o = origin)).

(** An origin is granted access, by echoing it, exactly when the configuration
    lists it, lists [*] or lists nothing; otherwise the response headers are not
    touched.  A preflight is always answered here with 204, and any other method
    always goes on. *)
Theorem CORS_spec allowedOrigins c :
  let '(c', res) := CORS allowedOrigins c in
  let origin := GetHeader (g_req c) "Origin" in
  (origin_allowed allowedOrigins origin →
     Values (g_resp c') "Access-Control-Allow-Origin" = [origin] ∧
     Values (g_resp c') "Vary" = ["Origin"]) ∧
  (¬ origin_allowed allowedOrigins origin → c' = c) ∧
  g_req c' = g_req c ∧ g_identity c' = g_identity c ∧
  res = if String.eqb (rq_Method (g_req c)) "OPTIONS" then inl (Status 204) else inr tt.
Proof.
  unfold CORS.
  destruct (cors_config allowedOrigins) as [all allow] eqn:E. run_steps.
  set (origin := GetHeader (g_req c) "Origin").
  assert (negb (String.eqb origin "") && (all || bool_decide (origin ∈ allow)) = true ↔
          origin_allowed allowedOrigins origin) as Hal.
  { unfold origin_allowed. rewrite andb_true_iff, negb_true_iff, String.eqb_neq.
    rewrite orb_true_iff, bool_decide_eq_true.
    destruct (decide (origin = "")) as [|Hne]; [naive_solver|].
    unfold cors_config in E.
    destruct (cors_config_spec allowedOrigins
      (match allowedOrigins with [] => true | _ => false end, ∅) origin Hne) as [H1 H2].
    rewrite E in H1, H2. simpl in H1, H2. rewrite H1, H2.
    destruct allowedOrigins as [|o os]; [by naive_solver|].
    split; [intros (_ & [[?|(x & Hx & E1)]|[?%not_elem_of_empty|(x & Hx & E1)]]); [done| |done|]|];
      [by split; eauto..|]. intros (_ & [?|(x & Hx & [E1|E1])]); [done|..]; (split; [done|]); eauto 6. }
  unfold reject_if.
  destruct (negb (String.eqb origin "") && _); destruct (String.eqb (rq_Method (g_req c)) "OPTIONS");
    run_steps; split_and!; try done; intros Ha; try (by apply Hal in Ha);
    try (exfalso; by apply Ha, Hal); split; unfold respond_header; cbn [g_resp set_resp];
    repeat (rewrite Values_Set_eq || rewrite Values_Set_ne by (vm_compute; done)); done.
Qed.

(** A configured origin list has no blank entries and no surrounding spaces,
    and holds every field of the setting that names an origin. *)
Theorem ParseOrigins_spec env o :
  o ∈ ParseOrigins env ↔ o ≠ "" ∧ ∃ f, f ∈ Split env "," ∧ o = TrimSpace f.
Proof.
  unfold ParseOrigins. destruct (String.eqb_spec (TrimSpace env) "") as [He|_].
  - split; [by intros ?%not_elem_of_nil|].
    intros [Ho (f & Hf & ->)]. rewrite Split_no_sep in Hf.
    { apply list_elem_of_singleton in Hf as ->. done. }
    destruct (has_byte "," env) eqn:E; [|done]. by apply (trim_both_empty _ _ _ He) in E.
  - rewrite list_elem_of_filter. rewrite list_elem_of_In, in_map_iff.
    setoid_rewrite <- list_elem_of_In. naive_solver.
Qed.
