(* ===== verification/Nav.v ===== *)
(** [internal/dispatcher/nav.go]: the suite's sidebar, assembled from every live
    plugin's manifest for one caller, and its encoding for a header. *)

From S2P Require Import Prelude GoStrings Crypto Manifest Auth Http Middleware Registry.

Definition maxNavHeaderBytes : Z := 6 * 1024.

Record navEntry := {
  ne_Plugin : string; ne_Key : string; ne_Labels : option (gmap string string);
  ne_Icon : string; ne_Href : string; ne_Group : string;
  ne_GroupLabels : gmap string string; groupSort : Z
}.

(** [setOf(features)]: the non-empty values. *)
Definition setOf (values : list string) : gset string :=
  list_to_set (filter (λ v, v ≠ "") values).

Definition qualify (pluginName feature : string) : string :=
  if Contains feature ":" then feature else pluginName ++ ":" ++ feature.

Fixpoint sort_in (key : string) (items : list NavItem) : option Z :=
  match items with
  | [] => None
  | item :: items' => if String.eqb (Key item) key then Some (Sort item) else sort_in key items'
  end.
Fixpoint sortOf (plugins : list PluginEntry) (e : navEntry) : Z :=
  match plugins with
  | [] => 0
  | p :: plugins' =>
      if negb (String.eqb (PluginName (Info p)) (ne_Plugin e)) then sortOf plugins' e
      else match sort_in (ne_Key e) (Nav (Manifest p)) with
           | Some s => s
           | None => sortOf plugins' e
           end
  end.

(** The guards of the inner loop: [false] is one of its [continue]s. *)
Definition openable (perms : list string) (features : gset string) (pluginName : string)
    (item : NavItem) : bool :=
  if String.eqb (Href item) "" || String.eqb (Key item) "" then false
  else if negb (PermissionAllowed perms (nav_Permission item)) then false
  else if negb (String.eqb (Feature item) "") &&
          negb (bool_decide (qualify pluginName (Feature item) ∈ features)) then false
  else true.

Definition nav_entry (p : PluginEntry) (item : NavItem) : navEntry := {|
  ne_Plugin := PluginName (Info p); ne_Key := Key item; ne_Labels := Labels item;
  ne_Icon := Icon item; ne_Href := Href item; ne_Group := Group item;
  ne_GroupLabels := GroupLabels item; groupSort := GroupSort item |}.

Definition entries_of (perms : list string) (features : gset string) (p : PluginEntry) :
    list navEntry :=
  if negb (Alive p) then []
  else nav_entry p <$>
    filter (λ item, openable perms features (PluginName (Info p)) item = true) (Nav (Manifest p)).

(** The comparison given to [sort.SliceStable]. *)
Definition nav_less (plugins : list PluginEntry) (a b : navEntry) : bool :=
  if decide (groupSort a = groupSort b) then
    if decide (ne_Group a = ne_Group b) then
      if decide (sortOf plugins a = sortOf plugins b) then str_ltb (ne_Plugin a) (ne_Plugin b)
      else sortOf plugins a <? sortOf plugins b
    else str_ltb (ne_Group a) (ne_Group b)
  else groupSort a <? groupSort b.

Definition buildNav (plugins : list PluginEntry) (perms features : list string) :
    list navEntry :=
  SliceStable (nav_less plugins)
    (mjoin (entries_of perms (setOf features) <$> plugins)).

(** ** Encoding

    [json.Marshal]: strings are escaped for HTML, invalid UTF-8 and the two line
    separators are replaced; map keys are sorted. *)

Definition in_range (c : ascii) (lo hi : N) : bool :=
  ((lo <=? N_of_ascii c) && (N_of_ascii c <=? hi))%N.
Definition cont (c : ascii) : bool := in_range c 128 191.
Definition utf8_2 (a b : ascii) : bool := in_range a 194 223 && cont b.
Definition utf8_3 (a b c : ascii) : bool :=
  (in_range a 224 224 && in_range b 160 191 || in_range a 237 237 && in_range b 128 159 ||
   (in_range a 225 236 || in_range a 238 239) && cont b) && cont c.
Definition utf8_4 (a b c d : ascii) : bool :=
  (in_range a 240 240 && in_range b 144 191 || in_range a 244 244 && in_range b 128 143 ||
   in_range a 241 243 && cont b) && cont c && cont d.

Definition bs : string := String.String (ascii_of_N 92) "".
Definition dq : string := String.String (ascii_of_N 34) "".

Definition escape_ascii (c : ascii) : string :=
  let n := N_of_ascii c in
  if (n =? 34)%N || (n =? 92)%N then bs ++ String.String c ""
  else if (n =? 8)%N then bs ++ "b"
  else if (n =? 12)%N then bs ++ "f"
  else if (n =? 10)%N then bs ++ "n"
  else if (n =? 13)%N then bs ++ "r"
  else if (n =? 9)%N then bs ++ "t"
  else if (n <? 32)%N || has_byte c "&<>" then bs ++ "u00" ++ hex_encode (String.String c "")
  else String.String c "".
Definition replacement : string := bs ++ "ufffd".

Fixpoint json_chars (s : string) : string :=
  match s with
  | EmptyString => ""
  | String.String a s1 =>
      if in_range a 0 127 then escape_ascii a ++ json_chars s1
      else match s1 with
        | EmptyString => replacement
        | String.String b s2 =>
            if utf8_2 a b then String.String a (String.String b (json_chars s2))
            else match s2 with
              | EmptyString => replacement ++ json_chars s1
              | String.String c s3 =>
                  if utf8_3 a b c then
                    (if in_range a 226 226 && in_range b 128 128 && in_range c 168 169
                     then bs ++ (if in_range c 168 168 then "u2028" else "u2029")
                     else String.String a (String.String b (String.String c ""))) ++ json_chars s3
                  else match s3 with
                    | EmptyString => replacement ++ json_chars s1
                    | String.String d s4 =>
                        if utf8_4 a b c d then
                          String.String a (String.String b (String.String c (String.String d (json_chars s4))))
                        else replacement ++ json_chars s1
                    end
              end
        end
  end.
Definition json_string (s : string) : string := dq ++ json_chars s ++ dq.

Definition json_map (m : gmap string string) : string :=
  "{" ++ Join (map (λ kv, json_string kv.1 ++ ":" ++ json_string kv.2)
                 (SliceStable (by_key fst str_ltb) (map_to_list m))) "," ++ "}".

(** A field of the struct, under its JSON name; [omitempty] drops an empty one. *)
Definition json_field (name value : string) : list string := [dq ++ name ++ dq ++ ":" ++ value].
Definition omitempty (name value : string) : list string :=
  if String.eqb value "" then [] else json_field name (json_string value).

Definition json_entry (e : navEntry) : string :=
  "{" ++ Join (
    app (json_field "plugin" (json_string (ne_Plugin e))) (
    app (json_field "key" (json_string (ne_Key e))) (
    app (json_field "labels" match ne_Labels e with Some m => json_map m | None => "null" end) (
    app (omitempty "icon" (ne_Icon e)) (
    app (json_field "href" (json_string (ne_Href e))) (
    app (omitempty "group" (ne_Group e))
        (if bool_decide (ne_GroupLabels e = ∅) then []
         else json_field "group_labels" (json_map (ne_GroupLabels e))))))))) "," ++ "}".

Definition Marshal_nav (entries : list navEntry) : string :=
  "[" ++ Join (map json_entry entries) "," ++ "]".

Definition encodeNav (entries : list navEntry) : string :=
  if Z.of_nat (length entries) =? 0 then ""
  else
    let encoded := StdEncode (Marshal_nav entries) in
    if maxNavHeaderBytes <? Z.of_nat (String.length encoded) then "" else encoded.

(** [wantsNav(c)] *)
Definition wantsNav (r : Request) : bool :=
  if negb (String.eqb (rq_Method r) "GET") then false
  else Contains (GetHeader r "Accept") "text/html".

(** ** What the menu holds *)

(** Every item every plugin declares, plugin by plugin. *)
Definition declared (ps : list PluginEntry) : list (PluginEntry * NavItem) :=
  p ← ps; pair p <$> Nav (Manifest p).

(** The tenant has the module an item belongs to: named with its plugin, or one of
    the item's own. *)
Definition has_module (features : list string) (p : PluginEntry) (item : NavItem) : Prop :=
  Feature item = "" ∨
  (if Contains (Feature item) ":" then Feature item else PluginName (Info p) ++ ":" ++ Feature item) ∈ features.

(** A declared item is shown to this caller. *)
Definition shown (perms features : list string) (x : PluginEntry * NavItem) : Prop :=
  Alive x.1 = true ∧ Href x.2 ≠ "" ∧ Key x.2 ≠ "" ∧
  PermissionAllowed perms (nav_Permission x.2) = true ∧ has_module features x.1 x.2.
#[export] Instance shown_dec perms features x : Decision (shown perms features x).
Proof. unfold shown, has_module. apply _. Defined.

Lemma elem_of_setOf q features : q ∈ setOf features ↔ q ≠ "" ∧ q ∈ features.
Proof. unfold setOf. by rewrite elem_of_list_to_set, list_elem_of_filter. Qed.

Lemma qualify_nonempty n f : f ≠ "" → qualify n f ≠ "".
Proof. unfold qualify. destruct (Contains f ":"); [done|]. by destruct n. Qed.

Lemma openable_shown perms features p item :
  Alive p = true →
  openable perms (setOf features) (PluginName (Info p)) item = true ↔ shown perms features (p, item).
Proof.
  intros Ha. unfold openable, shown, has_module. cbn [fst snd].
  destruct (String.eqb_spec (Href item) ""); simpl; [naive_solver|].
  destruct (String.eqb_spec (Key item) ""); simpl; [naive_solver|].
  destruct (PermissionAllowed _ _); simpl; [|naive_solver].
  destruct (String.eqb_spec (Feature item) "") as [|Hf]; simpl; [naive_solver|].
  pose proof (qualify_nonempty (PluginName (Info p)) _ Hf) as Hq.
  change (if Contains (Feature item) ":" then _ else _) with (qualify (PluginName (Info p)) (Feature item)).
  case_bool_decide as Hin; rewrite elem_of_setOf in Hin; naive_solver.
Qed.

Lemma entries_of_shown perms features p :
  entries_of perms (setOf features) p =
  (λ x, nav_entry x.1 x.2) <$> filter (shown perms features) (pair p <$> Nav (Manifest p)).
Proof.
  unfold entries_of. destruct (Alive p) eqn:Ha; simpl.
  - induction (Nav (Manifest p)) as [|item items IH]; [done|]. cbn [fmap list_fmap]. rewrite !filter_cons.
    pose proof (openable_shown perms features p item Ha) as Ho.
    repeat case_decide; try tauto; cbn [fmap list_fmap fst snd]; by rewrite IH.
  - rewrite filter_none; [done|]. intros x (item & -> & _)%list_elem_of_fmap [Ha' _]. cbn in Ha'. congruence.
Qed.
Lemma collected_shown perms features ps :
  mjoin (entries_of perms (setOf features) <$> ps) =
  (λ x, nav_entry x.1 x.2) <$> filter (shown perms features) (declared ps).
Proof.
  induction ps as [|p ps IH]; [done|]. unfold declared in *. cbn [mbind list_bind fmap list_fmap mjoin list_join] in *.
  rewrite filter_app, fmap_app, <- entries_of_shown. f_equal. exact IH.
Qed.

#[export] Instance nav_less_strict_weak plugins : StrictWeak (nav_less plugins).
Proof.
  change (StrictWeak (lex groupSort Z.ltb (lex ne_Group str_ltb
    (lex (sortOf plugins) Z.ltb (by_key ne_Plugin str_ltb))))). apply _.
Qed.

Lemma nav_less_equiv plugins a b :
  sort_equiv (nav_less plugins) a b = true → ne_Plugin a = ne_Plugin b.
Proof.
  change (nav_less plugins) with (lex groupSort Z.ltb (lex ne_Group str_ltb
    (lex (sortOf plugins) Z.ltb (by_key ne_Plugin str_ltb)))).
  intros H.
  destruct (lex_equiv groupSort _ _ _ _ H) as [_ H1].
  destruct (lex_equiv ne_Group _ _ _ _ H1) as [_ H2].
  destruct (lex_equiv (sortOf plugins) _ _ _ _ H2) as [_ H3].
  exact (by_key_equiv _ _ _ _ H3).
Qed.

(** *** Its order *)

(** What the suite's authors declare of an item's place: its group's order, the group,
    its own order, its plugin. *)
Definition rank (x : PluginEntry * NavItem) : Z * string * Z * string :=
  (GroupSort x.2, Group x.2, Sort x.2, PluginName (Info x.1)).
Definition precedes (x y : PluginEntry * NavItem) : Prop :=
  GroupSort x.2 < GroupSort y.2 ∨ GroupSort x.2 = GroupSort y.2 ∧
  (str_ltb (Group x.2) (Group y.2) = true ∨ Group x.2 = Group y.2 ∧
  (Sort x.2 < Sort y.2 ∨ Sort x.2 = Sort y.2 ∧
  str_ltb (PluginName (Info x.1)) (PluginName (Info y.1)) = true)).
(** An item's key tells its order within its plugin. *)
Definition keyed (ps : list PluginEntry) : Prop :=
  ∀ x y, x ∈ declared ps → y ∈ declared ps →
    PluginName (Info x.1) = PluginName (Info y.1) → Key x.2 = Key y.2 → Sort x.2 = Sort y.2.

Lemma elem_of_declared ps p item : (p, item) ∈ declared ps ↔ p ∈ ps ∧ item ∈ Nav (Manifest p).
Proof.
  unfold declared. rewrite list_elem_of_bind. setoid_rewrite list_elem_of_fmap. naive_solver.
Qed.

Lemma sort_in_Some key items item :
  item ∈ items → Key item = key → ∃ item', item' ∈ items ∧ Key item' = key ∧ sort_in key items = Some (Sort item').
Proof.
  intros Hin Hk. induction items as [|i items IH]; [by apply not_elem_of_nil in Hin|]. cbn [sort_in].
  destruct (String.eqb_spec (Key i) key) as [E|E]; [exists i; by repeat split; [left|..]|].
  apply elem_of_cons in Hin as [->|Hin]; [done|]. destruct (IH Hin) as (item' & ? & ? & ?).
  exists item'. by repeat split; [right|..].
Qed.
Lemma sort_in_key key items s : sort_in key items = Some s → ∃ i, i ∈ items ∧ Key i = key ∧ Sort i = s.
Proof.
  induction items as [|i items IH]; [done|]. cbn [sort_in].
  destruct (String.eqb_spec (Key i) key) as [E|E]; [intros [= <-]; exists i; by repeat split; [left|..]|].
  intros (j & ? & ? & ?)%IH. exists j. by repeat split; [right|..].
Qed.
(** The look-up finds some declaration of the key by the plugin of that name. *)
Lemma sortOf_declared ps p item :
  (p, item) ∈ declared ps → ∃ y, y ∈ declared ps ∧ PluginName (Info y.1) = PluginName (Info p) ∧
    Key y.2 = Key item ∧ sortOf ps (nav_entry p item) = Sort y.2.
Proof.
  intros [Hp Hi]%elem_of_declared.
  assert (∃ q i, q ∈ ps ∧ i ∈ Nav (Manifest q) ∧ PluginName (Info q) = PluginName (Info p) ∧ Key i = Key item ∧
    sortOf ps (nav_entry p item) = Sort i) as (q & i & Hq & Hi' & Hn & Hk & Hs).
  { induction ps as [|q ps IH]; [by apply not_elem_of_nil in Hp|]. cbn [sortOf nav_entry ne_Plugin ne_Key].
    destruct (String.eqb_spec (PluginName (Info q)) (PluginName (Info p))) as [E|E]; cbn [negb].
    - destruct (sort_in (Key item) (Nav (Manifest q))) as [s|] eqn:Es.
      + apply sort_in_key in Es as (i & ? & ? & <-). exists q, i. by repeat split; [left|..].
      + apply elem_of_cons in Hp as [<-|Hp].
        { destruct (sort_in_Some _ _ _ Hi eq_refl) as (? & _ & _ & ?). congruence. }
        destruct (IH Hp) as (q' & i & ? & ?). exists q', i. by split; [right|].
    - apply elem_of_cons in Hp as [<-|Hp]; [done|]. destruct (IH Hp) as (q' & i & ? & ?). exists q', i. by split; [right|]. }
  exists (q, i). split; [by apply elem_of_declared|done].
Qed.

Lemma nav_less_precedes ps x y :
  keyed ps → x ∈ declared ps → y ∈ declared ps →
  nav_less ps (nav_entry x.1 x.2) (nav_entry y.1 y.2) = true ↔ precedes x y.
Proof.
  intros Hk Hx Hy.
  assert (∀ z, z ∈ declared ps → sortOf ps (nav_entry z.1 z.2) = Sort z.2) as Hs.
  { intros [p i] Hz. cbn [fst snd]. destruct (sortOf_declared ps p i Hz) as (w & Hw & Hn & Hkey & ->). by apply (Hk w (p, i)). }
  unfold nav_less, precedes. rewrite !Hs by done. cbn [nav_entry groupSort ne_Group ne_Plugin].
  destruct (decide (GroupSort x.2 = GroupSort y.2)) as [Eg|Eg].
  2: { rewrite Z.ltb_lt. split; [by left|]. by intros [?|[? _]]. }
  destruct (decide (Group x.2 = Group y.2)) as [Er|Er].
  2: { split; [auto|]. intros [?|[_ [?|[? _]]]]; [lia|done..]. }
  assert (str_ltb (Group x.2) (Group y.2) ≠ true) as Hnr by by rewrite Er, str_ltb_irrefl.
  destruct (decide (Sort x.2 = Sort y.2)) as [Es|Es].
  - split; [auto 9|]. intros [?|[_ [?|[_ [?|[_ ?]]]]]]; [lia|done|lia|done].
  - rewrite Z.ltb_lt. split; [auto 9|]. intros [?|[_ [?|[_ [?|[? _]]]]]]; [lia|done..].
Qed.

Lemma rank_neither x y : ¬ precedes x y → ¬ precedes y x → rank x = rank y.
Proof.
  unfold precedes, rank. intros Hxy Hyx.
  assert (GroupSort x.2 = GroupSort y.2) as Hg
    by (destruct (Z.lt_trichotomy (GroupSort x.2) (GroupSort y.2)) as [?|[?|?]]; tauto).
  assert (Group x.2 = Group y.2) as Hgr.
  { apply str_ltb_total; apply not_true_iff_false; intros ?; [apply Hxy|apply Hyx]; right; auto. }
  pose proof (eq_sym Hg). pose proof (eq_sym Hgr).
  assert (Sort x.2 = Sort y.2) as Hs
    by (destruct (Z.lt_trichotomy (Sort x.2) (Sort y.2)) as [?|[?|?]];
        [destruct Hxy|done|destruct Hyx]; auto 9).
  assert (PluginName (Info x.1) = PluginName (Info y.1)) as Hn.
  { apply str_ltb_total; apply not_true_iff_false; intros ?; [apply Hxy|apply Hyx]; auto 10. }
  congruence.
Qed.
Lemma rank_not_precedes x y : rank x = rank y → ¬ precedes x y.
Proof.
  unfold rank, precedes. intros [= Hg Hgr Hs Hn] [?|[_ [?|[_ [?|[_ ?]]]]]]; try lia;
    rewrite ?Hgr, ?Hn, str_ltb_irrefl in *; done.
Qed.

(** An entry says what its item declares. *)
Definition describes (e : navEntry) (x : PluginEntry * NavItem) : Prop :=
  ne_Plugin e = PluginName (Info x.1) ∧ ne_Key e = Key x.2 ∧ ne_Labels e = Labels x.2 ∧
  ne_Icon e = Icon x.2 ∧ ne_Href e = Href x.2 ∧ ne_Group e = Group x.2 ∧ ne_GroupLabels e = GroupLabels x.2.

(** C38: The menu is made of exactly the items this caller may open, each once per
    declaration: those of live plugins whose permission the caller's grants satisfy
    and whose module the tenant has.  Where an item's key tells its order within its
    plugin, they are sorted by the declared order of their group, then its name, then
    the item's own declared order, then the plugin's name; items that agree in all
    four stay in the order the plugins and their manifests list them. *)
Theorem buildNav_shows_what_opens ps perms features :
  ∃ menu, Forall2 describes (buildNav ps perms features) menu ∧
  menu ≡ₚ filter (shown perms features) (declared ps) ∧
  (keyed ps → StronglySorted (λ x y, ¬ precedes y x) menu ∧
     ∀ k, filter (λ x, rank x = k) menu =
          filter (λ x, rank x = k) (filter (shown perms features) (declared ps))).
Proof.
  set (f := λ x : PluginEntry * NavItem, nav_entry x.1 x.2). set (l := filter (shown perms features) (declared ps)).
  set (less := λ x y, nav_less ps (f x) (f y)). exists (SliceStable less l).
  pose proof (SliceStable_perm less l) as Hp. split_and!; [|done|intros Hk].
  - unfold buildNav. rewrite collected_shown. fold f l. rewrite SliceStable_fmap. fold less.
    apply Forall2_fmap_l, Forall_Forall2_diag, Forall_true. by intros x.
  - assert (∀ x, x ∈ l → x ∈ declared ps) as Hd by (by intros x [_ ?]%list_elem_of_filter).
    assert (∀ x y, x ∈ l → y ∈ l → less x y = true ↔ precedes x y) as Hl
      by (intros x y Hx Hy; apply nav_less_precedes; auto).
    split.
    + refine (StronglySorted_within _ _ _ _ (SliceStable_sorted less l)).
      intros x y Hx Hy Hle Hyx. rewrite Hp in Hx, Hy. apply Hl in Hyx; [|done..]. unfold le_of in Hle. congruence.
    + intros k. destruct (decide (Exists (λ x, rank x = k) l)) as [He|Hne].
      * apply Exists_exists in He as (x0 & Hx0 & <-).
        assert (∀ y, y ∈ l → rank y = rank x0 ↔ sort_equiv less x0 y = true) as Heq.
        { intros y Hy. rewrite sort_equiv_spec, <- !not_true_iff_false, !Hl by done. split.
          - intros He. by split; apply rank_not_precedes.
          - intros []. symmetry. by apply rank_neither. }
        rewrite (filter_same _ _ l Heq), <- (SliceStable_class less). apply filter_same.
        intros y Hy. rewrite Hp in Hy. auto.
      * rewrite !filter_none; [done| |]; intros x Hx Hr; apply Hne, Exists_exists; exists x; [done|].
        by rewrite Hp in Hx.
Qed.

(** ** Stability across requests *)

Lemma filter_collected perms features (P : navEntry → Prop) `{!∀ e, Decision (P e)} n ps :
  (∀ e, P e → ne_Plugin e = n) →
  filter P (mjoin (entries_of perms features <$> ps)) =
  filter P (mjoin (entries_of perms features <$> filter (λ p, PluginName (Info p) = n) ps)).
Proof.
  intros HP. induction ps as [|p ps IH]; [done|].
  assert (∀ ps', mjoin (entries_of perms features <$> p :: ps') =
    app (entries_of perms features p) (mjoin (entries_of perms features <$> ps'))) as Hc by done.
  rewrite Hc, filter_app, IH, filter_cons.
  case_decide as Hn; [by rewrite Hc, filter_app|].
  replace (filter P (entries_of perms features p)) with (@nil navEntry); [done|].
  symmetry. apply filter_none. intros e He HPe. apply HP in HPe.
  unfold entries_of in He. destruct (Alive p); simpl in He; [|by apply not_elem_of_nil in He].
  apply list_elem_of_fmap in He as (item & -> & _). done.
Qed.

Lemma sortOf_named ps e :
  sortOf ps e = sortOf (filter (λ p, PluginName (Info p) = ne_Plugin e) ps) e.
Proof.
  induction ps as [|p ps IH]; [done|]. rewrite filter_cons. cbn [sortOf].
  destruct (String.eqb_spec (PluginName (Info p)) (ne_Plugin e)) as [E|E]; simpl.
  - rewrite decide_True by done. cbn [sortOf].
    rewrite (proj2 (String.eqb_eq _ _) E). simpl. by rewrite IH.
  - by rewrite decide_False.
Qed.

Lemma perm_short_eq {A} (l l' : list A) : l ≡ₚ l' → (length l ≤ 1)%nat → l = l'.
Proof.
  destruct l as [|x [|y l]]; simpl; intros Hp Hl; [| |lia].
  - by apply Permutation_nil_l in Hp.
  - by apply Permutation_singleton_l in Hp.
Qed.
Lemma named_once (ps : list PluginEntry) n :
  NoDup ((λ p, PluginName (Info p)) <$> ps) →
  (length (filter (λ p, PluginName (Info p) = n) ps) ≤ 1)%nat.
Proof.
  induction ps as [|p ps IH]; simpl; [lia|]. intros [Hp Hnd]%NoDup_cons.
  rewrite filter_cons. case_decide as Hn; [|auto].
  replace (filter (λ p, PluginName (Info p) = n) ps) with (@nil PluginEntry); [simpl; lia|].
  symmetry. apply filter_none. intros q Hq Hqn. apply Hp.
  apply list_elem_of_fmap. exists q. by rewrite Hn, Hqn.
Qed.

Lemma buildNav_perm ps ps' perms features :
  NoDup ((λ p, PluginName (Info p)) <$> ps) → ps ≡ₚ ps' →
  buildNav ps perms features = buildNav ps' perms features.
Proof.
  intros Hnd Hp.
  assert (∀ n, filter (λ p, PluginName (Info p) = n) ps = filter (λ p, PluginName (Info p) = n) ps')
    as Hf.
  { intros n. apply perm_short_eq; [by rewrite Hp|by apply named_once]. }
  assert (∀ e, sortOf ps e = sortOf ps' e) as Hs.
  { intros e. rewrite (sortOf_named ps), (sortOf_named ps'). by rewrite Hf. }
  unfold buildNav. rewrite <- (SliceStable_ext (nav_less ps) (nav_less ps'))
    by (intros x y; unfold nav_less; by rewrite !Hs).
  apply (SliceStable_classes_eq (nav_less ps)). intros k.
  assert (∀ e, sort_equiv (nav_less ps) k e = true → ne_Plugin e = ne_Plugin k) as Hk
    by (intros e He; symmetry; by eapply nav_less_equiv).
  rewrite (filter_collected _ _ _ _ ps Hk), (filter_collected _ _ _ _ ps' Hk).
  by rewrite Hf.
Qed.

(** The menu does not depend on the order the registry's map happens to be
    walked in, so it cannot reorder itself between page loads, as long as no two
    registered plugins share a name. *)
Theorem nav_order_is_stable (o o' : MapOrder) r perms features :
  NoDup ((λ p, PluginName (Info p)) <$> List (H := o) r) →
  buildNav (List (H := o) r) perms features = buildNav (List (H := o') r) perms features.
Proof.
  intros Hnd. apply buildNav_perm; [done|]. unfold List.
  by rewrite (range_perm (MapOrder := o)), (range_perm (MapOrder := o')).
Qed.

(** A manifest with one menu entry. *)
Definition demo_menu (key permission : string) : Manifest.Manifest := {|
  Name := key; Version := "1"; Description := ""; PluginType := "internal"; Routes := [];
  PublicPaths := []; DomainSurfaces := []; Migrations := []; OpenAPISpec := "";
  TenantSchema := "";
  Nav := [{| Key := key; Labels := None; Icon := ""; Href := "/" ++ key; nav_Permission := permission;
             Feature := ""; Group := ""; Sort := 0; GroupLabels := ∅; GroupSort := 0 |}];
  Manifest.Permissions := ""; Manifest.Roles := ""; Manifest.Features := "" |}.

Lemma buildNav_shows_what_opens_witness :
  let ps := List (H := reversed_order) (demo_registry (demo_menu "sales" "") (demo_menu "leads" "crm:read")) in
  ∃ menu, Forall2 describes (buildNav ps ["crm:*"] []) menu ∧ StronglySorted (λ x y, ¬ precedes y x) menu.
Proof.
  intros ps. destruct (buildNav_shows_what_opens ps ["crm:*"] []) as (menu & Hm & _ & Hs). exists menu. split; [exact Hm|].
  refine (proj1 (Hs _)). assert (Forall (λ x, Sort x.2 = 0) (declared ps)) as Hall by (vm_compute; by repeat constructor).
  rewrite Forall_forall in Hall. intros x y Hx Hy _ _. by rewrite (Hall x Hx), (Hall y Hy).
Defined.

Lemma nav_order_is_stable_witness :
  let r := demo_registry (demo_menu "sales" "") (demo_menu "leads" "crm:read") in
  ne_Key <$> buildNav (List (H := reversed_order) r) ["crm:*"] [] = ["leads"; "sales"].
Proof.
  intros r. rewrite <- (nav_order_is_stable sorted_order reversed_order r).
  - by vm_compute.
  - apply (bool_decide_unpack _). by vm_compute.
Defined.

(** The header carries the whole menu or nothing: it is sent exactly when
    there is an entry and the JSON is at most 4608 bytes, and then it is the
    Base64 of that JSON, within the 6144-byte cap. *)
Theorem encodeNav_all_or_nothing entries :
  if decide (entries ≠ [] ∧ Z.of_nat (String.length (Marshal_nav entries)) ≤ 4608)
  then encodeNav entries = StdEncode (Marshal_nav entries) ∧
       0 < Z.of_nat (String.length (encodeNav entries)) ≤ maxNavHeaderBytes
  else encodeNav entries = "".
Proof.
  unfold encodeNav, maxNavHeaderBytes.
  pose proof (StdEncode_length (Marshal_nav entries)) as Hl.
  destruct entries as [|e es]; [by rewrite decide_False by naive_solver|].
  change (Z.of_nat (length (e :: es)) =? 0) with false. cbv iota zeta.
  assert (1 ≤ String.length (Marshal_nav (e :: es)))%nat as Hpos by (apply le_n_S, Nat.le_0_l).
  revert Hl Hpos. generalize (StdEncode (Marshal_nav (e :: es))) (String.length (Marshal_nav (e :: es))).
  intros encoded n Hl Hpos.
  assert (Z.of_nat (String.length encoded) = 4 * ((Z.of_nat n + 2) / 3)) as Hlen
    by (by rewrite Hl, Nat2Z.inj_mul, Nat2Z.inj_div, Nat2Z.inj_add).
  pose proof (Z.div_mod (Z.of_nat n + 2) 3 ltac:(done)).
  pose proof (Z.mod_pos_bound (Z.of_nat n + 2) 3 ltac:(done)).
  destruct (decide (Z.of_nat n ≤ 4608)) as [Hn|Hn].
  - rewrite decide_True by done.
    destruct (Z.ltb_spec (6 * 1024) (Z.of_nat (String.length encoded))); [lia|]. split; [done|lia].
  - rewrite decide_False by tauto.
    destruct (Z.ltb_spec (6 * 1024) (Z.of_nat (String.length encoded))); [done|lia].
Qed.
