(* ===== verification/Proxy.v ===== *)
(** [httputil.ReverseProxy] as [Dispatcher.ProxyFor] configures it: the request a
    plugin receives, and the [WriteHeader] calls its answer causes. *)

From S2P Require Import Prelude GoStrings Registry Http.

(** ** Hop-by-hop headers *)

Definition hopHeaders : list string := [
  "Connection"; "Proxy-Connection"; "Keep-Alive"; "Proxy-Authenticate";
  "Proxy-Authorization"; "Te"; "Trailer"; "Transfer-Encoding"; "Upgrade"].

(** [textproto.TrimString] *)
Definition TrimString (s : string) : string :=
  trim_both (λ c, is_space c && negb (has_byte c (String.String (ascii_of_N 11) (String.String (ascii_of_N 12) "")))) s.

(** The names a request's own [Connection] headers list. *)
Definition connection_options (h : Header) : list string :=
  filter (λ f, f ≠ "") (map TrimString (mjoin ((λ v, Split v ",") <$> Values h "Connection"))).

Definition removeHopByHopHeaders (h : Header) : Header :=
  foldl (λ h f, Del f h) (foldl (λ h f, Del f h) h (connection_options h)) hopHeaders.

(** [httpguts.HeaderValuesContainsToken] *)
Definition trimOWS (s : string) : string := trim_both (λ c, has_byte c (String.String " " (String.String (ascii_of_N 9) ""))) s.
Definition HeaderValuesContainsToken (values : list string) (token : string) : bool :=
  existsb (λ v, existsb (λ f, EqualFold (trimOWS f) token) (Split v ",")) values.

Definition upgradeType (h : Header) : string :=
  if HeaderValuesContainsToken (Values h "Connection") "Upgrade" then Get h "Upgrade" else "".
Definition IsPrint (s : string) : bool :=
  all_bytes (λ c, let n := N_of_ascii c in (32 <=? n) && (n <=? 126))%N s.

(** ** The outgoing request *)

(** [ProxyFor(target).Director] *)
Definition Director (target : Registry.URL) (r : Request) : Request := {|
  rq_Method := rq_Method r;
  rq_URL := {| u_Scheme := Scheme target; u_Host := Registry.Host target; u_Path := u_Path (rq_URL r);
               u_RawPath := u_RawPath (rq_URL r); u_ForceQuery := u_ForceQuery (rq_URL r);
               u_RawQuery := u_RawQuery (rq_URL r) |};
  rq_Host := Registry.Host target; rq_Header := rq_Header r;
  rq_RequestURI := rq_RequestURI r; rq_RemoteAddr := rq_RemoteAddr r |}.

Definition forwarded_for (r : Request) (h : Header) : Header :=
  match SplitHostPort (rq_RemoteAddr r) with
  | None => h
  | Some (clientIP, _) =>
      match h !! CanonicalHeaderKey "X-Forwarded-For" with
      | Some ((_ :: _) as prior) =>
          Set_ "X-Forwarded-For" (Join prior ", " ++ ", " ++ clientIP) h
      | Some [] | None => Set_ "X-Forwarded-For" clientIP h
      end
  end.

Definition outgoing_header (r : Request) : Header :=
  let up := upgradeType (rq_Header r) in
  let h := removeHopByHopHeaders (rq_Header r) in
  let h := if HeaderValuesContainsToken (Values (rq_Header r) "Te") "trailers"
           then Set_ "Te" "trailers" h else h in
  let h := if String.eqb up "" then h
           else Set_ "Upgrade" up (Set_ "Connection" "Upgrade" h) in
  let h := forwarded_for r h in
  match h !! CanonicalHeaderKey "User-Agent" with
  | Some _ => h
  | None => Set_ "User-Agent" "" h
  end.
Definition outgoing (target : Registry.URL) (r : Request) : Request :=
  with_Header (outgoing_header r) (Director target r).

(** ** The exchange

    What the plugin's side of a round trip does: informational responses, then
    no response at all, a switch of protocols, a response, or a response whose
    body breaks off, on which the proxy panics with [http.ErrAbortHandler]. *)
Inductive outcome := Failed | Switched | Responded (code : Z) | Broken (code : Z).
Record exchange := { x_informational : list Z; x_outcome : outcome }.

Record proxied := { px_sent : option Request; px_codes : list Z; px_panicked : bool }.

(** [pluginEntry.Proxy.ServeHTTP(rec, req)]: the request sent, if any, and the
    codes passed to [WriteHeader]; [ErrorHandler] writes 502. *)
Definition ServeHTTP (RoundTrip : Request → exchange) (target : Registry.URL) (r : Request) :
    proxied :=
  if negb (IsPrint (upgradeType (rq_Header r))) then
    {| px_sent := None; px_codes := [502]; px_panicked := false |}
  else
    let out := outgoing target r in
    let x := RoundTrip out in
    {| px_sent := Some out;
       px_codes := app (x_informational x)
         match x_outcome x with
         | Failed => [502]
         | Switched => []
         | Responded code | Broken code => [code]
         end;
       px_panicked := match x_outcome x with Broken _ => true | _ => false end |}.

(** ** What survives the proxy *)

(** The headers the proxy may write of its own accord. *)
Definition proxy_written : list string :=
  ["Te"; "Connection"; "Upgrade"; "X-Forwarded-For"; "User-Agent"].

(** Any other header either arrives as it was or, when the client's [Connection]
    header lists it, does not arrive at all. *)
Lemma outgoing_Values target r name :
  CanonicalHeaderKey name ∉ map CanonicalHeaderKey (app hopHeaders proxy_written) →
  Values (rq_Header (outgoing target r)) name =
  if decide (CanonicalHeaderKey name ∈ map CanonicalHeaderKey (connection_options (rq_Header r)))
  then [] else Values (rq_Header r) name.
Proof.
  rewrite map_app, not_elem_of_app. intros [Hhop Hpw].
  transitivity (Values (removeHopByHopHeaders (rq_Header r)) name).
  2: { unfold removeHopByHopHeaders. rewrite !Values_foldl_Del. by rewrite decide_False. }
  assert (∀ n v h, n ∈ proxy_written → Values (Set_ n v h) name = Values h name) as Hset.
  { intros n v h Hn. apply Values_Set_ne. intros E. apply Hpw. rewrite <- E.
    by apply list_elem_of_fmap_2. }
  cbn [outgoing rq_Header with_Header]. unfold outgoing_header, forwarded_for.
  repeat case_match; rewrite ?Hset by (repeat constructor); rewrite ?Hset by (repeat (left || right)); done.
Qed.
