(* ===== verification/Dispatcher.v ===== *)
(** [internal/dispatcher/dispatcher.go]: the route table, the protection layers,
    and the handler every proxied request goes through. *)

From S2P Require Import Prelude GoStrings Float64 Manifest Protection RateLimiter Config Auth Registry Http Middleware Nav Proxy.

Record routeEntry := {
  re_pluginID : string; re_pluginName : string; re_method : string; re_pattern : string;
  re_public : bool; re_permission : string
}.
#[export] Instance routeEntry_eq_dec : EqDecision routeEntry.
Proof. solve_decision. Defined.

Record Dispatcher := {
  reg : Registry;
  cb : CircuitBreaker.t;
  bh : Bulkhead.t;
  cfg : Config.Config;
  routes : list routeEntry;
  pluginRL : gmap string RateLimiter.t;
  tenantRL : gmap string RateLimiter.t
}.

Definition New (reg : Registry) (cb : CircuitBreaker.t) (bh : Bulkhead.t) (cfg : Config.Config) :
    Dispatcher :=
  {| reg := reg; cb := cb; bh := bh; cfg := cfg; routes := []; pluginRL := ∅; tenantRL := ∅ |}.

Definition set_reg (r : Registry) (d : Dispatcher) : Dispatcher := {|
  reg := r; cb := cb d; bh := bh d; cfg := cfg d; routes := routes d; pluginRL := pluginRL d;
  tenantRL := tenantRL d |}.
Definition set_cb (x : CircuitBreaker.t) (d : Dispatcher) : Dispatcher := {|
  reg := reg d; cb := x; bh := bh d; cfg := cfg d; routes := routes d; pluginRL := pluginRL d;
  tenantRL := tenantRL d |}.
Definition set_bh (x : Bulkhead.t) (d : Dispatcher) : Dispatcher := {|
  reg := reg d; cb := cb d; bh := x; cfg := cfg d; routes := routes d; pluginRL := pluginRL d;
  tenantRL := tenantRL d |}.
Definition set_routes (rs : list routeEntry) (d : Dispatcher) : Dispatcher := {|
  reg := reg d; cb := cb d; bh := bh d; cfg := cfg d; routes := rs; pluginRL := pluginRL d;
  tenantRL := tenantRL d |}.
Definition set_pluginRL (m : gmap string RateLimiter.t) (d : Dispatcher) : Dispatcher := {|
  reg := reg d; cb := cb d; bh := bh d; cfg := cfg d; routes := routes d; pluginRL := m;
  tenantRL := tenantRL d |}.
Definition set_tenantRL (m : gmap string RateLimiter.t) (d : Dispatcher) : Dispatcher := {|
  reg := reg d; cb := cb d; bh := bh d; cfg := cfg d; routes := routes d; pluginRL := pluginRL d;
  tenantRL := m |}.

(** ** The route table *)

Definition removeRoutes (pluginID : string) (d : Dispatcher) : Dispatcher :=
  set_routes (filter (λ r, re_pluginID r ≠ pluginID) (routes d)) d.

Definition route_entry (pluginID pluginName : string) (r : Route) : routeEntry := {|
  re_pluginID := pluginID; re_pluginName := pluginName; re_method := ToUpper (Method r);
  re_pattern := Path r; re_public := Public r; re_permission := Permission r |}.

(** A tenth of the default budget for a public plugin without a config entry. *)
Definition scaled (c : Config.Config) (pluginName pluginType : string) (x : f64) : f64 :=
  if String.eqb pluginType "public" then
    match Plugins c !! pluginName with
    | Some _ => x
    | None => f64_div_pos x 10
    end
  else x.

Definition AddRoutes (pluginID pluginName pluginType : string) (rs : list Route)
    (d : Dispatcher) : Dispatcher :=
  let c := cfg d in
  let d := removeRoutes pluginID d in
  let d := set_routes (app (routes d) (route_entry pluginID pluginName <$> rs)) d in
  let limits := For c pluginName in
  let rate := scaled c pluginName pluginType (RatePerSec limits) in
  let burst := scaled c pluginName pluginType (RateBurst limits) in
  let d := set_pluginRL (<[pluginID := RateLimiter.New rate burst]> (pluginRL d)) d in
  if f64_ltb (Fin 0) (TenantRatePerSec limits) then
    let tRate := scaled c pluginName pluginType (TenantRatePerSec limits) in
    let tBurst := scaled c pluginName pluginType (TenantRateBurst limits) in
    set_tenantRL (<[pluginID := RateLimiter.New tRate tBurst]> (tenantRL d)) d
  else set_tenantRL (delete pluginID (tenantRL d)) d.

Definition RemoveRoutes (pluginID : string) (d : Dispatcher) : Dispatcher :=
  let d := removeRoutes pluginID d in
  let d := set_pluginRL (delete pluginID (pluginRL d)) d in
  set_tenantRL (delete pluginID (tenantRL d)) d.

Definition methodMatch (pattern method : string) : bool :=
  String.eqb pattern "*" || String.eqb pattern method.

Fixpoint segmentsMatch (pp cp : list string) : bool :=
  match pp, cp with
  | p :: pp', c :: cp' =>
      if HasPrefix p ":" then segmentsMatch pp' cp'
      else if negb (String.eqb p c) then false
      else segmentsMatch pp' cp'
  | _, _ => true
  end.
Definition patternMatch (pattern path : string) : bool :=
  let pp := Split (Trim pattern "/") "/" in
  let cp := Split (Trim path "/") "/" in
  if negb (Nat.eqb (length pp) (length cp)) then false else segmentsMatch pp cp.

Definition prefixMatch (pattern path : string) : bool :=
  let prefix := TrimSuffix pattern "/*" in
  negb (String.eqb prefix pattern) && HasPrefix path prefix.

(** The tests of the two loops of [match]. *)
Definition exact (method path : string) (r : routeEntry) : bool :=
  methodMatch (re_method r) method && String.eqb (re_pattern r) path.
Definition loose (method path : string) (r : routeEntry) : bool :=
  if negb (methodMatch (re_method r) method) then false
  else if patternMatch (re_pattern r) path then true
  else prefixMatch (re_pattern r) path.

(** [d.match(method, path)] *)
Definition match_ (d : Dispatcher) (method path : string) : option routeEntry :=
  match List.find (exact method path) (routes d) with
  | Some r => Some r
  | None => List.find (loose method path) (routes d)
  end.

Definition IsPublic (d : Dispatcher) (method path : string) : bool :=
  match match_ d method path with Some r => re_public r | None => false end.
Definition IsRoutable (d : Dispatcher) (method path : string) : bool :=
  match match_ d method path with Some _ => true | None => false end.
Definition FindDomainSurface `{MapOrder} (d : Dispatcher) (surface : string) :
    option DomainSurface :=
  snd <$> FindByDomainSurface surface (reg d).

Definition authorized (id : option Identity) (entry : routeEntry) : bool :=
  match id with
  | None => false
  | Some id =>
      if String.eqb (UserType id) "platform_admin" then true
      else PermissionAllowed (Permissions id) (re_permission entry)
  end.

(** ** Operator actions *)

Record ProtectionStatus_t := {
  CircuitState : string; BulkheadActive : Z; BulkheadMax : Z; RateTokens : f64; ps_RateBurst : f64
}.
Definition ProtectionStatus (d : Dispatcher) (pluginID : string) : ProtectionStatus_t := {|
  CircuitState := CircuitBreaker.State (cb d) pluginID;
  BulkheadActive := Bulkhead.Active (bh d) pluginID;
  BulkheadMax := Bulkhead.Max (bh d);
  RateTokens := match pluginRL d !! pluginID with
                | Some rl => Tokens rl pluginID | None => Fin 0 end;
  ps_RateBurst := match pluginRL d !! pluginID with
                  | Some rl => Burst rl | None => Fin 0 end |}.

Definition ResetCircuitBreaker (pluginID : string) (d : Dispatcher) : Dispatcher :=
  set_cb (CircuitBreaker.Reset pluginID (cb d)) d.

(** One tick of [RunTenantLimiterSweep] at [now]. *)
Definition tenant_sweep (now maxIdle : Z) (d : Dispatcher) : Dispatcher :=
  set_tenantRL (EvictIdle now maxIdle <$> tenantRL d) d.

(** ** Dispatch *)

(** What the handler reports besides its answer, in order. *)
Inductive event :=
| Rejected (plugin reason : string)
| SpanStart (plugin method route tenant : string)
| SpanStatus (code : Z)
| SpanEnd
| InFlightInc (plugin : string)
| InFlightDec (plugin : string)
| BreakerState (plugin : string) (value : Z)
| RequestsTotal (plugin method status : string)
| RequestDuration (plugin method : string) (seconds : f64)
| LogRequest (pluginID tenantID path method requestID : string) (status duration : Z).

Record World := { w_disp : Dispatcher; w_gin : Gin; w_events : list event }.
Definition set_disp (d : Dispatcher) (w : World) : World :=
  {| w_disp := d; w_gin := w_gin w; w_events := w_events w |}.
Definition set_gin (c : Gin) (w : World) : World :=
  {| w_disp := w_disp w; w_gin := c; w_events := w_events w |}.
Definition emit (e : event) (w : World) : World :=
  {| w_disp := w_disp w; w_gin := w_gin w; w_events := app (w_events w) [e] |}.
Definition on_disp (f : Dispatcher → Dispatcher) (w : World) : World := set_disp (f (w_disp w)) w.
Definition on_gin (f : Gin → Gin) (w : World) : World := set_gin (f (w_gin w)) w.

(** The readings of the clock the handler makes, in program order. *)
Record Clock := {
  t_start : Z; t_maint : Z; t_until : Z; t_rate : Z; t_tenant : Z; t_allow : Z;
  t_failure : Z; t_end : Z
}.

(** How a WebSocket hand-over ends. *)
Inductive ws_outcome := DialFailed | HijackUnsupported | HijackFailed | WriteFailed | Piped.

(** What the client is served. *)
Inductive served :=
| Answered (r : Reply)
| Forwarded (p : proxied)
| Socket (host : string) (o : ws_outcome) (r : option Reply).

(** [statusRecorder] *)
Record statusRecorder := { status : Z; written : bool }.
Definition WriteHeader (code : Z) (r : statusRecorder) : statusRecorder :=
  if negb (written r) then {| status := code; written := true |} else r.
Definition recorded (codes : list Z) : Z :=
  status (foldl (λ r code, WriteHeader code r) {| status := 200; written := false |} codes).

Definition isWebSocketUpgrade (r : Request) : bool :=
  Contains (ToLower (GetHeader r "Connection")) "upgrade" &&
  EqualFold (GetHeader r "Upgrade") "websocket".

Section dispatch.
Context `{MapOrder}.
(** [uuid.New().String()], the trace propagator, and the plugins' behaviour. *)
Context (uuid : string) (Inject : Header → Header).
Context (RoundTrip : Request → exchange) (Dial : string → Request → ws_outcome).

Definition reject {A} (plugin reason : string) (r : Reply) : Handler World served A :=
  modify (emit (Rejected plugin reason));; answer (Answered r).

(** The request id: the client's, or a fresh one echoed to it. *)
Definition request_id : Handler World served string :=
  w ← get_state;
  let id := GetHeader (g_req (w_gin w)) "X-Request-ID" in
  if String.eqb id "" then
    modify (on_gin (on_header (Set_ "X-Request-ID" uuid)));;
    modify (on_gin (respond_header "X-Request-ID" uuid));;
    mret uuid
  else mret id.

(** Firewall, routing, authorization, liveness. *)
Definition route (method path : string) : Handler World served (routeEntry * PluginEntry) :=
  (if Firewall.IsRouteBlocked path
   then reject "_firewall" "blocked" (JSON 403 (error_body "forbidden")) else mret tt);;
  w ← get_state;
  match match_ (w_disp w) method path with
  | None => answer (Answered (JSON 404 (error_body "no plugin handles this route")))
  | Some entry =>
      let plugin := re_pluginName entry in
      (if negb (re_public entry) && negb (String.eqb (re_permission entry) "") &&
          negb (authorized (IdentityFrom (w_gin w)) entry)
       then reject plugin "forbidden"
              (JSON 403 (error_body ("missing permission: " ++ re_permission entry)))
       else mret tt);;
      match Registry.Get (re_pluginID entry) (reg (w_disp w)) with
      | Some pluginEntry =>
          if negb (Alive pluginEntry)
          then reject plugin "unavailable" (JSON 503 (error_body "plugin unavailable"))
          else mret (entry, pluginEntry)
      | None => reject plugin "unavailable" (JSON 503 (error_body "plugin unavailable"))
      end
  end.

(** [int(time.Until(w.Until).Seconds()) + 1] *)
Definition retry_after (now until : Z) : Z := f64_to_int (Seconds (time_Sub until now)) + 1.

Definition maintenance (clk : Clock) (plugin : string) : Handler World served unit :=
  w ← get_state;
  let '(r, window) := MaintenanceFor (t_maint clk) plugin (reg (w_disp w)) in
  modify (on_disp (set_reg r));;
  match window with
  | None => mret tt
  | Some m =>
      modify (emit (Rejected plugin "maintenance"));;
      modify (on_gin (respond_header "Retry-After" (FormatInt (retry_after (t_until clk) (Until m)))));;
      answer (Answered (JSON 503 (JObj [("error", JStr "plugin under maintenance");
        ("reason", JStr (Reason m)); ("until", JStr (FormatRFC3339 (Until m)))])))
  end.

(** [rl.Allow(key)] on a limiter kept in a map. *)
Definition spend (now : Z) (key : string) (id : string) (m : gmap string RateLimiter.t) :
    gmap string RateLimiter.t * bool :=
  match m !! id with
  | None => (m, true)
  | Some rl => let '(rl, ok) := RateLimiter.Allow now key rl in (<[id := rl]> m, ok)
  end.

Definition rate_limit (clk : Clock) (entry : routeEntry) : Handler World served unit :=
  let id := re_pluginID entry in
  let plugin := re_pluginName entry in
  w ← get_state;
  let '(m, ok) := spend (t_rate clk) id id (pluginRL (w_disp w)) in
  modify (on_disp (set_pluginRL m));;
  (if ok then mret tt
   else reject plugin "rate_limit" (JSON 429 (error_body "rate limit exceeded")));;
  match IdentityFrom (w_gin w) with
  | Some ident =>
      if String.eqb (TenantID ident) "" then mret tt
      else
        let '(m, ok) :=
          spend (t_tenant clk) (id ++ ":" ++ TenantID ident) id (tenantRL (w_disp w)) in
        modify (on_disp (set_tenantRL m));;
        if ok then mret tt
        else reject plugin "tenant_rate_limit"
               (JSON 429 (error_body "rate limit exceeded for this shop"))
  | None => mret tt
  end.

Definition acquire (entry : routeEntry) : Handler World served unit :=
  w ← get_state;
  let '(b, err) := Bulkhead.Acquire (re_pluginID entry) (bh (w_disp w)) in
  modify (on_disp (set_bh b));;
  match err with
  | Some _ => reject (re_pluginName entry) "bulkhead" (JSON 503 (error_body "plugin busy"))
  | None => mret tt
  end.
Definition release (entry : routeEntry) (w : World) : World :=
  on_disp (λ d, set_bh (Bulkhead.Release (re_pluginID entry) (bh d)) d) w.

Definition breaker (clk : Clock) (entry : routeEntry) : Handler World served unit :=
  w ← get_state;
  let '(b, err) := CircuitBreaker.Allow (t_allow clk) (re_pluginID entry) (cb (w_disp w)) in
  modify (on_disp (set_cb b));;
  match err with
  | Some _ => reject (re_pluginName entry) "circuit_breaker"
                (JSON 503 (error_body "service temporarily unavailable"))
  | None => mret tt
  end.

(** The trusted headers, then the tenant id they carry. *)
Definition inject (entry : routeEntry) (pluginEntry : PluginEntry) :
    Handler World served string :=
  modify (on_gin InjectForwardedHost);;
  w ← get_state;
  let c := w_gin w in
  let schema :=
    match IdentityFrom c with
    | Some id => TenantSchemaFor (SchemaName id) (re_pluginName entry)
                   (TenantSchema (Manifest pluginEntry))
    | None => ""
    end in
  let nav :=
    match IdentityFrom c with
    | Some id =>
        if wantsNav (g_req c)
        then encodeNav (buildNav (List (reg (w_disp w))) (Permissions id) (Features id))
        else ""
    | None => ""
    end in
  modify (on_gin (λ c, InjectTenantHeaders c schema nav));;
  w ← get_state;
  mret (GetHeader (g_req (w_gin w)) HeaderTenantID).

(** [d.proxyWebSocket(c, pluginEntry)] *)
Definition proxyWebSocket (pluginEntry : PluginEntry) : Handler World served served :=
  w ← get_state;
  let host := Registry.Host (Target pluginEntry) in
  let o := Dial host (g_req (w_gin w)) in
  mret (Socket host o
    match o with
    | DialFailed => Some (JSON 502 (error_body "cannot reach plugin"))
    | HijackUnsupported => Some (JSON 500 (error_body "hijack unsupported"))
    | HijackFailed | WriteFailed | Piped => None
    end).

(** Settling with the breaker and reporting, once the proxy has returned. *)
Definition settle (clk : Clock) (entry : routeEntry) (method path tenantID requestID : string)
    (p : proxied) : Handler World served served :=
  let id := re_pluginID entry in
  let plugin := re_pluginName entry in
  let code := recorded (px_codes p) in
  let duration := time_Sub (t_end clk) (t_start clk) in
  modify (emit (SpanStatus code));;
  (if 500 <=? code
   then modify (on_disp (λ d, set_cb (CircuitBreaker.RecordFailure (t_failure clk) id (cb d)) d))
   else modify (on_disp (λ d, set_cb (CircuitBreaker.RecordSuccess id (cb d)) d)));;
  w ← get_state;
  modify (emit (BreakerState plugin (CircuitBreaker.StateMetric (cb (w_disp w)) id)));;
  modify (emit (RequestsTotal plugin method (Metrics.StatusClass code)));;
  modify (emit (RequestDuration plugin method (Seconds duration)));;
  modify (emit (LogRequest id tenantID path method requestID code duration));;
  mret (Forwarded p).

Definition forward (clk : Clock) (entry : routeEntry) (pluginEntry : PluginEntry)
    (method path tenantID requestID : string) : Handler World served served :=
  let plugin := re_pluginName entry in
  modify (emit (SpanStart plugin method (re_pattern entry) tenantID));;
  deferring (emit SpanEnd) (
    modify (on_gin (on_header Inject));;
    modify (emit (InFlightInc plugin));;
    deferring (emit (InFlightDec plugin)) (
      w ← get_state;
      let r := g_req (w_gin w) in
      if isWebSocketUpgrade r then
        s ← proxyWebSocket pluginEntry;
        modify (on_disp (λ d, set_cb (CircuitBreaker.RecordSuccess (re_pluginID entry) (cb d)) d));;
        modify (emit (RequestsTotal plugin "WS" "websocket"));;
        mret s
      else
        let p := ServeHTTP RoundTrip (Proxy pluginEntry) r in
        if px_panicked p then answer (Forwarded p)
        else settle clk entry method path tenantID requestID p)).

Definition Dispatch_body (clk : Clock) : Handler World served served :=
  w ← get_state;
  let method := rq_Method (g_req (w_gin w)) in
  let path := u_Path (rq_URL (g_req (w_gin w))) in
  requestID ← request_id;
  '(entry, pluginEntry) ← route method path;
  maintenance clk (re_pluginName entry);;
  rate_limit clk entry;;
  acquire entry;;
  deferring (release entry) (
    breaker clk entry;;
    tenantID ← inject entry pluginEntry;
    forward clk entry pluginEntry method path tenantID requestID).

Definition Dispatch (clk : Clock) (w : World) : World * served := run_handler (Dispatch_body clk) w.
End dispatch.

(** ** The stages, one by one *)

(** A request that firewall, routing, authorization and liveness let through. *)
Definition admissible (d : Dispatcher) (id : option Identity) (method path : string)
    (entry : routeEntry) (pe : PluginEntry) : Prop :=
  Firewall.IsRouteBlocked path = false ∧ match_ d method path = Some entry ∧
  (re_public entry = true ∨ re_permission entry = "" ∨ authorized id entry = true) ∧
  Registry.Get (re_pluginID entry) (reg d) = Some pe ∧ Alive pe = true.

(** The guards that come after, each on the state the request finds. *)
Definition not_in_maintenance (clk : Clock) (d : Dispatcher) (entry : routeEntry) : Prop :=
  (MaintenanceFor (t_maint clk) (re_pluginName entry) (reg d)).2 = None.
Definition within_rate (clk : Clock) (d : Dispatcher) (id : option Identity) (entry : routeEntry) :
    Prop :=
  (spend (t_rate clk) (re_pluginID entry) (re_pluginID entry) (pluginRL d)).2 = true ∧
  match id with
  | Some i => TenantID i = "" ∨
      (spend (t_tenant clk) (re_pluginID entry ++ ":" ++ TenantID i) (re_pluginID entry)
         (tenantRL d)).2 = true
  | None => True
  end.
Definition has_slot (d : Dispatcher) (entry : routeEntry) : Prop :=
  (Bulkhead.Acquire (re_pluginID entry) (bh d)).2 = None.
Definition breaker_lets (clk : Clock) (d : Dispatcher) (entry : routeEntry) : Prop :=
  (CircuitBreaker.Allow (t_allow clk) (re_pluginID entry) (cb d)).2 = None.
Definition admitted (clk : Clock) (d : Dispatcher) (id : option Identity) (method path : string)
    (entry : routeEntry) (pe : PluginEntry) : Prop :=
  admissible d id method path entry pe ∧ not_in_maintenance clk d entry ∧
  within_rate clk d id entry ∧ has_slot d entry ∧ breaker_lets clk d entry.

(** The request of a world with its id, as [Dispatch] passes it on. *)
Definition named (uuid : string) (w : World) : World :=
  (request_id uuid w).1.

Lemma request_id_wp uuid QR QA w :
  (∀ id, QA (named uuid w) id) → wp (request_id uuid) QR QA w.
Proof.
  intros H. unfold named, request_id, wp in *. run_steps. revert H. unfold request_id. run_steps.
  destruct (String.eqb _ ""); run_steps; auto.
Qed.
Lemma named_disp uuid w : w_disp (named uuid w) = w_disp w.
Proof. unfold named, request_id. run_steps. by destruct (String.eqb _ ""). Qed.
Lemma named_events uuid w : w_events (named uuid w) = w_events w.
Proof. unfold named, request_id. run_steps. by destruct (String.eqb _ ""). Qed.
Lemma named_identity uuid w : g_identity (w_gin (named uuid w)) = g_identity (w_gin w).
Proof. unfold named, request_id. run_steps. by destruct (String.eqb _ ""). Qed.
Lemma named_header uuid w :
  rq_Header (g_req (w_gin (named uuid w))) =
    (if String.eqb (GetHeader (g_req (w_gin w)) "X-Request-ID") ""
     then Set_ "X-Request-ID" uuid else id) (rq_Header (g_req (w_gin w))).
Proof. unfold named, request_id. run_steps. by destruct (String.eqb _ ""). Qed.
#[export] Hint Rewrite named_disp named_events named_identity : gateway.

Lemma reject_wp {A} plugin reason r QR (QA : World → A → Prop) w :
  QR (emit (Rejected plugin reason) w) (Answered r) → wp (reject plugin reason r) QR QA w.
Proof. done. Qed.

Lemma route_wp method path QR QA w :
  (∀ evs r, (¬ ∃ e pe, admissible (w_disp w) (g_identity (w_gin w)) method path e pe) →
     QR {| w_disp := w_disp w; w_gin := w_gin w; w_events := evs |} (Answered r)) →
  (∀ e pe, admissible (w_disp w) (g_identity (w_gin w)) method path e pe → QA w (e, pe)) →
  wp (route method path) QR QA w.
Proof.
  intros HR HA. unfold route, admissible in *. apply wp_bind.
  destruct (Firewall.IsRouteBlocked path); [apply reject_wp, HR; naive_solver|].
  wp_steps. destruct (match_ (w_disp w) method path) as [e|];
    [|apply wp_answer; destruct w; apply HR; naive_solver].
  apply wp_bind. unfold IdentityFrom.
  destruct (negb (re_public e) && negb (String.eqb (re_permission e) "") &&
            negb (authorized (g_identity (w_gin w)) e)) eqn:Hauth.
  - apply reject_wp, HR. bool_simpl. intros (e' & pe & _ & [= <-] & [|[|]] & _); congruence.
  - apply wp_ret. assert (re_public e = true ∨ re_permission e = "" ∨
      authorized (g_identity (w_gin w)) e = true) as Hok.
    { destruct (re_public e), (String.eqb_spec (re_permission e) ""), (authorized _ e); auto; done. }
    destruct (Registry.Get (re_pluginID e) (reg (w_disp w))) as [pe|] eqn:Hget.
    + destruct (Alive pe) eqn:Hal; [apply wp_ret; apply HA; split_and!; done|].
      apply reject_wp, HR. intros (e' & pe' & _ & [= <-] & _ & Hg & ?). congruence.
    + apply reject_wp, HR. intros (e' & pe' & _ & [= <-] & _ & Hg & ?). congruence.
Qed.

Lemma maintenance_wp clk plugin QR QA w :
  let d := set_reg (MaintenanceFor (t_maint clk) plugin (reg (w_disp w))).1 (w_disp w) in
  (∀ evs h r, (MaintenanceFor (t_maint clk) plugin (reg (w_disp w))).2 ≠ None →
     QR {| w_disp := d; w_gin := set_resp h (w_gin w); w_events := evs |} (Answered r)) →
  ((MaintenanceFor (t_maint clk) plugin (reg (w_disp w))).2 = None → QA (set_disp d w) tt) →
  wp (maintenance clk plugin) QR QA w.
Proof.
  intros d HR HA. unfold maintenance. wp_steps.
  unfold d in *. destruct (MaintenanceFor _ _ _) as [r [m|]]; cbn [fst snd] in *.
  - wp_steps. apply HR. done.
  - wp_steps. by apply HA.
Qed.

Lemma rate_limit_wp clk e QR QA w :
  let m := (spend (t_rate clk) (re_pluginID e) (re_pluginID e) (pluginRL (w_disp w))).1 in
  let id := g_identity (w_gin w) in
  let tm := match id with
    | Some i => (spend (t_tenant clk) (re_pluginID e ++ ":" ++ TenantID i) (re_pluginID e)
                   (tenantRL (w_disp w))).1
    | None => tenantRL (w_disp w) end in
  (∀ evs tm' r, ¬ within_rate clk (w_disp w) id e → tm' = tenantRL (w_disp w) ∨ tm' = tm →
     QR {| w_disp := set_tenantRL tm' (set_pluginRL m (w_disp w)); w_gin := w_gin w;
           w_events := evs |} (Answered r)) →
  (∀ tm', within_rate clk (w_disp w) id e → tm' = tenantRL (w_disp w) ∨ tm' = tm →
     QA (set_disp (set_tenantRL tm' (set_pluginRL m (w_disp w))) w) tt) →
  wp (rate_limit clk e) QR QA w.
Proof.
  intros m id tm HR HA. unfold rate_limit, IdentityFrom. wp_steps.
  unfold within_rate in *. subst m id tm.
  destruct (spend (t_rate clk) _ _ _) as [m1 ok1]; cbn [fst snd] in *. wp_steps.
  assert (∀ d, set_tenantRL (tenantRL d) (set_pluginRL m1 d) = set_pluginRL m1 d) as Hsame by done.
  destruct ok1.
  2: { apply reject_wp. specialize (HR (w_events (emit (Rejected (re_pluginName e) "rate_limit") w)) (tenantRL (w_disp w))). rewrite Hsame in HR. apply HR; [|by left]. by intros []. }
  wp_steps. destruct (g_identity (w_gin w)) as [i|].
  2: { wp_steps. specialize (HA (tenantRL (w_disp w))). rewrite Hsame in HA. apply HA; auto. }
  destruct (String.eqb_spec (TenantID i) "") as [Hi|Hi].
  { wp_steps. specialize (HA (tenantRL (w_disp w))). rewrite Hsame in HA. apply HA; auto. }
  destruct (spend (t_tenant clk) _ _ _) as [m2 ok2]; cbn [fst snd] in *. wp_steps.
  destruct ok2.
  - wp_steps. apply HA; auto.
  - apply reject_wp. apply (HR _ m2); [|by right]. by intros [_ [|]].
Qed.

Lemma acquire_wp e QR QA w :
  (∀ evs r, ¬ has_slot (w_disp w) e →
     QR {| w_disp := w_disp w; w_gin := w_gin w; w_events := evs |} (Answered r)) →
  (has_slot (w_disp w) e →
     QA (on_disp (set_bh (Bulkhead.Acquire (re_pluginID e) (bh (w_disp w))).1) w) tt) →
  wp (acquire e) QR QA w.
Proof.
  unfold acquire, has_slot, Bulkhead.Acquire. intros HR HA. wp_steps.
  destruct (Bulkhead.maxConc _ <=? _).
  - wp_steps. unfold on_disp, set_disp, emit. cbn.
    replace (set_bh (bh (w_disp w)) (w_disp w)) with (w_disp w) by (by destruct (w_disp w)).
    by apply HR.
  - wp_steps. by apply HA.
Qed.

Lemma breaker_wp clk e QR QA w :
  (∀ evs r, ¬ breaker_lets clk (w_disp w) e →
     QR {| w_disp := w_disp w; w_gin := w_gin w; w_events := evs |} (Answered r)) →
  (breaker_lets clk (w_disp w) e →
     QA (on_disp (set_cb (CircuitBreaker.Allow (t_allow clk) (re_pluginID e) (cb (w_disp w))).1) w) tt) →
  wp (breaker clk e) QR QA w.
Proof.
  unfold breaker, breaker_lets, CircuitBreaker.Allow. intros HR HA. wp_steps.
  destruct (CircuitBreaker.state_of _ _); [|destruct (_ <? _)|]; try (wp_steps; by apply HA).
  wp_steps. unfold on_disp, set_disp, emit. cbn.
  replace (set_cb (cb (w_disp w)) (w_disp w)) with (w_disp w) by (by destruct (w_disp w)).
  by apply HR.
Qed.

(** ** The whole handler *)

(** The limiters after the request has asked them. *)
Definition limiters_asked (clk : Clock) (d : Dispatcher) (id : option Identity) (e : routeEntry)
    (d' : Dispatcher) : Prop :=
  ∃ tm,
    d' = set_tenantRL tm (set_pluginRL
           (spend (t_rate clk) (re_pluginID e) (re_pluginID e) (pluginRL d)).1
           (set_reg (MaintenanceFor (t_maint clk) (re_pluginName e) (reg d)).1 d)) ∧
    (tm = tenantRL d ∨ ∃ i, id = Some i ∧
       tm = (spend (t_tenant clk) (re_pluginID e ++ ":" ++ TenantID i) (re_pluginID e)
               (tenantRL d)).1).

(** The dispatcher a refused request leaves behind, layer by layer. *)
Inductive refused (clk : Clock) (d : Dispatcher) (id : option Identity) (method path : string) :
    Dispatcher → Prop :=
| refused_early :
    (¬ ∃ e pe, admissible d id method path e pe) → refused clk d id method path d
| refused_maintenance e pe :
    admissible d id method path e pe → ¬ not_in_maintenance clk d e →
    refused clk d id method path (set_reg (MaintenanceFor (t_maint clk) (re_pluginName e) (reg d)).1 d)
| refused_rate e pe d' :
    admissible d id method path e pe → not_in_maintenance clk d e →
    ¬ within_rate clk d id e → limiters_asked clk d id e d' → refused clk d id method path d'
| refused_bulkhead e pe d' :
    admissible d id method path e pe → not_in_maintenance clk d e → within_rate clk d id e →
    limiters_asked clk d id e d' → ¬ has_slot d e → refused clk d id method path d'
| refused_breaker e pe d' :
    admissible d id method path e pe → not_in_maintenance clk d e → within_rate clk d id e →
    limiters_asked clk d id e d' → has_slot d e → ¬ breaker_lets clk d e →
    refused clk d id method path
      (set_bh (Bulkhead.Release (re_pluginID e) (Bulkhead.Acquire (re_pluginID e) (bh d)).1) d').

(** The dispatcher an admitted request is proxied with. *)
Definition entered (clk : Clock) (d : Dispatcher) (id : option Identity) (e : routeEntry)
    (d' : Dispatcher) : Prop :=
  ∃ d1, limiters_asked clk d id e d1 ∧
    d' = set_cb (CircuitBreaker.Allow (t_allow clk) (re_pluginID e) (cb d)).1
           (set_bh (Bulkhead.Acquire (re_pluginID e) (bh d)).1 d1).

Section whole.
Context `{MapOrder} (uuid : string) (Inject : Header → Header).
Context (RoundTrip : Request → exchange) (Dial : string → Request → ws_outcome).
Context (clk : Clock).

Lemma Dispatch_wp (Q : World → served → Prop) w :
  let d := w_disp w in
  let id := g_identity (w_gin w) in
  let method := rq_Method (g_req (w_gin w)) in
  let path := u_Path (rq_URL (g_req (w_gin w))) in
  (∀ w' r, refused clk d id method path (w_disp w') → Q w' (Answered r)) →
  (∀ e pe w1 rid,
     admitted clk d id method path e pe → entered clk d id e (w_disp w1) →
     w_gin w1 = w_gin (named uuid w) →
     wp (inject e pe ≫= λ tenantID,
           forward Inject RoundTrip Dial clk e pe method path tenantID rid)
       (λ w s, Q (release e w) s) (λ w s, Q (release e w) s) w1) →
  Q (Dispatch uuid Inject RoundTrip Dial clk w).1 (Dispatch uuid Inject RoundTrip Dial clk w).2.
Proof.
  intros d id method path HR HA. unfold Dispatch. apply wp_run_handler. unfold Dispatch_body.
  wp_step. apply wp_get_state. fold method path. wp_step. apply request_id_wp. intros rid.
  wp_step. apply route_wp; rewrite named_disp, named_identity.
  { intros evs r Hno. apply HR. by constructor. }
  intros e pe Hadm. wp_step. apply maintenance_wp; rewrite named_disp.
  { intros evs h r Hm. apply HR. by eapply refused_maintenance. }
  intros Hm. wp_step. apply rate_limit_wp.
  { intros evs tm r Hw Htm. apply HR. cbn in Hw, Htm.
    rewrite named_identity in Hw, Htm. fold id in Hw, Htm.
    apply (refused_rate _ _ _ _ _ e pe); [done..|]. eexists. split; [done|].
    destruct id as [i|]; destruct Htm as [->| ->]; eauto. }
  intros tm Hw Htm. cbn in Hw, Htm. rewrite named_identity in Hw, Htm. fold id in Hw, Htm.
  set (d1 := set_tenantRL tm _).
  assert (limiters_asked clk d id e d1) as Hasked.
  { eexists. split; [done|]. destruct id as [i|]; destruct Htm as [->| ->]; eauto. }
  wp_step. apply acquire_wp.
  { intros evs r Hs. apply HR. exact (refused_bulkhead clk d id method path e pe d1 Hadm Hm Hw Hasked Hs). }
  intros Hs. apply wp_deferring. wp_step. apply breaker_wp.
  { intros evs r Hb. apply HR. exact (refused_breaker clk d id method path e pe d1 Hadm Hm Hw Hasked Hs Hb). }
  intros Hb. apply HA; [done| |done]. exists d1. split; [done|]. done.
Qed.

(** The request handed to the proxy: forwarded host, trusted headers, trace. *)
Definition schema_for (id : option Identity) (e : routeEntry) (pe : PluginEntry) : string :=
  match id with
  | Some i => TenantSchemaFor (SchemaName i) (re_pluginName e) (TenantSchema (Manifest pe))
  | None => ""
  end.
Definition nav_for (r : Registry) (c : Gin) : string :=
  match IdentityFrom c with
  | Some i => if wantsNav (g_req c) then encodeNav (buildNav (List r) (Permissions i) (Features i)) else ""
  | None => ""
  end.
Definition outbound (r : Registry) (c : Gin) (e : routeEntry) (pe : PluginEntry) : Request :=
  let c := InjectForwardedHost c in
  let c := InjectTenantHeaders c (schema_for (IdentityFrom c) e pe) (nav_for r c) in
  with_Header (Inject (rq_Header (g_req c))) (g_req c).

(** What the breaker learns from a proxied exchange; a panic teaches nothing. *)
Definition settled (id : string) (p : proxied) (b : CircuitBreaker.t) : CircuitBreaker.t :=
  if px_panicked p then b
  else if 500 <=? recorded (px_codes p) then CircuitBreaker.RecordFailure (t_failure clk) id b
  else CircuitBreaker.RecordSuccess id b.

(** The dispatcher once the request has left it. *)
Definition left_by (e : routeEntry) (f : CircuitBreaker.t → CircuitBreaker.t) (d : Dispatcher) :
    Dispatcher :=
  set_bh (Bulkhead.Release (re_pluginID e) (bh d)) (set_cb (f (cb d)) d).

Lemma inject_run e pe w :
  inject e pe w =
    (let c := InjectForwardedHost (w_gin w) in
     let c := InjectTenantHeaders c (schema_for (IdentityFrom c) e pe) (nav_for (reg (w_disp w)) c) in
     (set_gin c w, inr (GetHeader (g_req c) HeaderTenantID))).
Proof. reflexivity. Qed.

Lemma forward_wp e pe method path tid rid (Q : World → served → Prop) w :
  let r := with_Header (Inject (rq_Header (g_req (w_gin w)))) (g_req (w_gin w)) in
  let d := w_disp w in
  (isWebSocketUpgrade r = true → ∀ w' o rep,
     w_disp w' = set_cb (CircuitBreaker.RecordSuccess (re_pluginID e) (cb d)) d →
     o = Dial (Registry.Host (Target pe)) r → Q w' (Socket (Registry.Host (Target pe)) o rep)) →
  (isWebSocketUpgrade r = false → ∀ w',
     let p := ServeHTTP RoundTrip (Proxy pe) r in
     w_disp w' = set_cb (settled (re_pluginID e) p (cb d)) d → Q w' (Forwarded p)) →
  wp (forward Inject RoundTrip Dial clk e pe method path tid rid) Q Q w.
Proof.
  intros r d Hws Hhttp. unfold forward. wp_steps. cbn [on_gin set_gin w_gin emit on_header set_req g_req].
  fold r. destruct (isWebSocketUpgrade r) eqn:E.
  - unfold proxyWebSocket. wp_steps. by apply Hws.
  - unfold settled in Hhttp. specialize (Hhttp eq_refl). cbv zeta in *.
    destruct (px_panicked (ServeHTTP RoundTrip (Proxy pe) r)).
    + wp_steps. apply Hhttp. unfold d. cbn. by destruct (w_disp w).
    + unfold settle. destruct (500 <=? recorded _); wp_steps; by apply Hhttp.
Qed.

(** Every way through [Dispatch]. *)
Lemma Dispatch_cases (Q : World → served → Prop) w :
  let d := w_disp w in
  let id := g_identity (w_gin w) in
  let method := rq_Method (g_req (w_gin w)) in
  let path := u_Path (rq_URL (g_req (w_gin w))) in
  (∀ w' r, refused clk d id method path (w_disp w') → Q w' (Answered r)) →
  (∀ e pe d1 w', admitted clk d id method path e pe → entered clk d id e d1 →
     let r := outbound (reg d1) (w_gin (named uuid w)) e pe in
     let p := ServeHTTP RoundTrip (Proxy pe) r in
     (isWebSocketUpgrade r = true → ∀ rep,
        w_disp w' = left_by e (CircuitBreaker.RecordSuccess (re_pluginID e)) d1 →
        Q w' (Socket (Registry.Host (Target pe)) (Dial (Registry.Host (Target pe)) r) rep)) ∧
     (isWebSocketUpgrade r = false →
        w_disp w' = left_by e (settled (re_pluginID e) p) d1 → Q w' (Forwarded p))) →
  Q (Dispatch uuid Inject RoundTrip Dial clk w).1 (Dispatch uuid Inject RoundTrip Dial clk w).2.
Proof.
  intros d id method path HR HA. apply Dispatch_wp; [exact HR|].
  intros e pe w1 rid Hadm Hent Hgin. apply wp_bind. unfold wp at 1. rewrite inject_run. cbv zeta.
  apply forward_wp; cbn [set_gin w_gin w_disp]; rewrite Hgin.
  - intros Hws w' o rep Hd ->. apply (HA e pe (w_disp w1) (release e w') Hadm Hent); [exact Hws|].
    unfold left_by. cbn [release on_disp set_disp w_disp]. by rewrite Hd.
  - intros Hws w' Hd. apply (HA e pe (w_disp w1) (release e w') Hadm Hent); [exact Hws|].
    unfold left_by. cbn [release on_disp set_disp w_disp]. by rewrite Hd.
Qed.
End whole.

(** ** What the handler guarantees *)

Lemma admissible_unique d id m p e pe e' pe' :
  admissible d id m p e pe → admissible d id m p e' pe' → e' = e ∧ pe' = pe.
Proof. unfold admissible. intros (_ & ? & _ & ? & _) (_ & ? & _ & ? & _). split; congruence. Qed.

Lemma refused_not_admitted clk d id m p d' :
  refused clk d id m p d' → ¬ ∃ e pe, admitted clk d id m p e pe.
Proof.
  intros Hr (e & pe & Hadm & Hm & Hw & Hs & Hb).
  destruct Hr as [Hno|e' pe' Ha Hn|e' pe' d' Ha _ Hn|e' pe' d' Ha _ _ _ Hn|e' pe' d' Ha _ _ _ _ Hn];
    [by apply Hno; eauto|..];
    by destruct (admissible_unique _ _ _ _ _ _ _ _ Hadm Ha) as [-> ->].
Qed.

(** The protection state kept for one plugin. *)
Definition protection_of (d : Dispatcher) (q : string) :=
  (pluginRL d !! q, tenantRL d !! q, Bulkhead.Active (bh d) q, CircuitBreaker.view_of (cb d) q).

Lemma spend_ne now key id m q : q ≠ id → (spend now key id m).1 !! q = m !! q.
Proof.
  intros Hq. unfold spend. destruct (m !! id); [|done].
  destruct (RateLimiter.Allow _ _ _). simpl. by rewrite lookup_insert_ne.
Qed.
Lemma Acquire_ne p b q : q ≠ p → Bulkhead.Active (Bulkhead.Acquire p b).1 q = Bulkhead.Active b q.
Proof.
  intros Hq. unfold Bulkhead.Acquire, Bulkhead.Active. case_match; [done|]. simpl.
  by rewrite map_get_insert_ne.
Qed.
Lemma Release_ne p b q : q ≠ p → Bulkhead.Active (Bulkhead.Release p b) q = Bulkhead.Active b q.
Proof.
  intros Hq. unfold Bulkhead.Release, Bulkhead.Active. case_match; [|done]. simpl.
  by rewrite map_get_insert_ne.
Qed.
Lemma breaker_ne p e b q :
  q ≠ p → CircuitBreaker.view_of (CircuitBreaker.impl_step b (p, e)) q = CircuitBreaker.view_of b q.
Proof. intros Hq. rewrite CircuitBreaker.impl_step_view. by rewrite decide_False. Qed.

(** From [d] to [d'], only plugin [p]'s protection state may differ. *)
Definition touches (p : string) (d d' : Dispatcher) : Prop :=
  routes d' = routes d ∧ plugins (reg d') = plugins (reg d) ∧
  ∀ q, q ≠ p → protection_of d' q = protection_of d q.

#[export] Instance touches_preorder p : PreOrder (touches p).
Proof.
  split; [done|]. intros d1 d2 d3 (? & ? & H1) (? & ? & H2).
  split_and!; [congruence..|]. intros q Hq. by rewrite H2, H1.
Qed.

Lemma touches_maintenance now n p d : touches p d (set_reg (MaintenanceFor now n (reg d)).1 d).
Proof. split_and!; [done|apply MaintenanceFor_maint|done]. Qed.
Lemma touches_pluginRL now key p d : touches p d (set_pluginRL (spend now key p (pluginRL d)).1 d).
Proof.
  split_and!; [done..|]. intros q Hq. unfold protection_of. cbn. by rewrite spend_ne.
Qed.
Lemma touches_tenantRL now key p d : touches p d (set_tenantRL (spend now key p (tenantRL d)).1 d).
Proof.
  split_and!; [done..|]. intros q Hq. unfold protection_of. cbn. by rewrite spend_ne.
Qed.
Lemma touches_acquire p d : touches p d (set_bh (Bulkhead.Acquire p (bh d)).1 d).
Proof.
  split_and!; [done..|]. intros q Hq. unfold protection_of. cbn. by rewrite Acquire_ne.
Qed.
Lemma touches_release p d : touches p d (set_bh (Bulkhead.Release p (bh d)) d).
Proof.
  split_and!; [done..|]. intros q Hq. unfold protection_of. cbn. by rewrite Release_ne.
Qed.
Lemma touches_breaker p e d : touches p d (set_cb (CircuitBreaker.impl_step (cb d) (p, e)) d).
Proof.
  split_and!; [done..|]. intros q Hq. unfold protection_of. cbn [set_cb pluginRL tenantRL bh cb].
  by rewrite breaker_ne.
Qed.

(** One step of the left-hand dispatcher. *)
Ltac touch lem := match goal with |- touches ?p ?d _ => exact (lem p d) end.

Lemma touches_limiters clk d id e d' :
  limiters_asked clk d id e d' →
  touches (re_pluginID e) d d' ∧ bh d' = bh d ∧ cb d' = cb d.
Proof.
  intros (tm & -> & Htm). split; [|done].
  etransitivity; [touch (touches_maintenance (t_maint clk) (re_pluginName e))|].
  etransitivity; [touch (touches_pluginRL (t_rate clk) (re_pluginID e))|].
  destruct Htm as [->|(i & _ & ->)]; [reflexivity|].
  touch (touches_tenantRL (t_tenant clk) (re_pluginID e ++ ":" ++ TenantID i)).
Qed.
Lemma touches_entered clk d id e d' :
  entered clk d id e d' → touches (re_pluginID e) d d'.
Proof.
  intros (d1 & [Hl [Hbh Hcb]]%touches_limiters & ->). rewrite <- Hbh, <- Hcb.
  etransitivity; [exact Hl|]. etransitivity; [touch touches_acquire|].
  match goal with |- touches ?p ?d _ =>
    exact (touches_breaker p (CircuitBreaker.EvAllow (t_allow clk)) d) end.
Qed.
Lemma touches_refused clk d id m p d' :
  refused clk d id m p d' →
  d' = d ∨ ∃ e, match_ d m p = Some e ∧ touches (re_pluginID e) d d'.
Proof.
  intros [|e pe Ha|e pe d1 Ha _ _ Hl|e pe d1 Ha _ _ Hl|e pe d1 Ha _ _ Hl]; [by left|..];
    right; exists e; (split; [apply Ha|]); [apply touches_maintenance|..];
    apply touches_limiters in Hl as (Hl & Hbh & _); [done..|].
  etransitivity; [exact Hl|]. rewrite <- Hbh. etransitivity; [touch touches_acquire|].
  touch touches_release.
Qed.
Lemma touches_left e ev d :
  touches (re_pluginID e) d (left_by e (λ b, CircuitBreaker.impl_step b (re_pluginID e, ev)) d).
Proof.
  etransitivity; [apply (touches_breaker _ ev)|]. touch touches_release.
Qed.
Lemma touches_settled clk e p d :
  touches (re_pluginID e) d (left_by e (settled clk (re_pluginID e) p) d).
Proof.
  unfold settled. destruct (px_panicked p).
  - unfold left_by. destruct d. touch touches_release.
  - destruct (500 <=? _); [apply (touches_left e (CircuitBreaker.EvFailure (t_failure clk)))
                          |apply (touches_left e CircuitBreaker.EvSuccess)].
Qed.

(** [Acquire] and then [Release] gives the slot back. *)
Lemma acquire_release b p q :
  0 ≤ Bulkhead.Active b p → (Bulkhead.Acquire p b).2 = None →
  Bulkhead.Active (Bulkhead.Release p (Bulkhead.Acquire p b).1) q = Bulkhead.Active b q.
Proof.
  intros Hb Ha. destruct (Bulkhead.Acquire p b) as [b' err] eqn:E. simpl in *. subst err.
  apply Bulkhead.Acquire_active with (q := q) in E as (Hq & _).
  destruct (decide (q = p)) as [->|Hne].
  - rewrite Bulkhead.Release_active by lia. rewrite decide_True by done. lia.
  - by rewrite Release_ne.
Qed.

Lemma refused_slots clk d id m p d' q :
  (∀ p, 0 ≤ Bulkhead.Active (bh d) p) → refused clk d id m p d' →
  Bulkhead.Active (bh d') q = Bulkhead.Active (bh d) q.
Proof.
  intros Hpos [|e pe Ha|e pe d1 Ha _ _ Hl|e pe d1 Ha _ _ Hl|e pe d1 Ha _ _ Hl Hs]; try done;
    [apply touches_limiters in Hl as (_ & -> & _); done..|].
  by apply acquire_release.
Qed.
Lemma refused_breakers clk d id m p d' : refused clk d id m p d' → cb d' = cb d.
Proof.
  intros [|e pe Ha|e pe d1 Ha _ _ Hl|e pe d1 Ha _ _ Hl|e pe d1 Ha _ _ Hl Hs]; try done;
    by apply touches_limiters in Hl as (_ & _ & Hcb).
Qed.

Section guarantees.
Context `{MapOrder} (uuid : string) (Inject : Header → Header).
Context (RoundTrip : Request → exchange) (Dial : string → Request → ws_outcome).
Context (clk : Clock).

(** C1: A request reaches a plugin exactly when every layer lets it: the firewall,
    a matching route, the caller's permission, a live plugin not under
    maintenance, both rate limits, a free slot and the breaker.  It then goes to
    the plugin that owns the matched route, at the address that plugin
    registered, and to no other. *)
Theorem Dispatch_reaches_plugin_iff w :
  let d := w_disp w in
  let adm := admitted clk d (g_identity (w_gin w)) (rq_Method (g_req (w_gin w)))
               (u_Path (rq_URL (g_req (w_gin w)))) in
  match (Dispatch uuid Inject RoundTrip Dial clk w).2 with
  | Answered _ => ¬ ∃ e pe, adm e pe
  | Forwarded p => ∃ e pe, adm e pe ∧
      (px_sent p = None ∨ ∃ out, px_sent p = Some out ∧
         u_Host (rq_URL out) = Registry.Host (Proxy pe) ∧ rq_Host out = Registry.Host (Proxy pe) ∧
         rq_Method out = rq_Method (g_req (w_gin w)) ∧
         u_Path (rq_URL out) = u_Path (rq_URL (g_req (w_gin w))))
  | Socket host _ _ => ∃ e pe, adm e pe ∧ host = Registry.Host (Target pe)
  end.
Proof.
  intros d adm. revert d adm. apply (Dispatch_cases uuid Inject RoundTrip Dial clk
    (λ _ s, match s with Answered _ => _ | Forwarded _ => _ | Socket _ _ _ => _ end) w).
  - intros w' r Hr. by eapply refused_not_admitted.
  - intros e pe d1 w' Hadm _. split; [intros _ rep _; eauto|]. intros _ _. exists e, pe.
    split; [done|]. unfold ServeHTTP. case_match; [by left|right]. eexists. split; [done|].
    split_and!; try done;
      unfold outbound, InjectTenantHeaders, InjectForwardedHost, named, request_id; run_steps;
      repeat case_match; done.
Qed.

(** C25: Plugins are isolated: a request changes the rate limiters, the bulkhead and
    the breaker of at most the plugin whose route it matched, and never the
    routes or the set of registered plugins. *)
Theorem Dispatch_isolates_plugins w q :
  let d := w_disp w in
  let d' := w_disp (Dispatch uuid Inject RoundTrip Dial clk w).1 in
  routes d' = routes d ∧ plugins (reg d') = plugins (reg d) ∧
  ((∀ e, match_ d (rq_Method (g_req (w_gin w))) (u_Path (rq_URL (g_req (w_gin w)))) = Some e →
         re_pluginID e ≠ q) → protection_of d' q = protection_of d q).
Proof.
  cbv zeta.
  assert (∀ d', (d' = w_disp w ∨ ∃ e, match_ (w_disp w) (rq_Method (g_req (w_gin w)))
      (u_Path (rq_URL (g_req (w_gin w)))) = Some e ∧ touches (re_pluginID e) (w_disp w) d') →
    routes d' = routes (w_disp w) ∧ plugins (reg d') = plugins (reg (w_disp w)) ∧
    ((∀ e, match_ (w_disp w) (rq_Method (g_req (w_gin w))) (u_Path (rq_URL (g_req (w_gin w)))) = Some e →
         re_pluginID e ≠ q) → protection_of d' q = protection_of (w_disp w) q)) as Hgoal.
  { intros d' [->|(e & He & ? & ? & Ht)]; [done|]. split_and!; [done..|].
    intros Hm. apply Ht, not_eq_sym, Hm, He. }
  apply Hgoal. apply (Dispatch_cases uuid Inject RoundTrip Dial clk (λ w' _,
    w_disp w' = w_disp w ∨ ∃ e, _ = Some e ∧ touches (re_pluginID e) (w_disp w) (w_disp w')) w).
  - intros w' _ Hr. by eapply touches_refused.
  - intros e pe d1 w' Hadm Hent. apply touches_entered in Hent.
    split; [intros _ rep ->|intros _ ->]; right; exists e; (split; [apply Hadm|]);
      (etransitivity; [exact Hent|]);
      [apply (touches_left e CircuitBreaker.EvSuccess)|apply touches_settled].
Qed.

(** No path leaks a concurrency slot: whether the request is refused, proxied,
    cut off by a panic or handed over as a WebSocket, every plugin's count of
    active requests is afterwards what it was before. *)
Theorem Dispatch_returns_every_slot w q :
  (∀ p, 0 ≤ Bulkhead.Active (bh (w_disp w)) p) →
  Bulkhead.Active (bh (w_disp (Dispatch uuid Inject RoundTrip Dial clk w).1)) q =
  Bulkhead.Active (bh (w_disp w)) q.
Proof.
  intros Hpos. apply (Dispatch_cases uuid Inject RoundTrip Dial clk (λ w' _,
    Bulkhead.Active (bh (w_disp w')) q = Bulkhead.Active (bh (w_disp w)) q) w).
  - intros w' _. by apply refused_slots.
  - intros e pe d1 w' Hadm (d2 & _ & ->).
    split; [intros _ rep ->|intros _ ->]; apply acquire_release; try done; apply Hadm.
Qed.

(** C10: The breaker counts what plugins answer and nothing else: a refused request
    leaves every breaker as it was; a proxied one settles the breaker of the
    plugin it reached, by the status first written (500 and up is a failure), a
    panic not at all, and a WebSocket as a success. *)
Theorem Dispatch_settles_breaker w :
  let d := w_disp w in
  let '(w', s) := Dispatch uuid Inject RoundTrip Dial clk w in
  match s with
  | Answered _ => cb (w_disp w') = cb d
  | Forwarded p => ∃ e,
      match_ d (rq_Method (g_req (w_gin w))) (u_Path (rq_URL (g_req (w_gin w)))) = Some e ∧
      cb (w_disp w') = settled clk (re_pluginID e) p
        (CircuitBreaker.Allow (t_allow clk) (re_pluginID e) (cb d)).1
  | Socket _ _ _ => ∃ e,
      match_ d (rq_Method (g_req (w_gin w))) (u_Path (rq_URL (g_req (w_gin w)))) = Some e ∧
      cb (w_disp w') = CircuitBreaker.RecordSuccess (re_pluginID e)
        (CircuitBreaker.Allow (t_allow clk) (re_pluginID e) (cb d)).1
  end.
Proof.
  rewrite (surjective_pairing (Dispatch _ _ _ _ _ _)). cbv beta iota zeta.
  pattern (Dispatch uuid Inject RoundTrip Dial clk w).1, (Dispatch uuid Inject RoundTrip Dial clk w).2.
  apply Dispatch_cases.
  - intros w' r. apply refused_breakers.
  - intros e pe d1 w' Hadm (d2 & _ & ->).
    split; [intros _ rep ->|intros _ ->]; exists e; (split; [apply Hadm|done]).
Qed.
End guarantees.

(** ** Maintenance refusals *)


Lemma written_retry now until :
  0 ≤ until - now < maxMaintenance →
  now + (retry_after now until - 1) * Second ≤ until < now + retry_after now until * Second.
Proof.
  intros Hr. assert (Hmax : maxMaintenance = 900 * Second) by done. rewrite Hmax in Hr.
  unfold retry_after. rewrite time_Sub_small
    by (unfold in_int64, int64_min, int64_max, Second in *; lia).
  rewrite Seconds_truncated by done.
  pose proof (Z.div_mod (until - now) Second ltac:(done)).
  pose proof (Z.mod_pos_bound (until - now) Second eq_refl). lia.
Qed.

(** A request refused for maintenance has spent nothing: no rate limit, slot or
    breaker is touched.  Its [Retry-After] is the number of seconds, rounded up
    past the next whole one, after which the window has closed. *)
Theorem maintenance_refusal_is_free `{MapOrder} uuid Inject RoundTrip Dial clk w e pe m :
  admissible (w_disp w) (g_identity (w_gin w)) (rq_Method (g_req (w_gin w)))
    (u_Path (rq_URL (g_req (w_gin w)))) e pe →
  (MaintenanceFor (t_maint clk) (re_pluginName e) (reg (w_disp w))).2 = Some m →
  0 ≤ Until m - t_until clk < maxMaintenance →
  let '(w', s) := Dispatch uuid Inject RoundTrip Dial clk w in
  s = Answered (JSON 503 (JObj [("error", JStr "plugin under maintenance");
        ("reason", JStr (Reason m)); ("until", JStr (FormatRFC3339 (Until m)))])) ∧
  pluginRL (w_disp w') = pluginRL (w_disp w) ∧ tenantRL (w_disp w') = tenantRL (w_disp w) ∧
  bh (w_disp w') = bh (w_disp w) ∧ cb (w_disp w') = cb (w_disp w) ∧
  ∃ n, Values (g_resp (w_gin w')) "Retry-After" = [FormatInt n] ∧
       t_until clk + (n - 1) * Second ≤ Until m < t_until clk + n * Second.
Proof.
  intros Hadm Hm Hr. rewrite (surjective_pairing (Dispatch _ _ _ _ _ _)). cbv beta iota.
  pattern (Dispatch uuid Inject RoundTrip Dial clk w).1, (Dispatch uuid Inject RoundTrip Dial clk w).2.
  apply wp_run_handler. unfold Dispatch_body. wp_step. apply wp_get_state.
  wp_step. apply request_id_wp. intros rid. wp_step.
  apply route_wp; rewrite named_disp, named_identity; [naive_solver|].
  intros e' pe' Hadm'. destruct (admissible_unique _ _ _ _ _ _ _ _ Hadm Hadm') as [-> ->].
  wp_step. unfold maintenance. wp_steps. rewrite named_disp.
  destruct (MaintenanceFor _ _ _) as [r w1] eqn:E. simpl in Hm. subst w1.
  wp_steps. cbn. rewrite named_disp. split_and!; try done.
  exists (retry_after (t_until clk) (Until m)). split; [by rewrite Values_Set_eq|].
  by apply written_retry.
Qed.

(** ** The route table *)

Lemma find_filter {A} (f : A → bool) (P : A → Prop) `{!∀ x, Decision (P x)} l x :
  List.find f l = Some x → P x → List.find f (filter P l) = Some x.
Proof.
  induction l as [|y l IH]; simpl; [done|]. intros Hf HP. rewrite filter_cons.
  destruct (f y) eqn:Ey.
  - injection Hf as ->. rewrite decide_True by done. simpl. by rewrite Ey.
  - case_decide; [simpl; rewrite Ey|]; auto.
Qed.
Lemma find_filter_None {A} (f : A → bool) (P : A → Prop) `{!∀ x, Decision (P x)} l :
  List.find f l = None → List.find f (filter P l) = None.
Proof.
  induction l as [|y l IH]; simpl; [done|]. destruct (f y) eqn:Ey; [done|]. intros Hf.
  rewrite filter_cons. case_decide; [simpl; rewrite Ey|]; auto.
Qed.

(** A plugin that leaves takes only its own routes: every request that another
    plugin's route answers is still answered by that route. *)
Theorem RemoveRoutes_keeps_other_plugins d id method path r :
  match_ d method path = Some r → re_pluginID r ≠ id →
  match_ (RemoveRoutes id d) method path = Some r ∧
  ∀ r', match_ (RemoveRoutes id d) method path = Some r' → re_pluginID r' ≠ id.
Proof.
  intros Hm Hid. enough (match_ (RemoveRoutes id d) method path = Some r) as Hr
    by (split; [done|congruence]).
  revert Hm. unfold match_. cbn [RemoveRoutes removeRoutes set_routes set_pluginRL set_tenantRL routes].
  destruct (List.find (exact method path) (routes d)) as [r'|] eqn:E.
  - intros [= ->]. by rewrite (find_filter _ _ _ _ E Hid).
  - intros Hl. rewrite (find_filter_None _ _ _ E). by apply find_filter.
Qed.

Lemma AddRoutes_fields id name ty rs d :
  let d' := AddRoutes id name ty rs d in
  let limits := For (cfg d) name in
  let scale := scaled (cfg d) name ty in
  reg d' = reg d ∧ cb d' = cb d ∧ bh d' = bh d ∧ cfg d' = cfg d ∧
  routes d' = app (filter (λ r, re_pluginID r ≠ id) (routes d)) (route_entry id name <$> rs) ∧
  pluginRL d' =
    <[id := RateLimiter.New (scale (RatePerSec limits)) (scale (RateBurst limits))]> (pluginRL d) ∧
  tenantRL d' =
    if f64_ltb (Fin 0) (TenantRatePerSec limits) then
      <[id := RateLimiter.New (scale (TenantRatePerSec limits)) (scale (TenantRateBurst limits))]>
        (tenantRL d)
    else delete id (tenantRL d).
Proof.
  cbv zeta. unfold AddRoutes. cbv zeta.
  destruct (f64_ltb (Fin 0) (TenantRatePerSec (For (cfg d) name))); split_and!; reflexivity.
Qed.

Lemma Dispatcher_eq d d' :
  reg d = reg d' → cb d = cb d' → bh d = bh d' → cfg d = cfg d' → routes d = routes d' →
  pluginRL d = pluginRL d' → tenantRL d = tenantRL d' → d = d'.
Proof. destruct d, d'. simpl. congruence. Qed.

(** Registering the same routes again changes nothing: the table holds each of
    the plugin's routes once per declaration, after everyone else's, and none of
    an earlier registration. *)
Theorem AddRoutes_replaces d id name ty rs rs' :
  AddRoutes id name ty rs (AddRoutes id name ty rs' d) = AddRoutes id name ty rs d ∧
  filter (λ r, re_pluginID r = id) (routes (AddRoutes id name ty rs d)) =
    route_entry id name <$> rs ∧
  filter (λ r, re_pluginID r ≠ id) (routes (AddRoutes id name ty rs d)) =
    filter (λ r, re_pluginID r ≠ id) (routes d).
Proof.
  assert (∀ rs, Forall (λ r, re_pluginID r = id) (route_entry id name <$> rs)) as Hown
    by (intros; apply Forall_fmap, Forall_true; done).
  assert (∀ rs, filter (λ r, re_pluginID r ≠ id) (route_entry id name <$> rs) = []) as Hno.
  { intros rs0. apply filter_none. intros r Hr. specialize (Hown rs0).
    rewrite Forall_forall in Hown. rewrite (Hown r Hr). tauto. }
  assert (∀ l : list routeEntry, filter (λ r, re_pluginID r ≠ id) (filter (λ r, re_pluginID r ≠ id) l) =
               filter (λ r, re_pluginID r ≠ id) l) as Hidem.
  { intros l. apply filter_all. intros r [? _]%list_elem_of_filter. done. }
  split_and!.
  - destruct (AddRoutes_fields id name ty rs d) as (R1 & C1 & B1 & F1 & T1 & P1 & N1).
    destruct (AddRoutes_fields id name ty rs' d) as (R2 & C2 & B2 & F2 & T2 & P2 & N2).
    destruct (AddRoutes_fields id name ty rs (AddRoutes id name ty rs' d))
      as (R3 & C3 & B3 & F3 & T3 & P3 & N3).
    rewrite F2 in *. apply Dispatcher_eq; try congruence.
    + rewrite T3, T2, T1. by rewrite filter_app, Hidem, Hno, app_nil_r.
    + rewrite P3, P2, P1. by rewrite insert_insert_eq.
    + rewrite N3, N2, N1. case_match; [by rewrite insert_insert_eq|by rewrite delete_delete_eq].
  - destruct (AddRoutes_fields id name ty rs d) as (_ & _ & _ & _ & -> & _).
    rewrite filter_app, (filter_all _ (_ <$> _)) by (apply Forall_forall, Hown).
    rewrite filter_none; [done|]. intros r. rewrite list_elem_of_filter. tauto.
  - destruct (AddRoutes_fields id name ty rs d) as (_ & _ & _ & _ & -> & _).
    by rewrite filter_app, Hidem, Hno, app_nil_r.
Qed.

(** ** A sample deployment, for the witnesses *)

Definition sample_route (method path permission : string) (public : bool) : Route := {|
  Method := method; Path := path; Public := public; Permission := permission; Summary := "";
  Tags := [] |}.
Definition sample_entry (id name : string) : PluginEntry :=
  new_entry 0 id name "http://10.0.0.5:9000" "1.0" empty_manifest
    {| Scheme := "http"; Host := "10.0.0.5:9000" |} (λ t, t).
Definition sample_registry (until : Z) : Registry := {|
  plugins := {["pos-1" := sample_entry "pos-1" "pos"]} ;
  maint := {["pos" := {| Reason := "migrating"; Since := 0; Until := until |}]} |}.
Definition sample_dispatcher (until : Z) : Dispatcher :=
  AddRoutes "pos-1" "pos" "public" [sample_route "GET" "/pos/items/:id" "" true]
    (AddRoutes "crm-1" "crm" "internal" [sample_route "GET" "/crm/*" "crm:read" false]
      (New (sample_registry until) (CircuitBreaker.New 5 (30 * Second)) (Bulkhead.New 100) Defaults)).
Definition sample_world (until : Z) (r : Request) : World :=
  {| w_disp := sample_dispatcher until; w_gin := arrive r; w_events := [] |}.
Definition sample_clock (t : Z) : Clock := {|
  t_start := t; t_maint := t; t_until := t; t_rate := t; t_tenant := t; t_allow := t;
  t_failure := t; t_end := t |}.
Definition item_request : Request := page_request "shop.example" "/pos/items/7".

Lemma sample_admissible until :
  admissible (sample_dispatcher until) None "GET" "/pos/items/7"
    (route_entry "pos-1" "pos" (sample_route "GET" "/pos/items/:id" "" true))
    (sample_entry "pos-1" "pos").
Proof. split_and!; [done|by vm_compute|by left|done|done]. Qed.

Lemma Dispatch_returns_every_slot_witness :
  Bulkhead.Active (bh (w_disp (Dispatch (H := sorted_order) "u" (λ h, h)
      (λ _, {| x_informational := []; x_outcome := Broken 200 |}) (λ _ _, Piped)
      (sample_clock 5) (sample_world 0 item_request)).1)) "pos-1" =
  Bulkhead.Active (bh (sample_dispatcher 0)) "pos-1".
Proof.
  apply (Dispatch_returns_every_slot (H := sorted_order) "u" (λ h, h)
    (λ _, {| x_informational := []; x_outcome := Broken 200 |}) (λ _ _, Piped) (sample_clock 5)
    (sample_world 0 item_request) "pos-1").
  intros p. vm_compute. done.
Defined.

Lemma maintenance_refusal_is_free_witness :
  ∃ n, t_until (sample_clock 1) + (n - 1) * Second ≤ 90 * Second <
       t_until (sample_clock 1) + n * Second.
Proof.
  pose proof (maintenance_refusal_is_free (H := sorted_order) "u" (λ h, h)
    (λ _, {| x_informational := []; x_outcome := Failed |}) (λ _ _, Piped) (sample_clock 1)
    (sample_world (90 * Second) item_request) _ _ {| Reason := "migrating"; Since := 0; Until := 90 * Second |}
    (sample_admissible (90 * Second)) ltac:(by vm_compute) ltac:(by vm_compute)) as Hf.
  destruct (Dispatch _ _ _ _ _ _) as [w' s]. destruct Hf as (_ & _ & _ & _ & _ & n & _ & Hn).
  by exists n.
Defined.

Lemma RemoveRoutes_keeps_other_plugins_witness :
  match_ (RemoveRoutes "pos-1" (sample_dispatcher 0)) "GET" "/crm/leads" =
  Some (route_entry "crm-1" "crm" (sample_route "GET" "/crm/*" "crm:read" false)).
Proof.
  apply (RemoveRoutes_keeps_other_plugins (sample_dispatcher 0) "pos-1" "GET" "/crm/leads"
    (route_entry "crm-1" "crm" (sample_route "GET" "/crm/*" "crm:read" false))); by vm_compute.
Defined.

(** ** What modelling showed *)

(** A plugin that sends an informational response before failing looks healthy:
    the recorder keeps the first status written, so a 103 followed by a 500
    closes a breaker, clears its failures, and is logged as a 103. *)
Theorem early_hints_hide_failures target r id clk b :
  let p := ServeHTTP (λ _, {| x_informational := [103]; x_outcome := Responded 500 |}) target r in
  IsPrint (upgradeType (rq_Header r)) = true →
  px_codes p = [103; 500] ∧ recorded (px_codes p) = 103 ∧
  settled clk id p b = CircuitBreaker.RecordSuccess id b.
Proof. cbv zeta. intros Hp. unfold ServeHTTP, settled. rewrite Hp. done. Qed.

Lemma early_hints_hide_failures_witness :
  settled (sample_clock 0) "pos-1" (ServeHTTP (λ _, {| x_informational := [103]; x_outcome := Responded 500 |})
      {| Scheme := "http"; Host := "h" |} item_request) (CircuitBreaker.New 5 Second) =
  CircuitBreaker.RecordSuccess "pos-1" (CircuitBreaker.New 5 Second).
Proof.
  exact (proj2 (proj2 (early_hints_hide_failures {| Scheme := "http"; Host := "h" |} item_request "pos-1"
    (sample_clock 0) (CircuitBreaker.New 5 Second) eq_refl))).
Defined.

(** A trailing wildcard matches past the end of its last segment: the public
    route [/auth/*] of one plugin also answers [/authors/7], so a route another
    plugin protects with a permission is served without a token when its owner
    registered second. *)
Theorem wildcard_ignores_segment_boundary :
  let identity := route_entry "i-1" "identity" (sample_route "GET" "/auth/*" "" true) in
  let library := route_entry "l-1" "library" (sample_route "GET" "/authors/:id" "authors:read" false) in
  let d0 := sample_dispatcher 0 in
  match_ (set_routes [identity; library] d0) "GET" "/authors/7" = Some identity ∧
  IsPublic (set_routes [identity; library] d0) "GET" "/authors/7" = true ∧
  match_ (set_routes [library; identity] d0) "GET" "/authors/7" = Some library ∧
  IsPublic (set_routes [library; identity] d0) "GET" "/authors/7" = false.
Proof. by vm_compute. Qed.

(** A WebSocket request counts as a success even when the plugin could not be
    reached: with its breaker half-open, a failed dial closes it. *)
Theorem failed_dial_closes_breaker `{MapOrder} :
  let upgrade := with_Header {["Connection" := ["Upgrade"]; "Upgrade" := ["websocket"]]} item_request in
  let half_open := CircuitBreaker.set_state "pos-1" CircuitBreaker.stateHalfOpen
                     (CircuitBreaker.New 5 (30 * Second)) in
  let w := set_disp (set_cb half_open (sample_dispatcher 0)) (sample_world 0 upgrade) in
  ∃ w' r, Dispatch "u" (λ h, h) (λ _, {| x_informational := []; x_outcome := Failed |})
            (λ _ _, DialFailed) (sample_clock 5) w =
          (w', Socket "10.0.0.5:9000" DialFailed (Some r)) ∧
          CircuitBreaker.State (cb (w_disp w')) "pos-1" = "closed".
Proof. cbv zeta. do 2 eexists. split; [vm_compute; reflexivity|vm_compute; reflexivity]. Qed.
