(* ===== verification/Telemetry.v ===== *)
(** [internal/protection/metrics.go] and [observability.go]: what a request's reports
    make of the gateway's metrics and of its log. *)

From S2P Require Import Prelude GoStrings Float64 Manifest Protection RateLimiter Config Auth Registry Http Middleware Nav Proxy Dispatcher.

(** ** The metrics *)

(** The vectors a request writes to, by their labels; a histogram is the list of what
    it observed. *)
Record Series := {
  requestsTotal : gmap (string * string * string) Z;
  requestDuration : gmap (string * string) (list f64);
  requestsInFlight : gmap string Z;
  requestsRejected : gmap (string * string) Z;
  circuitBreakerState : gmap string Z
}.

Section readings.
Context `{Countable K}.
Definition reading (k : K) (m : gmap K Z) : Z := default 0 (m !! k).
(** [Inc] ([Dec]) of the series with labels [k], which comes into being at zero. *)
Definition add (z : Z) (k : K) (m : gmap K Z) : gmap K Z := <[k := reading k m + z]> m.
Definition Observe (x : f64) (k : K) (m : gmap K (list f64)) : gmap K (list f64) :=
  <[k := app (default [] (m !! k)) [x]]> m.
End readings.

Definition record (e : event) (s : Series) : Series :=
  match e with
  | Rejected plugin reason => {|
      requestsTotal := requestsTotal s; requestDuration := requestDuration s;
      requestsInFlight := requestsInFlight s;
      requestsRejected := add 1 (plugin, reason) (requestsRejected s);
      circuitBreakerState := circuitBreakerState s |}
  | InFlightInc plugin => {|
      requestsTotal := requestsTotal s; requestDuration := requestDuration s;
      requestsInFlight := add 1 plugin (requestsInFlight s);
      requestsRejected := requestsRejected s; circuitBreakerState := circuitBreakerState s |}
  | InFlightDec plugin => {|
      requestsTotal := requestsTotal s; requestDuration := requestDuration s;
      requestsInFlight := add (-1) plugin (requestsInFlight s);
      requestsRejected := requestsRejected s; circuitBreakerState := circuitBreakerState s |}
  | BreakerState plugin value => {|
      requestsTotal := requestsTotal s; requestDuration := requestDuration s;
      requestsInFlight := requestsInFlight s; requestsRejected := requestsRejected s;
      circuitBreakerState := <[plugin := value]> (circuitBreakerState s) |}
  | RequestsTotal plugin method status => {|
      requestsTotal := add 1 (plugin, method, status) (requestsTotal s);
      requestDuration := requestDuration s; requestsInFlight := requestsInFlight s;
      requestsRejected := requestsRejected s; circuitBreakerState := circuitBreakerState s |}
  | RequestDuration plugin method seconds => {|
      requestsTotal := requestsTotal s;
      requestDuration := Observe seconds (plugin, method) (requestDuration s);
      requestsInFlight := requestsInFlight s; requestsRejected := requestsRejected s;
      circuitBreakerState := circuitBreakerState s |}
  | SpanStart _ _ _ _ | SpanStatus _ | SpanEnd | LogRequest _ _ _ _ _ _ _ => s
  end.
Definition gather (evs : list event) (s : Series) : Series := foldl (λ s e, record e s) s evs.

(** ** The request log *)

(** [RequestLog] *)
Record RequestLog := {
  rl_PluginID : string; rl_TenantID : string; rl_Path : string; rl_Method : string;
  rl_Status : Z; rl_Duration : Z; rl_RequestID : string; rl_Err : option string
}.

(** [time.Duration.Milliseconds] *)
Definition Milliseconds (d : Z) : Z := Z.quot d 1000000.

(** A line of the JSON handler: its level, its message, its attributes in order. *)
Record line := { level : string; msg : string; attrs : list (string * json) }.

(** [protection.LogRequest] *)
Definition LogRequest (r : RequestLog) : line :=
  let attrs := [
    ("plugin", JStr (rl_PluginID r)); ("tenant", JStr (rl_TenantID r));
    ("method", JStr (rl_Method r)); ("path", JStr (rl_Path r)); ("status", JInt (rl_Status r));
    ("duration_ms", JInt (Milliseconds (rl_Duration r))); ("request_id", JStr (rl_RequestID r))] in
  match rl_Err r with
  | Some err => {| level := "ERROR"; msg := "proxied request failed"; attrs := app attrs [("error", JStr err)] |}
  | None => {| level := "INFO"; msg := "proxied request"; attrs := attrs |}
  end.

(** The record [Dispatch] passes for an event of its model; it never sets [Err]. *)
Definition log_of (e : event) : option line :=
  match e with
  | Dispatcher.LogRequest id tenant path method requestID status duration =>
      Some (LogRequest {| rl_PluginID := id; rl_TenantID := tenant; rl_Path := path; rl_Method := method;
        rl_Status := status; rl_Duration := duration; rl_RequestID := requestID; rl_Err := None |})
  | _ => None
  end.
Definition lines (evs : list event) : list line := omap log_of evs.

Lemma reading_add_eq `{Countable K} z (k : K) m : reading k (add z k m) = reading k m + z.
Proof. unfold reading, add. by rewrite lookup_insert_eq. Qed.
Lemma reading_add_ne `{Countable K} z (k k' : K) m : k ≠ k' → reading k' (add z k m) = reading k' m.
Proof. intros. unfold reading, add. by rewrite lookup_insert_ne. Qed.
(** One in, one out. *)
Lemma in_flight_back `{Countable K} (k q : K) m : reading q (add (-1) k (add 1 k m)) = reading q m.
Proof.
  destruct (decide (k = q)) as [->|]; [rewrite !reading_add_eq; lia|by rewrite !reading_add_ne].
Qed.

(** ** What a request reports *)

(** The status a refusal for that reason is answered with. *)
Definition reason_status (reason : string) : option Z :=
  match reason with
  | "blocked" | "forbidden" => Some 403
  | "unavailable" | "maintenance" | "bulkhead" | "circuit_breaker" => Some 503
  | "rate_limit" | "tenant_rate_limit" => Some 429
  | _ => None
  end.

(** A stage that either refuses, reporting it under [plugin], or reports nothing. *)
Definition refusing {A} (plugin : string) (w : World) (m : Handler World served A) (QA : World → A → Prop) : Prop :=
  wp m (λ w' s, ∃ reason r, s = Answered r ∧ reason_status reason = Some (Reply_code r) ∧
                  w_events w' = app (w_events w) [Rejected plugin reason])
       (λ w' a, w_events w' = w_events w ∧ QA w' a) w.

#[local] Ltac refuse reason := unfold reject; wp_steps; exists reason; eexists; by split_and!.

Section stages.
Context (clk : Clock) (w : World) (e : routeEntry).
#[local] Abbreviation plugin := (re_pluginName e).

Lemma maintenance_reports : refusing plugin w (maintenance clk plugin) (λ _ _, True).
Proof.
  unfold refusing, maintenance. wp_steps. destruct (MaintenanceFor _ _ _) as [r [m|]]; wp_steps; [|done].
  exists "maintenance". eexists. by split_and!.
Qed.
Lemma rate_limit_reports : refusing plugin w (rate_limit clk e) (λ _ _, True).
Proof.
  unfold refusing, rate_limit, IdentityFrom. wp_steps. destruct (spend _ _ _ _) as [m1 [|]]; wp_steps.
  2: { refuse "rate_limit". }
  cbn [on_disp set_disp w_gin w_disp]. destruct (g_identity (w_gin w)) as [i|]; [|by wp_steps].
  destruct (String.eqb (TenantID i) ""); [by wp_steps|].
  destruct (spend _ _ _ _) as [m2 [|]]; wp_steps; [done|]. refuse "tenant_rate_limit".
Qed.
Lemma acquire_reports : refusing plugin w (acquire e) (λ _ _, True).
Proof.
  unfold refusing, acquire. wp_steps. destruct (Bulkhead.Acquire _ _) as [b [err|]]; wp_steps; [|done].
  refuse "bulkhead".
Qed.
Lemma breaker_reports : refusing plugin w (breaker clk e) (λ _ _, True).
Proof.
  unfold refusing, breaker. wp_steps. destruct (CircuitBreaker.Allow _ _ _) as [b [err|]]; wp_steps; [|done].
  refuse "circuit_breaker".
Qed.
End stages.

(** Which plugin a refused request is reported under. *)
Definition reported_under (d : Dispatcher) (method path plugin : string) : Prop :=
  if Firewall.IsRouteBlocked path then plugin = "_firewall"
  else ∃ e, match_ d method path = Some e ∧ plugin = re_pluginName e.

(** The request's id: its own, or the fresh one. *)
Definition the_id (uuid : string) (w : World) : string :=
  let id := GetHeader (g_req (w_gin w)) "X-Request-ID" in if String.eqb id "" then uuid else id.
Lemma request_id_run uuid w : request_id uuid w = (named uuid w, inr (the_id uuid w)).
Proof. unfold named, request_id, the_id. run_steps. by destruct (String.eqb _ ""). Qed.

Section reports.
Context `{MapOrder} (uuid : string) (Inject : Header → Header).
Context (RoundTrip : Request → exchange) (Dial : string → Request → ws_outcome) (clk : Clock).

(** What is added to the reports on the way out of [Dispatch]. *)
Definition reported (w w' : World) (s : served) : Prop :=
  let method := rq_Method (g_req (w_gin w)) in
  let path := u_Path (rq_URL (g_req (w_gin w))) in
  let d := w_disp w in
  match s with
  | Answered r =>
      (Firewall.IsRouteBlocked path = false ∧ match_ d method path = None ∧ Reply_code r = 404 ∧
       w_events w' = w_events w) ∨
      ∃ plugin reason, reported_under d method path plugin ∧ reason_status reason = Some (Reply_code r) ∧
        w_events w' = app (w_events w) [Rejected plugin reason]
  | Socket _ _ _ => ∃ e tid, match_ d method path = Some e ∧
      w_events w' = app (w_events w)
        [SpanStart (re_pluginName e) method (re_pattern e) tid; InFlightInc (re_pluginName e);
         RequestsTotal (re_pluginName e) "WS" "websocket"; InFlightDec (re_pluginName e); SpanEnd]
  | Forwarded p => ∃ e tid, match_ d method path = Some e ∧
      let plugin := re_pluginName e in
      w_events w' = app (w_events w) (app
        [SpanStart plugin method (re_pattern e) tid; InFlightInc plugin] (app
        (if px_panicked p then []
         else let code := recorded (px_codes p) in
              [SpanStatus code; BreakerState plugin (CircuitBreaker.StateMetric (cb (w_disp w')) (re_pluginID e));
               RequestsTotal plugin method (Metrics.StatusClass code);
               RequestDuration plugin method (Seconds (time_Sub (t_end clk) (t_start clk)));
               Dispatcher.LogRequest (re_pluginID e) tid path method
                 (the_id uuid w) code (time_Sub (t_end clk) (t_start clk))])
        [InFlightDec plugin; SpanEnd]))
  end.

(** The stages after the route is found refuse under its plugin's name. *)
Lemma refusing_reported {A} e w w1 (m : Handler World served A) (QA : World → A → Prop) :
  Firewall.IsRouteBlocked (u_Path (rq_URL (g_req (w_gin w)))) = false →
  match_ (w_disp w) (rq_Method (g_req (w_gin w))) (u_Path (rq_URL (g_req (w_gin w)))) = Some e →
  w_events w1 = w_events w →
  refusing (re_pluginName e) w1 m (λ _ _, True) →
  (∀ w2 a, w_events w2 = w_events w → QA w2 a) →
  wp m (reported w) QA w1.
Proof.
  intros Hf Hm Hev Hr HA. eapply wp_mono; [exact Hr|..].
  - intros w2 s (reason & r & -> & Hs & Hw). right. exists (re_pluginName e), reason.
    unfold reported_under. rewrite Hf, Hw, Hev. eauto.
  - intros w2 a [Hw _]. apply HA. congruence.
Qed.

Lemma route_reported w w1 QA :
  let method := rq_Method (g_req (w_gin w)) in
  let path := u_Path (rq_URL (g_req (w_gin w))) in
  w_events w1 = w_events w → w_disp w1 = w_disp w →
  (∀ e pe, Firewall.IsRouteBlocked path = false → match_ (w_disp w) method path = Some e → QA w1 (e, pe)) →
  wp (route method path) (reported w) QA w1.
Proof.
  intros method path Hev Hd HA. unfold route. apply wp_bind.
  assert (∀ p reason r, reported_under (w_disp w) method path p → reason_status reason = Some (Reply_code r) →
    reported w (emit (Rejected p reason) w1) (Answered r)) as Hrej.
  { intros p reason r Hp Hs. right. exists p, reason. split; [exact Hp|]. split; [exact Hs|].
    cbn [emit w_events]. by rewrite Hev. }
  unfold reported_under in Hrej. fold path in Hrej. destruct (Firewall.IsRouteBlocked path) eqn:Hf.
  { apply reject_wp. by apply Hrej. }
  wp_steps. rewrite Hd. destruct (match_ (w_disp w) method path) as [e|] eqn:Hm.
  2: { wp_steps. left. by split_and!. }
  wp_steps. destruct (_ && _ && _); [apply reject_wp, Hrej; eauto|]. wp_steps.
  destruct (Registry.Get _ _) as [pe|]; [|apply reject_wp, Hrej; eauto].
  destruct (Alive pe); [wp_steps; auto|]. apply reject_wp, Hrej; eauto.
Qed.

Lemma forward_reported e pe tid w w1 :
  match_ (w_disp w) (rq_Method (g_req (w_gin w))) (u_Path (rq_URL (g_req (w_gin w)))) = Some e →
  w_events w1 = w_events w →
  let Q w' s := reported w (release e w') s in
  wp (forward Inject RoundTrip Dial clk e pe (rq_Method (g_req (w_gin w)))
        (u_Path (rq_URL (g_req (w_gin w)))) tid (the_id uuid w)) Q Q w1.
Proof.
  intros Hm Hev Q. unfold forward. wp_steps. cbn [on_gin set_gin w_gin emit on_header set_req g_req].
  destruct (isWebSocketUpgrade _).
  - unfold proxyWebSocket. wp_steps. exists e, tid. split; [done|].
    cbn [release on_disp set_disp emit w_events on_gin set_gin]. by rewrite Hev, <- !app_assoc.
  - destruct (px_panicked (ServeHTTP RoundTrip (Proxy pe) _)) eqn:Hp.
    + wp_steps. exists e, tid. split; [done|]. rewrite Hp.
      cbn [release on_disp set_disp emit w_events on_gin set_gin]. by rewrite Hev, <- !app_assoc.
    + unfold settle. destruct (500 <=? recorded _); wp_steps; exists e, tid; (split; [done|]); rewrite Hp;
        cbn [release on_disp set_disp emit w_events on_gin set_gin w_disp set_bh cb]; by rewrite Hev, <- !app_assoc.
Qed.

Lemma Dispatch_reported w :
  reported w (Dispatch uuid Inject RoundTrip Dial clk w).1 (Dispatch uuid Inject RoundTrip Dial clk w).2.
Proof.
  unfold Dispatch. apply (wp_run_handler _ (reported w)). unfold Dispatch_body. apply wp_bind, wp_get_state.
  apply wp_bind. unfold wp at 1. rewrite request_id_run. apply wp_bind, route_reported;
    [apply named_events|apply named_disp|]. intros e pe Hf Hm.
  apply wp_bind, (refusing_reported e); [done|done|apply named_events|apply maintenance_reports|]. intros w1 [] H1.
  apply wp_bind, (refusing_reported e); [done|done|done|apply rate_limit_reports|]. intros w2 [] H2.
  apply wp_bind, (refusing_reported e); [done|done|done|apply acquire_reports|]. intros w3 [] H3.
  apply wp_deferring, wp_bind. eapply wp_mono; [apply (refusing_reported e w w3 (breaker clk e) (λ w4 _, w_events w4 = w_events w))|..].
  - done.
  - done.
  - done.
  - apply breaker_reports.
  - done.
  - intros w4 s Hs. destruct s; exact Hs.
  - intros w4 [] H4. apply wp_bind. unfold wp at 1. rewrite inject_run. cbv zeta. by apply forward_reported.
Qed.

(** C13: Every request is accounted for, and once.  A refused one adds one to the
    rejections under its plugin (or the firewall) and the reason, which determines
    the status it is answered with; a request no route matches is answered 404 and
    counted nowhere; a proxied one adds one to its plugin's total, under the class
    of the status recorded, one observed duration and one line of the log; a
    WebSocket one to the total alone; and an exchange that breaks off mid-body
    nothing at all.  Whatever the way out, the gauge of requests in flight is back
    where it was. *)
Theorem every_request_is_counted_once w m :
  let d := w_disp w in
  let method := rq_Method (g_req (w_gin w)) in
  let path := u_Path (rq_URL (g_req (w_gin w))) in
  let '(w', s) := Dispatch uuid Inject RoundTrip Dial clk w in
  ∃ evs, w_events w' = app (w_events w) evs ∧
  let m' := gather evs m in
  (∀ q, reading q (requestsInFlight m') = reading q (requestsInFlight m)) ∧
  match s with
  | Answered r =>
      lines evs = [] ∧ requestsTotal m' = requestsTotal m ∧ requestDuration m' = requestDuration m ∧
      circuitBreakerState m' = circuitBreakerState m ∧
      (Firewall.IsRouteBlocked path = false ∧ match_ d method path = None ∧ Reply_code r = 404 ∧
         requestsRejected m' = requestsRejected m ∨
       ∃ plugin reason, reported_under d method path plugin ∧ reason_status reason = Some (Reply_code r) ∧
         requestsRejected m' = add 1 (plugin, reason) (requestsRejected m))
  | Socket _ _ _ => ∃ e, match_ d method path = Some e ∧ lines evs = [] ∧
      requestsTotal m' = add 1 (re_pluginName e, "WS", "websocket") (requestsTotal m) ∧
      requestDuration m' = requestDuration m ∧ requestsRejected m' = requestsRejected m ∧
      circuitBreakerState m' = circuitBreakerState m
  | Forwarded p => ∃ e, match_ d method path = Some e ∧ requestsRejected m' = requestsRejected m ∧
      let plugin := re_pluginName e in
      let code := recorded (px_codes p) in
      let took := time_Sub (t_end clk) (t_start clk) in
      if px_panicked p then
        lines evs = [] ∧ requestsTotal m' = requestsTotal m ∧ requestDuration m' = requestDuration m ∧
        circuitBreakerState m' = circuitBreakerState m
      else
        requestsTotal m' = add 1 (plugin, method, Metrics.StatusClass code) (requestsTotal m) ∧
        requestDuration m' = Observe (Seconds took) (plugin, method) (requestDuration m) ∧
        circuitBreakerState m' =
          <[plugin := CircuitBreaker.StateMetric (cb (w_disp w')) (re_pluginID e)]> (circuitBreakerState m) ∧
        ∃ tid, lines evs = [LogRequest {| rl_PluginID := re_pluginID e; rl_TenantID := tid; rl_Path := path;
          rl_Method := method; rl_Status := code; rl_Duration := took; rl_RequestID := the_id uuid w;
          rl_Err := None |}]
  end.
Proof.
  intros d method path. pose proof (Dispatch_reported w) as Hr.
  destruct (Dispatch _ _ _ _ _ w) as [w' [r|p|host o rep]]; cbn [fst snd] in Hr; unfold reported in Hr.
  - destruct Hr as [(Hf & Hm & Hc & Hw)|(plugin & reason & Hp & Hs & Hw)].
    + exists []. rewrite app_nil_r. cbv zeta. split_and!; [done..|]. left. by split_and!.
    + eexists. split; [exact Hw|]. cbv zeta. split_and!; [done..|]. right. eauto.
  - destruct Hr as (e & tid & Hm & Hw). eexists. split; [exact Hw|].
    cbv zeta.
    split; [intros q; destruct (px_panicked p); apply (in_flight_back (re_pluginName e) q)|]. exists e. split; [exact Hm|].
    destruct (px_panicked p); [done|]. split_and!; [done..|]. by exists tid.
  - destruct Hr as (e & tid & Hm & Hw). eexists. split; [exact Hw|]. cbv zeta.
    split; [intros q; apply (in_flight_back (re_pluginName e) q)|]. by exists e.
Qed.
End reports.

(** ** What modelling showed *)

Definition probe (method : string) : Request := {|
  rq_Method := method; rq_URL := rq_URL item_request; rq_Host := "shop.example"; rq_Header := ∅;
  rq_RequestURI := "/pos/items/7"; rq_RemoteAddr := "198.51.100.7:4000" |}.
Definition open_dispatcher : Dispatcher :=
  AddRoutes "pos-1" "pos" "internal" [sample_route "*" "/pos/items/:id" "" true]
    (New (sample_registry 0) (CircuitBreaker.New 5 (30 * Second)) (Bulkhead.New 100) Defaults).
Definition probed (method : string) : World * served :=
  Dispatch (H := sorted_order) "u" (λ h, h)
    (λ _, {| x_informational := []; x_outcome := Responded 404 |}) (λ _ _, Piped) (sample_clock 1)
    {| w_disp := open_dispatcher; w_gin := arrive (probe method); w_events := [] |}.
Definition no_series : Series := {| requestsTotal := ∅; requestDuration := ∅; requestsInFlight := ∅;
  requestsRejected := ∅; circuitBreakerState := ∅ |}.

Lemma probed_total method s :
  requestsTotal (gather (w_events (probed method).1) s) = add 1 ("pos", method, "4xx") (requestsTotal s).
Proof.
  assert (w_events (probed method).1 = [
    SpanStart "pos" method "/pos/items/:id" ""; InFlightInc "pos"; SpanStatus 404; BreakerState "pos" 0;
    RequestsTotal "pos" method "4xx"; RequestDuration "pos" method (Fin 0);
    Dispatcher.LogRequest "pos-1" "" "/pos/items/7" method "u" 404 0; InFlightDec "pos"; SpanEnd]) as ->
    by (vm_compute; reflexivity).
  done.
Qed.

(** Where a plugin declares a route for every method, clients name the series of the
    metrics: each method they make up adds one, without bound. *)
Theorem methods_make_series ms :
  NoDup ms →
  size (requestsTotal (foldl (λ s m, gather (w_events (probed m).1) s) no_series ms)) = length ms.
Proof.
  intros Hms. set (key m := ("pos", m, "4xx") : string * string * string).
  assert (∀ s, dom (requestsTotal (foldl (λ s m, gather (w_events (probed m).1) s) s ms)) =
    dom (requestsTotal s) ∪ list_to_set (C := gset _) (key <$> ms)) as Hdom.
  { clear Hms. induction ms as [|m ms IH]; intros s; cbn [foldl].
    { by rewrite fmap_nil, list_to_set_nil, union_empty_r_L. }
    rewrite IH, probed_total, fmap_cons, list_to_set_cons. unfold add. rewrite dom_insert_L.
    fold (key m). by rewrite (comm_L (∪) {[key m]}), <- assoc_L by apply _. }
  rewrite <- size_dom, Hdom. cbn [no_series requestsTotal]. rewrite dom_empty_L, union_empty_l_L, size_list_to_set; [by rewrite length_fmap|].
  apply NoDup_fmap_2; [|done]. by intros ? ? [= ->].
Qed.
Lemma methods_make_series_witness :
  size (requestsTotal (foldl (λ s m, gather (w_events (probed m).1) s) no_series ["GET"; "AAA"; "AAB"])) = 3%nat.
Proof. apply (methods_make_series ["GET"; "AAA"; "AAB"]). by apply (bool_decide_unpack _). Defined.
