(* ===== verification/Sockets.v ===== *)
(** [proxyWebSocket] of [internal/dispatcher/dispatcher.go] once the handshake has been
    replayed: two goroutines copy between the hijacked client connection and the
    plugin's, and the handler leaves when the first of them is done. *)

From S2P Require Import Prelude GoStrings.

#[local] Abbreviation bytes := (list Ascii.ascii).

(** A TCP connection as the gateway holds it: what the peer has sent so far, the part of
    it the server had read ahead into the reader [Hijack] returns, what is still
    unread, whether the peer is done sending, whether it can no longer be written to;
    what the gateway has written; whether the gateway closed it. *)
Record conn := {
  arrived : bytes; ahead : bytes; unread : bytes; eof : bool; gone : bool; written : bytes; shut : bool
}.

(** [io.Copy] and the report of its error, or of none. *)
Inductive copying := Reading | Writing (chunk : bytes) | Reporting (clean : bool) | Ended (clean : bool).
(** The handler: [<-errc], then the deferred [Close]s, last first. *)
Inductive handling := Receiving | ClosingClient | ClosingPlugin | Returned.

Definition errc_capacity : nat := 2.

Record relay := {
  client : conn; plugin : conn;
  up : copying; down : copying;  (* client to plugin, plugin to client *)
  errc : nat;                    (* reports in the channel *)
  handler : handling
}.

(** [clientConn, _, err := hj.Hijack()]: of the client's [stream] the server has read
    [buffered] bytes ahead into the reader, which the handler drops. *)
Definition hijack (stream : bytes) (buffered : nat) : conn := {|
  arrived := stream; ahead := take buffered stream; unread := drop buffered stream; eof := false; gone := false;
  written := []; shut := false |}.
(** The plugin's connection, once [handshake] has been written to it. *)
Definition dialled (handshake : bytes) : conn := {|
  arrived := []; ahead := []; unread := []; eof := false; gone := false; written := handshake; shut := false |}.
Definition start (handshake stream : bytes) (buffered : nat) : relay := {|
  client := hijack stream buffered; plugin := dialled handshake; up := Reading; down := Reading;
  errc := 0; handler := Receiving |}.

Definition take_in (rest : bytes) (c : conn) : conn := {|
  arrived := arrived c; ahead := ahead c; unread := rest; eof := eof c; gone := gone c; written := written c; shut := shut c |}.
Definition put_out (w : bytes) (c : conn) : conn := {|
  arrived := arrived c; ahead := ahead c; unread := unread c; eof := eof c; gone := gone c; written := app (written c) w;
  shut := shut c |}.
Definition Close (c : conn) : conn := {|
  arrived := arrived c; ahead := ahead c; unread := unread c; eof := eof c; gone := gone c; written := written c; shut := true |}.

(** A step the gateway can take by itself, or one of a peer, by the bytes it sends. *)
Inductive kind := Own | Peer (sent : nat).

(** What a peer does: it sends, it is done, its connection breaks. *)
Inductive peers (c : conn) : nat → conn → Prop :=
| sends bs : eof c = false →
    peers c (length bs) {| arrived := app (arrived c) bs; ahead := ahead c; unread := app (unread c) bs; eof := eof c;
                           gone := gone c; written := written c; shut := shut c |}
| finishes :
    peers c 0 {| arrived := arrived c; ahead := ahead c; unread := unread c; eof := true; gone := gone c;
                 written := written c; shut := shut c |}
| breaks :
    peers c 0 {| arrived := arrived c; ahead := ahead c; unread := unread c; eof := true; gone := true;
                 written := written c; shut := shut c |}.

(** One direction of the copy. A write waits for its peer to take the bytes; a
    connection that is closed, or has no peer any more, fails it. *)
Inductive copies (src dst : conn) : kind → copying → copying → conn → conn → Prop :=
| reads chunk rest : shut src = false → unread src = app chunk rest → chunk ≠ [] →
    copies src dst Own Reading (Writing chunk) (take_in rest src) dst
| reads_eof : shut src = false → unread src = [] → eof src = true → gone src = false →
    copies src dst Own Reading (Reporting true) src dst
| reads_broken : shut src = false → gone src = true → copies src dst Own Reading (Reporting false) src dst
| reads_closed : shut src = true → copies src dst Own Reading (Reporting false) src dst
| writes chunk : shut dst = false → gone dst = false →
    copies src dst (Peer 0) (Writing chunk) Reading src (put_out chunk dst)
| write_fails chunk w rest : shut dst = true ∨ gone dst = true → chunk = app w rest →
    copies src dst Own (Writing chunk) (Reporting false) src (put_out w dst).

Inductive step (r : relay) : kind → relay → Prop :=
| client_acts n c : peers (client r) n c →
    step r (Peer n) {| client := c; plugin := plugin r; up := up r; down := down r; errc := errc r; handler := handler r |}
| plugin_acts n c : peers (plugin r) n c →
    step r (Peer n) {| client := client r; plugin := c; up := up r; down := down r; errc := errc r; handler := handler r |}
| copies_up k x c p : copies (client r) (plugin r) k (up r) x c p →
    step r k {| client := c; plugin := p; up := x; down := down r; errc := errc r; handler := handler r |}
| copies_down k x c p : copies (plugin r) (client r) k (down r) x p c →
    step r k {| client := c; plugin := p; up := up r; down := x; errc := errc r; handler := handler r |}
| reports_up b : up r = Reporting b → (errc r < errc_capacity)%nat →
    step r Own {| client := client r; plugin := plugin r; up := Ended b; down := down r; errc := S (errc r);
                  handler := handler r |}
| reports_down b : down r = Reporting b → (errc r < errc_capacity)%nat →
    step r Own {| client := client r; plugin := plugin r; up := up r; down := Ended b; errc := S (errc r);
                  handler := handler r |}
| receives n : handler r = Receiving → errc r = S n →
    step r Own {| client := client r; plugin := plugin r; up := up r; down := down r; errc := n; handler := ClosingClient |}
| closes_client : handler r = ClosingClient →
    step r Own {| client := Close (client r); plugin := plugin r; up := up r; down := down r; errc := errc r;
                  handler := ClosingPlugin |}
| closes_plugin : handler r = ClosingPlugin →
    step r Own {| client := client r; plugin := Close (plugin r); up := up r; down := down r; errc := errc r;
                  handler := Returned |}.
Definition steps (r r' : relay) : Prop := ∃ k, step r k r'.

(** ** What is passed on *)

(** Between [src], of whose bytes [passed] have been written to the other side, and
    a copy in state [x]: what was read ahead comes before them all. *)
Definition in_order (src : conn) (x : copying) (passed : bytes) : Prop :=
  let read := app (ahead src) passed in
  match x with
  | Reading => arrived src = app read (unread src)
  | Writing chunk => arrived src = app read (app chunk (unread src))
  | Reporting true | Ended true => arrived src = read ∧ eof src = true
  | Reporting false | Ended false => read `prefix_of` arrived src
  end.

Definition relay_ok (handshake early : bytes) (r : relay) : Prop :=
  (∃ passed, written (plugin r) = app handshake passed ∧ in_order (client r) (up r) passed) ∧
  (∃ passed, written (client r) = passed ∧ in_order (plugin r) (down r) passed) ∧
  ahead (client r) = early ∧ ahead (plugin r) = [].

Lemma peers_in_order c n c' x passed : peers c n c' → in_order c x passed → in_order c' x passed ∧ written c' = written c ∧ ahead c' = ahead c.
Proof.
  intros [bs He| |] Hin; (split; [|done]); destruct x as [|chunk|[]|[]]; cbn in *; try (by destruct Hin); try done.
  all: try (by rewrite Hin, <- ?app_assoc). all: try (by destruct Hin; congruence).
  all: by apply prefix_app_r.
Qed.
Lemma copies_in_order s d k x x' s' d' passed base :
  copies s d k x x' s' d' → written d = app base passed → in_order s x passed →
  ∃ passed', written d' = app base passed' ∧ in_order s' x' passed'.
Proof.
  intros Hc Hw Hin. destruct Hc as [chunk rest _ Hu _|_ Hu He _| | |chunk|chunk w rest _ Hch]; cbn in *.
  - exists passed. split; [done|]. rewrite Hin. congruence.
  - exists passed. split; [done|]. split; [|done]. by rewrite Hin, Hu, app_nil_r.
  - exists passed. split; [done|]. rewrite Hin. by apply prefix_app_r.
  - exists passed. split; [done|]. rewrite Hin. by apply prefix_app_r.
  - exists (app passed chunk). split; [by rewrite Hw, app_assoc|]. by rewrite Hin, !app_assoc.
  - exists (app passed w). split; [by rewrite Hw, app_assoc|]. rewrite Hin, Hch, <- app_assoc, !app_assoc.
    by do 2 apply prefix_app_r.
Qed.
(** The other side of a copy only gains what is written to it. *)
Lemma copies_other s d k x x' s' d' y passed :
  copies s d k x x' s' d' →
  (in_order d y passed → in_order d' y passed) ∧ written s' = written s ∧ ahead s' = ahead s ∧ ahead d' = ahead d.
Proof. intros []; done. Qed.

Lemma step_relay_ok h e r k r' : relay_ok h e r → step r k r' → relay_ok h e r'.
Proof.
  intros ((pu & Hwu & Hu) & (pd & Hwd & Hd) & He & He') Hs.
  destruct Hs as [n c Hp|n c Hp|k x c p Hc|k x c p Hc|b Hb _|b Hb _|n Hh _|Hh|Hh]; unfold relay_ok; cbn.
  - destruct (peers_in_order _ _ _ _ _ Hp Hu) as (Hu' & Hw' & Ha').
    split_and!; [by exists pu|exists pd; by rewrite Hw'|congruence|done].
  - destruct (peers_in_order _ _ _ _ _ Hp Hd) as (Hd' & Hw' & Ha').
    split_and!; [exists pu; by rewrite Hw'|by exists pd|done|congruence].
  - destruct (copies_other _ _ _ _ _ _ _ (down r) pd Hc) as (Ho & Hw' & Ha & Ha').
    split_and!; [by eapply copies_in_order|exists pd; rewrite Hw'; auto|congruence..].
  - destruct (copies_other _ _ _ _ _ _ _ (up r) pu Hc) as (Ho & Hw' & Ha & Ha').
    split_and!; [exists pu; rewrite Hw'; auto|by apply (copies_in_order _ _ _ _ _ _ _ pd []) in Hc|congruence..].
  - split_and!; [exists pu; split; [done|]; rewrite Hb in Hu; by destruct b|by exists pd|done..].
  - split_and!; [by exists pu|exists pd; split; [done|]; rewrite Hb in Hd; by destruct b|done..].
  - split_and!; [by exists pu|by exists pd|done..].
  - split_and!; [by exists pu|by exists pd|done..].
  - split_and!; [by exists pu|by exists pd|done..].
Qed.

(** ** How it ends *)

Definition ended (x : copying) : nat := match x with Ended _ => 1 | _ => 0 end.
Definition over (h : handling) : nat := match h with Receiving => 0 | _ => 1 end.

(** A report for each copy that has ended, in the channel or received; the
    connections are closed by the handler on its way out. *)
Definition control_ok (r : relay) : Prop :=
  (errc r + over (handler r) = ended (up r) + ended (down r))%nat ∧
  (shut (client r) = true ↔ handler r = ClosingPlugin ∨ handler r = Returned) ∧
  (shut (plugin r) = true ↔ handler r = Returned).

Lemma peers_shut c n c' : peers c n c' → shut c' = shut c.
Proof. by intros []. Qed.
Lemma copies_control s d k x x' s' d' :
  copies s d k x x' s' d' → shut s' = shut s ∧ shut d' = shut d ∧ ended x' = ended x.
Proof. by intros []. Qed.

Lemma step_control_ok r k r' : control_ok r → step r k r' → control_ok r'.
Proof.
  intros (He & Hc & Hp) Hs. destruct Hs; unfold control_ok; cbn.
  1,2: match goal with H : peers _ _ _ |- _ => apply peers_shut in H; rewrite H end; by split_and!.
  1,2: match goal with H : copies _ _ _ _ _ _ _ |- _ => apply copies_control in H as (-> & -> & ->) end; by split_and!.
  all: repeat match goal with
       | H : up _ = _ |- _ => rewrite H in * | H : down _ = _ |- _ => rewrite H in *
       | H : handler _ = _ |- _ => rewrite H in * | H : errc _ = _ |- _ => rewrite H in * end; cbn in *.
  1,2: split; [lia|done].
  all: split; [lia|naive_solver].
Qed.

Definition copying_left (x : copying) (src : conn) : nat :=
  match x with Reading => 2 * length (unread src) + 3 | Writing _ => 2 * length (unread src) + 4 | Reporting _ => 1 | Ended _ => 0 end.
Definition handling_left (h : handling) : nat :=
  match h with Receiving => 3 | ClosingClient => 2 | ClosingPlugin => 1 | Returned => 0 end.
Definition left (r : relay) : nat :=
  copying_left (up r) (client r) + copying_left (down r) (plugin r) + handling_left (handler r).

Lemma peers_left x c n c' : peers c n c' → (copying_left x c' ≤ copying_left x c + 2 * n)%nat.
Proof. intros []; destruct x; cbn; rewrite ?length_app; lia. Qed.
Lemma copies_left s d k x x' s' d' :
  copies s d k x x' s' d' →
  (copying_left x' s' + match k with Own => 1 | Peer _ => 0 end ≤ copying_left x s)%nat ∧
  (∀ y, copying_left y d' = copying_left y d).
Proof.
  intros [chunk rest Hsh Hu Hne| | | | |]; (split; [cbn|done]); try lia. rewrite Hu, length_app.
  destruct chunk; [done|]. cbn. lia.
Qed.
Lemma step_left r k r' :
  step r k r' → (left r' + match k with Own => 1 | Peer _ => 0 end ≤ left r + match k with Own => 0 | Peer n => 2 * n end)%nat.
Proof.
  intros [n c Hp|n c Hp|k' x c p Hc|k' x c p Hc|b Hb _|b Hb _|n Hh He|Hh|Hh]; unfold left;
    cbn [client plugin up down errc handler].
  - apply (peers_left (up r)) in Hp. lia.
  - apply (peers_left (down r)) in Hp. lia.
  - apply copies_left in Hc as [Hc Ho]. rewrite (Ho (down r)). destruct k'; lia.
  - apply copies_left in Hc as [Hc Ho]. rewrite (Ho (up r)). destruct k'; lia.
  - rewrite Hb. cbn. lia.
  - rewrite Hb. cbn. lia.
  - rewrite Hh. cbn. lia.
  - rewrite Hh. change (copying_left (up r) (Close (client r))) with (copying_left (up r) (client r)). cbn. lia.
  - rewrite Hh. change (copying_left (down r) (Close (plugin r))) with (copying_left (down r) (plugin r)). cbn. lia.
Qed.

(** A run, by its own steps and the bytes the peers send in its course. *)
Inductive run : relay → nat → nat → relay → Prop :=
| run_nil r : run r 0 0 r
| run_own r r1 own sent r2 : step r Own r1 → run r1 own sent r2 → run r (S own) sent r2
| run_peer r n r1 own sent r2 : step r (Peer n) r1 → run r1 own sent r2 → run r own (n + sent) r2.

Lemma run_left r own sent r' : run r own sent r' → (left r' + own ≤ left r + 2 * sent)%nat.
Proof. induction 1 as [r|r r1 own sent r2 Hs _ IH|r n r1 own sent r2 Hs _ IH]; [lia|apply step_left in Hs; lia..]. Qed.

(** Everything is over: the handler and both goroutines, and both connections closed. *)
Definition settled (r : relay) : Prop :=
  handler r = Returned ∧ (∃ b, up r = Ended b) ∧ (∃ b, down r = Ended b) ∧
  shut (client r) = true ∧ shut (plugin r) = true.
(** A copy that only its peers can move on. *)
Definition waits (src dst : conn) (x : copying) : Prop :=
  (x = Reading ∧ unread src = [] ∧ eof src = false ∧ gone src = false ∧ shut src = false) ∨
  (∃ chunk, x = Writing chunk ∧ gone dst = false ∧ shut dst = false).
Definition relaying (r : relay) : Prop :=
  handler r = Receiving ∧ waits (client r) (plugin r) (up r) ∧ waits (plugin r) (client r) (down r).

Lemma copy_moves s d x :
  (∃ x' s' d', copies s d Own x x' s' d') ∨ waits s d x ∨ (∃ b, x = Reporting b) ∨ (∃ b, x = Ended b).
Proof.
  destruct x as [|chunk|b|b]; [| |by right; right; left; exists b|by right; right; right; exists b].
  - destruct (shut s) eqn:Es; [left; do 3 eexists; by apply reads_closed|].
    destruct (gone s) eqn:Eg; [left; do 3 eexists; by apply reads_broken|].
    destruct (unread s) as [|b bs] eqn:Eu; [|left; do 3 eexists; by apply (reads s d [b] bs)].
    destruct (eof s) eqn:Ee; [left; do 3 eexists; by apply reads_eof|]. right. left. by left.
  - destruct (shut d) eqn:Es; [left; do 3 eexists; apply (write_fails s d chunk chunk []); [by left|by rewrite app_nil_r]|].
    destruct (gone d) eqn:Eg; [left; do 3 eexists; apply (write_fails s d chunk chunk []); [by right|by rewrite app_nil_r]|].
    right. left. right. by exists chunk.
Qed.

Lemma relay_moves r : control_ok r → (∃ r', step r Own r') ∨ settled r ∨ relaying r.
Proof.
  intros (He & Hc & Hp).
  destruct (copy_moves (client r) (plugin r) (up r)) as [(x & c & p & Hs)|Hu];
    [left; eexists; by eapply copies_up|].
  destruct (copy_moves (plugin r) (client r) (down r)) as [(x & p & c & Hs)|Hd];
    [left; eexists; by eapply copies_down|].
  assert (∀ b, up r = Reporting b → ∃ r', step r Own r') as Hru.
  { intros b Hb. eexists. apply (reports_up _ b Hb). rewrite Hb in He. unfold errc_capacity.
    destruct (down r); cbn in He; lia. }
  assert (∀ b, down r = Reporting b → ∃ r', step r Own r') as Hrd.
  { intros b Hb. eexists. apply (reports_down _ b Hb). rewrite Hb in He. unfold errc_capacity.
    destruct (up r); cbn in He; lia. }
  destruct (handler r) eqn:Hh.
  - destruct (errc r) as [|n] eqn:Hn; [|left; eexists; by eapply receives].
    destruct Hu as [Hu|[[b Hb]|[b Hb]]]; [|by eauto|rewrite Hb in He; by cbn in He].
    destruct Hd as [Hd|[[b Hb]|[b Hb]]]; [|by eauto|rewrite Hb in He; cbn in He; lia].
    right. right. by split.
  - left. eexists. by apply closes_client.
  - left. eexists. by apply closes_plugin.
  - assert (shut (client r) = true ∧ shut (plugin r) = true) as [Hsc Hsp] by (split; [apply Hc; auto|by apply Hp]).
    assert (∀ s d x, shut s = true → shut d = true → ¬ waits s d x) as Hnw.
    { intros s d x H1 H2 [(_ & _ & _ & _ & ?)|(? & _ & _ & ?)]; congruence. }
    destruct Hu as [Hu|[[b Hb]|Hu]]; [by destruct (Hnw _ _ _ Hsc Hsp Hu)|by eauto|].
    destruct Hd as [Hd|[[b Hb]|Hd]]; [by destruct (Hnw _ _ _ Hsp Hsc Hd)|by eauto|].
    right. left. by split_and!.
Qed.

Lemma run_preserved (P : relay → Prop) r own sent r' :
  (∀ r k r', P r → step r k r' → P r') → P r → run r own sent r' → P r'.
Proof. intros HP Hr Hrun. induction Hrun; eauto. Qed.
Lemma start_ok h stream n : relay_ok h (take n stream) (start h stream n) ∧ control_ok (start h stream n).
Proof.
  split; [split_and!; [exists []; rewrite app_nil_r; split; [done|]; cbn; by rewrite app_nil_r, take_drop|by exists []|done..]|].
  split_and!; cbn; [done|..]; split; try done; naive_solver.
Qed.

(** C21: The bytes of each direction are passed on in order, none repeated or made up,
    and none lost but those the server had read ahead when the client's connection
    was handed over: the plugin is sent the handshake, and then a prefix of what the
    client sent after those [buffered] bytes, which it is never sent; the client, a
    prefix of what the plugin sent; where a direction has ended without an error,
    all of it. *)
Theorem relay_passes_in_order handshake stream buffered own sent r :
  run (start handshake stream buffered) own sent r →
  (∃ passed, written (plugin r) = app handshake passed ∧
     app (take buffered stream) passed `prefix_of` arrived (client r) ∧
     (up r = Ended true → app (take buffered stream) passed = arrived (client r) ∧ eof (client r) = true)) ∧
  (∃ passed, written (client r) = passed ∧ passed `prefix_of` arrived (plugin r) ∧
     (down r = Ended true → passed = arrived (plugin r) ∧ eof (plugin r) = true)).
Proof.
  intros Hrun. apply (run_preserved (relay_ok handshake (take buffered stream))) in Hrun
    as ((pu & Hwu & Hu) & (pd & Hwd & Hd) & He & He'); [|apply step_relay_ok|apply start_ok].
  assert (∀ c x p, in_order c x p →
    app (ahead c) p `prefix_of` arrived c ∧ (x = Ended true → app (ahead c) p = arrived c ∧ eof c = true)) as Hio.
  { intros c x p Hi. destruct x as [|chunk|[]|[]]; cbn in Hi; (split; [|try done]).
    1,2: rewrite Hi; by apply prefix_app_r.
    1,3: by destruct Hi as [-> _].
    1,3: done. by destruct Hi. }
  apply Hio in Hu, Hd. rewrite He in Hu. rewrite He' in Hd. split; [by exists pu|by exists pd].
Qed.

(** C20: No goroutine is left behind.  The relay takes at most nine steps of its own,
    and two for each byte it is to pass on, those already there and those its peers
    send; and whenever it can take none, either it is over, the handler and both
    goroutines done and both connections closed, or it is relaying: neither direction
    has ended, and each waits for a peer that is still there, to send or to take what
    it is being sent. *)
Theorem relay_never_leaks handshake stream buffered own sent r :
  run (start handshake stream buffered) own sent r →
  (own ≤ 9 + 2 * (length (drop buffered stream) + sent))%nat ∧ ((∃ r', step r Own r') ∨ settled r ∨ relaying r).
Proof.
  intros Hrun. split.
  - apply run_left in Hrun. unfold left, copying_left in Hrun. cbn [start hijack dialled client plugin up down handler
      unread handling_left length] in Hrun. lia.
  - apply relay_moves. apply (run_preserved control_ok) in Hrun; [done|apply step_control_ok|].
    by apply (start_ok handshake stream buffered).
Qed.

(** ** What modelling showed *)

(** What the client has sent along with its handshake never reaches the plugin: where all
    it sent was read ahead, the relay passes nothing on and still ends without an error. *)
Theorem early_bytes_are_lost handshake stream own sent r :
  run (start handshake stream (length stream)) own sent r → arrived (client r) = stream → up r = Ended true →
  written (plugin r) = handshake.
Proof.
  intros Hrun Ha Hu. apply (run_preserved (relay_ok handshake (take (length stream) stream))) in Hrun
    as ((pu & Hwu & Hin) & _ & He & _); [|apply step_relay_ok|apply start_ok]. rewrite Hu in Hin.
  destruct Hin as [Hin _]. rewrite He, Ha, take_ge in Hin by done.
  assert (pu = []) as ->; [|by rewrite Hwu, app_nil_r]. apply (app_inv_head stream). by rewrite app_nil_r.
Qed.

(** ** Witnesses *)

Lemma take_own r r1 r2 own sent r3 :
  step r Own r1 → r1 = r2 → run r2 own sent r3 → run r (S own) sent r3.
Proof. intros Hs <-. by apply run_own. Qed.
Lemma take_peer r n r1 r2 own sent r3 :
  step r (Peer n) r1 → r1 = r2 → run r2 own sent r3 → run r own (n + sent) r3.
Proof. intros Hs <-. by apply run_peer. Qed.
#[local] Ltac own tac := eapply take_own; [tac|cbn; reflexivity|].
#[local] Ltac peer n m tac := eapply (take_peer _ n _ _ _ m); [tac|cbn; reflexivity|].

(** One byte of the client's was read ahead; it sends another and is done, and all ends. *)
Definition demo_early : bytes := String.list_ascii_of_string "A".
Definition demo_sent : bytes := String.list_ascii_of_string "B".
Lemma demo_relay : ∃ r, run (start [] demo_early 1) 8 1 r ∧ arrived (client r) = app demo_early demo_sent ∧
  up r = Ended true ∧ handler r = Returned.
Proof.
  eexists. split; [|split_and!].
  { peer 1%nat 0%nat ltac:(eapply client_acts, (sends _ demo_sent); reflexivity).
    own ltac:(eapply copies_up, (reads _ _ demo_sent []); [reflexivity|reflexivity|done]).
    peer 0%nat 0%nat ltac:(eapply copies_up, writes; reflexivity).
    peer 0%nat 0%nat ltac:(eapply client_acts, finishes).
    own ltac:(eapply copies_up, reads_eof; reflexivity).
    own ltac:(eapply reports_up; [reflexivity|unfold errc_capacity; cbn; lia]).
    own ltac:(eapply receives; reflexivity). own ltac:(eapply closes_client; reflexivity).
    own ltac:(eapply closes_plugin; reflexivity).
    own ltac:(eapply copies_down, reads_closed; reflexivity).
    own ltac:(eapply reports_down; [reflexivity|unfold errc_capacity; cbn; lia]).
    apply run_nil. }
  all: done.
Qed.
Lemma relay_passes_in_order_witness : ∃ r, run (start [] demo_early 1) 8 1 r ∧ written (plugin r) = demo_sent.
Proof.
  destruct demo_relay as (r & Hr & Ha & Hu & _). exists r. split; [exact Hr|].
  destruct (relay_passes_in_order [] demo_early 1 8 1 r Hr) as [(pu & -> & _ & Hp) _]. destruct (Hp Hu) as [Hpa _].
  rewrite Ha in Hpa. exact (app_inv_head demo_early _ _ Hpa).
Defined.
Lemma relay_never_leaks_witness : ∃ r, run (start [] demo_early 1) 8 1 r ∧ handler r = Returned ∧ ((∃ r', step r Own r') ∨ settled r ∨ relaying r).
Proof.
  destruct demo_relay as (r & Hr & _ & _ & Hh). exists r. split; [exact Hr|]. split; [exact Hh|].
  exact (proj2 (relay_never_leaks [] demo_early 1 8 1 r Hr)).
Defined.

Lemma early_bytes_are_lost_witness : ∃ r, run (start [] demo_early 1) 2 0 r ∧ up r = Ended true ∧ written (plugin r) = [].
Proof.
  assert (∃ r, run (start [] demo_early 1) 2 0 r ∧ arrived (client r) = demo_early ∧ up r = Ended true) as (r & Hr & Ha & Hu).
  { eexists. split; [|split].
    { peer 0%nat 0%nat ltac:(eapply client_acts, finishes). own ltac:(eapply copies_up, reads_eof; reflexivity).
      own ltac:(eapply reports_up; [reflexivity|unfold errc_capacity; cbn; lia]). apply run_nil. }
    all: done. }
  exists r. split; [exact Hr|]. split; [exact Hu|]. exact (early_bytes_are_lost [] demo_early 2 0 r Hr Ha Hu).
Defined.
