(* ===== verification/RouteTable.v ===== *)
(** The route table of [internal/dispatcher/dispatcher.go] as Go lays it out: a slice
    over a backing array that [removeRoutes] compacts in place and [append] extends
    in place or moves, and the pointers into it that [match] hands to the
    requests in flight. *)

From S2P Require Import Prelude GoStrings Float64 Manifest Protection RateLimiter Config Auth Registry Dispatcher.

(** ** Slices *)

(** The arrays ever allocated, and a slice of one of them from its start: its
    capacity is the array's length. *)
Abbreviation heap := (list (list routeEntry)).
Record slice := { sl_arr : nat; sl_len : nat }.

Definition cells (h : heap) (s : slice) : list routeEntry := default [] (h !! sl_arr s).
Definition contents (h : heap) (s : slice) : list routeEntry := take (sl_len s) (cells h s).

Definition zero_entry : routeEntry := {|
  re_pluginID := ""; re_pluginName := ""; re_method := ""; re_pattern := ""; re_public := false;
  re_permission := "" |}.

(** A pointer to an element. *)
Record pointer := { pt_arr : nat; pt_index : nat }.
Definition deref (h : heap) (p : pointer) : option routeEntry :=
  cells ← h !! pt_arr p; cells !! pt_index p.

(** The nil slice: an array of no cells. *)
Definition nil_slice : heap * slice := ([[]], {| sl_arr := 0; sl_len := 0 |}).

Section slices.
(** The runtime's growth policy: a capacity for a slice that is full. *)
Context (grow : nat → nat).

(** [append(s, x)]: in place while the array has room, else in a new array. *)
Definition append (hs : heap * slice) (x : routeEntry) : heap * slice :=
  let '(h, s) := hs in
  let n := sl_len s in
  if (n <? length (cells h s))%nat
  then (<[sl_arr s := <[n := x]> (cells h s)]> h, {| sl_arr := sl_arr s; sl_len := S n |})
  else (app h [app (contents h s) (x :: replicate (grow n - S n) zero_entry)],
        {| sl_arr := length h; sl_len := S n |}).

(** One round of the loop of [removeRoutes], which reads the old slice and appends
    to [d.routes[:0]]. *)
Definition remove_step (pluginID : string) (s : slice) (hf : heap * slice) (i : nat) : heap * slice :=
  match cells hf.1 s !! i with
  | Some r => if decide (re_pluginID r ≠ pluginID) then append hf r else hf
  | None => hf
  end.
Definition removeRoutes (pluginID : string) (hs : heap * slice) : heap * slice :=
  let '(h, s) := hs in
  foldl (remove_step pluginID s) (h, {| sl_arr := sl_arr s; sl_len := 0 |}) (seq 0 (sl_len s)).

(** The loop of [AddRoutes]. *)
Definition AddRoutes (pluginID pluginName : string) (rs : list Route) (hs : heap * slice) :
    heap * slice :=
  foldl append (removeRoutes pluginID hs) (route_entry pluginID pluginName <$> rs).

(** [match]: the address of the entry it finds. *)
Fixpoint find_index (f : routeEntry → bool) (l : list routeEntry) : option nat :=
  match l with
  | [] => None
  | r :: l' => if f r then Some 0%nat else S <$> find_index f l'
  end.
Definition match_ (method path : string) (hs : heap * slice) : option pointer :=
  let '(h, s) := hs in
  let at_ i := {| pt_arr := sl_arr s; pt_index := i |} in
  match find_index (exact method path) (contents h s) with
  | Some i => Some (at_ i)
  | None => at_ <$> find_index (loose method path) (contents h s)
  end.

(** ** The slice holds the table *)

(** A slice lies within its array. *)
Definition slice_ok (hs : heap * slice) : Prop :=
  let '(h, s) := hs in (sl_arr s < length h)%nat ∧ (sl_len s ≤ length (cells h s))%nat.

Lemma cells_lookup h s : (sl_arr s < length h)%nat → h !! sl_arr s = Some (cells h s).
Proof. intros [c Hc]%lookup_lt_is_Some. unfold cells. by rewrite Hc. Qed.

Lemma append_spec hs x :
  slice_ok hs → slice_ok (append hs x) ∧
  contents (append hs x).1 (append hs x).2 = app (contents hs.1 hs.2) [x].
Proof.
  destruct hs as [h s]. intros [Ha Hl]. unfold append. cbn [fst snd].
  destruct (Nat.ltb_spec (sl_len s) (length (cells h s))) as [Hlt|Hge]; cbn [fst snd].
  - assert (cells (<[sl_arr s:=<[sl_len s:=x]> (cells h s)]> h)
              {| sl_arr := sl_arr s; sl_len := S (sl_len s) |} = <[sl_len s:=x]> (cells h s)) as Hc.
    { unfold cells at 1. cbn [sl_arr]. by rewrite list_lookup_insert_eq. }
    split; [split; [by rewrite length_insert|rewrite Hc, length_insert; cbn; lia]|].
    unfold contents. rewrite Hc. cbn [sl_len].
    rewrite (take_S_r _ _ x) by (by rewrite list_lookup_insert_eq). by rewrite take_insert_ge.
  - set (c := app (contents h s) _).
    assert (cells (app h [c]) {| sl_arr := length h; sl_len := S (sl_len s) |} = c) as Hc.
    { unfold cells. cbn [sl_arr]. by rewrite lookup_app_r, Nat.sub_diag. }
    assert (length (contents h s) = sl_len s) as Hn by (unfold contents; rewrite length_take; lia).
    split; [split; cbn [sl_arr sl_len]|].
    + rewrite length_app. simpl. lia.
    + rewrite Hc. unfold c. rewrite length_app. simpl. lia.
    + unfold contents at 1. rewrite Hc. cbn [sl_len]. unfold c.
      rewrite take_app. replace (S (sl_len s) - length (contents h s))%nat with 1%nat by lia.
      rewrite take_ge by lia. done.
Qed.

Lemma appends_spec xs hs :
  slice_ok hs → slice_ok (foldl append hs xs) ∧
  contents (foldl append hs xs).1 (foldl append hs xs).2 = app (contents hs.1 hs.2) xs.
Proof.
  revert hs. induction xs as [|x xs IH]; intros hs Hok; cbn [foldl]; [by rewrite app_nil_r|].
  destruct (append_spec hs x Hok) as [Hok' Hc]. destruct (IH _ Hok') as [Hok'' ->].
  split; [done|]. by rewrite Hc, <- app_assoc.
Qed.
(** *** The compaction in place

    After [k] rounds the array holds what was kept of the first [k] entries and,
    from there on, what it held before. *)

Definition kept (pluginID : string) (l : list routeEntry) : list routeEntry :=
  filter (λ r, re_pluginID r ≠ pluginID) l.
Definition compacted (h : heap) (s : slice) (front : list routeEntry) : heap * slice :=
  (<[sl_arr s := app front (drop (length front) (cells h s))]> h,
   {| sl_arr := sl_arr s; sl_len := length front |}).

Lemma kept_short pluginID l : (length (kept pluginID l) ≤ length l)%nat.
Proof. apply length_filter. Qed.

Lemma compacted_cells h s front s' :
  (sl_arr s < length h)%nat → sl_arr s' = sl_arr s →
  cells (compacted h s front).1 s' = app front (drop (length front) (cells h s)).
Proof. intros Ha Hs. unfold cells at 1. cbn. by rewrite Hs, list_lookup_insert_eq. Qed.

Lemma append_compacted h s front x :
  (sl_arr s < length h)%nat → (length front < length (cells h s))%nat →
  append (compacted h s front) x = compacted h s (app front [x]).
Proof.
  intros Ha Hl. pose proof (compacted_cells h s front) as Hc. unfold compacted, append in *. cbn [fst sl_len sl_arr] in *.
  rewrite Hc by done. rewrite length_app, length_drop.
  destruct (Nat.ltb_spec (length front) (length front + (length (cells h s) - length front))); [|lia].
  rewrite list_insert_insert_eq, insert_app_r_alt, Nat.sub_diag by lia.
  destruct (lookup_lt_is_Some_2 _ _ Hl) as [y Hy]. rewrite (drop_S _ _ _ Hy). cbn [insert list_insert].
  rewrite length_app. cbn [length]. rewrite <- app_assoc. cbn [app].
  by replace (length front + 1)%nat with (S (length front)) by lia.
Qed.

Lemma removeRoutes_run pluginID h s :
  slice_ok (h, s) →
  removeRoutes pluginID (h, s) = compacted h s (kept pluginID (contents h s)).
Proof.
  intros [Ha Hl]. unfold removeRoutes.
  assert (∀ k, (k ≤ sl_len s)%nat →
    foldl (remove_step pluginID s) (h, {| sl_arr := sl_arr s; sl_len := 0 |}) (seq 0 k) =
    compacted h s (kept pluginID (take k (cells h s)))) as Hk; [|by apply Hk].
  induction k as [|k IH]; intros Hle.
  - cbn. unfold compacted. cbn. rewrite drop_0, list_insert_id; [done|by apply cells_lookup].
  - rewrite seq_S, foldl_snoc, IH by lia. cbn [Nat.add]. unfold remove_step.
    set (front := kept pluginID (take k (cells h s))).
    assert (length front ≤ k)%nat as Hf.
    { etransitivity; [apply kept_short|]. rewrite length_take. lia. }
    destruct (lookup_lt_is_Some_2 (cells h s) k) as [r Hr]; [lia|].
    rewrite compacted_cells, lookup_app_r, lookup_drop by done.
    replace (length front + (k - length front))%nat with k by lia. rewrite Hr.
    rewrite (take_S_r _ _ _ Hr). unfold kept. rewrite filter_app. fold (kept pluginID (take k (cells h s))) front.
    case_decide.
    + rewrite append_compacted by (done || lia). by rewrite filter_cons_True.
    + rewrite filter_cons_False by tauto. by rewrite app_nil_r.
Qed.

Lemma removeRoutes_spec pluginID hs :
  slice_ok hs → slice_ok (removeRoutes pluginID hs) ∧
  contents (removeRoutes pluginID hs).1 (removeRoutes pluginID hs).2 =
    kept pluginID (contents hs.1 hs.2).
Proof.
  destruct hs as [h s]. intros Hok. rewrite removeRoutes_run by done. destruct Hok as [Ha Hl].
  pose proof (kept_short pluginID (contents h s)) as Hk. set (front := kept _ _) in *.
  assert (length front ≤ length (cells h s))%nat as Hf.
  { etransitivity; [exact Hk|]. unfold contents. rewrite length_take. lia. }
  split; [split|].
  - cbn. by rewrite length_insert.
  - change (length front ≤ length (cells (compacted h s front).1 (compacted h s front).2))%nat.
    rewrite compacted_cells, length_app, length_drop by done. lia.
  - unfold contents at 1. rewrite compacted_cells by done. cbn [compacted snd sl_len].
    by rewrite take_app_length.
Qed.

(** *** Looking up *)

Lemma find_index_find f l : find_index f l ≫= (λ i, l !! i) = List.find f l.
Proof. induction l as [|r l IH]; [done|]. cbn. destruct (f r); [done|]. rewrite <- IH. by destruct (find_index f l). Qed.
Lemma find_index_lt f l i : find_index f l = Some i → (i < length l)%nat.
Proof.
  revert i. induction l as [|r l IH]; intros i; cbn; [done|]. destruct (f r); [intros [= <-]; lia|].
  destruct (find_index f l) as [j|]; [|done]. intros [= <-]. specialize (IH j eq_refl). lia.
Qed.
Lemma find_index_None f l : find_index f l = None → List.find f l = None.
Proof. intros Hn. by rewrite <- find_index_find, Hn. Qed.

Lemma deref_contents h s i :
  slice_ok (h, s) → (i < sl_len s)%nat → deref h {| pt_arr := sl_arr s; pt_index := i |} = contents h s !! i.
Proof.
  intros [Ha _] Hi. unfold deref. cbn. rewrite cells_lookup by done. cbn. unfold contents.
  by rewrite lookup_take_lt.
Qed.

Lemma match_deref method path h s d :
  slice_ok (h, s) → contents h s = routes d →
  match_ method path (h, s) ≫= deref h = Dispatcher.match_ d method path.
Proof.
  intros Hok Hc. unfold match_, Dispatcher.match_. rewrite <- Hc.
  assert (∀ f i, find_index f (contents h s) = Some i →
    deref h {| pt_arr := sl_arr s; pt_index := i |} = List.find f (contents h s)) as Hd.
  { intros f i Hi. rewrite <- find_index_find, Hi. cbn. apply deref_contents; [done|].
    apply find_index_lt in Hi. unfold contents in Hi. rewrite length_take in Hi. lia. }
  destruct (find_index (exact method path) (contents h s)) as [i|] eqn:Ei.
  - cbn. rewrite (Hd _ _ Ei). rewrite <- find_index_find, Ei. cbn.
    destruct (lookup_lt_is_Some_2 _ _ (find_index_lt _ _ _ Ei)) as [r Hr]. by rewrite Hr.
  - rewrite (find_index_None _ _ Ei). destruct (find_index (loose method path) (contents h s)) as [j|] eqn:Ej.
    + cbn. exact (Hd _ _ Ej).
    + cbn. by rewrite (find_index_None _ _ Ej).
Qed.
Lemma match_deref_Some method path h s p :
  slice_ok (h, s) → match_ method path (h, s) = Some p → is_Some (deref h p).
Proof.
  intros Hok. unfold match_.
  assert (∀ f i, find_index f (contents h s) = Some i → is_Some (deref h {| pt_arr := sl_arr s; pt_index := i |})) as Hd.
  { intros f i Hi%find_index_lt. pose proof Hi as Hlt. unfold contents in Hlt. rewrite length_take in Hlt.
    rewrite deref_contents by (done || lia). by apply lookup_lt_is_Some_2. }
  destruct (find_index (exact method path) _) as [i|] eqn:Ei; [intros [= <-]; eauto|].
  destruct (find_index (loose method path) _) as [i|] eqn:Ej; [|done]. intros [= <-]. eauto.
Qed.
(** *** Every sequence of changes *)

Inductive change :=
| Adds (pluginID pluginName pluginType : string) (rs : list Route)
| Removes (pluginID : string).
Definition changed (c : change) : string := match c with Adds id _ _ _ | Removes id => id end.
Definition on_slice (hs : heap * slice) (c : change) : heap * slice :=
  match c with
  | Adds id name _ rs => AddRoutes id name rs hs
  | Removes id => removeRoutes id hs
  end.
Definition on_table (d : Dispatcher) (c : change) : Dispatcher :=
  match c with
  | Adds id name ty rs => Dispatcher.AddRoutes id name ty rs d
  | Removes id => Dispatcher.RemoveRoutes id d
  end.

Definition represents (hs : heap * slice) (d : Dispatcher) : Prop :=
  slice_ok hs ∧ contents hs.1 hs.2 = routes d.

Lemma change_represents hs d c : represents hs d → represents (on_slice hs c) (on_table d c).
Proof.
  intros [Hok Hc]. destruct c as [id name ty rs|id]; cbn [on_slice on_table].
  - destruct (removeRoutes_spec id hs Hok) as [Hok1 Hc1].
    destruct (appends_spec (route_entry id name <$> rs) _ Hok1) as [Hok2 Hc2].
    split; [exact Hok2|]. unfold AddRoutes. rewrite Hc2, Hc1, Hc.
    by destruct (AddRoutes_fields id name ty rs d) as (_ & _ & _ & _ & -> & _).
  - destruct (removeRoutes_spec id hs Hok) as [Hok1 Hc1]. split; [exact Hok1|].
    rewrite Hc1, Hc. done.
Qed.

Lemma changes_represents cs hs d :
  represents hs d → represents (foldl on_slice hs cs) (foldl on_table d cs).
Proof. revert hs d. induction cs as [|c cs IH]; intros hs d Hr; [done|]. cbn [foldl]. by apply IH, change_represents. Qed.

(** C19: The table Go keeps is the table the dispatcher is specified with: however
    plugins come and go, and however the runtime grows the array, compacting it
    in place loses no route, keeps no removed one and never reads past it, and
    [match] finds through its pointer exactly the route the list has. *)
Theorem route_table_refines cs d :
  routes d = [] →
  let hs := foldl on_slice nil_slice cs in
  let d' := foldl on_table d cs in
  slice_ok hs ∧ contents hs.1 hs.2 = routes d' ∧
  ∀ method path, match_ method path hs ≫= deref hs.1 = Dispatcher.match_ d' method path.
Proof.
  intros Hd. assert (represents (foldl on_slice nil_slice cs) (foldl on_table d cs)) as [Hok Hc].
  { apply changes_represents. split; [split; simpl; lia|by rewrite Hd]. }
  destruct (foldl on_slice nil_slice cs) as [h s]. split_and!; [done..|].
  intros method path. by apply match_deref.
Qed.
(** ** Pointers of the requests in flight *)

(** What a pointer reads once a plugin's routes are removed: the entry that moved
    into its cell, or what the cell held before. *)
Lemma deref_removed pluginID h s i :
  slice_ok (h, s) →
  deref (removeRoutes pluginID (h, s)).1 {| pt_arr := sl_arr s; pt_index := i |} =
  match kept pluginID (contents h s) !! i with Some r => Some r | None => cells h s !! i end.
Proof.
  intros Hok. rewrite removeRoutes_run by done. destruct Hok as [Ha _].
  unfold deref. cbn. rewrite list_lookup_insert_eq by done. cbn.
  set (front := kept _ _). destruct (front !! i) as [r|] eqn:E; [by apply lookup_app_l_Some|].
  apply lookup_ge_None_1 in E. rewrite lookup_app_r, lookup_drop by done. f_equal. lia.
Qed.
Lemma deref_other_array pluginID h s p :
  slice_ok (h, s) → pt_arr p ≠ sl_arr s → deref (removeRoutes pluginID (h, s)).1 p = deref h p.
Proof.
  intros Hok Hne. rewrite removeRoutes_run by done. unfold deref. cbn. by rewrite list_lookup_insert_ne.
Qed.

(** A pointer to an entry such that it, and those before it, stay where they are. *)
Definition anchored (pre : list routeEntry) (p : pointer) (r : routeEntry) (hs : heap * slice) : Prop :=
  slice_ok hs ∧ deref hs.1 p = Some r ∧
  (pt_arr p = sl_arr hs.2 → take (S (pt_index p)) (contents hs.1 hs.2) = pre).

Lemma anchored_append pre p r hs x :
  length pre = S (pt_index p) → anchored pre p r hs → anchored pre p r (append hs x).
Proof.
  intros Hlen (Hok & Hd & Hpre). destruct (append_spec hs x Hok) as [Hok' Hc]. split; [done|].
  destruct hs as [h s]. cbn [fst snd] in *. destruct Hok as [Ha Hl].
  assert (pt_arr p = sl_arr s → (pt_index p < sl_len s)%nat) as Hin.
  { intros He. specialize (Hpre He). apply (f_equal length) in Hpre. rewrite Hlen in Hpre.
    unfold contents in Hpre. rewrite !length_take in Hpre. lia. }
  unfold append in *. destruct (Nat.ltb_spec (sl_len s) (length (cells h s))) as [Hlt|Hge];
    cbn [fst snd sl_arr] in *.
  - split.
    + revert Hd. unfold deref. destruct (decide (sl_arr s = pt_arr p)) as [He|Hne].
      * rewrite <- He, list_lookup_insert_eq, cells_lookup by done. cbn.
        specialize (Hin (eq_sym He)). by rewrite list_lookup_insert_ne by lia.
      * by rewrite list_lookup_insert_ne.
    + intros He. specialize (Hpre He). specialize (Hin He). rewrite Hc, take_app_le; [done|].
      unfold contents. rewrite length_take. lia.
  - assert (pt_arr p < length h)%nat as Hlt.
    { revert Hd. unfold deref. destruct (h !! pt_arr p) eqn:E; [|done]. intros _. by eapply lookup_lt_Some. }
    split; [|lia]. unfold deref. by rewrite lookup_app_l.
Qed.

Lemma kept_prefix pluginID pre l :
  Forall (λ r, re_pluginID r ≠ pluginID) pre → kept pluginID (app pre l) = app pre (kept pluginID l).
Proof.
  intros Hpre. unfold kept. rewrite filter_app. f_equal. apply filter_all.
  by apply Forall_forall.
Qed.

Lemma anchored_remove pre p r pluginID hs :
  length pre = S (pt_index p) → Forall (λ r, re_pluginID r ≠ pluginID) pre →
  anchored pre p r hs → anchored pre p r (removeRoutes pluginID hs).
Proof.
  intros Hlen Hid (Hok & Hd & Hpre). destruct (removeRoutes_spec pluginID hs Hok) as [Hok' Hc].
  split; [done|]. destruct hs as [h s]. cbn [fst snd] in *.
  destruct (decide (pt_arr p = sl_arr s)) as [He|Hne].
  2: { split; [by rewrite deref_other_array|]. rewrite removeRoutes_run by done. cbn. intros ?; done. }
  specialize (Hpre He). assert (contents h s = app pre (drop (S (pt_index p)) (contents h s))) as Hsplit
    by (rewrite <- Hpre at 1; by rewrite take_drop).
  split.
  - destruct p as [a i]. cbn [pt_arr pt_index] in *. subst a. rewrite deref_removed by done.
    rewrite Hsplit, kept_prefix by done.
    assert ((i < sl_len s)%nat ∧ is_Some (pre !! i)) as [Hi [r' Hr']].
    { split; [|apply lookup_lt_is_Some_2; lia]. apply (f_equal length) in Hpre.
      rewrite Hlen in Hpre. unfold contents in Hpre. rewrite !length_take in Hpre. lia. }
    rewrite (lookup_app_l_Some _ _ _ _ Hr'). rewrite <- Hd, deref_contents by done.
    rewrite Hsplit. symmetry. by apply lookup_app_l_Some.
  - intros _. rewrite Hc, Hsplit, kept_prefix, <- Hlen by done. by rewrite take_app_length.
Qed.

Lemma anchored_change pre p r c hs :
  length pre = S (pt_index p) → Forall (λ r, re_pluginID r ≠ changed c) pre →
  anchored pre p r hs → anchored pre p r (on_slice hs c).
Proof.
  intros Hlen Hid Hs. destruct c as [id name ty rs|id]; cbn [on_slice changed] in *.
  - unfold AddRoutes. pose proof (anchored_remove pre p r id hs Hlen Hid Hs) as Hs'. revert Hs'.
    generalize (removeRoutes id hs), (route_entry id name <$> rs). intros hs' xs. revert hs'.
    induction xs as [|x xs IH]; intros hs' Hs'; [done|]. cbn [foldl]. by apply IH, anchored_append.
  - by apply anchored_remove.
Qed.

(** The part of [Dispatch] between the match and the plugin's entry, which reads the
    matched route through the pointer, without the table's lock: the permission
    at one time, the plugin's id at a later one. *)
Definition admitted_plugin (id : option Identity) (h_authz h_get : heap) (p : pointer) : option string :=
  e ← deref h_authz p;
  if negb (re_public e) && negb (String.eqb (re_permission e) "") && negb (authorized id e) then None
  else re_pluginID <$> deref h_get p.

(** A request keeps the route it was matched to, through the pointer it holds,
    for as long as the plugins that come and go have no route at or before it in
    the table: appending never overwrites it, whether in place or in a new
    array, and compacting moves nothing in front of it. *)
Theorem matched_route_is_stable hs method path p r cs :
  slice_ok hs → match_ method path hs = Some p → deref hs.1 p = Some r →
  (∀ c r', c ∈ cs → r' ∈ take (S (pt_index p)) (contents hs.1 hs.2) → re_pluginID r' ≠ changed c) →
  deref (foldl on_slice hs cs).1 p = Some r.
Proof.
  intros Hok Hm Hd Hcs. set (pre := take (S (pt_index p)) (contents hs.1 hs.2)).
  assert (length pre = S (pt_index p)) as Hlen.
  { unfold pre. destruct hs as [h s]. cbn [fst snd] in *. rewrite length_take.
    enough (pt_index p < length (contents h s))%nat by lia. revert Hm. unfold match_.
    destruct (find_index (exact method path) _) as [i|] eqn:Ei.
    - intros [= <-]. by apply find_index_lt in Ei.
    - destruct (find_index (loose method path) _) as [i|] eqn:Ej; [|done].
      intros [= <-]. by apply find_index_lt in Ej. }
  assert (anchored pre p r hs) as Hs by (by split_and!).
  clear Hok Hm Hd. assert (∀ c, c ∈ cs → Forall (λ r', re_pluginID r' ≠ changed c) pre) as Hc.
  { intros c Hin. apply Forall_forall. intros r' Hr'. by apply (Hcs c r' Hin). }
  clear Hcs. clearbody pre. revert hs Hs. induction cs as [|c cs IH]; intros hs Hs; [apply Hs|].
  cbn [foldl]. apply IH; [intros c' Hc'; apply Hc; by right|].
  apply anchored_change; [done| |done]. apply Hc. left.
Qed.
End slices.

(** ** Three plugins, for the witnesses *)

(** Go doubles small slices. *)
Definition doubling (n : nat) : nat := if Nat.eqb n 0 then 1 else 2 * n.
Definition demo_change (id name method path perm : string) (public : bool) : change :=
  Adds id name "internal" [{| Method := method; Path := path; Public := public; Permission := perm;
                              Summary := ""; Tags := [] |}].
Definition demo_changes : list change :=
  [demo_change "a-1" "a" "GET" "/a/ping" "" true; demo_change "b-1" "b" "GET" "/b/open" "" true;
   demo_change "c-1" "c" "GET" "/c/secret" "c:read" false].
Definition demo_table : heap * slice := foldl (on_slice doubling) nil_slice demo_changes.
Definition demo_pointer : pointer := {| pt_arr := sl_arr demo_table.2; pt_index := 1 |}.
Definition demo_b : routeEntry := {|
  re_pluginID := "b-1"; re_pluginName := "b"; re_method := "GET"; re_pattern := "/b/open";
  re_public := true; re_permission := "" |}.
Definition demo_c : routeEntry := {|
  re_pluginID := "c-1"; re_pluginName := "c"; re_method := "GET"; re_pattern := "/c/secret";
  re_public := false; re_permission := "c:read" |}.

Lemma demo_ok : slice_ok demo_table.
Proof. split; cbv; lia. Qed.
Lemma demo_matched : match_ "GET" "/b/open" demo_table = Some demo_pointer.
Proof. vm_compute. reflexivity. Qed.
Lemma demo_read : deref demo_table.1 demo_pointer = Some demo_b.
Proof. vm_compute. reflexivity. Qed.

Lemma demo_first_two r :
  r ∈ take 2 (contents demo_table.1 demo_table.2) → re_pluginID r = "a-1" ∨ re_pluginID r = "b-1".
Proof.
  change (take 2 (contents demo_table.1 demo_table.2)) with
    [route_entry "a-1" "a" {| Method := "GET"; Path := "/a/ping"; Public := true; Permission := "";
                              Summary := ""; Tags := [] |}; demo_b].
  rewrite !elem_of_cons, elem_of_nil. intros [->|[->|[]]]; auto.
Qed.

Lemma route_table_refines_witness :
  contents demo_table.1 demo_table.2 =
  routes (foldl on_table (Dispatcher.New Registry.New (CircuitBreaker.New 5 Second) (Bulkhead.New 1) Defaults)
            demo_changes).
Proof.
  exact (proj1 (proj2 (route_table_refines doubling demo_changes
    (Dispatcher.New Registry.New (CircuitBreaker.New 5 Second) (Bulkhead.New 1) Defaults) eq_refl))).
Defined.

Lemma matched_route_is_stable_witness :
  deref (foldl (on_slice doubling) demo_table [Removes "c-1"; demo_change "d-1" "d" "GET" "/d" "" true]).1
    demo_pointer = Some demo_b.
Proof.
  apply (matched_route_is_stable doubling demo_table "GET" "/b/open" demo_pointer demo_b
    [Removes "c-1"; demo_change "d-1" "d" "GET" "/d" "" true] demo_ok demo_matched demo_read).
  intros c r' Hc Hr'. assert (r' ∈ take 2 (contents demo_table.1 demo_table.2)) as Hr by exact Hr'.
  apply demo_first_two in Hr. repeat (apply elem_of_cons in Hc as [->|Hc]); [..|by apply not_elem_of_nil in Hc];
    destruct Hr as [-> | ->]; done.
Defined.

(** A request in flight can be carried over to another plugin: [match] returns a
    pointer into the table and releases the lock, and removing a plugin that
    registered earlier moves every later route one cell down.  A request matched
    to plugin b's public route, and let in by it without any identity, is then
    proxied to plugin c, whose route asks for a permission, though b's own route
    never left the table. *)
Theorem removal_redirects_requests_in_flight :
  let after := removeRoutes doubling "a-1" demo_table in
  match_ "GET" "/b/open" demo_table = Some demo_pointer ∧
  deref demo_table.1 demo_pointer = Some demo_b ∧ deref after.1 demo_pointer = Some demo_c ∧
  admitted_plugin None demo_table.1 after.1 demo_pointer = Some "c-1" ∧
  admitted_plugin None after.1 after.1 demo_pointer = None ∧
  match_ "GET" "/b/open" after ≫= deref after.1 = Some demo_b.
Proof.
  intros after. split_and!.
  all: vm_compute; reflexivity.
Qed.
