(* ===== verification/PluginToken.v ===== *)
(** [internal/controlplane/plugintoken.go]: the HMAC-signed credentials given to
    plugins on registration and to the dashboard on login. *)

From S2P Require Import Prelude GoStrings Crypto.

Inductive error := MalformedToken | InvalidSignature | TokenExpired.

Record tokenSigner := { secret : string; ttl : Z }.
Definition newTokenSigner (secret : string) (ttl : Z) : tokenSigner :=
  {| secret := secret; ttl := ttl |}.

Definition sign (s : tokenSigner) (payload : string) : string :=
  RawURLEncode (Hmac256 (secret s) payload).

Definition issue (now : Z) (s : tokenSigner) (pluginID : string) : string :=
  let exp := Unix (now + ttl s) in
  let payload := pluginID ++ "." ++ FormatInt exp in
  let sig := sign s payload in
  let raw := payload ++ "." ++ sig in
  RawURLEncode raw.

Definition verify (now : Z) (s : tokenSigner) (token : string) : string + error :=
  match RawURLDecode token with
  | None => inr MalformedToken
  | Some raw =>
      match Split raw "." with
      | [pluginID; expStr; sig] =>
          if negb (String.eqb sig (sign s (pluginID ++ "." ++ expStr))) then inr InvalidSignature
          else
            match ParseInt expStr with
            | None => inr TokenExpired
            | Some exp => if exp <? Unix now then inr TokenExpired else inl pluginID
            end
      | _ => inr MalformedToken
      end
  end.

(** The text of a token: an id, an expiry and the signature of both. *)
Definition token_text (s : tokenSigner) (id expStr : string) : string :=
  id ++ "." ++ expStr ++ "." ++ sign s (id ++ "." ++ expStr).

Lemma sign_no_dot s payload : has_byte "." (sign s payload) = false.
Proof. apply RawURLEncode_no_dot. Qed.

Lemma Split_token_text s id expStr :
  has_byte "." id = false → has_byte "." expStr = false →
  Split (token_text s id expStr) "." = [id; expStr; sign s (id ++ "." ++ expStr)].
Proof.
  intros Hid Hexp.
  change (token_text s id expStr) with
    (id ++ String.String "." (expStr ++ String.String "." (sign s (id ++ "." ++ expStr)))).
  rewrite Split_app by done. rewrite Split_app by done. by rewrite Split_no_sep by apply sign_no_dot.
Qed.

Lemma issue_text now s id :
  issue now s id = RawURLEncode (token_text s id (FormatInt (Unix (now + ttl s)))).
Proof. unfold issue, token_text. by rewrite !append_assoc. Qed.

(** A well-signed token is judged by its expiry alone. *)
Lemma verify_text now s token id expStr :
  RawURLDecode token = Some (token_text s id expStr) →
  has_byte "." id = false → has_byte "." expStr = false →
  verify now s token =
    match ParseInt expStr with
    | Some exp => if exp <? Unix now then inr TokenExpired else inl id
    | None => inr TokenExpired
    end.
Proof.
  intros Htok Hid Hexp. unfold verify. rewrite Htok, Split_token_text by done.
  by rewrite String.eqb_refl.
Qed.

Lemma verify_inl s now token id :
  verify now s token = inl id →
  ∃ expStr exp, RawURLDecode token = Some (token_text s id expStr) ∧
    has_byte "." id = false ∧ has_byte "." expStr = false ∧
    ParseInt expStr = Some exp ∧ Unix now ≤ exp.
Proof.
  unfold verify. destruct (RawURLDecode token) as [raw|] eqn:Hraw; [|done].
  destruct (Split raw ".") as [|id' [|expStr [|sig []]]] eqn:Hs; try done.
  destruct (String.eqb_spec sig (sign s (id' ++ "." ++ expStr))) as [->|]; [simpl|done].
  destruct (ParseInt expStr) as [exp|] eqn:Hp; [|done].
  destruct (Z.ltb_spec exp (Unix now)); [done|]. intros [= ->].
  exists expStr, exp. split_and!; try done.
  - f_equal. unfold token_text.
    replace raw with (Join (Split raw ".") ".") by (apply Join_Split). by rewrite Hs.
  - apply (Split_fields raw). rewrite Hs. left.
  - apply (Split_fields raw). rewrite Hs. right. left.
Qed.

Lemma verify_issued now now' s id :
  has_byte "." id = false → in_int64 (Unix (now + ttl s)) →
  verify now' s (issue now s id) =
    if Unix (now + ttl s) <? Unix now' then inr TokenExpired else inl id.
Proof.
  intros Hid Hexp. rewrite (verify_text _ _ _ id (FormatInt (Unix (now + ttl s))));
    [by rewrite ParseInt_FormatInt|by rewrite issue_text, RawURLDecode_Encode|done|].
  apply FormatInt_no_dot.
Qed.

(** C30: Tokens round-trip: one a signer issued verifies, as the id it was issued for,
    up to and including the second it expires in, and never after; no signer
    with the same key and another lifetime reads it differently. *)
Theorem verify_issue s id now now' ttl' :
  has_byte "." id = false → in_int64 (Unix (now + ttl s)) →
  verify now' {| secret := secret s; ttl := ttl' |} (issue now s id) =
    if Unix now' <=? Unix (now + ttl s) then inl id else inr TokenExpired.
Proof.
  intros Hid Hexp. change (verify now' s (issue now s id) = if Unix now' <=? Unix (now + ttl s) then inl id else inr TokenExpired).
  rewrite verify_issued, Z.leb_antisym by done. by destruct (_ <? _).
Qed.

Lemma verify_issue_witness :
  verify (100 * Second) (newTokenSigner "k" (24 * Hour)) (issue 0 (newTokenSigner "k" (24 * Hour)) "pos-1a2b3c4d")
  = inl "pos-1a2b3c4d".
Proof.
  apply (verify_issue (newTokenSigner "k" (24 * Hour)) "pos-1a2b3c4d" 0 (100 * Second) (24 * Hour)); [done|].
  by vm_compute.
Defined.

(** C24: Verification is sound: a token is accepted as [id] exactly when its text is
    that id, an expiry that has not passed, and the signer's own signature of
    the two, and the id then holds no dot. *)
Theorem verify_iff s now token id :
  verify now s token = inl id ↔
  ∃ expStr exp, RawURLDecode token = Some (token_text s id expStr) ∧
    has_byte "." id = false ∧ has_byte "." expStr = false ∧
    ParseInt expStr = Some exp ∧ Unix now ≤ exp.
Proof.
  split; [apply verify_inl|]. intros (expStr & exp & Htok & Hid & Hexp & Hp & Hnow).
  rewrite (verify_text _ _ _ id expStr), Hp by done. by destruct (Z.ltb_spec exp (Unix now)); [lia|].
Qed.

(** An id with a dot in it can never be presented: the token issued for it splits
    into too many parts, so every verification of every token rejects it. *)
Lemma dotted_ids_never_verify s now token id :
  has_byte "." id = true → verify now s token ≠ inl id.
Proof. intros Hid Hv. apply verify_inl in Hv as (? & ? & _ & Hno & _). congruence. Qed.
