(* ===== verification/Openapi.v ===== *)
(** [internal/openapi/injector.go]: plugins' OpenAPI documents, and the one
    document they are merged into. *)

From S2P Require Import Prelude GoStrings Manifest.

(** Decoded JSON, [interface{}]: an object is a Go map. *)
Set Warnings "-register-all".
Inductive value :=
| VNull | VBool (b : bool) | VNum (literal : string) | VStr (s : string)
| VArr (l : list value) | VObj (m : gmap string value).

(** [v, _ := x.(map[string]interface{})] and [x.([]interface{})] *)
Definition as_map (v : option value) : option (gmap string value) :=
  match v with Some (VObj m) => Some m | _ => None end.
Definition as_list (v : option value) : option (list value) :=
  match v with Some (VArr l) => Some l | _ => None end.

(** Raw documents by plugin name. *)
Record Injector := { specs : gmap string string }.
Definition NewInjector : Injector := {| specs := ∅ |}.

Definition AddRoutes (pluginName : string) (rs : list Route) (openapiSpec : string)
    (inj : Injector) : Injector :=
  if String.eqb openapiSpec "" then inj
  else {| specs := <[pluginName := openapiSpec]> (specs inj) |}.

Definition RemoveRoutes (pluginName : string) (inj : Injector) : Injector :=
  {| specs := delete pluginName (specs inj) |}.

Section merge.
Context `{MapOrder}.
(** [json.Unmarshal] into [interface{}], and [json.Marshal] of what it yields. *)
Context (Unmarshal : string → option value) (Marshal : value → string).

(** [json.Unmarshal(raw, &m)] for a map: [null] leaves it nil, any other value that
    is not an object is an error. *)
Definition UnmarshalMap (raw : string) : option (option (gmap string value)) :=
  match Unmarshal raw with
  | Some (VObj m) => Some (Some m)
  | Some VNull => Some None
  | _ => None
  end.

Fixpoint unseen (seen : gset string) (reqs : list value) : list value :=
  match reqs with
  | [] => []
  | req :: reqs' =>
      let key := Marshal req in
      if decide (key ∈ seen) then unseen seen reqs'
      else req :: unseen ({[key]} ∪ seen) reqs'
  end.
Definition mergeSecurityRequirements (base add : list value) : list value :=
  unseen ∅ (app base add).

(** The three parts of the document that are merged into. *)
Record merging := {
  basePaths : gmap string value; baseComponents : gmap string value; baseSecurity : list value
}.

(** [for k, v := range src { dst[k] = v }] *)
Definition overwrite (src dst : gmap string value) : gmap string value := src ∪ dst.

Definition merge_section (cs : gmap string value) (section : string) (defs : value) : value :=
  let existing := default ∅ (as_map (cs !! section)) in
  VObj match defs with VObj defsMap => overwrite defsMap existing | _ => existing end.

Definition merge_doc (m : merging) (doc : gmap string value) : merging := {|
  basePaths :=
    match as_map (doc !! "paths") with
    | Some paths => overwrite paths (basePaths m)
    | None => basePaths m
    end;
  baseComponents :=
    match as_map (doc !! "components") with
    | Some components =>
        foldl (λ cs sd, <[sd.1 := merge_section cs sd.1 sd.2]> cs) (baseComponents m)
          (range components)
    | None => baseComponents m
    end;
  baseSecurity :=
    match as_list (doc !! "security") with
    | Some sec => mergeSecurityRequirements (baseSecurity m) sec
    | None => baseSecurity m
    end |}.

(** Undecodable documents are skipped; a [null] one merges nothing. *)
Definition merge_raw (m : merging) (raw : string) : merging :=
  match UnmarshalMap raw with
  | Some (Some doc) => merge_doc m doc
  | Some None | None => m
  end.

Definition merged_document (merged : gmap string value) (raws : list string) : gmap string value :=
  let m := foldl merge_raw
    {| basePaths := default ∅ (as_map (merged !! "paths"));
       baseComponents := default ∅ (as_map (merged !! "components"));
       baseSecurity := default [] (as_list (merged !! "security")) |} raws in
  let merged := <["paths" := VObj (basePaths m)]> merged in
  let merged := <["components" := VObj (baseComponents m)]> merged in
  match baseSecurity m with
  | [] => merged
  | sec => <["security" := VArr sec]> merged
  end.

(** [None] is the panic of writing to the nil map a [null] base decodes to. *)
Definition MergedSpec (baseSpec : string) (inj : Injector) : option string :=
  match (range (specs inj)).*2 with
  | [] => Some baseSpec
  | pluginSpecs =>
      match UnmarshalMap baseSpec with
      | None => Some baseSpec
      | Some None => None
      | Some (Some merged) => Some (Marshal (VObj (merged_document merged pluginSpecs)))
      end
  end.

(** ** Security requirements *)

Lemma unseen_spec seen reqs :
  NoDup (Marshal <$> unseen seen reqs) ∧
  (∀ k, k ∈ Marshal <$> unseen seen reqs ↔ k ∈ Marshal <$> reqs ∧ k ∉ seen) ∧
  unseen seen reqs `sublist_of` reqs.
Proof.
  revert seen. induction reqs as [|req reqs IH]; intros seen; simpl.
  { split_and!; [constructor|intros k; rewrite elem_of_nil; tauto|done]. }
  case_decide as Hseen.
  - destruct (IH seen) as (? & Hk & ?). split_and!; [done| |by constructor].
    intros k. rewrite Hk, elem_of_cons. split; [tauto|]. intros [[->|] ?]; tauto.
  - destruct (IH ({[Marshal req]} ∪ seen)) as (Hnd & Hk & ?). split_and!; [| |by constructor].
    + rewrite fmap_cons. constructor; [|done]. rewrite Hk. set_solver.
    + intros k. rewrite fmap_cons, !elem_of_cons, Hk.
      destruct (decide (k = Marshal req)) as [->|]; set_solver.
Qed.

(** The merged security requirements name each requirement once, drop none of
    either side, invent none, and keep the order they were declared in. *)
Theorem mergeSecurityRequirements_spec base add :
  let out := mergeSecurityRequirements base add in
  NoDup (Marshal <$> out) ∧
  (∀ k, k ∈ Marshal <$> out ↔ k ∈ Marshal <$> base ∨ k ∈ Marshal <$> add) ∧
  out `sublist_of` app base add.
Proof.
  unfold mergeSecurityRequirements. destruct (unseen_spec ∅ (app base add)) as (? & Hk & ?).
  split_and!; try done. intros k. rewrite Hk, fmap_app, elem_of_app. set_solver.
Qed.

(** ** Paths *)

(** The paths a raw document declares. *)
Definition paths_of (raw : string) : gmap string value :=
  match UnmarshalMap raw with
  | Some (Some doc) => default ∅ (as_map (doc !! "paths"))
  | _ => ∅
  end.

Lemma merge_raw_paths m raw : basePaths (merge_raw m raw) = paths_of raw ∪ basePaths m.
Proof.
  unfold merge_raw, paths_of. destruct (UnmarshalMap raw) as [[doc|]|]; simpl;
    [|by rewrite (left_id_L ∅ (∪))..].
  destruct (as_map _); simpl; [done|]. by rewrite (left_id_L ∅ (∪)).
Qed.

Lemma foldl_merge_paths m raws p ops :
  basePaths (foldl merge_raw m raws) !! p = Some ops →
  basePaths m !! p = Some ops ∨ ∃ raw, raw ∈ raws ∧ paths_of raw !! p = Some ops.
Proof.
  revert m. induction raws as [|raw raws IH]; intros m; simpl; [auto|]. intros Hp.
  apply IH in Hp as [Hp|(r & ? & ?)]; [|right; exists r; split; [by right|done]].
  rewrite merge_raw_paths, lookup_union_Some_raw in Hp. destruct Hp as [Hp|[_ Hp]]; [|auto].
  right. exists raw. split; [by left|done].
Qed.
Lemma foldl_merge_keeps m raws p :
  is_Some (basePaths m !! p) → is_Some (basePaths (foldl merge_raw m raws) !! p).
Proof.
  revert m. induction raws as [|raw raws IH]; intros m Hp; simpl; [done|]. apply IH.
  rewrite merge_raw_paths. apply lookup_union_is_Some. by right.
Qed.
Lemma foldl_merge_adds m raws raw p :
  raw ∈ raws → is_Some (paths_of raw !! p) → is_Some (basePaths (foldl merge_raw m raws) !! p).
Proof.
  revert m. induction raws as [|r raws IH]; intros m Hr Hp; simpl; [by apply not_elem_of_nil in Hr|].
  apply elem_of_cons in Hr as [->|Hr]; [|by apply IH]. apply foldl_merge_keeps.
  rewrite merge_raw_paths. apply lookup_union_is_Some. by left.
Qed.

Lemma foldl_merge_base m raws p :
  (∀ raw, raw ∈ raws → paths_of raw !! p = None) →
  basePaths (foldl merge_raw m raws) !! p = basePaths m !! p.
Proof.
  revert m. induction raws as [|raw raws IH]; intros m Hno; [done|]. cbn [foldl].
  rewrite IH by (intros r Hr; apply Hno; by right). rewrite merge_raw_paths.
  apply lookup_union_r, Hno. left.
Qed.

Lemma merged_document_paths merged raws :
  as_map (merged_document merged raws !! "paths") =
  Some (basePaths (foldl merge_raw
    {| basePaths := default ∅ (as_map (merged !! "paths"));
       baseComponents := default ∅ (as_map (merged !! "components"));
       baseSecurity := default [] (as_list (merged !! "security")) |} raws)).
Proof.
  unfold merged_document. set (m := foldl _ _ _). cbv zeta.
  destruct (baseSecurity m).
  - by rewrite lookup_insert_ne, lookup_insert_eq by done.
  - by rewrite !lookup_insert_ne, lookup_insert_eq by done.
Qed.

(** C39: The merged document has a path exactly when Core's own document or some
    plugin's decodable document declares it, and describes it as one of them
    does; when the plugins agree on the paths they share, each plugin's
    description wins over Core's, whatever order the plugins come in.  (The comment on
    [MergedSpec] says the first plugin's document is the base; it is Core's.) *)
Theorem merged_paths_spec merged raws :
  let base : gmap string value := default ∅ (as_map (merged !! "paths")) in
  ∃ paths, as_map (merged_document merged raws !! "paths") = Some paths ∧
  (∀ p ops, paths !! p = Some ops →
     base !! p = Some ops ∨ ∃ raw, raw ∈ raws ∧ paths_of raw !! p = Some ops) ∧
  (∀ p, is_Some (base !! p) ∨ (∃ raw, raw ∈ raws ∧ is_Some (paths_of raw !! p)) →
        is_Some (paths !! p)) ∧
  ((∀ r r' p, r ∈ raws → r' ∈ raws → is_Some (paths_of r !! p) → is_Some (paths_of r' !! p) →
              paths_of r !! p = paths_of r' !! p) →
   ∀ p, (∀ raw, raw ∈ raws → is_Some (paths_of raw !! p) → paths !! p = paths_of raw !! p) ∧
        ((∀ raw, raw ∈ raws → paths_of raw !! p = None) → paths !! p = base !! p)).
Proof.
  cbv zeta. rewrite merged_document_paths. eexists. split; [done|]. split_and!.
  - intros p ops. apply foldl_merge_paths.
  - intros p [Hp|(raw & ? & ?)]; [by apply foldl_merge_keeps|by eapply foldl_merge_adds].
  - intros Hagree p. split; [|apply foldl_merge_base]. intros raw Hraw [ops Hops].
    revert Hagree. generalize {| basePaths := default ∅ (as_map (merged !! "paths"));
      baseComponents := default ∅ (as_map (merged !! "components"));
      baseSecurity := default [] (as_list (merged !! "security")) |}.
    revert Hraw. induction raws as [|r raws IH] using rev_ind; intros Hraw m Hagree;
      [by apply not_elem_of_nil in Hraw|].
    rewrite foldl_app. cbn [foldl]. rewrite merge_raw_paths.
    destruct (paths_of r !! p) as [ops'|] eqn:E.
    + rewrite (lookup_union_Some_l _ _ _ _ E). rewrite <- E.
      apply Hagree; [set_solver|done|by eexists|by eexists].
    + rewrite lookup_union_r by done. apply IH; [|intros; apply Hagree; set_solver].
      apply elem_of_app in Hraw as [?|Hr%list_elem_of_singleton]; [done|subst; congruence].
Qed.
End merge.
