(* ===== verification/Health.v ===== *)
(** [internal/protection/health_monitor.go]: the periodic check that marks plugins
    dead and alive again. *)

From S2P Require Import Prelude GoStrings Manifest Protection Auth Registry.

(** The state the monitor shares with the dispatcher. *)
Definition monitored : Type := Registry * CircuitBreaker.t.

Section monitor.
Context `{MapOrder}.
(** The health endpoint's status ([None] is a transport error), and the time each
    plugin's probe is settled. *)
Context (Do : string → option Z) (now : string → Z).

Definition healthy (entry : PluginEntry) : bool :=
  match Do (BaseURL entry ++ "/_apicorex/health") with
  | Some code => code =? 200
  | None => false
  end.

(** The body of the loop over [reg.List()]. *)
Definition check (st : monitored) (entry : PluginEntry) : monitored :=
  let '(r, b) := st in
  let pluginID := PluginID (Info entry) in
  if healthy entry then ((Heartbeat (now pluginID) pluginID r).1, b)
  else (MarkDead pluginID r, CircuitBreaker.ForceOpen (now pluginID) pluginID b).

Definition checkAll (st : monitored) : monitored := foldl check st (List st.1).

(** One plugin's share of a check. *)
Definition probed (e : PluginEntry) : PluginEntry :=
  if healthy e then beat (now (PluginID (Info e))) e else kill e.

Lemma check_plugins st e id :
  plugins (check st e).1 !! id =
  if decide (id = PluginID (Info e))
  then (λ e', if healthy e then beat (now id) e' else kill e') <$> plugins st.1 !! id
  else plugins st.1 !! id.
Proof.
  destruct st as [r b]. unfold check. case_decide as Hid.
  - subst id. destruct (healthy e); simpl.
    + unfold Heartbeat. destruct (plugins r !! _) eqn:E; simpl; [by rewrite lookup_insert_eq|done].
    + unfold MarkDead. destruct (plugins r !! _) eqn:E; simpl; [by rewrite lookup_insert_eq|done].
  - destruct (healthy e); simpl.
    + unfold Heartbeat. destruct (plugins r !! PluginID _); simpl; [by rewrite lookup_insert_ne|done].
    + unfold MarkDead. destruct (plugins r !! PluginID _); simpl; [by rewrite lookup_insert_ne|done].
Qed.

Lemma check_breaker st e id :
  CircuitBreaker.view_of (check st e).2 id =
  if decide (id = PluginID (Info e) ∧ healthy e = false)
  then CircuitBreaker.spec_step (CircuitBreaker.threshold st.2) (CircuitBreaker.resetTimeout st.2)
         (CircuitBreaker.view_of st.2 id) (CircuitBreaker.EvForceOpen (now id))
  else CircuitBreaker.view_of st.2 id.
Proof.
  destruct st as [r b]. unfold check. destruct (healthy e) eqn:Hh; simpl.
  { by rewrite decide_False by naive_solver. }
  pose proof (CircuitBreaker.impl_step_view b (PluginID (Info e)) id
    (CircuitBreaker.EvForceOpen (now (PluginID (Info e))))) as Hv.
  simpl in Hv. rewrite Hv. repeat case_decide; naive_solver.
Qed.

Lemma check_params st e :
  CircuitBreaker.threshold (check st e).2 = CircuitBreaker.threshold st.2 ∧
  CircuitBreaker.resetTimeout (check st e).2 = CircuitBreaker.resetTimeout st.2 ∧
  maint (check st e).1 = maint st.1.
Proof.
  destruct st as [r b]. unfold check, Heartbeat, MarkDead.
  destruct (healthy e), (plugins r !! _); done.
Qed.

Lemma foldl_check_plugins es st id :
  NoDup ((λ e, PluginID (Info e)) <$> es) →
  plugins (foldl check st es).1 !! id =
  match List.find (λ e, String.eqb (PluginID (Info e)) id) es with
  | Some e => (λ e', if healthy e then beat (now id) e' else kill e') <$> plugins st.1 !! id
  | None => plugins st.1 !! id
  end.
Proof.
  revert st. induction es as [|e es IH]; intros st; [done|].
  rewrite fmap_cons. intros [He Hnd]%NoDup_cons. cbn [foldl List.find].
  rewrite IH by done. rewrite check_plugins.
  destruct (String.eqb_spec (PluginID (Info e)) id) as [Hid|Hid].
  - rewrite decide_True by done. destruct (List.find _ es) as [e'|] eqn:Hf; [|done].
    exfalso. apply List.find_some in Hf as [Hin Heq]. bool_simpl. apply He.
    apply list_elem_of_fmap. exists e'. split; [congruence|by apply list_elem_of_In].
  - by rewrite decide_False by congruence.
Qed.

Lemma foldl_check_breaker es st id :
  NoDup ((λ e, PluginID (Info e)) <$> es) →
  CircuitBreaker.view_of (foldl check st es).2 id =
  match List.find (λ e, String.eqb (PluginID (Info e)) id) es with
  | Some e => if healthy e then CircuitBreaker.view_of st.2 id
              else {| CircuitBreaker.v_state := CircuitBreaker.stateOpen;
                      CircuitBreaker.v_failures := CircuitBreaker.failures_of st.2 id;
                      CircuitBreaker.v_last := now id |}
  | None => CircuitBreaker.view_of st.2 id
  end.
Proof.
  revert st. induction es as [|e es IH]; intros st; [done|].
  rewrite fmap_cons. intros [He Hnd]%NoDup_cons. cbn [foldl List.find].
  rewrite IH by done. pose proof (check_breaker st e id) as Hc.
  destruct (String.eqb_spec (PluginID (Info e)) id) as [Hid|Hid].
  - destruct (List.find _ es) as [e'|] eqn:Hf.
    + exfalso. apply List.find_some in Hf as [Hin Heq]. bool_simpl. apply He.
      apply list_elem_of_fmap. exists e'. split; [congruence|by apply list_elem_of_In].
    + rewrite Hc. destruct (healthy e); [by rewrite decide_False by naive_solver|].
      by rewrite decide_True by naive_solver.
  - rewrite decide_False in Hc by naive_solver. rewrite Hc.
    injection Hc as _ Hfail _. by rewrite Hfail.
Qed.
Lemma foldl_check_maint es st : maint (foldl check st es).1 = maint st.1.
Proof.
  revert st. induction es as [|e es IH]; intros st; [done|]. cbn [foldl]. rewrite IH.
  apply check_params.
Qed.

(** The entry the loop meets for an id is the registered one. *)
Lemma find_listed r id :
  store_ok r →
  List.find (λ e, String.eqb (PluginID (Info e)) id) (List r) = plugins r !! id.
Proof.
  intros Hok. destruct (List.find _ _) as [e|] eqn:Hf; symmetry.
  - apply List.find_some in Hf as [Hin Heq]. bool_simpl. subst id.
    apply list_elem_of_In, elem_of_List in Hin as [id Hid].
    by destruct (Hok id e Hid) as [-> _].
  - apply eq_None_not_Some. intros [e Hid]. destruct (Hok id e Hid) as [Hpid _].
    apply (List.find_none _ _) with (x := e) in Hf; [by bool_simpl|].
    apply list_elem_of_In, elem_of_List. eauto.
Qed.

Lemma checkAll_plugins st : store_ok st.1 → plugins (checkAll st).1 = probed <$> plugins st.1.
Proof.
  intros Hok. apply map_eq. intros id. unfold checkAll.
  rewrite lookup_fmap, foldl_check_plugins, find_listed by (done || by apply List_ids_NoDup).
  destruct (plugins st.1 !! id) as [e|] eqn:Hid; [|done]. simpl. unfold probed.
  by destruct (Hok id e Hid) as [-> _].
Qed.

(** C35: A health check settles every registered plugin by its own probe, whatever
    order the registry is walked in: one that answers 200 is alive with a fresh
    heartbeat and its breaker as it was; any other is dead and its breaker
    forced open.  Nothing is added to or dropped from the registry, and no
    maintenance window moves. *)
Theorem checkAll_settles_every_plugin st :
  store_ok st.1 →
  plugins (checkAll st).1 = probed <$> plugins st.1 ∧ maint (checkAll st).1 = maint st.1 ∧
  ∀ id, CircuitBreaker.view_of (checkAll st).2 id =
    match plugins st.1 !! id with
    | Some e => if healthy e then CircuitBreaker.view_of st.2 id
                else {| CircuitBreaker.v_state := CircuitBreaker.stateOpen;
                        CircuitBreaker.v_failures := CircuitBreaker.failures_of st.2 id;
                        CircuitBreaker.v_last := now id |}
    | None => CircuitBreaker.view_of st.2 id
    end.
Proof.
  intros Hok. pose proof (List_ids_NoDup _ Hok) as Hnd.
  split_and!; [by apply checkAll_plugins|apply foldl_check_maint|].
  intros id. unfold checkAll. by rewrite foldl_check_breaker, find_listed.
Qed.
End monitor.

Lemma checkAll_settles_every_plugin_witness :
  let st := (demo_registry empty_manifest empty_manifest, CircuitBreaker.New 5 Second) in
  plugins (checkAll (H := sorted_order) (λ _, Some 503) (λ _, 7) st).1 = kill <$> plugins st.1.
Proof.
  intros st. destruct (checkAll_settles_every_plugin (H := sorted_order) (λ _, Some 503) (λ _, 7)
    st (demo_registry_ok _ _)) as [-> _]. reflexivity.
Defined.
