(* ===== verification/Recovery.v ===== *)
(** How a plugin comes back after an outage: the health monitor, the registry, the
    breaker and the dispatcher together.

    The registry and the breaker are each behind a lock of their own, and what is done
    to them comes from many goroutines at once: an event is one such critical section,
    and the events of ticks, of requests admitted at any time and of operators come
    in any order. *)

From S2P Require Import Prelude GoStrings Float64 Manifest Protection RateLimiter Config Auth Registry Health Http Middleware Nav Proxy Dispatcher.

(** A heartbeat, by the monitor or the plugin itself; a failed probe, which first marks
    the plugin dead and then forces its breaker open; what else the breaker is told or
    asked (by the monitor, by requests when they are admitted and when they are
    answered, by an operator); and anything else, like the rest of a request, a
    window, or a registration. *)
Inductive event :=
| Beaten (p : string) (now : Z)
| Killed (p : string)
| Told (p : string) (ev : CircuitBreaker.event)
| Aside (f : Dispatcher → Dispatcher).

Definition happens (d : Dispatcher) (ev : event) : Dispatcher :=
  match ev with
  | Beaten p now => set_reg (Heartbeat now p (reg d)).1 d
  | Killed p => set_reg (MarkDead p (reg d)) d
  | Told p ev => set_cb (CircuitBreaker.impl_step (cb d) (p, ev)) d
  | Aside f => f d
  end.

(** A tick of the monitor is the events of its probes. *)
Section tick.
Context `{MapOrder} (Do : string → option Z) (now : string → Z).

Definition probes (e : PluginEntry) : list event :=
  let p := PluginID (Info e) in
  if healthy Do e then [Beaten p (now p)] else [Killed p; Told p (CircuitBreaker.EvForceOpen (now p))].
Definition tick (d : Dispatcher) : Dispatcher := foldl happens d (concat (probes <$> List (reg d))).

Lemma tick_checkAll d :
  tick d = let '(r, b) := checkAll Do now (reg d, cb d) in set_cb b (set_reg r d).
Proof.
  unfold tick, checkAll. cbn [fst]. generalize (List (reg d)) as es. intros es. revert d.
  induction es as [|e es IH]; intros d; [by destruct d|].
  rewrite fmap_cons. cbn [concat]. rewrite foldl_app, IH. cbn [foldl].
  assert (check Do now (reg d, cb d) e = (reg (foldl happens d (probes e)), cb (foldl happens d (probes e))) ∧
    ∀ r b, set_cb b (set_reg r (foldl happens d (probes e))) = set_cb b (set_reg r d)) as [-> Hset]
    by (unfold check, probes; by destruct (healthy Do e)).
  destruct (foldl _ _ es). apply Hset.
Qed.
End tick.

(** ** One plugin's share *)

(** Nothing unregisters the plugin, and only what tells its breaker changes it. *)
Definition spares (id : string) (ev : event) : Prop :=
  match ev with
  | Aside f => ∀ d, plugins (reg (f d)) !! id = plugins (reg d) !! id ∧ cb (f d) = cb d
  | _ => True
  end.
Definition alive (id : string) (d : Dispatcher) : option bool := Alive <$> plugins (reg d) !! id.

Definition alive_step (id : string) (a : bool) (ev : event) : bool :=
  match ev with
  | Beaten p _ => if decide (p = id) then true else a
  | Killed p => if decide (p = id) then false else a
  | _ => a
  end.
Lemma happens_alive id d a ev :
  spares id ev → alive id d = Some a → alive id (happens d ev) = Some (alive_step id a ev).
Proof.
  unfold alive. destruct ev as [p now|p|p ev|f]; cbn [spares happens alive_step]; intros Hs Ha.
  - unfold Heartbeat. destruct (plugins (reg d) !! p) as [e|] eqn:E; cbn; case_decide as Hp; try subst p.
    + by rewrite lookup_insert_eq.
    + by rewrite lookup_insert_ne.
    + by rewrite E in Ha.
    + done.
  - unfold MarkDead. destruct (plugins (reg d) !! p) as [e|] eqn:E; cbn; case_decide as Hp; try subst p.
    + by rewrite lookup_insert_eq.
    + by rewrite lookup_insert_ne.
    + by rewrite E in Ha.
    + done.
  - done.
  - by rewrite (proj1 (Hs d)).
Qed.
Lemma events_alive id evs d a :
  Forall (spares id) evs → alive id d = Some a →
  alive id (foldl happens d evs) = Some (foldl (alive_step id) a evs).
Proof.
  intros Hs. revert d a. induction Hs as [|ev evs Hev _ IH]; intros d a Ha; [done|]. cbn [foldl].
  by apply IH, happens_alive.
Qed.
(** The last word on a plugin's liveness stands. *)
Lemma beaten_last id a post : Forall (λ ev, ev ≠ Killed id) post → foldl (alive_step id) true post = a → a = true.
Proof.
  intros Hp <-. induction Hp as [|ev post Hev _ IH]; [done|]. cbn [foldl].
  destruct ev as [p now|p|p ev|f]; cbn [alive_step]; try done; case_decide; try done. by subst.
Qed.

(** What is known of its breaker. *)
Definition view (id : string) (d : Dispatcher) : CircuitBreaker.view := CircuitBreaker.view_of (cb d) id.
Definition view_step (id : string) (thr reset : Z) (v : CircuitBreaker.view) (ev : event) : CircuitBreaker.view :=
  match ev with
  | Told p ev => if decide (id = p) then CircuitBreaker.spec_step thr reset v ev else v
  | _ => v
  end.
Lemma happens_view id d ev :
  spares id ev →
  view id (happens d ev) = view_step id (CircuitBreaker.threshold (cb d)) (CircuitBreaker.resetTimeout (cb d)) (view id d) ev ∧
  CircuitBreaker.threshold (cb (happens d ev)) = CircuitBreaker.threshold (cb d) ∧
  CircuitBreaker.resetTimeout (cb (happens d ev)) = CircuitBreaker.resetTimeout (cb d).
Proof.
  unfold view. destruct ev as [p now|p|p ev|f]; cbn [spares happens view_step]; intros Hs; try done.
  - cbn [set_cb cb]. rewrite CircuitBreaker.impl_step_view. split; [by case_decide; subst|].
    apply CircuitBreaker.impl_step_params.
  - by rewrite (proj2 (Hs d)).
Qed.
(** What every event keeps of a view, and a reset time, is kept. *)
Lemma events_view id evs d (P : CircuitBreaker.view → Prop) :
  let thr := CircuitBreaker.threshold (cb d) in
  let reset := CircuitBreaker.resetTimeout (cb d) in
  Forall (spares id) evs → Forall (λ ev, ∀ v, P v → P (view_step id thr reset v ev)) evs → P (view id d) →
  P (view id (foldl happens d evs)) ∧ CircuitBreaker.resetTimeout (cb (foldl happens d evs)) = reset.
Proof.
  intros thr reset Hs. revert d thr reset. induction Hs as [|ev evs Hev _ IH]; intros d thr reset Hk Hd; [done|].
  apply Forall_cons in Hk as [He Hk]. destruct (happens_view id d ev Hev) as (Hv & Ht & Hr). cbn [foldl].
  unfold thr, reset. rewrite <- Hr. apply IH; [|rewrite Hv; by apply He]. by rewrite Ht, Hr.
Qed.

(** ** Staying away, and coming back *)

Section recovery.
Context `{MapOrder} (uuid : string) (Inject : Header → Header).
Context (RoundTrip : Request → exchange) (Dial : string → Request → ws_outcome).

Definition asked (clk : Clock) (c : Gin) (d : Dispatcher) : World * served :=
  Dispatch uuid Inject RoundTrip Dial clk {| w_disp := d; w_gin := c; w_events := [] |}.

(** The breaker of [id], open since [t], is asked before [reset] has passed, and told
    nothing. *)
Definition holds_off (id : string) (t reset : Z) (ev : event) : Prop :=
  match ev with
  | Told p (CircuitBreaker.EvAllow now) => p = id → time_Sub now t ≤ reset
  | Told p _ => p ≠ id
  | _ => True
  end.
(** No failure of [id] is put on record later than [L]. *)
Definition fails_by (id : string) (L : Z) (ev : event) : Prop :=
  match ev with
  | Told p (CircuitBreaker.EvFailure t) | Told p (CircuitBreaker.EvForceOpen t) => p = id → t ≤ L
  | _ => True
  end.

Lemma held_off id t reset thr ev v :
  holds_off id t reset ev →
  CircuitBreaker.v_state v = CircuitBreaker.stateOpen ∧ CircuitBreaker.v_last v = t →
  let v' := view_step id thr reset v ev in
  CircuitBreaker.v_state v' = CircuitBreaker.stateOpen ∧ CircuitBreaker.v_last v' = t.
Proof.
  intros Hh [Ho Hl]. destruct ev as [p now|p|p ev|f]; cbn [view_step]; try done. case_decide as Hp; [subst p|done].
  destruct ev as [now| |now| |now]; try by destruct Hh. cbn [CircuitBreaker.spec_step]. rewrite Ho, Hl.
  by rewrite (proj2 (Z.ltb_ge _ _) (Hh eq_refl)).
Qed.
Lemma failed_by id L thr reset ev v :
  fails_by id L ev → CircuitBreaker.v_last v ≤ L → CircuitBreaker.v_last (view_step id thr reset v ev) ≤ L.
Proof.
  intros Hf Hl. destruct ev as [p now|p|p ev|f]; cbn [view_step]; try done. case_decide as Hp; [subst p|done].
  destruct ev as [now| |now| |now]; cbn in *; try done; [by repeat case_match|by apply Hf..].
Qed.

(** A breaker whose last failure is long enough ago lets a request through. *)
Lemma late_enough id L now b :
  CircuitBreaker.last_of b id ≤ L → CircuitBreaker.resetTimeout b < time_Sub now L →
  (CircuitBreaker.Allow now id b).2 = None.
Proof.
  intros Hl Hn. unfold CircuitBreaker.Allow. destruct (CircuitBreaker.state_of b id); try done.
  assert (time_Sub now L ≤ time_Sub now (CircuitBreaker.last_of b id)) by (unfold time_Sub; lia).
  by rewrite (proj2 (Z.ltb_lt _ _)) by lia.
Qed.

(** A live plugin whose breaker lets it, answers; and closes the breaker. *)
Lemma served_again id clk c d e :
  alive id d = Some true → (CircuitBreaker.Allow (t_allow clk) id (cb d)).2 = None →
  let method := rq_Method (g_req c) in
  let path := u_Path (rq_URL (g_req c)) in
  Firewall.IsRouteBlocked path = false → match_ d method path = Some e → re_pluginID e = id →
  (re_public e = true ∨ re_permission e = "" ∨ authorized (g_identity c) e = true) →
  not_in_maintenance clk d e → within_rate clk d (g_identity c) e → has_slot d e →
  let closed b := CircuitBreaker.state_of b id = CircuitBreaker.stateClosed ∧ CircuitBreaker.failures_of b id = 0 in
  let '(w', s) := asked clk c d in
  match s with
  | Answered _ => False
  | Forwarded p => px_panicked p = false → recorded (px_codes p) < 500 → closed (cb (w_disp w'))
  | Socket _ _ _ => closed (cb (w_disp w'))
  end.
Proof.
  intros Hal Hlets method path Hfw Hm Hid Hauth Hmt Hrate Hslot closed.
  unfold alive in Hal. apply fmap_Some in Hal as (pe & Hpe & Hal).
  assert (admitted clk d (g_identity c) method path e pe) as Hadm.
  { split; [by split_and!; try done; unfold Registry.Get; rewrite Hid|]. split_and!; [done..|].
    unfold breaker_lets. by rewrite Hid. }
  assert (∀ b, closed (CircuitBreaker.RecordSuccess id b)) as Hcl.
  { intros b. unfold closed, CircuitBreaker.RecordSuccess. split; [by rewrite CircuitBreaker.state_set_state, decide_True|].
    by rewrite CircuitBreaker.failures_set_state, CircuitBreaker.failures_set_failures, decide_True. }
  unfold asked. set (w := {| w_disp := d; w_gin := c; w_events := [] |}).
  rewrite (surjective_pairing (Dispatch _ _ _ _ _ _)). cbv beta iota.
  pattern (Dispatch uuid Inject RoundTrip Dial clk w).1, (Dispatch uuid Inject RoundTrip Dial clk w).2.
  apply Dispatch_cases.
  - intros w' r Hre. apply refused_not_admitted in Hre. apply Hre. by exists e, pe.
  - intros e' pe' d1 w' [Hadm' _] _. destruct (admissible_unique _ _ _ _ _ _ _ _ (proj1 Hadm) Hadm') as [-> ->].
    split; [intros _ rep ->|intros _ -> Hp Hc]; cbn [left_by set_bh set_cb cb]; rewrite Hid; [apply Hcl|].
    unfold settled. rewrite Hp. apply Z.leb_gt in Hc. rewrite Hc. apply Hcl.
Qed.

(** C11: How an outage ends, whatever else goes on, event by event in any order, requests
    admitted before the plugin was found dead and answered afterwards included, as
    long as nothing unregisters it.  Where the last thing its breaker was told is that
    it is forced open, at [t], and it has been asked no later than [reset] after that,
    it is open with [t] as its last failure and refuses every request until [reset]
    has passed.  Where the last word on its liveness is a heartbeat, the plugin is
    among the living, and if no failure of it is on record later than [L], its breaker
    refuses no request later than [L] plus [reset]; one that the other layers let
    through, handled at that moment without interruption, is answered by the plugin
    and, answered by less than 500, leaves the breaker closed with no failure on
    record. *)
Theorem plugin_recovers id d0 evs :
  is_Some (plugins (reg d0) !! id) → Forall (spares id) evs →
  let reset := CircuitBreaker.resetTimeout (cb d0) in
  let d := foldl happens d0 evs in
  (∀ pre t post,
     evs = app pre (Told id (CircuitBreaker.EvForceOpen t) :: post) → Forall (holds_off id t reset) post →
     CircuitBreaker.state_of (cb d) id = CircuitBreaker.stateOpen ∧ CircuitBreaker.last_of (cb d) id = t ∧
     ∀ t', time_Sub t' t ≤ reset → (CircuitBreaker.Allow t' id (cb d)).2 = Some CircuitBreaker.ErrCircuitOpen) ∧
  (∀ pre t post L,
     evs = app pre (Beaten id t :: post) → Forall (λ ev, ev ≠ Killed id) post →
     CircuitBreaker.last_of (cb d0) id ≤ L → Forall (fails_by id L) evs →
     alive id d = Some true ∧
     (∀ t', reset < time_Sub t' L → (CircuitBreaker.Allow t' id (cb d)).2 = None) ∧
     ∀ clk c e,
       reset < time_Sub (t_allow clk) L →
       let method := rq_Method (g_req c) in
       let path := u_Path (rq_URL (g_req c)) in
       Firewall.IsRouteBlocked path = false → match_ d method path = Some e → re_pluginID e = id →
       (re_public e = true ∨ re_permission e = "" ∨ authorized (g_identity c) e = true) →
       not_in_maintenance clk d e → within_rate clk d (g_identity c) e → has_slot d e →
       let '(w', s) := asked clk c d in
       match s with
       | Answered _ => False
       | Forwarded p => px_panicked p = false → recorded (px_codes p) < 500 →
           CircuitBreaker.state_of (cb (w_disp w')) id = CircuitBreaker.stateClosed ∧
           CircuitBreaker.failures_of (cb (w_disp w')) id = 0
       | Socket _ _ _ => CircuitBreaker.state_of (cb (w_disp w')) id = CircuitBreaker.stateClosed ∧
           CircuitBreaker.failures_of (cb (w_disp w')) id = 0
       end).
Proof.
  intros [pe Hpe] Hs reset d. split.
  - intros pre t post -> Hpost. apply Forall_app in Hs as [Hpre [_ Hs]%Forall_cons].
    destruct (events_view id pre d0 (λ _, True) Hpre) as [_ Hr0]; [by apply Forall_forall|done|].
    set (d1 := foldl happens d0 pre) in *.
    set (d2 := happens d1 (Told id (CircuitBreaker.EvForceOpen t))).
    assert (CircuitBreaker.resetTimeout (cb d2) = reset) as Hr2 by exact Hr0.
    destruct (events_view id post d2 (λ v, CircuitBreaker.v_state v = CircuitBreaker.stateOpen ∧
      CircuitBreaker.v_last v = t) Hs) as [[Ho Hl] Hr].
    + rewrite Hr2. eapply Forall_impl; [exact Hpost|]. intros ev Hev v. by apply held_off.
    + destruct (happens_view id d1 (Told id (CircuitBreaker.EvForceOpen t)) I) as [Hv _].
      unfold d2. rewrite Hv. cbn [view_step]. by rewrite decide_True.
    + unfold d. rewrite foldl_app. fold d1. cbn [foldl]. fold d2. rewrite Hr2 in Hr.
      split_and!; [exact Ho|exact Hl|]. intros t' Ht'. unfold CircuitBreaker.Allow.
      rewrite (Ho : CircuitBreaker.state_of _ _ = _), (Hl : CircuitBreaker.last_of _ _ = _), Hr.
      by rewrite (proj2 (Z.ltb_ge _ _) Ht').
  - intros pre t post L -> Hpost Hl Hf.
    assert (alive id d = Some true) as Hal.
    { unfold d. rewrite (events_alive id _ d0 (Alive pe) Hs) by (unfold alive; by rewrite Hpe). f_equal.
      rewrite foldl_app. cbn [foldl alive_step]. rewrite decide_True by done. by eapply beaten_last. }
    destruct (events_view id _ d0 (λ v, CircuitBreaker.v_last v ≤ L) Hs) as [Hlast Hr]; [|exact Hl|].
    { eapply Forall_impl; [exact Hf|]. intros ev Hev v. by apply failed_by. }
    assert (∀ t', reset < time_Sub t' L → (CircuitBreaker.Allow t' id (cb d)).2 = None) as Hlets
      by (intros t' Ht'; apply (late_enough id L); [exact Hlast|unfold d; by rewrite Hr]).
    split_and!; [done..|]. intros clk c e Ht. intros. by eapply served_again; [|apply Hlets|..].
Qed.
End recovery.

(** A request is admitted by the sample plugin's breaker, the plugin misses a probe at
    second 10, the request is answered by a server error at second 12, the plugin
    answers the next probe, and is asked for at second 43. *)
Definition demo_down (_ : string) : option Z := None.
Definition demo_well (_ : string) : option Z := Some 200.
Definition demo_sample : Dispatcher := sample_dispatcher 0.
Definition demo_outage : list event :=
  [Told "pos-1" (CircuitBreaker.EvAllow (9 * Second)); Killed "pos-1";
   Told "pos-1" (CircuitBreaker.EvForceOpen (10 * Second)); Told "pos-1" (CircuitBreaker.EvFailure (12 * Second));
   Beaten "pos-1" (40 * Second)].
Definition demo_asked : World * served :=
  asked (H := sorted_order) "u" (λ h, h) (λ _, {| x_informational := []; x_outcome := Responded 200 |}) (λ _ _, Piped)
    (sample_clock (43 * Second)) (arrive item_request) (foldl happens demo_sample demo_outage).
Lemma plugin_recovers_witness :
  match demo_asked.2 with
  | Forwarded p => px_panicked p = false → recorded (px_codes p) < 500 →
      CircuitBreaker.state_of (cb (w_disp demo_asked.1)) "pos-1" = CircuitBreaker.stateClosed
  | Socket _ _ _ => CircuitBreaker.state_of (cb (w_disp demo_asked.1)) "pos-1" = CircuitBreaker.stateClosed
  | Answered _ => False
  end ∧
  (CircuitBreaker.Allow (39 * Second) "pos-1" (cb (foldl happens demo_sample (take 3 demo_outage)))).2 =
    Some CircuitBreaker.ErrCircuitOpen.
Proof.
  split.
  - destruct (plugin_recovers (H := sorted_order) "u" (λ h, h)
      (λ _, {| x_informational := []; x_outcome := Responded 200 |}) (λ _ _, Piped) "pos-1" demo_sample demo_outage
      ltac:(eexists; by vm_compute) ltac:(repeat constructor)) as [_ Hr].
    destruct (Hr (take 4 demo_outage) (40 * Second) [] (12 * Second) eq_refl ltac:(constructor)
      ltac:(vm_compute; discriminate) ltac:(unfold demo_outage; rewrite !Forall_cons; split_and!; try done; intros _; vm_compute; discriminate)) as (_ & _ & Hd).
    specialize (Hd (sample_clock (43 * Second)) (arrive item_request)
      (route_entry "pos-1" "pos" (sample_route "GET" "/pos/items/:id" "" true))
      ltac:(by vm_compute) ltac:(by vm_compute) ltac:(by vm_compute) ltac:(by vm_compute) ltac:(by left)
      ltac:(by vm_compute) ltac:(split; [by vm_compute|done]) ltac:(by vm_compute)).
    unfold demo_asked. destruct (asked _ _ _ _ _ _ _) as [w' s]. cbn [fst snd].
    destruct s as [r|p|h o rep]; [done| |by destruct Hd]. intros H1 H2. by destruct (Hd H1 H2).
  - destruct (plugin_recovers (H := sorted_order) "u" (λ h, h)
      (λ _, {| x_informational := []; x_outcome := Responded 200 |}) (λ _ _, Piped) "pos-1" demo_sample (take 3 demo_outage)
      ltac:(eexists; by vm_compute) ltac:(repeat constructor)) as [Hr _].
    destruct (Hr (take 2 demo_outage) (10 * Second) [] eq_refl ltac:(constructor)) as (_ & _ & Ha).
    apply Ha. by vm_compute.
Defined.
