(* ===== verification/ControlPlane.v ===== *)
(** [internal/controlplane/handlers.go]: plugins register, heartbeat and deregister
    here; operators log in, reset breakers and remove plugins. *)

From S2P Require Import Prelude GoStrings Float64 Crypto Manifest Protection RateLimiter Config Auth Registry PluginToken Openapi Health Http Middleware Nav Proxy Dispatcher.

(** What the handlers share with the rest of Core: the dispatcher (whose registry
    and breaker they reach too), the documents, and the gauge of plugins. *)
Record Core := {
  disp : Dispatcher;
  injector : Injector;
  plugins_gauge : Z;
  cookies : list (string * string * Z * bool)
}.
Definition set_core_disp (d : Dispatcher) (c : Core) : Core :=
  {| disp := d; injector := injector c; plugins_gauge := plugins_gauge c; cookies := cookies c |}.
Definition set_injector (i : Injector) (c : Core) : Core :=
  {| disp := disp c; injector := i; plugins_gauge := plugins_gauge c; cookies := cookies c |}.
Definition on_core_disp (f : Dispatcher → Dispatcher) (c : Core) : Core :=
  set_core_disp (f (disp c)) c.
Definition on_reg (f : Registry → Registry) : Core → Core :=
  on_core_disp (λ d, set_reg (f (reg d)) d).
(** [protection.PluginsRegistered.Set(float64(len(h.reg.List())))] *)
Definition count_plugins `{MapOrder} (c : Core) : Core :=
  {| disp := disp c; injector := injector c; plugins_gauge := Z.of_nat (length (List (reg (disp c))));
     cookies := cookies c |}.
(** [c.SetCookie(name, value, maxAge, "/", "", secure, true)] *)
Definition set_cookie (name value : string) (maxAge : Z) (secure : bool) (c : Core) : Core :=
  {| disp := disp c; injector := injector c; plugins_gauge := plugins_gauge c;
     cookies := app (cookies c) [(name, value, maxAge, secure)] |}.

Record Handlers := {
  apiKey : string;
  allowlist : gset string;
  signer : tokenSigner;
  apicorexSecret : string;
  sessionSigner : tokenSigner
}.

Definition New (apiKey : string) (allowlist : list string) (signerSecret apicorexSecret : string) :
    Handlers := {|
  apiKey := apiKey;
  allowlist := list_to_set (filter (λ n, n ≠ "") (map TrimSpace allowlist));
  signer := newTokenSigner signerSecret (24 * Hour);
  apicorexSecret := apicorexSecret;
  sessionSigner := newTokenSigner (apicorexSecret ++ ":session") (12 * Hour) |}.

(** ** Request bodies; [None] is a body that does not bind *)

Record registerReq := { rr_BaseURL : string; rr_APIKey : string }.
Record tokenReq := { tr_PluginID : string; tr_PluginToken : string }.
Record maintenanceReq := {
  mr_APIKey : string; mr_Plugin : string; mr_On : bool; mr_Reason : string; mr_Seconds : Z
}.

Definition fail {A} (code : Z) (msg : string) : Handler Core Reply A :=
  answer (JSON code (error_body msg)).
Definition ok (fields : list (string * json)) : Reply := JSON 200 (JObj fields).

Definition sessionCookieName : string := "apicorex_session".

Section handlers.
Context `{MapOrder}.
(** [url.Parse] with its error text, the HTTP client's GET with its error text, the
    manifest decoder with its error text, [%q], and a fresh UUID. *)
Context (url_Parse : string → option Registry.URL) (parse_error : string → string).
Context (HTTPGet : string → (Z * string) + string) (Decode : string → Manifest.Manifest + string).
Context (Quote : string → string) (uuid : string).
(** [json.Marshal] of a [time.Time], in the deployment's local zone. *)
Context (time_json : Z → string).
Context (h : Handlers).

(** ** Registration *)

Definition pullManifest (baseURL : string) : Manifest.Manifest + string :=
  match HTTPGet (baseURL ++ "/_apicorex/manifest") with
  | inr err => inr err
  | inl (code, body) =>
      if negb (code =? 200) then inr ("manifest endpoint returned " ++ FormatInt code)
      else
        match Decode body with
        | inr err => inr ("decode manifest: " ++ err)
        | inl m => if String.eqb (Name m) "" then inr "manifest missing name" else inl m
        end
  end.

(** [h.reg.Deregister(id); h.disp.RemoveRoutes(id)] *)
Definition evict (c : Core) (id : string) : Core :=
  on_core_disp (RemoveRoutes id) (on_reg (Deregister id) c).
Definition evict_named (name : string) (c : Core) : Core :=
  foldl evict c (IDsByName name (reg (disp c))).

(** Registry, routes, documents: the three stores a plugin is added to. *)
Definition enlist (now : Z) (pluginID baseURL : string) (m : Manifest.Manifest) (c : Core) :
    option Core :=
  r ← Register url_Parse now pluginID (Name m) baseURL (Version m) (PluginType m) m (λ t, t)
        (reg (disp c));
  let c := set_core_disp (set_reg r (disp c)) c in
  let c := on_core_disp (Dispatcher.AddRoutes pluginID (Name m) (PluginType m) (Routes m)) c in
  Some (set_injector (Openapi.AddRoutes (Name m) (Routes m) (OpenAPISpec m) (injector c)) c).

Definition register (now issued : Z) (body : option registerReq) : Handler Core Reply Reply :=
  match body with
  | None => fail 400 "invalid body"
  | Some req =>
      reject_if (negb (String.eqb (apiKey h) "") && negb (String.eqb (rr_APIKey req) (apiKey h)))
        (JSON 401 (error_body "invalid api key"));;
      reject_if (String.eqb (rr_BaseURL req) "") (JSON 400 (error_body "base_url required"));;
      match pullManifest (rr_BaseURL req) with
      | inr err => fail 502 ("cannot pull manifest: " ++ err)
      | inl m =>
          reject_if (negb (bool_decide (allowlist h = ∅)) && negb (bool_decide (Name m ∈ allowlist h)))
            (JSON 403 (error_body ("plugin " ++ Quote (Name m) ++ " not in allowlist")));;
          modify (evict_named (Name m));;
          let pluginID := Name m ++ "-" ++ take_bytes 8 uuid in
          c ← get_state;
          match enlist now pluginID (rr_BaseURL req) m c with
          | None => fail 500 ("invalid base_url " ++ Quote (rr_BaseURL req) ++ ": " ++ parse_error (rr_BaseURL req))
          | Some c =>
              modify (λ _, count_plugins c);;
              mret (ok [("plugin_id", JStr pluginID);
                        ("plugin_token", JStr (issue issued (signer h) pluginID))])
          end
      end
  end.

(** ** Heartbeat and deregistration *)

Definition verifyToken (now : Z) (token pluginID : string) : bool :=
  match verify now (signer h) token with
  | inl tid => String.eqb tid pluginID
  | inr _ => false
  end.

Definition heartbeat (now now' : Z) (body : option tokenReq) : Handler Core Reply Reply :=
  match body with
  | None => fail 400 "invalid body"
  | Some req =>
      reject_if (negb (verifyToken now (tr_PluginToken req) (tr_PluginID req)))
        (JSON 401 (error_body "invalid plugin token"));;
      c ← get_state;
      let '(r, found) := Heartbeat now' (tr_PluginID req) (reg (disp c)) in
      modify (on_reg (λ _, r));;
      if found then mret (ok [("acknowledged", JBool true)]) else fail 404 "plugin not found"
  end.

(** The tail [deregister] and [adminDeregister] share. *)
Definition remove_plugin (id : string) : Handler Core Reply Reply :=
  c ← get_state;
  match Registry.Get id (reg (disp c)) with
  | None => mret (ok [("success", JBool false)])
  | Some entry =>
      let name := PluginName (Info entry) in
      modify (λ c, evict c id);;
      modify (λ c, set_injector (Openapi.RemoveRoutes name (injector c)) c);;
      modify count_plugins;;
      mret (ok [("success", JBool true)])
  end.

Definition deregister (now : Z) (body : option tokenReq) : Handler Core Reply Reply :=
  match body with
  | None => fail 400 "invalid body"
  | Some req =>
      reject_if (negb (verifyToken now (tr_PluginToken req) (tr_PluginID req)))
        (JSON 401 (error_body "invalid plugin token"));;
      remove_plugin (tr_PluginID req)
  end.

(** ** Operator actions *)

Definition adminDeregister (id : string) : Handler Core Reply Reply := remove_plugin id.

Definition resetBreaker (id : string) : Handler Core Reply Reply :=
  c ← get_state;
  match Registry.Get id (reg (disp c)) with
  | None => fail 404 "plugin not found"
  | Some _ =>
      modify (on_core_disp (ResetCircuitBreaker id));;
      mret (ok [("success", JBool true)])
  end.

(** [None] is "plugin not found"; a found manifest is sent as it is. *)
Definition pluginManifest (name : string) (c : Core) : option Manifest.Manifest :=
  GetManifest name (reg (disp c)).

(** ** Maintenance *)

Definition window_json (w : Maintenance) : json :=
  JObj [("reason", JStr (Reason w)); ("since", JStr (time_json (Since w)));
        ("until", JStr (time_json (Until w)))].

(** [time.Duration(req.Seconds) * time.Second] *)
Definition window_length (seconds : Z) : Z := wrap64 (seconds * Second).

Definition setMaintenance (now now' : Z) (body : option maintenanceReq) : Handler Core Reply Reply :=
  match body with
  | None => fail 400 "invalid body"
  | Some req =>
      reject_if (negb (String.eqb (apiKey h) "") && negb (String.eqb (mr_APIKey req) (apiKey h)))
        (JSON 401 (error_body "invalid api key"));;
      reject_if (String.eqb (mr_Plugin req) "") (JSON 400 (error_body "plugin required"));;
      if negb (mr_On req) then
        modify (on_reg (ClearMaintenance (mr_Plugin req)));;
        mret (ok [("plugin", JStr (mr_Plugin req)); ("on", JBool false)])
      else
        c ← get_state;
        let '(r, w) := SetMaintenance now now' (mr_Plugin req) (mr_Reason req)
                         (window_length (mr_Seconds req)) (reg (disp c)) in
        modify (on_reg (λ _, r));;
        mret (ok [("plugin", JStr (mr_Plugin req)); ("on", JBool true); ("window", window_json w)])
  end.

Definition listMaintenance (now : Z) : Handler Core Reply (gmap string Maintenance) :=
  c ← get_state;
  let '(r, ws) := Maintenances now (reg (disp c)) in
  modify (on_reg (λ _, r));;
  mret ws.

(** ** Dashboard sessions *)

(** [c.Request.TLS != nil || c.GetHeader("X-Forwarded-Proto") == "https"] *)
Definition is_secure (tls : bool) (r : Request) : bool :=
  tls || String.eqb (GetHeader r "X-Forwarded-Proto") "https".

Definition setSessionCookie (tls : bool) (r : Request) (token : string) : Core → Core :=
  set_cookie sessionCookieName token (12 * 60 * 60) (is_secure tls r).

Definition login (now : Z) (tls : bool) (r : Request) (body : option string) :
    Handler Core Reply Reply :=
  match body with
  | None => fail 400 "invalid body"
  | Some key =>
      if String.eqb (apicorexSecret h) "" then
        let token := issue now (sessionSigner h) "dev" in
        modify (setSessionCookie tls r token);;
        mret (ok [("token", JStr token)])
      else if negb (String.eqb key (apicorexSecret h)) then fail 401 "invalid key"
      else
        let token := issue now (sessionSigner h) "dashboard" in
        modify (setSessionCookie tls r token);;
        mret (ok [("token", JStr token)])
  end.

Definition logout (tls : bool) (r : Request) : Handler Core Reply Reply :=
  modify (set_cookie sessionCookieName "" (-1) (is_secure tls r));;
  mret (ok [("success", JBool true)]).

(** The two gates; [None] lets the request through. *)
Definition RequireDashboardSession (Cookie : Request → string → option string) (now : Z)
    (r : Request) : option Reply :=
  if String.eqb (apicorexSecret h) "" then None
  else
    let token := default "" (Cookie r sessionCookieName) in
    if String.eqb token "" then
      Some (JSON 401 (error_body "login required — visit /dashboard to sign in"))
    else
      match verify now (sessionSigner h) token with
      | inl _ => None
      | inr _ => Some (JSON 401 (error_body "invalid or expired session"))
      end.

Definition requireSession (now : Z) (r : Request) : option Reply :=
  if String.eqb (apicorexSecret h) "" then None
  else
    let authz := GetHeader r "Authorization" in
    let token := TrimPrefix authz "Bearer " in
    if String.eqb token "" || String.eqb token authz then
      Some (JSON 401 (error_body "missing session token"))
    else
      match verify now (sessionSigner h) token with
      | inl _ => None
      | inr _ => Some (JSON 401 (error_body "invalid or expired session"))
      end.
End handlers.

(** ** The route table and the registry agree *)

(** Every plugin name has one instance; each plugin's routes are exactly those of
    its manifest; no route, limiter or tenant limiter outlives its plugin. *)
Record table_ok (d : Dispatcher) : Prop := {
  names_unique id id' e e' :
    plugins (reg d) !! id = Some e → plugins (reg d) !! id' = Some e' →
    PluginName (Info e) = PluginName (Info e') → id = id';
  routes_owned r : r ∈ routes d → is_Some (plugins (reg d) !! re_pluginID r);
  routes_served id e :
    plugins (reg d) !! id = Some e →
    filter (λ r, re_pluginID r = id) (routes d) =
      route_entry id (PluginName (Info e)) <$> Routes (Manifest e);
  limiters_owned id : is_Some (pluginRL d !! id) ↔ is_Some (plugins (reg d) !! id);
  tenants_owned id : is_Some (tenantRL d !! id) → is_Some (plugins (reg d) !! id)
}.

Definition core_ok (c : Core) : Prop := store_ok (reg (disp c)) ∧ table_ok (disp c).

(** What of an entry the agreement is about. *)
Definition same_plugins (ps ps' : gmap string PluginEntry) : Prop :=
  ∀ id, (λ e, (PluginName (Info e), Manifest e)) <$> ps' !! id =
        (λ e, (PluginName (Info e), Manifest e)) <$> ps !! id.

Lemma same_plugins_Some ps ps' id e' :
  same_plugins ps ps' → ps' !! id = Some e' →
  ∃ e, ps !! id = Some e ∧ PluginName (Info e') = PluginName (Info e) ∧ Manifest e' = Manifest e.
Proof.
  intros Hs He. specialize (Hs id). rewrite He in Hs. symmetry in Hs.
  apply fmap_Some in Hs as (e & He' & [= -> ->]). eauto.
Qed.
Lemma same_plugins_is_Some ps ps' id :
  same_plugins ps ps' → is_Some (ps' !! id) ↔ is_Some (ps !! id).
Proof. intros Hs. rewrite <- !(fmap_is_Some (λ e, (PluginName (Info e), Manifest e))). by rewrite Hs. Qed.

(** The limiters may move, not come or go. *)
Definition same_tables (d d' : Dispatcher) : Prop :=
  same_plugins (plugins (reg d)) (plugins (reg d')) ∧ routes d' = routes d ∧
  (∀ id, is_Some (pluginRL d' !! id) ↔ is_Some (pluginRL d !! id)) ∧
  (∀ id, is_Some (tenantRL d' !! id) ↔ is_Some (tenantRL d !! id)).

Lemma table_ok_same d d' : same_tables d d' → table_ok d → table_ok d'.
Proof.
  intros (Hp & Hr & Hl & Ht) [Hn Ho Hs Hlim Hten]. split.
  - intros id id' e e' (f & Hf & -> & _)%(same_plugins_Some _ _ _ _ Hp).
    intros (f' & Hf' & -> & _)%(same_plugins_Some _ _ _ _ Hp). by apply Hn.
  - intros r. rewrite Hr, (same_plugins_is_Some _ _ _ Hp). apply Ho.
  - intros id e (f & Hf & -> & ->)%(same_plugins_Some _ _ _ _ Hp). rewrite Hr. by apply Hs.
  - intros id. by rewrite Hl, Hlim, (same_plugins_is_Some _ _ _ Hp).
  - intros id. rewrite Ht, (same_plugins_is_Some _ _ _ Hp). apply Hten.
Qed.

Lemma table_ok_New r cb bh cfg :
  plugins r = ∅ → table_ok (Dispatcher.New r cb bh cfg).
Proof.
  intros Hr. split; simpl; rewrite ?Hr.
  - by intros ? ? ? ? ?%lookup_empty_Some.
  - by intros ? ?%not_elem_of_nil.
  - by intros ? ? ?%lookup_empty_Some.
  - intros id. by rewrite !lookup_empty.
  - intros id. by rewrite !lookup_empty.
Qed.

(** *** Eviction *)

Lemma evict_plugins c id : plugins (reg (disp (evict c id))) = delete id (plugins (reg (disp c))).
Proof. done. Qed.

Lemma evict_table_ok c id : table_ok (disp c) → table_ok (disp (evict c id)).
Proof.
  intros [Hn Ho Hs Hlim Hten]. split; cbn.
  - intros i i' e e' [_ Hi]%lookup_delete_Some [_ Hi']%lookup_delete_Some. by apply Hn.
  - intros r [Hne Hr]%list_elem_of_filter. rewrite lookup_delete_ne by congruence. by apply Ho.
  - intros i e [Hne Hi]%lookup_delete_Some. rewrite <- (Hs i e Hi), list_filter_filter.
    apply list_filter_iff. intros r. naive_solver.
  - intros i. destruct (decide (i = id)) as [->|Hne]; [by rewrite !lookup_delete_eq|].
    rewrite !lookup_delete_ne by done. apply Hlim.
  - intros i. destruct (decide (i = id)) as [->|Hne]; [by rewrite !lookup_delete_eq|].
    rewrite !lookup_delete_ne by done. apply Hten.
Qed.

Lemma evict_core_ok c id : core_ok c → core_ok (evict c id).
Proof. intros [Hs Ht]. split; [by apply map_Forall_delete|by apply evict_table_ok]. Qed.

Lemma foldl_evict_core_ok ids c : core_ok c → core_ok (foldl evict c ids).
Proof. revert c. induction ids; intros c Hc; simpl; [done|]. auto using evict_core_ok. Qed.

Lemma foldl_evict_plugins ids c id :
  plugins (reg (disp (foldl evict c ids))) !! id =
  if decide (id ∈ ids) then None else plugins (reg (disp c)) !! id.
Proof.
  revert c. induction ids as [|i ids IH]; intros c; cbn [foldl].
  { by rewrite decide_False by apply not_elem_of_nil. }
  rewrite IH, evict_plugins. destruct (decide (id = i)) as [->|Hne].
  - rewrite (decide_True (P := i ∈ i :: ids)) by left. case_decide; [done|apply lookup_delete_eq].
  - rewrite lookup_delete_ne by done. apply decide_ext. rewrite elem_of_cons. naive_solver.
Qed.

Lemma foldl_evict_rest ids c :
  injector (foldl evict c ids) = injector c ∧ cb (disp (foldl evict c ids)) = cb (disp c) ∧
  bh (disp (foldl evict c ids)) = bh (disp c) ∧ maint (reg (disp (foldl evict c ids))) = maint (reg (disp c)).
Proof.
  revert c. induction ids as [|i ids IH]; intros c; [done|].
  cbn [foldl]. destruct (IH (evict c i)) as (-> & -> & -> & ->). done.
Qed.

(** After [evict_named], exactly the plugins of that name are gone. *)
Lemma evict_named_plugins `{MapOrder} name c id :
  plugins (reg (disp (evict_named name c))) !! id =
  (e ← plugins (reg (disp c)) !! id; if decide (PluginName (Info e) = name) then None else Some e).
Proof.
  unfold evict_named. rewrite foldl_evict_plugins.
  destruct (plugins (reg (disp c)) !! id) as [e|] eqn:E; simpl; [|by case_decide].
  destruct (decide (PluginName (Info e) = name)) as [Hn|Hn].
  - rewrite decide_True; [done|]. apply elem_of_IDsByName. eauto.
  - rewrite decide_False; [done|]. rewrite elem_of_IDsByName. intros (e' & He' & Hn'). congruence.
Qed.

(** *** Enlisting *)

Lemma enlist_core_ok parse now id url m c c' :
  core_ok c → plugins (reg (disp c)) !! id = None →
  (∀ id' e, plugins (reg (disp c)) !! id' = Some e → PluginName (Info e) ≠ Name m) →
  enlist parse now id url m c = Some c' →
  core_ok c' ∧ ∃ target, parse url = Some target ∧
    plugins (reg (disp c')) =
      <[id := new_entry now id (Name m) url (Version m) m target (λ t, t)]> (plugins (reg (disp c))).
Proof.
  intros [Hst [Hn Ho Hs Hlim Hten]] Hid Hname H. unfold enlist, Register in H.
  destruct (parse url) as [target|] eqn:Hp; [|done]. simpl in H. injection H as <-.
  set (r' := set_plugins _ _).
  destruct (AddRoutes_fields id (Name m) (PluginType m) (Routes m) (set_reg r' (disp c)))
    as (Hreg & _ & _ & _ & Hroutes & HRL & HTL).
  set (d' := Dispatcher.AddRoutes id (Name m) (PluginType m) (Routes m) (set_reg r' (disp c))) in *.
  split; [|by exists target; split; [|change (plugins (reg d') = plugins r'); rewrite Hreg]].
  change (store_ok (reg d') ∧ table_ok d'). clearbody d'. cbn [set_reg reg routes pluginRL tenantRL cfg] in *.
  assert (∀ i, is_Some (plugins r' !! i) ↔ i = id ∨ is_Some (plugins (reg (disp c)) !! i)) as Hdom.
  { intros i. cbn. rewrite lookup_insert_is_Some'. naive_solver. }
  assert (∀ r, r ∈ routes (disp c) → re_pluginID r ≠ id) as Hfresh.
  { intros r Hr E. destruct (Ho r Hr) as [e He]. rewrite E in He. congruence. }
  split; [rewrite Hreg; by apply map_Forall_insert_2|].
  split; rewrite ?Hreg, ?Hroutes, ?HRL.
  - intros i i' e e'. cbn. rewrite !lookup_insert_Some.
    intros [[<- <-]|[? He]] [[<- <-]|[? He']] Hnm; try done; [| |by eapply Hn];
      exfalso; [by eapply (Hname _ _ He')|by eapply (Hname _ _ He)].
  - intros r. rewrite elem_of_app, list_elem_of_filter. rewrite Hdom.
    intros [[_ Hr]|(rt & -> & _)%list_elem_of_fmap]; [right; by apply Ho|by left].
  - intros i e. cbn. rewrite lookup_insert_Some, filter_app.
    intros [[<- <-]|[Hne He]]; cbn.
    + rewrite (filter_none _ (filter _ _)) by (intros r [? _]%list_elem_of_filter; done).
      apply filter_all. by intros r (rt & -> & _)%list_elem_of_fmap.
    + rewrite (filter_none _ (_ <$> _)), app_nil_r by (by intros r (rt & -> & _)%list_elem_of_fmap).
      rewrite <- (Hs i e He), list_filter_filter. apply list_filter_iff. intros r.
      split; [tauto|]. intros ->. naive_solver.
  - intros i. rewrite Hdom, <- Hlim, lookup_insert_is_Some'. naive_solver.
  - intros i. rewrite HTL, Hdom.
    destruct (f64_ltb _ _); [rewrite lookup_insert_is_Some'|rewrite lookup_delete_is_Some];
      specialize (Hten i); naive_solver.
Qed.

Lemma enlist_bh parse now id url m c c' :
  enlist parse now id url m c = Some c' → bh (disp c') = bh (disp c).
Proof.
  unfold enlist. destruct (Register _ _ _ _ _ _ _ _ _ _) as [r|]; [|done]. simpl. intros [= <-].
  cbn [set_injector on_core_disp set_core_disp disp].
  by destruct (AddRoutes_fields id (Name m) (PluginType m) (Routes m) (set_reg r (disp c)))
    as (_ & _ & -> & _).
Qed.

(** Enlisting under a fresh id once every earlier instance has been evicted. *)
Lemma enlist_evicted `{MapOrder} parse now id url m c c' :
  core_ok c → plugins (reg (disp c)) !! id = None →
  enlist parse now id url m (evict_named (Name m) c) = Some c' →
  core_ok c' ∧ ∃ target, parse url = Some target ∧
    plugins (reg (disp c')) =
      <[id := new_entry now id (Name m) url (Version m) m target (λ t, t)]>
        (plugins (reg (disp (evict_named (Name m) c)))).
Proof.
  intros Hok Hid. apply enlist_core_ok; [by apply foldl_evict_core_ok|..].
  - by rewrite evict_named_plugins, Hid.
  - intros id' e. rewrite evict_named_plugins.
    destruct (plugins (reg (disp c)) !! id') as [e'|]; simpl; [|done].
    destruct (decide _) as [|Hne]; [by intros [=]|by intros [= <-]].
Qed.

(** *** Operations that move nothing in the tables *)

#[export] Instance same_tables_preorder : PreOrder same_tables.
Proof.
  split; [done|]. intros d1 d2 d3 (P1 & R1 & L1 & T1) (P2 & R2 & L2 & T2).
  split_and!; [intros id; by rewrite P2, P1|congruence|..]; intros id;
    [by rewrite L2, L1|by rewrite T2, T1].
Qed.

Lemma same_tables_plugins d d' :
  plugins (reg d') = plugins (reg d) → routes d' = routes d → pluginRL d' = pluginRL d →
  tenantRL d' = tenantRL d → same_tables d d'.
Proof.
  intros Hp Hr Hl Ht. split_and!; [intros id; by rewrite Hp|done|..]; intros id; by rewrite ?Hl, ?Ht.
Qed.

Lemma spend_dom now key id m i : is_Some ((spend now key id m).1 !! i) ↔ is_Some (m !! i).
Proof.
  unfold spend. destruct (m !! id) as [rl|] eqn:E; [|done].
  destruct (RateLimiter.Allow _ _ _). simpl. rewrite lookup_insert_is_Some'.
  split; [intros [<-|?]|]; eauto.
Qed.

Lemma limiters_asked_same clk d id e d' : limiters_asked clk d id e d' → same_tables d d'.
Proof.
  intros (tm & -> & Htm). split_and!.
  - intros i. cbn. by rewrite (proj2 (proj2 (MaintenanceFor_maint _ _ _))).
  - done.
  - intros i. apply spend_dom.
  - intros i. cbn. destruct Htm as [->|(x & _ & ->)]; [done|apply spend_dom].
Qed.

Lemma refused_same clk d id m p d' : refused clk d id m p d' → same_tables d d'.
Proof.
  intros [|e pe Ha|e pe d1 Ha _ _ Hl|e pe d1 Ha _ _ Hl|e pe d1 Ha _ _ Hl]; [done|..].
  - apply same_tables_plugins; [|done..]. apply MaintenanceFor_maint.
  - by eapply limiters_asked_same.
  - by eapply limiters_asked_same.
  - etransitivity; [by eapply limiters_asked_same|]. by apply same_tables_plugins.
Qed.
Lemma entered_same clk d id e d' : entered clk d id e d' → same_tables d d'.
Proof.
  intros (d1 & Hl & ->). etransitivity; [by eapply limiters_asked_same|].
  by apply same_tables_plugins.
Qed.

Lemma Heartbeat_same now id r : same_plugins (plugins r) (plugins (Heartbeat now id r).1).
Proof.
  unfold Heartbeat. intros i. destruct (plugins r !! id) as [e|] eqn:E; [|done]. simpl.
  destruct (decide (i = id)) as [->|]; [by rewrite lookup_insert_eq, E|by rewrite lookup_insert_ne].
Qed.

Lemma core_ok_same d c :
  core_ok c → store_ok (reg d) → same_tables (disp c) d → core_ok (set_core_disp d c).
Proof. intros [_ Ht] Hs Hd. split; [done|by eapply table_ok_same]. Qed.

Lemma core_ok_reg r c :
  core_ok c → store_ok r → same_plugins (plugins (reg (disp c))) (plugins r) →
  core_ok (on_reg (λ _, r) c).
Proof. intros Hc Hs Hp. apply core_ok_same; [done..|]. split_and!; done. Qed.

(** ** What the handlers guarantee *)

Section guarantees.
Context `{MapOrder}.
Context (url_Parse : string → option Registry.URL) (parse_error : string → string).
Context (HTTPGet : string → (Z * string) + string) (Decode : string → Manifest.Manifest + string).
Context (Quote : string → string) (uuid : string) (time_json : Z → string) (h : Handlers).

Lemma reject_if_wp (b : bool) (r : Reply) QR (QA : Core → unit → Prop) c :
  (b = true → QR c r) → (b = false → QA c tt) → wp (reject_if b r) QR QA c.
Proof. intros. unfold reject_if. destruct b; [apply wp_answer|apply wp_ret]; auto. Qed.

(** The id a manifest's plugin is given. *)
Definition plugin_id (m : Manifest.Manifest) : string := Name m ++ "-" ++ take_bytes 8 uuid.

(** An answer that leaves everything in order. *)
Ltac refusal := intros; split; [done|cbn; lia].

(** C26: Registering installs exactly the plugin whose manifest was pulled: only for a
    caller with the key and a plugin on the allowlist; under a fresh id, alive, at
    the given address, with a token for that id; in place of every earlier
    instance of the same name and of no other plugin.  Whatever the answer, the
    route table and the registry still agree. *)
Theorem register_installs now issued body c :
  core_ok c →
  (∀ m, plugins (reg (disp c)) !! plugin_id m = None) →
  let '(c', res) := register url_Parse parse_error HTTPGet Decode Quote uuid h now issued body c in
  match res with
  | inl r => core_ok c' ∧ 400 ≤ Reply_code r
  | inr r => core_ok c' ∧ ∃ req m target,
      body = Some req ∧ (apiKey h = "" ∨ rr_APIKey req = apiKey h) ∧
      pullManifest HTTPGet Decode (rr_BaseURL req) = inl m ∧
      (allowlist h = ∅ ∨ Name m ∈ allowlist h) ∧ url_Parse (rr_BaseURL req) = Some target ∧
      r = ok [("plugin_id", JStr (plugin_id m));
              ("plugin_token", JStr (issue issued (signer h) (plugin_id m)))] ∧
      plugins (reg (disp c')) !! plugin_id m =
        Some (new_entry now (plugin_id m) (Name m) (rr_BaseURL req) (Version m) m target (λ t, t)) ∧
      (∀ id, id ≠ plugin_id m →
         plugins (reg (disp c')) !! id =
           (e ← plugins (reg (disp c)) !! id; if decide (PluginName (Info e) = Name m) then None else Some e)) ∧
      plugins_gauge c' = Z.of_nat (size (plugins (reg (disp c'))))
  end.
Proof.
  intros Hok Hfresh.
  apply wp_outcome.
  unfold register. destruct body as [req|]; [|apply wp_answer; refusal].
  wp_step. apply reject_if_wp; [refusal|]. intros Hkey. wp_step. apply reject_if_wp; [refusal|]. intros _.
  destruct (pullManifest HTTPGet Decode (rr_BaseURL req)) as [m|err] eqn:Hm; [|apply wp_answer; refusal].
  wp_step. apply reject_if_wp; [refusal|]. intros Hallow. wp_steps. fold (plugin_id m).
  pose proof (foldl_evict_core_ok (IDsByName (Name m) (reg (disp c))) c Hok) as Hok'.
  fold (evict_named (Name m) c) in Hok'.
  destruct (enlist url_Parse now (plugin_id m) (rr_BaseURL req) m (evict_named (Name m) c))
    as [c1|] eqn:He; [|apply wp_answer; refusal].
  wp_steps. apply enlist_evicted in He as (Hok1 & target & Htarget & Hps); [|done..].
  split; [done|]. exists req, m, target. cbn [count_plugins disp plugins_gauge]. split_and!; try done.
  - destruct (String.eqb_spec (apiKey h) ""), (String.eqb_spec (rr_APIKey req) (apiKey h)); auto; done.
  - repeat case_bool_decide; auto; done.
  - by rewrite Hps, lookup_insert_eq.
  - intros id Hid. by rewrite Hps, lookup_insert_ne, evict_named_plugins.
  - unfold List. by rewrite length_fmap, length_range.
Qed.

Lemma remove_plugin_plugins id c :
  plugins (reg (disp (remove_plugin id c).1)) = delete id (plugins (reg (disp c))).
Proof.
  unfold remove_plugin. run_steps. unfold Registry.Get.
  destruct (plugins (reg (disp c)) !! id) eqn:E; run_steps; [done|by rewrite delete_id].
Qed.

Lemma remove_plugin_run id c :
  core_ok c →
  let '(c', res) := remove_plugin id c in
  core_ok c' ∧ plugins (reg (disp c')) = delete id (plugins (reg (disp c))) ∧
  ∃ b, res = inr (ok [("success", JBool b)]) ∧ (b = true ↔ is_Some (plugins (reg (disp c)) !! id)).
Proof.
  intros Hok. unfold remove_plugin. run_steps.
  unfold Registry.Get. destruct (plugins (reg (disp c)) !! id) as [e|] eqn:E; run_steps.
  - split; [by apply (evict_core_ok c id)|]. split; [done|]. exists true. split; [done|]. by split; eauto.
  - rewrite delete_id by done. split; [done|]. split; [done|]. exists false.
    split; [done|]. split; [done|]. by intros [? ?].
Qed.

(** A plugin can only be taken out by itself: without a token that the control
    plane signed for that very id, and that has not expired, deregistering
    changes nothing and answers 400 or 401; with one, it removes that plugin and
    its routes, and no other plugin, and the tables still agree. *)
Theorem deregister_needs_own_token now body c :
  core_ok c →
  let '(c', res) := deregister h now body c in
  match res with
  | inl r => core_ok c' ∧ c' = c ∧ (Reply_code r = 400 ∨ Reply_code r = 401)
  | inr r => core_ok c' ∧ ∃ req, body = Some req ∧
      verify now (signer h) (tr_PluginToken req) = inl (tr_PluginID req) ∧
      plugins (reg (disp c')) = delete (tr_PluginID req) (plugins (reg (disp c))) ∧
      (∀ rt, rt ∈ routes (disp c') → re_pluginID rt ≠ tr_PluginID req)
  end.
Proof.
  intros Hok.
  apply wp_outcome.
  unfold deregister. destruct body as [req|]; [|apply wp_answer; auto].
  wp_step. apply reject_if_wp; [auto|]. intros Hv. unfold wp.
  pose proof (remove_plugin_run (tr_PluginID req) c Hok) as Hr.
  destruct (remove_plugin _ c) as [c' res]. destruct Hr as (Hok' & Hp & b & -> & _).
  split; [done|]. exists req. split_and!; [done| |done|].
  - unfold verifyToken in Hv. destruct (verify now (signer h) (tr_PluginToken req)) as [tid|]; [|done].
    bool_simpl. by subst.
  - intros rt Hrt Hid. destruct Hok' as [_ Ht]. apply (routes_owned _ Ht) in Hrt as [e He].
    by rewrite Hp, Hid, lookup_delete_eq in He.
Qed.

(** ** Every handler keeps the tables in agreement, and leaves the bulkhead alone *)

Definition quiet (c c' : Core) : Prop := core_ok c' ∧ bh (disp c') = bh (disp c).

Lemma quiet_reg r c :
  core_ok c → store_ok r → same_plugins (plugins (reg (disp c))) (plugins r) →
  quiet c (on_reg (λ _, r) c).
Proof. intros. split; [by apply core_ok_reg|done]. Qed.

Lemma register_quiet now issued body c :
  core_ok c → (∀ m, plugins (reg (disp c)) !! plugin_id m = None) →
  quiet c (register url_Parse parse_error HTTPGet Decode Quote uuid h now issued body c).1.
Proof.
  intros Hok Hfresh. apply (wp_state (quiet c)). unfold register. destruct body as [req|]; [|done].
  wp_step. apply reject_if_wp; [done|]. intros _. wp_step. apply reject_if_wp; [done|]. intros _.
  destruct (pullManifest HTTPGet Decode (rr_BaseURL req)) as [m|err]; [|done].
  wp_step. apply reject_if_wp; [done|]. intros _. wp_steps. fold (plugin_id m).
  assert (quiet c (evict_named (Name m) c)) as [Hok' Hbh]
    by (split; [by apply foldl_evict_core_ok|apply foldl_evict_rest]).
  destruct (enlist _ _ _ _ _ _) as [c1|] eqn:He; wp_steps; [|done].
  split; [|rewrite <- Hbh; exact (enlist_bh _ _ _ _ _ _ _ He)].
  apply enlist_evicted in He as [Hok1 _]; [exact Hok1|done|apply Hfresh].
Qed.

Lemma heartbeat_quiet now now' body c : core_ok c → quiet c (heartbeat h now now' body c).1.
Proof.
  intros Hok. apply (wp_state (quiet c)). unfold heartbeat. destruct body as [req|]; [|done].
  wp_step. apply reject_if_wp; [done|]. intros _. wp_steps.
  pose proof (Heartbeat_same now' (tr_PluginID req) (reg (disp c))) as Hs.
  pose proof (Heartbeat_store_ok now' (tr_PluginID req) (reg (disp c)) (proj1 Hok)) as Hst.
  destruct (Heartbeat _ _ _) as [r found]. wp_steps. destruct found; by apply quiet_reg.
Qed.

Lemma remove_plugin_quiet id c : core_ok c → quiet c (remove_plugin id c).1.
Proof.
  intros Hok. unfold remove_plugin. run_steps. destruct (Registry.Get _ _); run_steps; [|done].
  split; [|done]. by apply (evict_core_ok c id).
Qed.

Lemma deregister_quiet now body c : core_ok c → quiet c (deregister h now body c).1.
Proof.
  intros Hok. apply (wp_state (quiet c)). unfold deregister. destruct body as [req|]; [|done].
  wp_step. apply reject_if_wp; [done|]. intros _. unfold wp.
  pose proof (remove_plugin_quiet (tr_PluginID req) c Hok). by destruct (remove_plugin _ _) as [? []].
Qed.

Lemma setMaintenance_quiet now now' body c :
  core_ok c → quiet c (setMaintenance time_json h now now' body c).1.
Proof.
  intros Hok. apply (wp_state (quiet c)). unfold setMaintenance. destruct body as [req|]; [|done].
  wp_step. apply reject_if_wp; [done|]. intros _. wp_step. apply reject_if_wp; [done|]. intros _.
  destruct (negb (mr_On req)); wp_steps; (apply quiet_reg; [done|apply Hok|done]).
Qed.

Lemma listMaintenance_quiet now c : core_ok c → quiet c (listMaintenance now c).1.
Proof.
  intros Hok. unfold listMaintenance. run_steps.
  pose proof (Maintenances_plugins now (reg (disp c))) as Hp.
  destruct (Maintenances now (reg (disp c))) as [r ws]. simpl in *.
  apply quiet_reg; [done|unfold store_ok; rewrite Hp; apply Hok|intros id; by rewrite Hp].
Qed.

Lemma resetBreaker_quiet id c : core_ok c → quiet c (resetBreaker id c).1.
Proof.
  intros Hok. unfold resetBreaker. run_steps. destruct (Registry.Get _ _); run_steps; [|done].
  split; [|done]. apply core_ok_same; [done|apply Hok|by apply same_tables_plugins].
Qed.

(** Who moves which plugins. *)
Definition same_domain (c c' : Core) : Prop :=
  ∀ id, is_Some (plugins (reg (disp c')) !! id) ↔ is_Some (plugins (reg (disp c)) !! id).

Lemma register_authentic now issued body c :
  let c' := (register url_Parse parse_error HTTPGet Decode Quote uuid h now issued body c).1 in
  c' = c ∨ ∃ req, body = Some req ∧ (apiKey h = "" ∨ rr_APIKey req = apiKey h).
Proof.
  intros c'. unfold c'. clear c'.
  apply (wp_state (λ c', c' = c ∨ ∃ req, body = Some req ∧ (apiKey h = "" ∨ rr_APIKey req = apiKey h))).
  unfold register. destruct body as [req|]; [|by left].
  wp_step. apply reject_if_wp; [by left|]. intros Hkey.
  assert (∃ req', Some req = Some req' ∧ (apiKey h = "" ∨ rr_APIKey req' = apiKey h)) as Hr.
  { exists req. split; [done|].
    destruct (String.eqb_spec (apiKey h) ""), (String.eqb_spec (rr_APIKey req) (apiKey h)); auto; done. }
  by apply wp_any; right.
Qed.

Lemma heartbeat_domain now now' body c : same_domain c (heartbeat h now now' body c).1.
Proof.
  apply (wp_state (same_domain c)). unfold heartbeat. destruct body as [req|]; [|done].
  wp_step. apply reject_if_wp; [done|]. intros _. wp_steps.
  pose proof (Heartbeat_same now' (tr_PluginID req) (reg (disp c))) as Hs.
  destruct (Heartbeat _ _ _) as [r found].
  destruct found; wp_steps; intros id; by apply same_plugins_is_Some.
Qed.

Lemma deregister_authentic now body c :
  let c' := (deregister h now body c).1 in
  c' = c ∨ ∃ req, body = Some req ∧ verify now (signer h) (tr_PluginToken req) = inl (tr_PluginID req) ∧
    plugins (reg (disp c')) = delete (tr_PluginID req) (plugins (reg (disp c))).
Proof.
  intros c'. unfold c'. clear c'.
  apply (wp_state (λ c', c' = c ∨ ∃ req, body = Some req ∧
    verify now (signer h) (tr_PluginToken req) = inl (tr_PluginID req) ∧
    plugins (reg (disp c')) = delete (tr_PluginID req) (plugins (reg (disp c))))).
  unfold deregister. destruct body as [req|]; [|by left].
  wp_step. apply reject_if_wp; [by left|]. intros Hv. unfold wp.
  pose proof (remove_plugin_plugins (tr_PluginID req) c) as Hp.
  destruct (remove_plugin _ c) as [c' res]. cbn [fst] in Hp.
  assert (verify now (signer h) (tr_PluginToken req) = inl (tr_PluginID req)) as Hid.
  { unfold verifyToken in Hv. destruct (verify now (signer h) (tr_PluginToken req)) as [tid|]; [|done].
    bool_simpl. by subst. }
  destruct res; right; by eauto.
Qed.

Lemma login_quiet now tls r body c : core_ok c → quiet c (login h now tls r body c).1.
Proof.
  intros Hok. unfold login. destruct body as [key|]; [|done].
  destruct (String.eqb (apicorexSecret h) ""); [done|]. by destruct (negb _).
Qed.

Lemma logout_quiet tls r c : core_ok c → quiet c (logout tls r c).1.
Proof. done. Qed.
End guarantees.

(** ** Sessions *)

Lemma verify_valid_None s now token (r : Reply) :
  match verify now s token with inl _ => None | inr _ => Some r end = None →
  ∃ id, verify now s token = inl id.
Proof. destruct (verify now s token); eauto; done. Qed.

(** Whoever passes a gate carries a session the control plane signed. *)
Lemma requireSession_passes h now q :
  requireSession h now q = None →
  apicorexSecret h = "" ∨
  ∃ token id, GetHeader q "Authorization" = "Bearer " ++ token ∧
    verify now (sessionSigner h) token = inl id.
Proof.
  unfold requireSession. destruct (String.eqb_spec (apicorexSecret h) ""); [by left|].
  destruct (String.eqb (TrimPrefix _ _) "") eqn:E1; [done|].
  destruct (String.eqb (TrimPrefix _ _) (GetHeader q "Authorization")) eqn:E2; [done|].
  intros Hv%verify_valid_None. destruct Hv as [id Hid]. right.
  exists (TrimPrefix (GetHeader q "Authorization") "Bearer "), id.
  split; [|done]. bool_simpl. unfold TrimPrefix in E2 |- *.
  destruct (HasPrefix _ _) eqn:Hp; [|done]. apply HasPrefix_iff in Hp as [t ->].
  by rewrite drop_prefix_app.
Qed.
Lemma RequireDashboardSession_passes h Cookie now q :
  RequireDashboardSession h Cookie now q = None →
  apicorexSecret h = "" ∨
  ∃ token id, Cookie q sessionCookieName = Some token ∧ verify now (sessionSigner h) token = inl id.
Proof.
  unfold RequireDashboardSession. destruct (String.eqb_spec (apicorexSecret h) ""); [by left|].
  destruct (Cookie q sessionCookieName) as [t|]; simpl; [|done].
  destruct (String.eqb t ""); [done|]. intros [id Hid]%verify_valid_None. eauto.
Qed.

(** With a dashboard secret set, the key opens a session and nothing else does:
    a wrong key is answered 401 and no cookie is set; the right one yields a
    token, also set as the cookie, that both gates accept for twelve hours; and
    neither gate lets a request through without a token the session signer
    signed and that has not expired. *)
Theorem session_gates `{MapOrder} key allow signerSecret secret now tls r c :
  let h := New key allow signerSecret secret in
  secret ≠ "" → in_int64 (Unix (now + 12 * Hour)) →
  (∀ k, k ≠ secret → login h now tls r (Some k) c = (c, inl (JSON 401 (error_body "invalid key")))) ∧
  (∃ token,
     login h now tls r (Some secret) c =
       (setSessionCookie tls r token c, inr (ok [("token", JStr token)])) ∧
     ∀ now' q Cookie, Unix now' ≤ Unix (now + 12 * Hour) →
       (GetHeader q "Authorization" = "Bearer " ++ token → requireSession h now' q = None) ∧
       (Cookie q sessionCookieName = Some token → RequireDashboardSession h Cookie now' q = None)) ∧
  (∀ now' q, requireSession h now' q = None →
     ∃ token id, GetHeader q "Authorization" = "Bearer " ++ token ∧
       verify now' (sessionSigner h) token = inl id) ∧
  (∀ now' q Cookie, RequireDashboardSession h Cookie now' q = None →
     ∃ token id, Cookie q sessionCookieName = Some token ∧
       verify now' (sessionSigner h) token = inl id).
Proof.
  intros h Hs Hexp. assert (apicorexSecret h = secret) as Hsec by done.
  assert (String.eqb secret "" = false) as Hs' by by apply String.eqb_neq.
  assert (∀ t, String.eqb t ("Bearer " ++ t) = false) as Hlen.
  { intros t. apply String.eqb_neq. intros E. apply (f_equal String.length) in E.
    rewrite length_append in E. simpl in E. lia. }
  split_and!.
  - intros k Hk. unfold login. rewrite Hsec, Hs'. by rewrite (proj2 (String.eqb_neq _ _) Hk).
  - exists (issue now (sessionSigner h) "dashboard"). split.
    { unfold login. rewrite Hsec, Hs'. by rewrite String.eqb_refl. }
    set (token := issue now (sessionSigner h) "dashboard").
    assert (String.eqb token "" = false) as Htok.
    { apply String.eqb_neq. intros E. apply (f_equal RawURLDecode) in E. unfold token in E.
      by rewrite issue_text, RawURLDecode_Encode in E. }
    intros now' q Cookie Hnow.
    assert (verify now' (sessionSigner h) token = inl "dashboard") as Hv.
    { unfold token. rewrite verify_issued by done. change (ttl (sessionSigner h)) with (12 * Hour).
      by rewrite (proj2 (Z.ltb_ge _ _) Hnow). }
    unfold requireSession, RequireDashboardSession. rewrite Hsec, Hs'. split.
    + intros ->. rewrite TrimPrefix_app, Htok, Hlen. cbn [orb]. by rewrite Hv.
    + intros ->. change (default "" (Some token)) with token. by rewrite Htok, Hv.
  - intros now' q Hq. apply requireSession_passes in Hq as [Hq|Hq]; [congruence|done].
  - intros now' q Cookie Hq. apply RequireDashboardSession_passes in Hq as [Hq|Hq]; [congruence|done].
Qed.

(** ** What modelling showed *)

(** A plugin whose id holds a dot, as every plugin with a dot in its name has,
    can register but is then locked out: whatever token it presents, its
    heartbeats and its deregistration are refused. *)
Theorem dotted_plugins_are_locked_out `{MapOrder} h now now' token id c :
  has_byte "." id = true →
  let body := Some {| tr_PluginID := id; tr_PluginToken := token |} in
  heartbeat h now now' body c = (c, inl (JSON 401 (error_body "invalid plugin token"))) ∧
  deregister h now body c = (c, inl (JSON 401 (error_body "invalid plugin token"))).
Proof.
  intros Hid body. assert (verifyToken h now token id = false) as Hv.
  { unfold verifyToken. destruct (verify now (signer h) token) as [tid|] eqn:E; [|done].
    apply String.eqb_neq. intros ->. by apply dotted_ids_never_verify in E. }
  unfold heartbeat, deregister, body. cbn [tr_PluginID tr_PluginToken]. by rewrite Hv.
Qed.

Lemma dotted_plugins_are_locked_out_witness :
  let h := New "k" [] "k" "" in
  let c := {| disp := Dispatcher.New Registry.New (CircuitBreaker.New 5 Second) (Bulkhead.New 1) Defaults;
              injector := NewInjector; plugins_gauge := 0; cookies := [] |} in
  heartbeat h 0 0 (Some {| tr_PluginID := "acme.pos-1a2b3c4d";
                           tr_PluginToken := issue 0 (signer h) "acme.pos-1a2b3c4d" |}) c =
  (c, inl (JSON 401 (error_body "invalid plugin token"))).
Proof.
  intros h c. exact (proj1 (dotted_plugins_are_locked_out (H := sorted_order) h 0 0
    (issue 0 (signer h) "acme.pos-1a2b3c4d") "acme.pos-1a2b3c4d" c eq_refl)).
Defined.

(** An excessive window is not always clamped to the longest one: the product of
    seconds and a second wraps, and 18446744074 seconds open a window of a third
    of a second. *)
Theorem excessive_window_wraps now now' name reason r :
  window_length 18446744074 = 290448384 ∧
  Until (SetMaintenance now now' name reason (window_length 18446744074) r).2 = now + 290448384.
Proof. by split. Qed.

(** A plugin that comes back without a document keeps being documented by its old one. *)
Lemma reregistration_keeps_stale_document `{MapOrder} parse now id url m c c' :
  OpenAPISpec m = "" → enlist parse now id url m (evict_named (Name m) c) = Some c' →
  injector c' = injector c.
Proof.
  intros Hm. unfold enlist. destruct (Register _ _ _ _ _ _ _ _ _ _) as [r|]; [|done].
  simpl. intros [= <-]. unfold Openapi.AddRoutes. rewrite Hm. simpl.
  transitivity (injector (evict_named (Name m) c)); [done|]. apply foldl_evict_rest.
Qed.

(** Two registrations of one plugin can interleave: each evicts the instances it
    sees and only then adds its own, so when both evict first, two live
    instances with the same name and the same routes remain. *)
Theorem concurrent_registrations_duplicate `{MapOrder} m url target (c : Core) :
  let parse := λ _, Some target in
  let evicted := evict_named (Name m) (evict_named (Name m) c) in
  ∃ c1 c2, enlist parse 1 "a" url m evicted = Some c1 ∧ enlist parse 2 "b" url m c1 = Some c2 ∧
    ∃ e e', plugins (reg (disp c2)) !! "a" = Some e ∧ plugins (reg (disp c2)) !! "b" = Some e' ∧
      PluginName (Info e) = PluginName (Info e') ∧ Alive e = true ∧ Alive e' = true.
Proof.
  intros parse evicted. unfold enlist, Register. simpl.
  do 2 eexists. split; [done|]. split; [done|].
  set (d := set_reg _ (disp evicted)). 
  destruct (AddRoutes_fields "a" (Name m) (PluginType m) (Routes m) d) as (Hreg & _).
  cbn [disp set_injector on_core_disp set_core_disp].
  match goal with |- context [plugins (reg (Dispatcher.AddRoutes "b" ?n ?t ?rs ?d'))] =>
    destruct (AddRoutes_fields "b" n t rs d') as (-> & _) end.
  cbn [reg set_reg plugins set_plugins]. rewrite Hreg. cbn [reg d set_reg plugins set_plugins].
  rewrite lookup_insert_ne, !lookup_insert_eq by done. eauto 10.
Qed.

(** ** A fresh control plane, for the witnesses *)

Definition demo_core : Core := {|
  disp := Dispatcher.New Registry.New (CircuitBreaker.New 5 (30 * Second)) (Bulkhead.New 100) Defaults;
  injector := NewInjector; plugins_gauge := 0; cookies := [] |}.
Lemma demo_core_ok : core_ok demo_core.
Proof. split; [apply New_store_ok|by apply table_ok_New]. Qed.

Definition demo_handlers : Handlers := New "key" [] "key" "s3cret".
Definition demo_target : Registry.URL := {| Scheme := "http"; Registry.Host := "h:1" |}.

Lemma register_installs_witness :
  ∃ c' r, register (H := sorted_order) (λ _, Some demo_target) (λ s, s) (λ _, inl (200, ""))
      (λ _, inl (demo_menu "pos" "")) (λ s, s) "1a2b3c4d5e" demo_handlers 0 0
      (Some {| rr_BaseURL := "http://h:1"; rr_APIKey := "key" |}) demo_core = (c', inr r) ∧
    core_ok c' ∧ is_Some (plugins (reg (disp c')) !! "pos-1a2b3c4d").
Proof.
  pose proof (register_installs (H := sorted_order) (λ _, Some demo_target) (λ s, s)
    (λ _, inl (200, "")) (λ _, inl (demo_menu "pos" "")) (λ s, s) "1a2b3c4d5e" demo_handlers 0 0
    (Some {| rr_BaseURL := "http://h:1"; rr_APIKey := "key" |}) demo_core demo_core_ok
    (λ _, eq_refl)) as Hr.
  destruct (register _ _ _ _ _ _ _ _ _ _ _) as [c' [r|r]] eqn:E.
  - apply (f_equal snd) in E. vm_compute in E. discriminate.
  - exists c', r. split; [done|]. destruct Hr as [Hok (req & m & t & _ & _ & Hm & _ & _ & _ & Hp & _)].
    split; [done|]. injection Hm as <-. eexists. exact Hp.
Defined.

Lemma deregister_needs_own_token_witness :
  match (deregister (H := sorted_order) demo_handlers 0
           (Some {| tr_PluginID := "pos-1a2b3c4d"; tr_PluginToken := "forged" |}) demo_core).2 with
  | inl r => Reply_code r = 400 ∨ Reply_code r = 401
  | inr _ => False
  end.
Proof.
  pose proof (deregister_needs_own_token (H := sorted_order) demo_handlers 0
    (Some {| tr_PluginID := "pos-1a2b3c4d"; tr_PluginToken := "forged" |}) demo_core demo_core_ok) as Hd.
  destruct (deregister _ _ _ _) as [c' [r|r]] eqn:E; cbn [snd].
  - by destruct Hd as (_ & _ & ?).
  - apply (f_equal snd) in E. vm_compute in E. discriminate.
Defined.

Lemma session_gates_witness :
  login demo_handlers 0 true device_request (Some "guess") demo_core =
  (demo_core, inl (JSON 401 (error_body "invalid key"))).
Proof.
  apply (proj1 (session_gates (H := sorted_order) "key" [] "key" "s3cret" 0 true device_request demo_core
    ltac:(done) ltac:(by vm_compute)) "guess"). done.
Defined.
