(* ===== verification/Gateway.v ===== *)
(** The gateway's state and, as single steps of it, what changes it: each operation of the
    control plane, each tick of the health monitor and of the limiter sweep, each
    refusal of a request, each admission and each end.  In the program most of these
    are several critical sections: [Threads] takes them apart, and [Interleaving] says
    what is left of what holds here.  [Admission] and [Retention] prove of these steps
    what does not depend on their being single. *)

From S2P Require Import Prelude GoStrings Float64 Crypto Manifest Protection RateLimiter Config Auth Registry PluginToken Openapi Health Http Middleware Nav Proxy Dispatcher ControlPlane.

(** The shared state, and the routes of the requests being proxied. *)
Record gateway := { g_core : Core; g_flying : list routeEntry }.

Definition start (cfg : Config.Config) : gateway := {|
  g_core := {|
    disp := Dispatcher.New Registry.New
      (CircuitBreaker.New (CBThreshold (Default cfg)) (CBResetTimeout (Default cfg)))
      (Bulkhead.New (Config.BulkheadMax (Default cfg))) cfg;
    injector := NewInjector; plugins_gauge := 0; cookies := [] |};
  g_flying := [] |}.

Definition on_core (f : Core → Core) (s : gateway) : gateway :=
  {| g_core := f (g_core s); g_flying := g_flying s |}.

(** The cookies a handler set leave with its response. *)
Definition flush (c : Core) : Core := {|
  disp := disp c; injector := injector c; plugins_gauge := plugins_gauge c; cookies := [] |}.
Definition by_handler {R A} (m : Handler Core R A) : gateway → gateway := on_core (λ c, flush (m c).1).

(** The bulkhead's share of the state: its counters, and one entry per request in flight. *)
Definition slots (s : gateway) : Bulkhead.world :=
  {| Bulkhead.bh := bh (disp (g_core s)); Bulkhead.in_flight := re_pluginID <$> g_flying s |}.

Section system.
Context `{MapOrder}.
Context (h : Handlers) (url_Parse : string → option Registry.URL) (parse_error : string → string).
Context (HTTPGet : string → (Z * string) + string) (Decode : string → Manifest.Manifest + string).
Context (Quote : string → string) (time_json : Z → string).

(** How a request that was let in leaves: its breaker told of a success or a
    failure, or of nothing when the proxy panicked. *)
Inductive verdict (p : string) : (CircuitBreaker.t → CircuitBreaker.t) → Prop :=
| verdict_success : verdict p (CircuitBreaker.RecordSuccess p)
| verdict_failure now : verdict p (CircuitBreaker.RecordFailure now p)
| verdict_panic : verdict p (λ b, b).

Inductive step (s : gateway) : gateway → Prop :=
(* the control plane *)
| step_register uuid now issued body :
    (∀ m, plugins (reg (disp (g_core s))) !! plugin_id uuid m = None) →
    step s (by_handler (register url_Parse parse_error HTTPGet Decode Quote uuid h now issued body) s)
| step_heartbeat now now' body : step s (by_handler (heartbeat h now now' body) s)
| step_deregister now body : step s (by_handler (deregister h now body) s)
| step_admin_deregister id : step s (by_handler (adminDeregister id) s)
| step_reset_breaker id : step s (by_handler (resetBreaker id) s)
| step_set_maintenance now now' body : step s (by_handler (setMaintenance time_json h now now' body) s)
| step_list_maintenance now : step s (by_handler (listMaintenance now) s)
| step_login now tls r body : step s (by_handler (login h now tls r body) s)
| step_logout tls r : step s (by_handler (logout tls r) s)
(* background work *)
| step_health Do now :
    step s (on_core (λ c,
      let '(r, b) := checkAll Do now (reg (disp c), cb (disp c)) in
      set_core_disp (set_cb b (set_reg r (disp c))) c) s)
| step_sweep now idle : step s (on_core (on_core_disp (tenant_sweep now idle)) s)
(* requests *)
| step_refuse clk id method path d' :
    refused clk (disp (g_core s)) id method path d' → step s (on_core (set_core_disp d') s)
| step_enter clk id method path e pe d' :
    admitted clk (disp (g_core s)) id method path e pe → entered clk (disp (g_core s)) id e d' →
    step s {| g_core := set_core_disp d' (g_core s); g_flying := e :: g_flying s |}
| step_leave pre e post f :
    g_flying s = app pre (e :: post) → verdict (re_pluginID e) f →
    step s {| g_core := on_core_disp (left_by e f) (g_core s); g_flying := app pre post |}.

(** ** The handler is an entry and an exit *)

(** What [Dispatch] does to the shared state, on every path, is one refusal, or one
    admission followed by one exit. *)
Lemma Dispatch_steps uuid Inject RoundTrip Dial clk w c fl :
  disp c = w_disp w →
  rtc step {| g_core := c; g_flying := fl |}
    {| g_core := set_core_disp (w_disp (Dispatch uuid Inject RoundTrip Dial clk w).1) c;
       g_flying := fl |}.
Proof.
  intros Hd. apply (Dispatch_cases uuid Inject RoundTrip Dial clk (λ w' _,
    rtc step {| g_core := c; g_flying := fl |}
      {| g_core := set_core_disp (w_disp w') c; g_flying := fl |}) w).
  - intros w' _ Hr. apply rtc_once. rewrite <- Hd in Hr.
    by apply (step_refuse {| g_core := c; g_flying := fl |}) in Hr.
  - intros e pe d1 w' Hadm Hent. rewrite <- Hd in Hadm, Hent.
    assert (∀ f, verdict (re_pluginID e) f → w_disp w' = left_by e f d1 →
      rtc step {| g_core := c; g_flying := fl |} {| g_core := set_core_disp (w_disp w') c; g_flying := fl |}) as Hf.
    { intros f Hv ->. eapply rtc_l; [by eapply step_enter|]. cbn [g_core g_flying]. apply rtc_once.
      exact (step_leave {| g_core := set_core_disp d1 c; g_flying := e :: fl |} [] e fl f eq_refl Hv). }
    split; [intros _ rep; apply Hf; constructor|]. intros _. apply Hf. unfold settled.
    destruct (px_panicked _); [constructor|]. destruct (500 <=? _); constructor.
Qed.

(** ** The invariant *)

(** The tables agree, and the bulkhead counts exactly the requests in flight,
    within its limit. *)
Definition gateway_ok (n : Z) (s : gateway) : Prop :=
  core_ok (g_core s) ∧ Bulkhead.accounted n (slots s).

Lemma flush_quiet c c' : quiet c c' → quiet c (flush c').
Proof. done. Qed.
Lemma quiet_ok c c' : quiet c c' → core_ok c'.
Proof. by intros []. Qed.

Lemma health_quiet Do now c :
  core_ok c →
  quiet c (let '(r, b) := checkAll Do now (reg (disp c), cb (disp c)) in
           set_core_disp (set_cb b (set_reg r (disp c))) c).
Proof.
  intros [Hs Ht]. pose proof (checkAll_plugins Do now (reg (disp c), cb (disp c)) Hs) as Hp.
  destruct (checkAll Do now _) as [r b]. cbn [fst] in Hp.
  split; [|done]. apply core_ok_same; [done|..].
  - cbn. unfold store_ok. rewrite Hp. apply map_Forall_fmap. intros id e He.
    destruct (Hs id e He) as (H1 & H2 & H3 & _). unfold probed. cbn. destruct (healthy Do e); by split_and!.
  - split_and!; [|done..]. intros id. cbn. rewrite Hp, lookup_fmap, <- option_fmap_compose.
    apply option_fmap_ext. intros e. unfold probed. cbn. by destruct (healthy Do e).
Qed.

Lemma sweep_quiet now idle c : core_ok c → quiet c (on_core_disp (tenant_sweep now idle) c).
Proof.
  intros Hc. split; [|done]. apply core_ok_same; [done|apply Hc|]. split_and!; [done..|].
  intros id. cbn. by rewrite lookup_fmap, fmap_is_Some.
Qed.

(** Steps of a request move no plugin. *)
Lemma core_ok_touched p c d :
  core_ok c → touches p (disp c) d → same_tables (disp c) d → core_ok (set_core_disp d c).
Proof. intros Hc (_ & Hp & _) Hs. apply core_ok_same; [done| |done]. unfold store_ok. rewrite Hp. apply Hc. Qed.

(** What a request does to the bulkhead is a path of [Bulkhead.step]. *)
Lemma acquire_step d e fl b :
  (Bulkhead.Acquire (re_pluginID e) (bh d)).2 = None → b = bh d →
  Bulkhead.step {| Bulkhead.bh := b; Bulkhead.in_flight := re_pluginID <$> fl |}
    {| Bulkhead.bh := (Bulkhead.Acquire (re_pluginID e) (bh d)).1;
       Bulkhead.in_flight := re_pluginID <$> e :: fl |}.
Proof.
  intros Ha ->. rewrite fmap_cons. apply (Bulkhead.start_request {| Bulkhead.bh := _ |}).
  cbn. by rewrite <- Ha, <- surjective_pairing.
Qed.
Lemma release_step pre e post b :
  Bulkhead.step {| Bulkhead.bh := b; Bulkhead.in_flight := re_pluginID <$> app pre (e :: post) |}
    {| Bulkhead.bh := Bulkhead.Release (re_pluginID e) b;
       Bulkhead.in_flight := re_pluginID <$> app pre post |}.
Proof. rewrite !fmap_app. by apply (Bulkhead.finish_request {| Bulkhead.bh := _ |}). Qed.

Lemma refuse_slots clk id method path d' s :
  refused clk (disp (g_core s)) id method path d' →
  rtc Bulkhead.step (slots s) (slots (on_core (set_core_disp d') s)).
Proof.
  intros [|e pe|e pe d1 _ _ _ Hl|e pe d1 _ _ _ Hl|e pe d1 _ _ _ Hl Hs]; try done;
    [by apply touches_limiters in Hl as (_ & Hb & _); unfold slots; cbn; rewrite Hb..|].
  eapply rtc_l; [apply (acquire_step (disp (g_core s)) e (g_flying s)); [exact Hs|done]|].
  apply rtc_once. apply (release_step [] e (g_flying s)).
Qed.

Lemma enter_slots clk id method path e pe d' s :
  admitted clk (disp (g_core s)) id method path e pe → entered clk (disp (g_core s)) id e d' →
  Bulkhead.step (slots s)
    (slots {| g_core := set_core_disp d' (g_core s); g_flying := e :: g_flying s |}).
Proof.
  intros (_ & _ & _ & Hs & _) (d1 & _ & ->). by apply (acquire_step (disp (g_core s))).
Qed.

(** The steps that are one call of a handler. *)
Create HintDb quiet.
#[local] Hint Resolve register_quiet heartbeat_quiet deregister_quiet remove_plugin_quiet
  resetBreaker_quiet setMaintenance_quiet listMaintenance_quiet login_quiet logout_quiet
  health_quiet sweep_quiet flush_quiet : quiet.

Lemma step_core_ok s s' : core_ok (g_core s) → step s s' → core_ok (g_core s').
Proof.
  intros Hc Hs. destruct Hs; unfold by_handler; cbn [on_core g_core]; try (apply (quiet_ok (g_core s)); solve [auto with quiet]).
  - destruct (touches_refused _ _ _ _ _ _ ltac:(eassumption)) as [->|(e & _ & Ht)];
      [by destruct (g_core s)|]. eapply core_ok_touched; [done..|by eapply refused_same].
  - eapply core_ok_touched; [done|by eapply touches_entered|by eapply entered_same].
  - apply core_ok_same; [done|apply Hc|by apply same_tables_plugins].
Qed.

Lemma step_slots s s' : core_ok (g_core s) → step s s' → rtc Bulkhead.step (slots s) (slots s').
Proof.
  intros Hc Hs. destruct Hs as [| | | | | | | | | | |clk id method path d' Hr|clk id method path e pe d' Ha He|pre e post f Hf Hv];
    try (unfold slots, by_handler, on_core; cbn [g_core g_flying];
         match goal with |- rtc _ _ {| Bulkhead.bh := bh (disp ?c) |} =>
           assert (quiet (g_core s) c) as [_ ->] by auto with quiet end; done).
  - by eapply refuse_slots.
  - by eapply rtc_once, enter_slots.
  - apply rtc_once. unfold slots. rewrite Hf. apply release_step.
Qed.

Lemma step_ok n s s' : gateway_ok n s → step s s' → gateway_ok n s'.
Proof.
  intros [Hc Hb] Hs. split; [by eapply step_core_ok|].
  eapply (rtc_preserved _ (Bulkhead.accounted n)); [apply Bulkhead.step_accounted|done|by apply step_slots].
Qed.
Lemma reachable_ok cfg s :
  rtc step (start cfg) s → gateway_ok (Config.BulkheadMax (Default cfg)) s.
Proof.
  intros Hr. eapply (rtc_preserved _ (gateway_ok _)); [intros ????; by eapply step_ok| |done].
  split; [split; [apply New_store_ok|by apply table_ok_New]|]. by apply Bulkhead.reachable_accounted.
Qed.

Lemma match_in d method path e : match_ d method path = Some e → e ∈ routes d.
Proof.
  unfold match_. destruct (List.find (exact method path) (routes d)) eqn:E.
  - intros [= <-]. by apply List.find_some in E as [?%list_elem_of_In _].
  - intros [?%list_elem_of_In _]%List.find_some. done.
Qed.

(** Where the tables agree, what is matched is declared. *)
Lemma matched_declared c method path e :
  core_ok c → match_ (disp c) method path = Some e →
  ∃ pe rt, plugins (reg (disp c)) !! re_pluginID e = Some pe ∧
    rt ∈ Routes (Manifest pe) ∧ e = route_entry (re_pluginID e) (PluginName (Info pe)) rt.
Proof.
  intros [_ [_ Ho Hs _ _]] Hm%match_in. destruct (Ho e Hm) as [pe Hpe].
  assert (e ∈ route_entry (re_pluginID e) (PluginName (Info pe)) <$> Routes (Manifest pe)) as Hin
    by (rewrite <- (Hs _ _ Hpe); by apply list_elem_of_filter).
  apply list_elem_of_fmap in Hin as (rt & He & Hrt). eauto.
Qed.

End system.

(** ** A sample run, for the witnesses *)

(** A plugin with one public route registers, and a request to it is let in. *)
Definition demo_manifest : Manifest.Manifest := {|
  Name := "pos"; Manifest.Version := "1"; Description := ""; PluginType := "internal";
  Routes := [sample_route "GET" "/pos/items/:id" "" true]; PublicPaths := []; DomainSurfaces := [];
  Migrations := []; OpenAPISpec := ""; TenantSchema := ""; Manifest.Nav := [];
  Manifest.Permissions := ""; Manifest.Roles := ""; Manifest.Features := "" |}.
Definition demo_step : gateway → gateway → Prop :=
  step (H := sorted_order) demo_handlers (λ _, Some demo_target) (λ s, s) (λ _, inl (200, ""))
    (λ _, inl demo_manifest) (λ s, s) (λ _, "").
Definition demo_registered : gateway := by_handler (register (H := sorted_order)
  (λ _, Some demo_target) (λ s, s) (λ _, inl (200, "")) (λ _, inl demo_manifest) (λ s, s) "1a2b3c4d"
  demo_handlers 1 1 (Some {| rr_BaseURL := "http://h:1"; rr_APIKey := "key" |})) (start Defaults).
Definition demo_route : routeEntry :=
  route_entry "pos-1a2b3c4d" "pos" (sample_route "GET" "/pos/items/:id" "" true).
Definition demo_entered : Dispatcher :=
  let d := disp (g_core demo_registered) in
  let id := "pos-1a2b3c4d" in
  set_cb (CircuitBreaker.Allow 1 id (cb d)).1 (set_bh (Bulkhead.Acquire id (bh d)).1
    (set_tenantRL (tenantRL d) (set_pluginRL (spend 1 id id (pluginRL d)).1
      (set_reg (MaintenanceFor 1 "pos" (reg d)).1 d)))).

Lemma demo_run :
  rtc demo_step (start Defaults) demo_registered ∧
  rtc demo_step (start Defaults)
    {| g_core := set_core_disp demo_entered (g_core demo_registered); g_flying := [demo_route] |}.
Proof.
  assert (rtc demo_step (start Defaults) demo_registered) as Hr.
  { apply rtc_once. unfold demo_registered, demo_step. apply step_register. by intros m. }
  split; [done|]. eapply rtc_r; [exact Hr|].
  eapply (step_enter _ _ _ _ _ _ _ demo_registered (sample_clock 1) None "GET" "/pos/items/7" demo_route).
  - unfold admitted, admissible, not_in_maintenance, within_rate, has_slot, breaker_lets.
    split_and!; try (by vm_compute). by left.
  - eexists. split; [|reflexivity]. exists (tenantRL (disp (g_core demo_registered))).
    split; [reflexivity|by left].
Qed.
