(* ===== verification/Admission.v ===== *)
(** What every entry of the registry is, at any moment of the running gateway: a plugin
    the deployment admits, under an id of its own, made of its manifest. *)

From S2P Require Import Prelude GoStrings Float64 Crypto Manifest Protection RateLimiter Config Auth Registry PluginToken Openapi Health Http Middleware Nav Proxy Dispatcher ControlPlane Gateway.

(** An entry's type: what the fields of a registered plugin say of each other, of its
    manifest and of the settings, whatever happened since it registered. *)
Record well_formed (h : Handlers) (parse : string → option Registry.URL) (id : string) (e : PluginEntry) : Prop := {
  own_id : PluginID (Info e) = id;
  fresh_id : ∃ uuid, id = Name (Manifest e) ++ "-" ++ take_bytes 8 uuid;
  own_name : PluginName (Info e) = Name (Manifest e);
  has_name : Name (Manifest e) ≠ "";
  let_in : allowlist h = ∅ ∨ Name (Manifest e) ∈ allowlist h;
  has_version : info_Version (Info e) = Version (Manifest e);
  declares : info_Routes (Info e) = length (Routes (Manifest e));
  addressed : BaseURL e ≠ "" ∧ info_BaseURL (Info e) = BaseURL e;
  reached : parse (BaseURL e) = Some (Target e) ∧ Proxy e = Target e;
  marked : Registry.Status (Info e) = (if Alive e then "healthy" else "unhealthy")
}.

Section admission.
Context (h : Handlers) (parse : string → option Registry.URL).
#[local] Abbreviation formed := (well_formed h parse).
Definition all_formed (r : Registry) : Prop := map_Forall formed (plugins r).
Definition core_formed (c : Core) : Prop := all_formed (reg (disp c)).

(** ** The registry's operations *)

Lemma beat_formed now id e : formed id e → formed id (beat now e).
Proof. by intros []. Qed.
Lemma kill_formed id e : formed id e → formed id (kill e).
Proof. by intros []. Qed.
Create HintDb admission.
#[local] Hint Resolve beat_formed kill_formed : admission.

Lemma Heartbeat_formed now id r : all_formed r → all_formed (Heartbeat now id r).1.
Proof.
  intros Hr. unfold Heartbeat. destruct (plugins r !! id) as [e|] eqn:E; [|done].
  apply map_Forall_insert_2; [|done]. auto with admission.
Qed.
Lemma MarkDead_formed id r : all_formed r → all_formed (MarkDead id r).
Proof.
  intros Hr. unfold MarkDead. destruct (plugins r !! id) as [e|] eqn:E; [|done].
  apply map_Forall_insert_2; [|done]. auto with admission.
Qed.
Lemma Deregister_formed id r : all_formed r → all_formed (Deregister id r).
Proof. apply map_Forall_delete. Qed.
#[local] Hint Resolve Heartbeat_formed MarkDead_formed Deregister_formed : admission.

(** What registers is a manifest that was pulled and let in, under an id of its name. *)
Lemma Register_formed now uuid url m r r' :
  Name m ≠ "" → url ≠ "" → allowlist h = ∅ ∨ Name m ∈ allowlist h → all_formed r →
  Register parse now (Name m ++ "-" ++ take_bytes 8 uuid) (Name m) url (Version m) (PluginType m) m (λ t, t) r = Some r' →
  all_formed r'.
Proof.
  intros Hn Hu Ha Hr. unfold Register. destruct (parse url) as [t|] eqn:Hp; [|done]. intros [= <-].
  apply map_Forall_insert_2; [|done]. split; cbn; eauto.
Qed.

Section system.
Context `{MapOrder}.
Context (parse_error : string → string).
Context (HTTPGet : string → (Z * string) + string) (Decode : string → Manifest.Manifest + string).
Context (Quote : string → string) (time_json : Z → string).

(** ** The handlers *)

Lemma evict_formed c id : core_formed c → core_formed (evict c id).
Proof. apply Deregister_formed. Qed.
Lemma evict_named_formed name c : core_formed c → core_formed (evict_named name c).
Proof.
  unfold evict_named. generalize (IDsByName name (reg (disp c))) as ids. intros ids. revert c.
  induction ids as [|i ids IH]; intros c Hc; [done|]. by apply IH, evict_formed.
Qed.

Lemma pullManifest_named url m : pullManifest HTTPGet Decode url = inl m → Name m ≠ "".
Proof.
  unfold pullManifest. destruct (HTTPGet _) as [[code body]|]; [|done]. destruct (negb _); [done|].
  destruct (Decode body) as [m'|]; [|done]. destruct (String.eqb_spec (Name m') ""); [done|]. by intros [= <-].
Qed.

Lemma register_formed uuid now issued body c :
  core_formed c → core_formed (register parse parse_error HTTPGet Decode Quote uuid h now issued body c).1.
Proof.
  intros Hc. apply (wp_state core_formed). unfold register. destruct body as [req|]; [|done].
  wp_step. apply reject_if_wp; [done|]. intros _. wp_step. apply reject_if_wp; [done|]. intros Hurl.
  destruct (pullManifest HTTPGet Decode (rr_BaseURL req)) as [m|err] eqn:Hm; [|done].
  apply pullManifest_named in Hm. wp_step. apply reject_if_wp; [done|]. intros Hallow. wp_steps.
  apply (evict_named_formed (Name m)) in Hc. unfold enlist.
  destruct (Register _ _ _ _ _ _ _ _ _ _) as [r|] eqn:Hr; wp_steps; [|exact Hc].
  apply Register_formed in Hr; [|done|by bool_simpl| |exact Hc].
  - unfold core_formed. cbn [count_plugins set_injector on_core_disp set_core_disp disp].
    by destruct (AddRoutes_fields (Name m ++ "-" ++ take_bytes 8 uuid) (Name m) (PluginType m) (Routes m)
      (set_reg r (disp (evict_named (Name m) c)))) as (-> & _).
  - destruct (decide (allowlist h = ∅)) as [|Hne]; [by left|]. right.
    rewrite bool_decide_eq_false_2 in Hallow by done. cbn in Hallow. by case_bool_decide.
Qed.

Lemma heartbeat_formed now now' body c : core_formed c → core_formed (heartbeat h now now' body c).1.
Proof.
  intros Hc. apply (wp_state core_formed). unfold heartbeat. destruct body as [req|]; [|done].
  wp_step. apply reject_if_wp; [done|]. intros _. wp_steps.
  pose proof (Heartbeat_formed now' (tr_PluginID req) _ Hc) as Hr.
  destruct (Heartbeat _ _ _) as [r []]; by wp_steps.
Qed.
Lemma remove_plugin_formed id c : core_formed c → core_formed (remove_plugin id c).1.
Proof.
  intros Hc. unfold remove_plugin. run_steps. destruct (Registry.Get _ _); run_steps; [|done].
  by apply (evict_formed c id).
Qed.
Lemma deregister_formed now body c : core_formed c → core_formed (deregister h now body c).1.
Proof.
  intros Hc. apply (wp_state core_formed). unfold deregister. destruct body as [req|]; [|done].
  wp_step. apply reject_if_wp; [done|]. intros _. unfold wp.
  pose proof (remove_plugin_formed (tr_PluginID req) c Hc). by destruct (remove_plugin _ _) as [? []].
Qed.
Lemma setMaintenance_formed now now' body c :
  core_formed c → core_formed (setMaintenance time_json h now now' body c).1.
Proof.
  intros Hc. apply (wp_state core_formed). unfold setMaintenance. destruct body as [req|]; [|done].
  wp_step. apply reject_if_wp; [done|]. intros _. wp_step. apply reject_if_wp; [done|]. intros _.
  destruct (negb (mr_On req)); by wp_steps.
Qed.
Lemma listMaintenance_formed now c : core_formed c → core_formed (listMaintenance now c).1.
Proof.
  intros Hc. unfold listMaintenance. run_steps. pose proof (Maintenances_plugins now (reg (disp c))) as Hp.
  destruct (Maintenances now (reg (disp c))) as [r ws]. unfold core_formed, all_formed. cbn in *. by rewrite Hp.
Qed.
Lemma resetBreaker_formed id c : core_formed c → core_formed (resetBreaker id c).1.
Proof. intros Hc. unfold resetBreaker. run_steps. by destruct (Registry.Get _ _). Qed.
Lemma login_formed now tls r body c : core_formed c → core_formed (login h now tls r body c).1.
Proof.
  intros Hc. unfold login. destruct body as [key|]; [|done]. destruct (String.eqb _ ""); [done|]. by destruct (negb _).
Qed.

Lemma checkAll_formed Do now st : all_formed st.1 → all_formed (checkAll Do now st).1.
Proof.
  unfold checkAll. generalize (List st.1) as es. intros es. revert st.
  induction es as [|e es IH]; intros [r b] Hr; [done|]. cbn [foldl]. apply IH. unfold check.
  destruct (healthy Do e); cbn; auto with admission.
Qed.

#[local] Hint Resolve register_formed heartbeat_formed deregister_formed remove_plugin_formed
  resetBreaker_formed setMaintenance_formed listMaintenance_formed login_formed : admission.

Lemma step_formed s s' :
  core_formed (g_core s) → step h parse parse_error HTTPGet Decode Quote time_json s s' → core_formed (g_core s').
Proof.
  intros Hc Hs. destruct Hs; unfold by_handler; cbn [on_core g_core];
    try (match goal with |- core_formed (flush ?c) => change (core_formed c) end; solve [auto with admission]).
  - pose proof (checkAll_formed Do now (reg (disp (g_core s)), cb (disp (g_core s))) Hc) as Hr.
    by destruct (checkAll _ _ _).
  - done.
  - match goal with Hr : refused _ _ _ _ _ _ |- _ => apply touches_refused in Hr as [->|(e & _ & _ & Hp & _)] end;
      [done|]. unfold core_formed, all_formed. cbn. by rewrite Hp.
  - match goal with He : entered _ _ _ _ _ |- _ => apply touches_entered in He as (_ & Hp & _) end.
    unfold core_formed, all_formed. cbn. by rewrite Hp.
  - done.
Qed.

(** C14: Every plugin the registry holds, at any moment of any run, is one the deployment
    admits: named by its manifest, and on the allowlist where there is one.  Its entry
    is under its own id, made of its name; it has its manifest's version and number of
    routes, a base URL that parses to the target it is proxied to, and a status that
    says whether it is alive.  Nothing that happens later, heartbeats, health checks,
    maintenance, requests, other plugins, takes any of it away. *)
Theorem registered_plugins_are_well_formed cfg s id e :
  rtc (step h parse parse_error HTTPGet Decode Quote time_json) (start cfg) s →
  plugins (reg (disp (g_core s))) !! id = Some e → well_formed h parse id e.
Proof.
  intros Hr. revert id e. change (core_formed (g_core s)). revert Hr.
  apply (rtc_preserved _ (λ s, core_formed (g_core s))); [|apply map_Forall_empty].
  intros s1 s2 H1 Hs. by eapply step_formed.
Qed.
End system.
End admission.

Lemma registered_plugins_are_well_formed_witness :
  ∃ e, plugins (reg (disp (g_core demo_registered))) !! "pos-1a2b3c4d" = Some e ∧ PluginName (Info e) = "pos".
Proof.
  destruct (plugins (reg (disp (g_core demo_registered))) !! "pos-1a2b3c4d") as [e|] eqn:E; [|by vm_compute in E].
  exists e. split; [done|].
  rewrite (own_name _ _ _ _ (registered_plugins_are_well_formed demo_handlers (λ _, Some demo_target) (H := sorted_order)
    (λ s, s) (λ _, inl (200, "")) (λ _, inl demo_manifest) (λ s, s) (λ _, "") Defaults demo_registered
    "pos-1a2b3c4d" e (proj1 demo_run) E)).
  assert ((λ e, Name (Manifest e)) <$> plugins (reg (disp (g_core demo_registered))) !! "pos-1a2b3c4d" = Some "pos") as Hn
    by (by vm_compute).
  rewrite E in Hn. by injection Hn.
Defined.
