(* ===== verification/Retention.v ===== *)
(** What the gateway keeps of plugins that are gone: the breaker's and the bulkhead's
    entries, which no operation of the program removes. *)

From S2P Require Import Prelude GoStrings Float64 Crypto Manifest Protection RateLimiter Config Auth Registry PluginToken Openapi Health Http Middleware Nav Proxy Dispatcher ControlPlane Gateway.

Definition remembers_breakers (b b' : CircuitBreaker.t) : Prop :=
  ∀ p, is_Some (CircuitBreaker.states b !! p) → is_Some (CircuitBreaker.states b' !! p).
Definition remembers_slots (b b' : Bulkhead.t) : Prop :=
  ∀ p, is_Some (Bulkhead.active b !! p) → is_Some (Bulkhead.active b' !! p).
#[export] Instance remembers_breakers_preorder : PreOrder remembers_breakers.
Proof. split; [by intros b p|]. intros b1 b2 b3 H1 H2 p Hp. by apply H2, H1. Qed.
#[export] Instance remembers_slots_preorder : PreOrder remembers_slots.
Proof. split; [by intros b p|]. intros b1 b2 b3 H1 H2 p Hp. by apply H2, H1. Qed.

(** ** The operations of the two stores *)

Create HintDb retention.
Lemma insert_kept {A} (m : gmap string A) k x p : is_Some (m !! p) → is_Some (<[k := x]> m !! p).
Proof. intros. rewrite lookup_insert_is_Some'. by right. Qed.
#[local] Hint Resolve insert_kept : retention.

Lemma impl_step_remembers b e : remembers_breakers b (CircuitBreaker.impl_step b e).
Proof.
  intros p Hp. destruct e as [q []]; cbn; unfold CircuitBreaker.Allow, CircuitBreaker.RecordFailure; cbn;
    repeat case_match; cbn; auto with retention.
Qed.
Lemma Acquire_remembers q b : remembers_slots b (Bulkhead.Acquire q b).1.
Proof. intros p Hp. unfold Bulkhead.Acquire. case_match; cbn; auto with retention. Qed.
Lemma Release_remembers q b : remembers_slots b (Bulkhead.Release q b).
Proof. intros p Hp. unfold Bulkhead.Release. case_match; cbn; auto with retention. Qed.

(** ** The handlers *)

Section handlers.
Context `{MapOrder}.
Context (url_Parse : string → option Registry.URL) (parse_error : string → string).
Context (HTTPGet : string → (Z * string) + string) (Decode : string → Manifest.Manifest + string).
Context (Quote : string → string) (time_json : Z → string) (h : Handlers).

Definition same_breakers (c c' : Core) : Prop := cb (disp c') = cb (disp c).
#[local] Ltac guards :=
  match goal with |- context [match ?body with _ => _ end] => destruct body as [req|]; [|done] end;
  repeat (wp_step; apply reject_if_wp; [done|]; intros _).

Lemma enlist_breakers parse now id url m c c' : enlist parse now id url m c = Some c' → same_breakers c c'.
Proof.
  unfold enlist. destruct (Register _ _ _ _ _ _ _ _ _ _) as [r|]; [|done]. simpl. intros [= <-].
  unfold same_breakers. cbn [set_injector on_core_disp set_core_disp disp].
  by destruct (AddRoutes_fields id (Name m) (PluginType m) (Routes m) (set_reg r (disp c))) as (_ & -> & _).
Qed.
Lemma register_breakers uuid now issued body c :
  same_breakers c (register url_Parse parse_error HTTPGet Decode Quote uuid h now issued body c).1.
Proof.
  apply (wp_state (same_breakers c)). unfold register. guards. destruct (pullManifest HTTPGet Decode (rr_BaseURL req)) as [m|err]; [|done].
  wp_step. apply reject_if_wp; [done|]. intros _. wp_steps.
  assert (same_breakers c (evict_named (Name m) c)) as Hev by apply foldl_evict_rest.
  destruct (enlist _ _ _ _ _ _) as [c1|] eqn:He; wp_steps; [|exact Hev].
  etransitivity; [|exact Hev]. exact (enlist_breakers _ _ _ _ _ _ _ He).
Qed.
Lemma heartbeat_breakers now now' body c : same_breakers c (heartbeat h now now' body c).1.
Proof. apply (wp_state (same_breakers c)). unfold heartbeat. guards. wp_steps. destruct (Heartbeat _ _ _) as [r []]; by wp_steps. Qed.
Lemma remove_plugin_breakers id c : same_breakers c (remove_plugin id c).1.
Proof. unfold remove_plugin. run_steps. by destruct (Registry.Get _ _). Qed.
Lemma deregister_breakers now body c : same_breakers c (deregister h now body c).1.
Proof.
  apply (wp_state (same_breakers c)). unfold deregister. guards. unfold wp. pose proof (remove_plugin_breakers (tr_PluginID req) c).
  by destruct (remove_plugin _ _) as [? []].
Qed.
Lemma setMaintenance_breakers now now' body c : same_breakers c (setMaintenance time_json h now now' body c).1.
Proof. apply (wp_state (same_breakers c)). unfold setMaintenance. guards. destruct (negb (mr_On req)); by wp_steps. Qed.
Lemma listMaintenance_breakers now c : same_breakers c (listMaintenance now c).1.
Proof. unfold listMaintenance. run_steps. by destruct (Maintenances now (reg (disp c))). Qed.
Lemma login_breakers now tls r body c : same_breakers c (login h now tls r body c).1.
Proof. unfold login. destruct body as [key|]; [|done]. destruct (String.eqb _ ""); [done|]. by destruct (negb _). Qed.

(** ** Every step *)

Definition remembers (c c' : Core) : Prop :=
  remembers_breakers (cb (disp c)) (cb (disp c')) ∧ remembers_slots (bh (disp c)) (bh (disp c')).

Lemma quiet_remembers c c' : quiet c c' → same_breakers c c' → remembers c (flush c').
Proof. intros [_ Hb] Hc. unfold remembers. cbn. by rewrite Hb, Hc. Qed.

Lemma health_remembers Do now st : remembers_breakers st.2 (checkAll Do now st).2.
Proof.
  unfold checkAll. generalize (List st.1) as es. intros es. revert st. induction es as [|e es IH]; intros st; [done|].
  cbn [foldl]. etransitivity; [|apply IH]. destruct st as [r b]. unfold check. destruct (healthy Do e); [done|].
  apply (impl_step_remembers b (PluginID (Info e), CircuitBreaker.EvForceOpen (now (PluginID (Info e))))).
Qed.
Lemma verdict_remembers p f b : verdict p f → remembers_breakers b (f b).
Proof.
  intros [|now|]; [apply (impl_step_remembers b (p, CircuitBreaker.EvSuccess))|
    apply (impl_step_remembers b (p, CircuitBreaker.EvFailure now))|done].
Qed.
Lemma limiters_remember clk d id e d' :
  limiters_asked clk d id e d' → cb d' = cb d ∧ bh d' = bh d.
Proof. by intros (tm & -> & _). Qed.

Lemma refused_remembers clk d id m p d' :
  refused clk d id m p d' → remembers_breakers (cb d) (cb d') ∧ remembers_slots (bh d) (bh d').
Proof.
  intros Hr. split; [by rewrite (refused_breakers _ _ _ _ _ _ Hr)|].
  destruct Hr as [|e pe|e pe d1 _ _ _ Hl|e pe d1 _ _ _ Hl|e pe d1 _ _ _ Hl]; cbn; try done;
    apply limiters_remember in Hl as [_ Hb]; [by rewrite Hb..|].
  etransitivity; [apply Acquire_remembers|apply Release_remembers].
Qed.

Lemma step_remembers s s' :
  core_ok (g_core s) →
  step h url_Parse parse_error HTTPGet Decode Quote time_json s s' → remembers (g_core s) (g_core s').
Proof.
  intros Hc Hs. destruct Hs; unfold by_handler; cbn [on_core g_core].
  - apply quiet_remembers; [by apply register_quiet|apply register_breakers].
  - apply quiet_remembers; [by apply heartbeat_quiet|apply heartbeat_breakers].
  - apply quiet_remembers; [by apply deregister_quiet|apply deregister_breakers].
  - apply quiet_remembers; [by apply remove_plugin_quiet|apply remove_plugin_breakers].
  - split; [|intros p; cbn; by rewrite (proj2 (resetBreaker_quiet id _ Hc))]. unfold resetBreaker. run_steps.
    destruct (Registry.Get _ _); [|done]. apply (impl_step_remembers _ (id, CircuitBreaker.EvReset)).
  - apply quiet_remembers; [by apply setMaintenance_quiet|apply setMaintenance_breakers].
  - apply quiet_remembers; [by apply listMaintenance_quiet|apply listMaintenance_breakers].
  - apply quiet_remembers; [by apply login_quiet|apply login_breakers].
  - apply quiet_remembers; [by apply logout_quiet|done].
  - pose proof (health_remembers Do now (reg (disp (g_core s)), cb (disp (g_core s)))) as Hh.
    destruct (checkAll _ _ _) as [r b]. by split.
  - done.
  - match goal with Hr : refused _ _ _ _ _ _ |- _ => destruct (refused_remembers _ _ _ _ _ _ Hr); by split end.
  - match goal with He : entered _ _ _ _ _ |- _ => destruct He as (d1 & Hl & ->) end. split; cbn; [|apply Acquire_remembers].
    apply (impl_step_remembers _ (re_pluginID e, CircuitBreaker.EvAllow (t_allow clk))).
  - split; cbn; [by eapply verdict_remembers|apply Release_remembers].
Qed.

(** The breaker's and the bulkhead's maps only grow: an entry once made, for a plugin
    that was proxied to or found dead, is there for good, whatever is deregistered or
    registered anew (under a new id each time) afterwards. *)
Theorem entries_outlive_plugins cfg s s' :
  rtc (step h url_Parse parse_error HTTPGet Decode Quote time_json) (start cfg) s →
  rtc (step h url_Parse parse_error HTTPGet Decode Quote time_json) s s' →
  remembers_breakers (cb (disp (g_core s))) (cb (disp (g_core s'))) ∧
  remembers_slots (bh (disp (g_core s))) (bh (disp (g_core s'))).
Proof.
  intros [Hok _]%reachable_ok Hr. revert Hok. induction Hr as [s|s s1 s2 Hs _ IH]; intros Hok; [done|].
  destruct (step_remembers s s1 Hok Hs) as [H1 H2].
  destruct (IH (step_core_ok _ _ _ _ _ _ _ _ _ Hok Hs)) as [H3 H4]. split; by etransitivity.
Qed.
End handlers.

(** A request to a plugin, then its deregistration: the entry is still there. *)
Lemma entries_outlive_plugins_witness :
  let s := {| g_core := set_core_disp demo_entered (g_core demo_registered); g_flying := [demo_route] |} in
  let s' := by_handler (remove_plugin "pos-1a2b3c4d" (H := sorted_order)) s in
  plugins (reg (disp (g_core s'))) !! "pos-1a2b3c4d" = None ∧
  is_Some (Bulkhead.active (bh (disp (g_core s'))) !! "pos-1a2b3c4d").
Proof.
  intros s s'. split; [by vm_compute|].
  apply (entries_outlive_plugins (H := sorted_order) (λ _, Some demo_target)
    (λ s, s) (λ _, inl (200, "")) (λ _, inl demo_manifest) (λ s, s) (λ _, "") demo_handlers Defaults s s' (proj2 demo_run)).
  - apply rtc_once. apply step_admin_deregister.
  - eexists. by vm_compute.
Defined.
