(* ===== verification/Threads.v ===== *)
(** The handlers as the threads they are: one action per critical section of a store
    and per unlocked read of the route table, on the state of [Gateway] and the table
    as Go lays it out.

    A [thread] is what is left of a handler; [alone] runs it without interruption,
    and the lemmas [_alone] say that this is the handler of [ControlPlane],
    [Dispatcher] or [Health].  A request holds the pointer that [match] gave it and
    reads the entry through it each time the source does; a read of one field is one
    action, though Go's memory model promises that of no string.
    Logging in and out and the endpoints that only read change no store. *)

From S2P Require Import Prelude GoStrings Float64 Crypto Manifest Protection RateLimiter Config Auth RouteTable Registry PluginToken Openapi Health Http Middleware Nav Proxy Dispatcher ControlPlane Gateway.

(** ** Threads *)

(** What the threads share: the state of the handlers, whose table of routes is a
    list, and the heap and the slice that hold that table. *)
Record mem := { core : Core; table : heap * slice }.
Definition on_core (f : Core → Core) (m : mem) : mem := {| core := f (core m); table := table m |}.

(** What a thread ends with: a control-plane reply, or the plugin whose breaker a
    request that reached one told of it. *)
Inductive outcome := Replied (r : Reply) | Reached (pluginID : option string).

(** [Act f k]: under one lock the shared state [m] becomes [f m], and the thread goes
    on as [k m], by what it read there. *)
Inductive thread :=
| Done (o : outcome)
| Act (f : mem → mem) (k : mem → thread).

Definition reading (k : mem → thread) : thread := Act (λ m, m) k.

(** A thread that nothing interrupts. *)
Fixpoint alone (t : thread) (m : mem) : mem * outcome :=
  match t with
  | Done o => (m, o)
  | Act f k => alone (k m) (f m)
  end.

Definition refuse (code : Z) (msg : string) : thread := Done (Replied (JSON code (error_body msg))).

(** A pointer into the table is read without its lock, one field at a time. *)
Definition entry_at (m : mem) (p : pointer) : routeEntry := default zero_entry (deref (table m).1 p).
Definition loading {A} (field : routeEntry → A) (p : pointer) (k : A → thread) : thread :=
  reading (λ m, k (field (entry_at m p))).

(** ** The control plane *)

Section control.
Context `{MapOrder} (grow : nat → nat).
Context (url_Parse : string → option Registry.URL) (parse_error : string → string).
Context (HTTPGet : string → (Z * string) + string) (Decode : string → Manifest.Manifest + string).
Context (Quote : string → string) (h : Handlers).

(** [protection.PluginsRegistered.Set(float64(len(h.reg.List())))]: the list, then the gauge. *)
Definition set_gauge (n : Z) (c : Core) : Core :=
  {| disp := disp c; injector := injector c; plugins_gauge := n; cookies := cookies c |}.
Definition counting (t : thread) : thread :=
  reading (λ m, let n := Z.of_nat (length (List (reg (disp (core m))))) in Act (on_core (set_gauge n)) (λ _, t)).

(** [AddRoutes] and [RemoveRoutes], on the list and on the slice. *)
Definition changing (ch : change) (m : mem) : mem := {|
  core := on_core_disp (λ d, on_table d ch) (core m); table := on_slice grow (table m) ch |}.

(** [h.reg.Deregister(id)], then [h.disp.RemoveRoutes(id)]. *)
Definition evicting (id : string) (t : thread) : thread :=
  Act (on_core (on_reg (Deregister id))) (λ _, Act (changing (Removes id)) (λ _, t)).
Fixpoint evicting_all (ids : list string) (t : thread) : thread :=
  match ids with
  | [] => t
  | id :: ids' => evicting id (evicting_all ids' t)
  end.

Definition enlisting (now issued : Z) (pluginID baseURL : string) (m : Manifest.Manifest) : thread :=
  let registered c := Register url_Parse now pluginID (Name m) baseURL (Version m) (PluginType m) m (λ t, t) (reg (disp c)) in
  Act (on_core (λ c, match registered c with Some r => set_core_disp (set_reg r (disp c)) c | None => c end))
    (λ s, match registered (core s) with
          | None => refuse 500 ("invalid base_url " ++ Quote baseURL ++ ": " ++ parse_error baseURL)
          | Some _ =>
              Act (changing (Adds pluginID (Name m) (PluginType m) (Routes m))) (λ _,
              Act (on_core (λ c, set_injector (Openapi.AddRoutes (Name m) (Routes m) (OpenAPISpec m) (injector c)) c)) (λ _,
              counting (Done (Replied (ok [("plugin_id", JStr pluginID);
                ("plugin_token", JStr (issue issued (signer h) pluginID))])))))
          end).

Definition register_thread (uuid : string) (now issued : Z) (body : option registerReq) : thread :=
  match body with
  | None => refuse 400 "invalid body"
  | Some req =>
      if negb (String.eqb (apiKey h) "") && negb (String.eqb (rr_APIKey req) (apiKey h))
      then refuse 401 "invalid api key"
      else if String.eqb (rr_BaseURL req) "" then refuse 400 "base_url required"
      else
        match pullManifest HTTPGet Decode (rr_BaseURL req) with
        | inr err => refuse 502 ("cannot pull manifest: " ++ err)
        | inl m =>
            if negb (bool_decide (allowlist h = ∅)) && negb (bool_decide (Name m ∈ allowlist h))
            then refuse 403 ("plugin " ++ Quote (Name m) ++ " not in allowlist")
            else
              reading (λ s, evicting_all (IDsByName (Name m) (reg (disp (core s))))
                (enlisting now issued (plugin_id uuid m) (rr_BaseURL req) m))
        end
  end.

(** The tail of [deregister] and [adminDeregister]. *)
Definition removing (id : string) : thread :=
  reading (λ m,
    match Registry.Get id (reg (disp (core m))) with
    | None => Done (Replied (ok [("success", JBool false)]))
    | Some entry =>
        evicting id (
          Act (on_core (λ c, set_injector (Openapi.RemoveRoutes (PluginName (Info entry)) (injector c)) c)) (λ _,
          counting (Done (Replied (ok [("success", JBool true)])))))
    end).
Definition deregister_thread (now : Z) (body : option tokenReq) : thread :=
  match body with
  | None => refuse 400 "invalid body"
  | Some req =>
      if negb (verifyToken h now (tr_PluginToken req) (tr_PluginID req))
      then refuse 401 "invalid plugin token" else removing (tr_PluginID req)
  end.

(** *** Run alone, they are the handlers *)

(** The state of the handlers at the end, and the outcome. *)
Definition ran (t : thread) (m : mem) : Core * outcome := let '(m', o) := alone t m in (core m', o).
Definition replied {A} (res : A * (Reply + Reply)) : A * outcome :=
  (res.1, Replied (match res.2 with inl r | inr r => r end)).

Lemma ran_evicting_all ids t m :
  ∃ m', ran (evicting_all ids t) m = ran t m' ∧ core m' = foldl evict (core m) ids.
Proof.
  revert m. induction ids as [|id ids IH]; intros m; [by exists m|]. cbn [evicting_all foldl].
  apply (IH (changing (Removes id) (on_core (on_reg (Deregister id)) m))).
Qed.

Lemma ran_enlisting now issued uuid url mf m :
  ran (enlisting now issued (plugin_id uuid mf) url mf) m =
  match enlist url_Parse now (plugin_id uuid mf) url mf (core m) with
  | None => (core m, Replied (JSON 500 (error_body ("invalid base_url " ++ Quote url ++ ": " ++ parse_error url))))
  | Some c' => (count_plugins c', Replied (ok [("plugin_id", JStr (plugin_id uuid mf));
                  ("plugin_token", JStr (issue issued (signer h) (plugin_id uuid mf)))]))
  end.
Proof.
  unfold enlist, enlisting, ran. cbn [alone on_core core].
  destruct (Register _ _ _ _ _ _ _ _ _ _) as [r|] eqn:E.
  - unfold counting, changing. cbn [alone reading on_core core]. by rewrite E.
  - unfold on_core. by rewrite E.
Qed.

Lemma register_alone uuid now issued body m :
  ran (register_thread uuid now issued body) m =
  replied (register url_Parse parse_error HTTPGet Decode Quote uuid h now issued body (core m)).
Proof.
  unfold register_thread, register. destruct body as [req|]; [|done]. unfold reject_if. run_steps.
  destruct (_ && _); run_steps; [done|]. destruct (String.eqb _ ""); run_steps; [done|].
  destruct (pullManifest _ _ _) as [mf|err]; run_steps; [|done].
  destruct (_ && _); run_steps; [done|].
  change (ran (reading ?k) m) with (ran (k m) m). cbv beta.
  destruct (ran_evicting_all (IDsByName (Name mf) (reg (disp (core m))))
    (enlisting now issued (plugin_id uuid mf) (rr_BaseURL req) mf) m) as (m' & -> & Hm').
  rewrite ran_enlisting, Hm'. unfold evict_named, plugin_id. by destruct (enlist _ _ _ _ _ _).
Qed.

Lemma removing_alone id m : ran (removing id) m = replied (remove_plugin id (core m)).
Proof.
  unfold removing, remove_plugin, ran. run_steps. cbn [alone reading].
  by destruct (Registry.Get id (reg (disp (core m)))).
Qed.
Lemma deregister_alone now body m :
  ran (deregister_thread now body) m = replied (deregister h now body (core m)).
Proof.
  unfold deregister_thread, deregister. destruct body as [req|]; [|done]. unfold reject_if. run_steps.
  destruct (negb _); run_steps; [done|]. apply removing_alone.
Qed.
End control.

(** ** A request *)

Section request.
Context `{MapOrder} (clk : Clock) (id : option Identity) (method path : string).
(** What the plugin's limiter and the tenant's grant once they have left the table. *)
Context (plugin_gone tenant_gone : bool).
(** What the breaker of the plugin named last is told of the answer of the plugin's
    entry, given the state the headers were computed in. *)
Context (out : string → PluginEntry → Core → string → CircuitBreaker.t → CircuitBreaker.t).

Definition unserved : thread := Done (Reached None).
(** The deferred [Release], its argument evaluated where it was deferred. *)
Definition releasing (rid : string) (o : outcome) : thread :=
  Act (on_core (on_core_disp (λ d, set_bh (Bulkhead.Release rid (bh d)) d))) (λ _, Done o).

Definition proxying (p : pointer) (plugin : string) (pe : PluginEntry) (rid : string) : thread :=
  reading (λ m,
    loading re_pluginID p (λ told_id,
    Act (on_core (on_core_disp (λ d, set_cb (out plugin pe (core m) told_id (cb d)) d))) (λ _,
    releasing rid (Reached (Some told_id))))).
Definition asking_breaker (p : pointer) (plugin : string) (pe : PluginEntry) (rid : string) : thread :=
  loading re_pluginID p (λ asked_id,
    let asked m := CircuitBreaker.Allow (t_allow clk) asked_id (cb (disp (core m))) in
    Act (λ m, on_core (on_core_disp (set_cb (asked m).1)) m)
      (λ m, match (asked m).2 with
            | Some _ => releasing rid (Reached None)
            | None => proxying p plugin pe rid
            end)).
(** The slot is taken by one reading of the id and given back by the next: [noting] is
    [defer d.bh.Release(entry.pluginID)]. *)
Definition noting (p : pointer) (plugin : string) (pe : PluginEntry) : thread :=
  loading re_pluginID p (λ rid, asking_breaker p plugin pe rid).
Definition taking (p : pointer) (plugin : string) (pe : PluginEntry) (taken_id : string) : thread :=
  let asked m := Bulkhead.Acquire taken_id (bh (disp (core m))) in
  Act (λ m, on_core (on_core_disp (set_bh (asked m).1)) m)
    (λ m, match (asked m).2 with Some _ => unserved | None => noting p plugin pe end).
Definition acquiring (p : pointer) (plugin : string) (pe : PluginEntry) : thread :=
  loading re_pluginID p (taking p plugin pe).

(** The limiters are looked up together and asked one after the other: one that has
    left the table since grants what [gone] says. *)
Definition spend_held (held gone : bool) (now : Z) (key id : string) (m : gmap string RateLimiter.t) :
    gmap string RateLimiter.t * bool :=
  if held then match m !! id with Some _ => spend now key id m | None => (m, gone) end else (m, true).
Definition held (id : string) (m : gmap string RateLimiter.t) : bool := bool_decide (is_Some (m !! id)).

(** [lid] is the id the limiters were looked up by. *)
Definition asking_tenant (trl : bool) (lid : string) (p : pointer) (plugin : string) (pe : PluginEntry) : thread :=
  match id with
  | Some i =>
      if negb trl || String.eqb (TenantID i) "" then acquiring p plugin pe
      else
        loading re_pluginID p (λ key_id,
        let asked m := spend_held trl tenant_gone (t_tenant clk) (key_id ++ ":" ++ TenantID i) lid
                         (tenantRL (disp (core m))) in
        Act (λ m, on_core (on_core_disp (set_tenantRL (asked m).1)) m)
          (λ m, if (asked m).2 then acquiring p plugin pe else unserved))
  | None => acquiring p plugin pe
  end.
Definition asking_limiter (p : pointer) (plugin : string) (pe : PluginEntry) : thread :=
  reading (λ m,
    let lid := re_pluginID (entry_at m p) in
    let rl := held lid (pluginRL (disp (core m))) in
    let trl := held lid (tenantRL (disp (core m))) in
    if negb rl then asking_tenant trl lid p plugin pe
    else
      loading re_pluginID p (λ key_id,
      let asked m := spend_held rl plugin_gone (t_rate clk) key_id lid (pluginRL (disp (core m))) in
      Act (λ m, on_core (on_core_disp (set_pluginRL (asked m).1)) m)
        (λ m, if (asked m).2 then asking_tenant trl lid p plugin pe else unserved))).
(** The window is read in one critical section and dropped in another. *)
Definition asking_window (p : pointer) (plugin : string) (pe : PluginEntry) : thread :=
  reading (λ m,
    match read_window plugin (reg (disp (core m))) with
    | None => asking_limiter p plugin pe
    | Some w =>
        if Until w <? t_maint clk
        then Act (on_core (on_reg (ClearMaintenance plugin))) (λ _, asking_limiter p plugin pe)
        else unserved
    end).
Definition finding (p : pointer) (plugin : string) : thread :=
  loading re_pluginID p (λ get_id,
  reading (λ m,
    match Registry.Get get_id (reg (disp (core m))) with
    | Some pe => if Alive pe then asking_window p plugin pe else unserved
    | None => unserved
    end)).
(** [!entry.public && entry.permission != "" && !authorized(...)], each part read when
    it is come to. *)
Definition authorizing (p : pointer) (plugin : string) : thread :=
  loading re_public p (λ public,
    if public then finding p plugin
    else loading re_permission p (λ permission,
      if String.eqb permission "" then finding p plugin
      else loading (authorized id) p (λ allowed,
        if allowed then finding p plugin else unserved))).

Definition request_thread : thread :=
  if Firewall.IsRouteBlocked path then unserved
  else
    reading (λ m,
      match RouteTable.match_ method path (table m) with
      | None => unserved
      | Some p => loading re_pluginName p (authorizing p)
      end).
End request.

(** What a request's exchange tells the breaker. *)
Definition told `{MapOrder} (uuid : string) (Inject : Header → Header) (RoundTrip : Request → exchange)
    (clk : Clock) (w : World) (plugin : string) (pe : PluginEntry) (c : Core) (told_id : string) :
    CircuitBreaker.t → CircuitBreaker.t :=
  let of_plugin := {| re_pluginID := told_id; re_pluginName := plugin; re_method := ""; re_pattern := "";
                      re_public := false; re_permission := "" |} in
  let r := outbound Inject (reg (disp c)) (w_gin (named uuid w)) of_plugin pe in
  if isWebSocketUpgrade r then CircuitBreaker.RecordSuccess told_id
  else settled clk told_id (ServeHTTP RoundTrip (Proxy pe) r).

(** Of the entry, the headers take the plugin's name alone. *)
Lemma told_of `{MapOrder} uuid Inject RoundTrip clk w e pe c told_id :
  told uuid Inject RoundTrip clk w (re_pluginName e) pe c told_id =
  let r := outbound Inject (reg (disp c)) (w_gin (named uuid w)) e pe in
  if isWebSocketUpgrade r then CircuitBreaker.RecordSuccess told_id
  else settled clk told_id (ServeHTTP RoundTrip (Proxy pe) r).
Proof. done. Qed.

Lemma spend_when_held gone now key id m :
  held id m = true → spend_held true gone now key id m = spend now key id m.
Proof. unfold spend_held, held, spend. intros [l Hl]%bool_decide_eq_true. by rewrite Hl. Qed.
Lemma spend_not_held now key id m : held id m = false → spend now key id m = (m, true).
Proof.
  unfold held, spend. intros Hn%bool_decide_eq_false. apply eq_None_not_Some in Hn. by rewrite Hn.
Qed.
Lemma spend_held_dom h gone now key id m i :
  is_Some ((spend_held h gone now key id m).1 !! i) ↔ is_Some (m !! i).
Proof. unfold spend_held. destruct h; [|done]. by destruct (m !! id); [apply spend_dom|]. Qed.

(** A request that was answered here, or one that a plugin was reached by. *)
Definition same_end (r : served) (o : outcome) : Prop :=
  match r, o with
  | Answered _, Reached None | Forwarded _, Reached (Some _) | Socket _ _ _, Reached (Some _) => True
  | _, _ => False
  end.

(** Run alone, the thread leaves what [Dispatch] leaves. *)
Section alone.
Context `{MapOrder} (uuid : string) (Inject : Header → Header).
Context (RoundTrip : Request → exchange) (Dial : string → Request → ws_outcome) (clk : Clock).

Context (w0 : World) (plugin_gone tenant_gone : bool).
#[local] Abbreviation out := (told uuid Inject RoundTrip clk w0).
#[local] Abbreviation id := (g_identity (w_gin w0)).
(** The table, which no request changes, and the entry matched in it. *)
Context (hs : heap * slice) (p : pointer) (e : routeEntry) (Hp : deref hs.1 p = Some e).
#[local] Abbreviation plugin := (re_pluginName e).

(** A handler and a thread that leave the same shared state and end alike. *)
Definition ends_as (t : thread) (m : mem) (w' : World) (r : served) : Prop :=
  set_core_disp (w_disp w') (core m) = core (alone t m).1 ∧ same_end r (alone t m).2.
Definition agrees (hm : Handler World served served) (t : thread) : Prop :=
  ∀ w m, table m = hs → disp (core m) = w_disp w → w_gin w = w_gin (named uuid w0) →
    wp hm (ends_as t m) (ends_as t m) w.

Ltac same_core Hd := unfold on_core_disp, release, on_disp, set_disp; cbn; by rewrite ?Hd.

Lemma alone_loading {A} (field : routeEntry → A) k m :
  table m = hs → alone (loading field p k) m = alone (k (field e)) m.
Proof using Hp. intros Ht. unfold loading, entry_at. cbn [reading alone]. by rewrite Ht, Hp. Qed.

(** Both go on from states that agree. *)
Lemma hand_over hm t (f : Core → Core) w m :
  agrees hm t → table m = hs → disp (f (core m)) = w_disp w → w_gin w = w_gin (named uuid w0) →
  (∀ d, set_core_disp d (f (core m)) = set_core_disp d (core m)) →
  wp hm (λ w' r, set_core_disp (w_disp w') (core m) = core (alone t (on_core f m)).1 ∧
                 same_end r (alone t (on_core f m)).2)
        (λ w' r, set_core_disp (w_disp w') (core m) = core (alone t (on_core f m)).1 ∧
                 same_end r (alone t (on_core f m)).2) w.
Proof.
  intros Hm Ht Hd Hg Hf. eapply wp_mono; [by apply (Hm w (on_core f m))|..]; intros w' r [<- ?]; cbn [on_core core];
    by rewrite Hf.
Qed.

Lemma wp_deferred {A} (f : World → World) (hm : Handler World served A) QR (QA : World → A → Prop) w :
  wp (deferring f hm) QR QA w → wp hm (λ w r, QR (f w) r) (λ w a, QA (f w) a) w.
Proof. unfold wp, deferring. by destruct (hm w) as [? []]. Qed.

Lemma proxying_agrees pe rid me pa :
  agrees (deferring (release e) (inject e pe ≫= λ tenantID, forward Inject RoundTrip Dial clk e pe me pa tenantID rid))
    (proxying out p plugin pe (re_pluginID e)).
Proof using Hp.
  intros w m Ht Hd Hg. apply wp_deferring, wp_bind. unfold wp at 1. rewrite inject_run. cbv zeta.
  unfold ends_as, proxying. cbn [reading alone]. rewrite alone_loading by done. unfold releasing. cbn [alone].
  apply forward_wp; cbn [set_gin w_gin w_disp]; rewrite Hg.
  - intros Hws w' o rep Hw' ->. unfold release, on_disp, set_disp. cbn [w_disp]. rewrite Hw'.
    rewrite told_of, Hd. unfold outbound in *. rewrite Hws. unfold on_core_disp. cbn. by rewrite Hd.
  - intros Hws w' Hw'. unfold release, on_disp, set_disp. cbn [w_disp]. rewrite Hw'.
    rewrite told_of, Hd. unfold outbound in *. rewrite Hws. unfold on_core_disp. cbn. by rewrite Hd.
Qed.

Lemma breaker_agrees pe rid me pa :
  agrees (deferring (release e) (breaker clk e;; tenantID ← inject e pe;
            forward Inject RoundTrip Dial clk e pe me pa tenantID rid))
    (asking_breaker clk out p plugin pe (re_pluginID e)).
Proof using Hp.
  intros w m Ht Hd Hg. apply wp_deferring, wp_bind. unfold breaker. apply wp_bind, wp_get_state.
  unfold ends_as, asking_breaker. rewrite alone_loading by done. cbn [alone]. rewrite Hd.
  destruct (CircuitBreaker.Allow _ _ _) as [b err] eqn:E. apply wp_bind, wp_modify. cbn [fst snd].
  destruct err.
  - apply reject_wp. split; [same_core Hd|done].
  - apply wp_ret. refine (wp_deferred (release e) _ _ _ _ (hand_over _ (proxying out p plugin pe (re_pluginID e))
      (on_core_disp (set_cb b)) (on_disp (set_cb b) w) m (proxying_agrees pe rid me pa) Ht _ Hg _));
      [same_core Hd|done].
Qed.

Lemma acquire_agrees pe rid me pa :
  agrees (acquire e;; deferring (release e) (breaker clk e;; tenantID ← inject e pe;
            forward Inject RoundTrip Dial clk e pe me pa tenantID rid))
    (acquiring clk out p plugin pe).
Proof using Hp.
  intros w m Ht Hd Hg. apply wp_bind. unfold acquire. apply wp_bind, wp_get_state.
  unfold ends_as, acquiring. rewrite alone_loading by done. unfold taking. cbn [alone]. rewrite Hd.
  destruct (Bulkhead.Acquire _ _) as [b err] eqn:E. apply wp_bind, wp_modify. cbn [fst snd].
  destruct err; [apply reject_wp; split; [same_core Hd|done]|apply wp_ret].
  unfold noting. rewrite alone_loading by done.
  apply (hand_over _ (asking_breaker clk out p plugin pe (re_pluginID e)) (on_core_disp (set_bh b)));
    [apply breaker_agrees|done|same_core Hd|done|done].
Qed.

(** The tenant's limiter, for a caller that has a tenant. *)
Lemma tenant_agrees pe rid me pa i w m :
  table m = hs → disp (core m) = w_disp w → w_gin w = w_gin (named uuid w0) → id = Some i → TenantID i ≠ "" →
  let key := (re_pluginID e ++ ":" ++ TenantID i) in
  let t := asking_tenant clk id tenant_gone out (held (re_pluginID e) (tenantRL (w_disp w))) (re_pluginID e) p plugin pe in
  wp (let '(ls, ok) := spend (t_tenant clk) key (re_pluginID e) (tenantRL (w_disp w)) in
       modify (on_disp (set_tenantRL ls));;
       if ok then mret tt
       else reject plugin "tenant_rate_limit" (JSON 429 (error_body "rate limit exceeded for this shop")))
    (ends_as t m)
    (λ w' _, wp (acquire e;; deferring (release e) (breaker clk e;; tenantID ← inject e pe;
            forward Inject RoundTrip Dial clk e pe me pa tenantID rid)) (ends_as t m) (ends_as t m) w') w.
Proof using Hp.
  intros Ht Hd Hg Hi Hne key. cbv zeta. unfold ends_as, asking_tenant. rewrite Hi, (proj2 (String.eqb_neq _ _) Hne).
  destruct (held _ _) eqn:Eh; cbn [negb orb].
  - rewrite alone_loading by done. cbn [alone]. rewrite Hd, spend_when_held by done. fold key.
    destruct (spend _ key _ _) as [ls ok]. apply wp_bind, wp_modify. cbn [fst snd].
    destruct ok; [apply wp_ret|apply reject_wp; split; [same_core Hd|done]].
    apply (hand_over _ (acquiring clk out p plugin pe) (on_core_disp (set_tenantRL ls)));
      [apply acquire_agrees|done|same_core Hd|done|done].
  - rewrite spend_not_held by done. apply wp_bind, wp_modify, wp_ret. rewrite <- Hd.
    apply (acquire_agrees pe rid me pa); [done| |done]. cbn. rewrite Hd. by destruct (w_disp w).
Qed.

Lemma rate_limit_agrees pe rid me pa :
  agrees (rate_limit clk e;; acquire e;; deferring (release e) (breaker clk e;; tenantID ← inject e pe;
            forward Inject RoundTrip Dial clk e pe me pa tenantID rid))
    (asking_limiter clk id plugin_gone tenant_gone out p plugin pe).
Proof using Hp.
  intros w m Ht Hd Hg. apply wp_bind. unfold rate_limit. apply wp_bind, wp_get_state.
  unfold ends_as, asking_limiter, entry_at. cbn [reading alone]. rewrite Ht, Hp, Hd.
  cbn [default from_option Datatypes.id].
  assert (IdentityFrom (w_gin w) = id) as -> by (unfold IdentityFrom; rewrite Hg; apply named_identity).
  set (t := asking_tenant _ _ _ _ _ _ _ _ _). match goal with |- wp _ _ (λ w a, wp (@?K a) _ _ w) _ => set (rest := K) end.
  set (tenant := match id with Some _ => _ | None => _ end).
  assert (∀ w1 m1, table m1 = hs → disp (core m1) = w_disp w1 → w_gin w1 = w_gin w →
    tenantRL (w_disp w1) = tenantRL (w_disp w) →
    wp tenant (ends_as t m1) (λ w' a, wp (rest a) (ends_as t m1) (ends_as t m1) w') w1) as Htail.
  { intros w1 m1 Ht1 Hd1 Hg1 Hl. subst t rest tenant. rewrite Hg in Hg1. rewrite <- Hl.
    destruct id as [i|] eqn:Ei; [destruct (String.eqb_spec (TenantID i) "") as [Htn|Htn]|].
    - unfold asking_tenant. rewrite Htn, orb_true_r. apply wp_ret. by apply acquire_agrees.
    - rewrite <- Ei. by apply tenant_agrees.
    - apply wp_ret. by apply acquire_agrees. }
  clearbody t tenant. destruct (held (re_pluginID e) (pluginRL (w_disp w))) eqn:Eh; cbn [negb].
  - rewrite alone_loading by done. cbn [alone]. rewrite Hd, spend_when_held by done.
    destruct (spend (t_rate clk) _ _ _) as [ls ok]. apply wp_bind, wp_modify. cbn [fst snd].
    apply wp_bind. destruct ok; [apply wp_ret|apply reject_wp; split; [same_core Hd|done]].
    eapply wp_mono; [apply (Htail _ (on_core (on_core_disp (set_pluginRL ls)) m)); [done|same_core Hd|done..]|..].
    + intros w' r [<- ?]. done.
    + intros w' a Hw. eapply wp_mono; [exact Hw|..]; intros w2 r [<- ?]; done.
  - rewrite spend_not_held by done. apply wp_bind, wp_modify, wp_bind, wp_ret. apply Htail; [done| |done..].
    cbn. rewrite Hd. by destruct (w_disp w).
Qed.

Lemma maintenance_agrees pe rid me pa :
  agrees (maintenance clk (re_pluginName e);; rate_limit clk e;; acquire e;;
          deferring (release e) (breaker clk e;; tenantID ← inject e pe;
            forward Inject RoundTrip Dial clk e pe me pa tenantID rid))
    (asking_window clk id plugin_gone tenant_gone out p plugin pe).
Proof using Hp.
  intros w m Ht Hd Hg. apply wp_bind. unfold maintenance. apply wp_bind, wp_get_state.
  unfold ends_as, asking_window. cbn [reading alone]. rewrite Hd. unfold MaintenanceFor.
  destruct (read_window _ _) as [win|] eqn:E.
  - destruct (Until win <? t_maint clk); apply wp_bind, wp_modify.
    + apply wp_ret. cbn [alone].
      refine (hand_over _ (asking_limiter clk id plugin_gone tenant_gone out p plugin pe)
        (on_reg (ClearMaintenance (re_pluginName e)))
        (on_disp (set_reg (ClearMaintenance (re_pluginName e) (reg (w_disp w)))) w) m (rate_limit_agrees pe rid me pa) Ht _ Hg _);
        [unfold on_reg; same_core Hd|done].
    + wp_steps. unfold respond_header, on_gin. cbn. split; [|done].
      destruct m as [c T], (w_disp w) eqn:Ew. destruct c. cbn in *. by subst.
  - apply wp_bind, wp_modify, wp_ret. apply (rate_limit_agrees pe rid me pa); [done| |done].
    cbn. rewrite Hd. by destruct (w_disp w).
Qed.
End alone.

(** The thread of a request, alone, is [Dispatch]. *)
Lemma request_alone `{MapOrder} uuid Inject RoundTrip Dial clk w0 plugin_gone tenant_gone m :
  represents (table m) (disp (core m)) → disp (core m) = w_disp w0 →
  let t := request_thread clk (g_identity (w_gin w0)) (rq_Method (g_req (w_gin w0)))
             (u_Path (rq_URL (g_req (w_gin w0)))) plugin_gone tenant_gone
             (told uuid Inject RoundTrip clk w0) in
  let '(w', r) := Dispatch uuid Inject RoundTrip Dial clk w0 in
  ends_as t m w' r.
Proof.
  intros Hrep Hd t. rewrite (surjective_pairing (Dispatch _ _ _ _ _ _)).
  set (method := rq_Method _) in *. set (path := u_Path _) in *. subst t. unfold request_thread.
  set (t := if Firewall.IsRouteBlocked path then _ else _).
  apply (wp_run_handler _ (λ w' r, ends_as t m w' r)). unfold Dispatch_body.
  apply wp_bind, wp_get_state. fold method path. apply wp_bind, request_id_wp. intros rid.
  assert (disp (core m) = w_disp (named uuid w0)) as Hd' by by rewrite named_disp.
  apply wp_bind. unfold route. apply wp_bind. unfold ends_as, t. clear t.
  assert (∀ evs, set_core_disp (w_disp {| w_disp := w_disp (named uuid w0); w_gin := w_gin (named uuid w0);
                                          w_events := evs |}) (core m) = core m) as Hstay
    by (intros evs; cbn; rewrite <- Hd'; by destruct (core m)).
  destruct (Firewall.IsRouteBlocked path); [apply reject_wp; split; [apply Hstay|done]|apply wp_ret].
  apply wp_bind, wp_get_state. cbn [reading alone]. rewrite <- Hd' at 1.
  destruct (table m) as [hp sl] eqn:Et. destruct Hrep as [Hok Hc].
  pose proof (match_deref method path hp sl _ Hok Hc) as Hm.
  destruct (RouteTable.match_ method path (hp, sl)) as [p|] eqn:Ep; cbn [mbind option_bind] in Hm.
  2: { rewrite <- Hm. apply wp_answer. split; [apply (Hstay (w_events (named uuid w0)))|done]. }
  destruct (RouteTable.match_deref_Some _ _ _ _ _ Hok Ep) as [e He]. rewrite <- Hm, He.
  assert (∀ A (field : routeEntry → A) k, alone (loading field p k) m = alone (k (field e)) m) as Hload.
  { intros A field k. apply (alone_loading (table m)); [by rewrite Et|done]. }
  set (found := finding clk (g_identity (w_gin w0)) plugin_gone tenant_gone (told uuid Inject RoundTrip clk w0) p (re_pluginName e)).
  match goal with |- wp _ _ (λ s a, wp (@?K a) _ _ s) _ => set (rest := K) end.
  assert (wp (match Registry.Get (re_pluginID e) (reg (w_disp (named uuid w0))) with
      | Some pe => if negb (Alive pe) then reject (re_pluginName e) "unavailable" (JSON 503 (error_body "plugin unavailable"))
                   else mret (e, pe)
      | None => reject (re_pluginName e) "unavailable" (JSON 503 (error_body "plugin unavailable"))
      end) (ends_as found m) (λ s a, wp (rest a) (ends_as found m) (ends_as found m) s) (named uuid w0)) as Hfind.
  { unfold rest, ends_as, found, finding. rewrite Hload. cbn [reading alone]. rewrite <- Hd'.
    destruct (Registry.Get _ _) as [pe|]; [|apply reject_wp; split; [apply Hstay|done]].
    destruct (Alive pe); cbn [negb]; [apply wp_ret|apply reject_wp; split; [apply Hstay|done]].
    exact (maintenance_agrees uuid Inject RoundTrip Dial clk w0 plugin_gone tenant_gone (hp, sl) p e He pe rid method path
      (named uuid w0) m Et Hd' eq_refl). }
  apply wp_bind. rewrite Hload. unfold authorizing. fold found. rewrite Hload.
  destruct (re_public e); cbn [negb andb]; [apply wp_ret; exact Hfind|]. rewrite Hload.
  destruct (String.eqb (re_permission e) ""); cbn [negb andb]; [apply wp_ret; exact Hfind|]. rewrite Hload.
  unfold IdentityFrom. rewrite named_identity.
  destruct (authorized _ e); cbn [negb andb]; [apply wp_ret; exact Hfind|]. apply reject_wp. split; [apply Hstay|done].
Qed.

(** ** The rest of the threads *)

Section others.
Context `{MapOrder} (h : Handlers) (time_json : Z → string).

(** A handler that is one critical section. *)
Definition handling (m : Handler Core Reply Reply) : thread :=
  Act (on_core (λ c, (m c).1)) (λ s, Done (Replied (match (m (core s)).2 with inl r | inr r => r end))).

(** One tick of the health monitor. *)
Definition probing (Do : string → option Z) (now : string → Z) (e : PluginEntry) (t : thread) : thread :=
  let pluginID := PluginID (Info e) in
  if healthy Do e then Act (on_core (on_reg (λ r, (Heartbeat (now pluginID) pluginID r).1))) (λ _, t)
  else
    Act (on_core (on_reg (MarkDead pluginID))) (λ _,
    Act (on_core (on_core_disp (λ d, set_cb (CircuitBreaker.ForceOpen (now pluginID) pluginID (cb d)) d))) (λ _, t)).
Definition health_thread (Do : string → option Z) (now : string → Z) : thread :=
  reading (λ m, foldr (probing Do now) (Done (Reached None)) (List (reg (disp (core m))))).

(** One tick of the sweep: the limiters, then each in its own critical section. *)
Definition sweeping (now : string → Z) (idle : Z) (id : string) (t : thread) : thread :=
  Act (on_core (on_core_disp (λ d, set_tenantRL (alter (EvictIdle (now id) idle) id (tenantRL d)) d))) (λ _, t).
Definition sweep_thread (now : string → Z) (idle : Z) : thread :=
  reading (λ m, foldr (sweeping now idle) (Done (Reached None)) (range (tenantRL (disp (core m)))).*1).

(** The threads that add and remove plugins, each with the UUID it is handed, if any;
    what a plugin's manifest is may differ from one registration to the next. *)
Inductive control_thread (grow : nat → nat) (url_Parse : string → option Registry.URL)
    (parse_error Quote : string → string) : option string → thread → Prop :=
| control_register HTTPGet Decode uuid now issued body :
    control_thread grow url_Parse parse_error Quote (Some uuid)
      (register_thread grow url_Parse parse_error HTTPGet Decode Quote h uuid now issued body)
| control_deregister now body :
    control_thread grow url_Parse parse_error Quote None (deregister_thread grow h now body)
| control_remove id :
    control_thread grow url_Parse parse_error Quote None (removing grow id).

(** [resetBreaker]: the plugin is looked up, then its breaker reset. *)
Definition resetting (id : string) : thread :=
  reading (λ m,
    match Registry.Get id (reg (disp (core m))) with
    | None => refuse 404 "plugin not found"
    | Some _ => Act (on_core (on_core_disp (ResetCircuitBreaker id))) (λ _, Done (Replied (ok [("success", JBool true)])))
    end).

(** [Maintenances]: the names, then each window as [asking_window] reads it. *)
Fixpoint collecting (now : Z) (names : list string) : thread :=
  match names with
  | [] => Done (Reached None)
  | n :: names' =>
      reading (λ m,
        match read_window n (reg (disp (core m))) with
        | Some w => if Until w <? now then Act (on_core (on_reg (ClearMaintenance n))) (λ _, collecting now names')
                    else collecting now names'
        | None => collecting now names'
        end)
  end.
Definition listing_thread (now : Z) : thread :=
  reading (λ m, collecting now (range (maint (reg (disp (core m))))).*1).

Lemma health_alone Do now m :
  (ran (health_thread Do now) m).1 =
  let '(r, b) := checkAll Do now (reg (disp (core m)), cb (disp (core m))) in
  set_core_disp (set_cb b (set_reg r (disp (core m)))) (core m).
Proof.
  unfold health_thread, checkAll. change (ran (reading ?k) m) with (ran (k m) m). cbv beta. cbn [fst].
  generalize (List (reg (disp (core m)))) as es. intros es. revert m.
  induction es as [|e es IH]; intros m; cbn [foldr foldl]; [by destruct m as [[[] ? ? ?] ?]|].
  unfold probing at 1, check at 2. destruct (healthy Do e).
  - change (ran (Act ?f ?k) m) with (ran (k m) (f m)). cbv beta. rewrite IH. cbn. by destruct (foldl _ _ es).
  - change (ran (Act ?f (λ _, Act ?g (λ _, ?t))) m) with (ran t (g (f m))). rewrite IH. cbn. by destruct (foldl _ _ es).
Qed.

(** Altering each entry in turn alters them all. *)
Lemma foldl_alter_lookup {V} (f : V → V) ids (ls : gmap string V) k :
  NoDup ids → foldl (λ ls id, alter f id ls) ls ids !! k = (if decide (k ∈ ids) then f <$> ls !! k else ls !! k).
Proof.
  intros Hnd. revert ls. induction Hnd as [|i ids Hi _ IH]; intros ls; cbn [foldl].
  { rewrite decide_False; [done|apply not_elem_of_nil]. }
  rewrite IH. destruct (decide (k = i)) as [->|Hne].
  - rewrite decide_False, decide_True by (done || by left). apply lookup_alter_eq.
  - rewrite lookup_alter_ne by done. by rewrite (decide_ext (k ∈ i :: ids) (k ∈ ids)) by (rewrite elem_of_cons; naive_solver).
Qed.
Lemma foldl_alter_range {V} (f : V → V) (ls : gmap string V) :
  foldl (λ ls id, alter f id ls) ls (range ls).*1 = f <$> ls.
Proof.
  apply map_eq. intros k. rewrite foldl_alter_lookup by apply NoDup_range. rewrite lookup_fmap.
  case_decide as Hk; [done|]. destruct (ls !! k) as [v|] eqn:E; [|done].
  destruct Hk. apply list_elem_of_fmap. exists (k, v). by rewrite elem_of_range.
Qed.

Lemma sweep_alone now idle m :
  (ran (sweep_thread (λ _, now) idle) m).1 = on_core_disp (tenant_sweep now idle) (core m).
Proof.
  unfold tenant_sweep, sweep_thread. change (ran (reading ?k) m) with (ran (k m) m). cbv beta.
  unfold on_core_disp. rewrite <- foldl_alter_range. generalize (range (tenantRL (disp (core m)))).*1 as ids.
  intros ids. revert m. induction ids as [|id ids IH]; intros m; cbn [foldr foldl]; [by destruct m as [[[] ? ? ?] ?]|].
  exact (IH _).
Qed.
Lemma resetting_alone id m : ran (resetting id) m = replied (resetBreaker id (core m)).
Proof.
  unfold resetting, resetBreaker, ran. run_steps. cbn [alone reading].
  by destruct (Registry.Get id (reg (disp (core m)))).
Qed.
Lemma listing_alone now m : (ran (listing_thread now) m).1 = (listMaintenance now (core m)).1.
Proof.
  unfold listMaintenance, Maintenances, listing_thread. run_steps.
  change (ran (reading ?k) m) with (ran (k m) m). cbv beta.
  generalize (range (maint (reg (disp (core m))))).*1 as ns. generalize (∅ : gmap string Maintenance) as out.
  intros out ns. revert m out. induction ns as [|n ns IH]; intros m out; cbn [collecting collect].
  { by destruct m as [[[] ? ? ?] ?]. }
  change (ran (reading ?k) m) with (ran (k m) m). cbv beta.
  unfold MaintenanceFor. destruct (read_window n _) as [w|]; [destruct (Until w <? now)|]; [|apply IH..].
  change (ran (Act ?f ?k) ?m) with (ran (k m) (f m)). cbv beta.
  rewrite (IH _ out). cbn. by destruct (collect now ns _ out).
Qed.

Inductive other_thread : thread → Prop :=
| other_heartbeat now now' body : other_thread (handling (heartbeat h now now' body))
| other_reset id : other_thread (resetting id)
| other_maintenance now now' body : other_thread (handling (setMaintenance time_json h now now' body))
| other_listing now : other_thread (listing_thread now)
| other_health Do now : other_thread (health_thread Do now)
| other_sweep now idle : other_thread (sweep_thread now idle)
| other_request clk id method path gone gone' out :
    other_thread (request_thread clk id method path gone gone' out).
End others.



(** The sample plugin has registered, and a request comes in. *)
Definition demo_mem : mem := {| core := g_core demo_registered; table := ([[demo_route]], {| sl_arr := 0; sl_len := 1 |}) |}.
Definition demo_world : World := {| w_disp := disp (core demo_mem); w_gin := arrive item_request; w_events := [] |}.
Definition demo_answer (_ : Request) : exchange := {| x_informational := []; x_outcome := Responded 200 |}.
