(* ===== verification/Interleaving.v ===== *)
(** The interleavings of any number of the threads of [Threads], action by action.

    [pstep] interleaves a pool of threads; the interleavings of two registrations, or of
    a removal and a request, are among its runs.  [holding] says which slot a thread
    holds, [harmless] what every interleaving may count on of a thread, [secured] what
    a control-plane thread achieves in spite of the others, [faithful] what one may
    write into the table even beside others of its kind. *)

From S2P Require Import Prelude GoStrings Float64 Crypto Manifest Protection RateLimiter Config Auth RouteTable Registry PluginToken Openapi Health Http Middleware Nav Proxy Dispatcher ControlPlane Gateway Threads.

(** ** Slots, whatever the interleaving *)

(** What a thread has to do with slots: nothing, or it has read the id it is about to
    take one by, or it holds the slot it took by that id and has yet to note whose it is
    to give back, or it has noted that. *)
Inductive slot := NoSlot | Asking (id : string) (p : pointer) | Taken (id : string) (p : pointer) | Noted (id : string).

(** Between the reading it takes a slot by and the one it will give it back by. *)
Definition watches (t : thread) (p : pointer) : Prop :=
  ∃ clk out plugin pe id, t = taking clk out p plugin pe id ∨ t = noting clk out p plugin pe.
Definition id_at (m : mem) (p : pointer) : string := re_pluginID (entry_at m p).

Fixpoint holding (s : slot) (t : thread) : Prop :=
  match t with
  | Done _ => s = NoSlot
  | Act f k =>
      let quiet s' := ∀ m, bh (disp (core (f m))) = bh (disp (core m)) ∧ holding (s' m) (k m) in
      match s with
      | NoSlot => quiet (λ _, NoSlot) ∨ ∃ p, (∀ m, table (f m) = table m) ∧ quiet (λ m, Asking (id_at m p) p)
      | Asking id p =>
          watches (Act f k) p ∧ (∀ m, table (f m) = table m) ∧ ∀ m,
            bh (disp (core (f m))) = (Bulkhead.Acquire id (bh (disp (core m)))).1 ∧
            holding (match (Bulkhead.Acquire id (bh (disp (core m)))).2 with None => Taken id p | Some _ => NoSlot end) (k m)
      | Taken _ p => watches (Act f k) p ∧ (∀ m, table (f m) = table m) ∧ quiet (λ m, Noted (id_at m p))
      | Noted id =>
          quiet (λ _, Noted id) ∨
          ∀ m, bh (disp (core (f m))) = Bulkhead.Release id (bh (disp (core m))) ∧ holding NoSlot (k m)
      end
  end.

Lemma holding_quiet f k :
  (∀ m, bh (disp (core (f m))) = bh (disp (core m))) → (∀ m, holding NoSlot (k m)) → holding NoSlot (Act f k).
Proof. intros. left. auto. Qed.
Lemma holding_loading {A} (field : routeEntry → A) p k :
  (∀ x, holding NoSlot (k x)) → holding NoSlot (loading field p k).
Proof. intros. by apply holding_quiet. Qed.
Lemma holding_noted f k id :
  (∀ m, bh (disp (core (f m))) = bh (disp (core m))) → (∀ m, holding (Noted id) (k m)) → holding (Noted id) (Act f k).
Proof. intros. left. auto. Qed.
Create HintDb threads.
#[local] Hint Resolve holding_quiet holding_loading holding_noted : threads.

Section slots.
Context `{MapOrder} (h : Handlers) (time_json : Z → string) (grow : nat → nat).
Context (url_Parse : string → option Registry.URL) (parse_error Quote : string → string).

Lemma holding_refuse code msg : holding NoSlot (refuse code msg).
Proof. done. Qed.
Lemma holding_counting t : holding NoSlot t → holding NoSlot (counting t).
Proof. intros. unfold counting, reading. auto with threads. Qed.
Lemma holding_evicting id t : holding NoSlot t → holding NoSlot (evicting grow id t).
Proof. intros. unfold evicting. auto with threads. Qed.
Lemma holding_evicting_all ids t : holding NoSlot t → holding NoSlot (evicting_all grow ids t).
Proof. intros Ht. induction ids; [done|]. by apply holding_evicting. Qed.
#[local] Hint Resolve holding_refuse holding_counting holding_evicting holding_evicting_all : threads.

Lemma holding_enlisting now issued id url mf :
  holding NoSlot (enlisting grow url_Parse parse_error Quote h now issued id url mf).
Proof.
  apply holding_quiet; intros m; [cbn; by destruct (Register _ _ _ _ _ _ _ _ _ _)|].
  destruct (Register _ _ _ _ _ _ _ _ _ _); [|done]. apply holding_quiet.
  - intros m'. cbn. by destruct (AddRoutes_fields id (Name mf) (PluginType mf) (Routes mf) (disp (core m'))) as (_ & _ & ? & _).
  - intros _. apply holding_quiet; [done|]. intros _. by apply holding_counting.
Qed.
#[local] Hint Resolve holding_enlisting : threads.

Lemma holding_removing id : holding NoSlot (removing grow id).
Proof.
  apply holding_quiet; [done|]. intros m. destruct (Registry.Get _ _); [|done].
  apply holding_evicting, holding_quiet; [done|]. intros _. by apply holding_counting.
Qed.

Lemma control_holding u t : control_thread h grow url_Parse parse_error Quote u t → holding NoSlot t.
Proof.
  intros [HTTPGet Decode uuid now issued body|now body|id].
  - unfold register_thread. destruct body as [req|]; [|done].
    destruct (_ && _); [done|]. destruct (String.eqb _ ""); [done|].
    destruct (pullManifest _ _ _); [|done]. destruct (_ && _); [done|].
    apply holding_quiet; auto with threads.
  - unfold deregister_thread. destruct body; [|done]. destruct (negb _); [done|]. apply holding_removing.
  - apply holding_removing.
Qed.

Lemma holding_acquiring clk out p plugin pe : holding NoSlot (acquiring clk out p plugin pe).
Proof.
  assert (∀ rid o, holding (Noted rid) (releasing rid o)) as Hrel by (intros rid o; by right).
  right. exists p. split; [done|]. intros m. split; [done|].
  assert (∀ id, watches (noting clk out p plugin pe) p ∧ watches (taking clk out p plugin pe id) p) as Hw
    by (intros id; split; do 5 eexists; eauto).
  split; [apply Hw|]. split; [done|]. intros m1. split; [done|].
  destruct (Bulkhead.Acquire _ _).2; [done|]. split; [by apply Hw|]. split; [done|]. intros m2. split; [done|].
  apply holding_noted; [done|]. intros m3. apply holding_noted; [done|]. intros m4.
  destruct (CircuitBreaker.Allow _ _ _).2; [apply Hrel|].
  do 3 (apply holding_noted; [done|]; intros ?). apply Hrel.
  Unshelve. all: exact "".
Qed.

Lemma holding_request clk id method path gone gone' out :
  holding NoSlot (request_thread clk id method path gone gone' out).
Proof.
  assert (∀ trl lid p plugin pe, holding NoSlot (asking_tenant clk id gone' out trl lid p plugin pe)) as Hten.
  { intros trl lid p plugin pe. unfold asking_tenant. destruct id as [i|]; [|apply holding_acquiring].
    destruct (_ || _); [apply holding_acquiring|]. apply holding_loading. intros key.
    apply holding_quiet; [done|]. intros m. destruct (spend_held _ _ _ _ _ _).2; [apply holding_acquiring|done]. }
  assert (∀ p plugin pe, holding NoSlot (asking_limiter clk id gone gone' out p plugin pe)) as Hlim.
  { intros p plugin pe. apply holding_quiet; [done|]. intros m. cbv beta zeta. destruct (negb _); [apply Hten|].
    apply holding_loading. intros key. apply holding_quiet; [done|]. intros m1.
    destruct (spend_held _ _ _ _ _ _).2; [apply Hten|done]. }
  assert (∀ p plugin, holding NoSlot (finding clk id gone gone' out p plugin)) as Hfind.
  { intros p plugin. apply holding_loading. intros get_id. apply holding_quiet; [done|]. intros m.
    destruct (Registry.Get _ _) as [pe|]; [|done]. destruct (Alive pe); [|done].
    apply holding_quiet; [done|]. intros m1. destruct (read_window _ _); [|apply Hlim].
    destruct (_ <? _); [|done]. apply holding_quiet; [done|]. intros _. apply Hlim. }
  unfold request_thread. destruct (Firewall.IsRouteBlocked path); [done|].
  apply holding_quiet; [done|]. intros m. destruct (RouteTable.match_ _ _ _) as [p|]; [|done].
  do 2 (apply holding_loading; intros ?). case_match; [apply Hfind|].
  apply holding_loading. intros ?. case_match; [apply Hfind|].
  apply holding_loading. intros ?. case_match; [apply Hfind|done].
Qed.

Lemma other_holding t : other_thread h time_json t → holding NoSlot t.
Proof.
  intros [now now' body|id|now now' body|now|Do now|now idle|clk id method path gone gone' out].
  - apply holding_quiet; [|done]. intros m. cbn. unfold heartbeat. destruct body as [req|]; [|done].
    unfold reject_if. run_steps. destruct (negb _); run_steps; [done|].
    destruct (Heartbeat _ _ _) as [r []]; by run_steps.
  - apply holding_quiet; [done|]. intros m. destruct (Registry.Get _ _); [|done]. by apply holding_quiet.
  - apply holding_quiet; [|done]. intros m. cbn. unfold setMaintenance. destruct body as [req|]; [|done].
    unfold reject_if. run_steps. destruct (_ && _); run_steps; [done|].
    destruct (String.eqb _ ""); run_steps; [done|]. by destruct (negb _); run_steps.
  - apply holding_quiet; [done|]. intros m. induction (range (maint _)).*1 as [|n ns IH]; [done|].
    apply holding_quiet; [done|]. intros m'. destruct (read_window _ _); [|done].
    destruct (_ <? _); [|done]. by apply holding_quiet.
  - apply holding_quiet; [done|]. intros m. induction (List _) as [|e es IH]; [done|].
    cbn [foldr]. unfold probing at 1. destruct (healthy _ _); auto 6 using holding_quiet.
  - apply holding_quiet; [done|]. intros m. induction (range _).*1 as [|i ids IH]; [done|].
    by apply holding_quiet.
  - apply holding_request.
Qed.
End slots.

(** ** What the other threads leave alone *)

(** What any of them may do between two actions of a control-plane thread. *)
Definition rely (c c' : Core) : Prop :=
  same_tables (disp c) (disp c') ∧ cfg (disp c') = cfg (disp c) ∧
  ∀ id e', plugins (reg (disp c')) !! id = Some e' →
    ∃ e, plugins (reg (disp c)) !! id = Some e ∧ (entry_ok id e → entry_ok id e').

#[export] Instance rely_preorder : PreOrder rely.
Proof.
  split.
  - intros c. split_and!; [done..|]. intros id e' He. eauto.
  - intros c1 c2 c3 (S1 & F1 & E1) (S2 & F2 & E2). split_and!; [by etransitivity|congruence|].
    intros id e3 (e2 & (e1 & ? & ?)%E1 & ?)%E2. eauto.
Qed.

Lemma core_ok_rely c c' : core_ok c → rely c c' → core_ok c'.
Proof.
  intros [Hs Ht] (Hst & _ & He). split; [|by eapply table_ok_same].
  intros id e' (e & Hid & Hok)%He. by apply Hok, Hs.
Qed.

(** The actions of a control-plane thread respect it. *)
#[export] Instance evicted_proper id : Proper (rely ==> rely) (on_reg (Deregister id)).
Proof.
  intros c c' ((Hp & Hr & Hl & Ht) & Hf & He). split_and!; [split_and!; [|done..]|done|]; cbn.
  - intros i. destruct (decide (i = id)) as [->|]; [by rewrite !lookup_delete_eq|].
    rewrite !lookup_delete_ne by done. apply Hp.
  - intros i e' [Hne (e & ? & ?)%He]%lookup_delete_Some. exists e.
    by rewrite lookup_delete_ne.
Qed.

Lemma delete_dom_iff {A} (m m' : gmap string A) id :
  (∀ i, is_Some (m' !! i) ↔ is_Some (m !! i)) →
  ∀ i, is_Some (delete id m' !! i) ↔ is_Some (delete id m !! i).
Proof. intros Hm i. by rewrite !lookup_delete_is_Some, Hm. Qed.
Lemma insert_dom_iff {A} (m m' : gmap string A) id x :
  (∀ i, is_Some (m' !! i) ↔ is_Some (m !! i)) →
  ∀ i, is_Some (<[id:=x]> m' !! i) ↔ is_Some (<[id:=x]> m !! i).
Proof. intros Hm i. by rewrite !lookup_insert_is_Some', Hm. Qed.

#[export] Instance unrouted_proper id : Proper (rely ==> rely) (on_core_disp (RemoveRoutes id)).
Proof.
  intros c c' ((Hp & Hr & Hl & Ht) & Hf & He). split_and!; [split_and!|done|done]; [done|..].
  - cbn. by rewrite Hr.
  - cbn. by apply delete_dom_iff.
  - cbn. by apply delete_dom_iff.
Qed.

#[export] Instance routed_proper id name ty rs :
  Proper (rely ==> rely) (on_core_disp (Dispatcher.AddRoutes id name ty rs)).
Proof.
  intros c c' ((Hp & Hr & Hl & Ht) & Hf & He).
  destruct (AddRoutes_fields id name ty rs (disp c)) as (R1 & _ & _ & F1 & T1 & P1 & N1).
  destruct (AddRoutes_fields id name ty rs (disp c')) as (R2 & _ & _ & F2 & T2 & P2 & N2).
  unfold rely, same_tables. cbn [on_core_disp set_core_disp disp].
  rewrite R1, R2, T1, T2, P1, P2, N1, N2, F1, F2, Hf, Hr.
  split_and!; [done|done|by apply insert_dom_iff| |done|done].
  destruct (f64_ltb _ _); [by apply insert_dom_iff|by apply delete_dom_iff].
Qed.

#[export] Instance evict_proper : Proper (rely ==> eq ==> rely) evict.
Proof. intros c c' Hc id _ <-. by apply unrouted_proper, evicted_proper. Qed.
#[export] Instance foldl_evict_proper : Proper (rely ==> eq ==> rely) (foldl evict).
Proof.
  intros c c' Hc ids _ <-. revert c c' Hc. induction ids as [|id ids IH]; intros c c' Hc; [done|].
  by apply IH, evict_proper.
Qed.

(** What moves none of it. *)
Lemma rely_plugins c c' :
  plugins (reg (disp c')) = plugins (reg (disp c)) → routes (disp c') = routes (disp c) →
  (∀ i, is_Some (pluginRL (disp c') !! i) ↔ is_Some (pluginRL (disp c) !! i)) →
  (∀ i, is_Some (tenantRL (disp c') !! i) ↔ is_Some (tenantRL (disp c) !! i)) →
  cfg (disp c') = cfg (disp c) → rely c c'.
Proof.
  intros Hp Hr Hl Ht Hf. split_and!; [split_and!|done|]; [intros i; by rewrite Hp|done..|].
  rewrite Hp. eauto.
Qed.
Lemma rely_quiet c c' :
  plugins (reg (disp c')) = plugins (reg (disp c)) → routes (disp c') = routes (disp c) →
  pluginRL (disp c') = pluginRL (disp c) → tenantRL (disp c') = tenantRL (disp c) →
  cfg (disp c') = cfg (disp c) → rely c c'.
Proof. intros Hp Hr Hl Ht Hf. apply rely_plugins; [done..|by rewrite Hl|by rewrite Ht|done]. Qed.

(** A plugin's entry moves only in its liveness. *)
Lemma rely_entry id f g c :
  (∀ r, plugins (g r) = match plugins r !! id with None => plugins r | Some e => <[id := f e]> (plugins r) end) →
  (∀ e, (PluginName (Info (f e)), Manifest (f e)) = (PluginName (Info e), Manifest e) ∧
        (entry_ok id e → entry_ok id (f e))) →
  rely c (on_reg g c).
Proof.
  intros Hg Hf. specialize (Hg (reg (disp c))).
  destruct (plugins (reg (disp c)) !! id) as [e|] eqn:E; [|by apply rely_quiet].
  split_and!; [split_and!; [|done..]|done|]; intros i; cbn; rewrite Hg.
  - destruct (decide (i = id)) as [->|]; [|by rewrite lookup_insert_ne].
    rewrite lookup_insert_eq, E. cbn. f_equal. apply Hf.
  - intros e'. rewrite lookup_insert_Some. intros [[<- <-]|[Hne He]]; [|eauto].
    exists e. split; [done|apply Hf].
Qed.
Lemma rely_beat now id c : rely c (on_reg (λ r, (Heartbeat now id r).1) c).
Proof.
  apply (rely_entry id (beat now)); [intros r; unfold Heartbeat; by destruct (plugins r !! id)|].
  intros e. split; [done|]. by intros (? & ? & ? & _).
Qed.
Lemma rely_kill id c : rely c (on_reg (MarkDead id) c).
Proof.
  apply (rely_entry id kill); [intros r; unfold MarkDead; by destruct (plugins r !! id)|].
  intros e. split; [done|]. by intros (? & ? & ? & _).
Qed.

(** A thread every action of which any other can rely on: it leaves the table alone. *)
Fixpoint harmless (t : thread) : Prop :=
  match t with
  | Done _ => True
  | Act f k => ∀ m, (rely (core m) (core (f m)) ∧ table (f m) = table m) ∧ harmless (k m)
  end.

Lemma harmless_act f k : (∀ c, rely c (f c)) → (∀ m, harmless (k m)) → harmless (Act (on_core f) k).
Proof. intros Hf Hk m. split; [split; [apply Hf|done]|auto]. Qed.
Lemma harmless_on f k :
  (∀ m, ∃ c, f m = {| core := c; table := table m |} ∧ rely (core m) c) → (∀ m, harmless (k m)) → harmless (Act f k).
Proof. intros Hf Hk m. destruct (Hf m) as (c & -> & ?). split; [done|auto]. Qed.
Lemma harmless_reading k : (∀ m, harmless (k m)) → harmless (reading k).
Proof. intros Hk m. by split. Qed.
Lemma harmless_loading {A} (field : routeEntry → A) p k : (∀ x, harmless (k x)) → harmless (loading field p k).
Proof. intros. by apply harmless_reading. Qed.
Lemma rely_breaker f c : rely c (on_core_disp (λ d, set_cb (f d) d) c).
Proof. by apply rely_quiet. Qed.
Lemma rely_slots f c : rely c (on_core_disp (λ d, set_bh (f d) d) c).
Proof. by apply rely_quiet. Qed.
Lemma rely_windows f c : rely c (on_reg (λ r, set_maint (f r) r) c).
Proof. by apply rely_quiet. Qed.
#[export] Hint Resolve harmless_act harmless_reading harmless_loading rely_beat rely_kill rely_breaker rely_slots
  rely_windows : threads.

Lemma harmless_acquiring `{MapOrder} clk out p plugin pe : harmless (acquiring clk out p plugin pe).
Proof.
  assert (∀ rid o, harmless (releasing rid o)) as Hrel by (intros rid o; apply harmless_act; [apply rely_slots|done]).
  apply harmless_loading. intros id. apply harmless_on; [intros m; eexists; split; [done|apply rely_slots]|].
  intros m. destruct (Bulkhead.Acquire _ _).2; [done|]. apply harmless_loading. intros rid.
  apply harmless_loading. intros aid. apply harmless_on; [intros m1; eexists; split; [done|apply rely_breaker]|].
  intros m1. destruct (CircuitBreaker.Allow _ _ _).2; [apply Hrel|].
  apply harmless_reading. intros m2. apply harmless_loading. intros tid.
  apply harmless_act; [apply rely_breaker|intros _; apply Hrel].
Qed.

Lemma harmless_request `{MapOrder} clk id method path gone gone' out :
  harmless (request_thread clk id method path gone gone' out).
Proof.
  assert (∀ trl lid p plugin pe, harmless (asking_tenant clk id gone' out trl lid p plugin pe)) as Hten.
  { intros trl lid p plugin pe. unfold asking_tenant. destruct id as [i|]; [|apply harmless_acquiring].
    destruct (_ || _); [apply harmless_acquiring|]. apply harmless_loading. intros key.
    apply harmless_on.
    - intros m. eexists. split; [done|]. apply rely_plugins; try done. intros j. apply spend_held_dom.
    - intros m. destruct (spend_held _ _ _ _ _ _).2; [apply harmless_acquiring|done]. }
  assert (∀ p plugin pe, harmless (asking_limiter clk id gone gone' out p plugin pe)) as Hlim.
  { intros p plugin pe. apply harmless_reading. intros m. cbv beta zeta. destruct (negb _); [apply Hten|].
    apply harmless_loading. intros key. apply harmless_on.
    - intros m1. eexists. split; [done|]. apply rely_plugins; try done. intros j. apply spend_held_dom.
    - intros m1. destruct (spend_held _ _ _ _ _ _).2; [apply Hten|done]. }
  assert (∀ p plugin, harmless (finding clk id gone gone' out p plugin)) as Hfind.
  { intros p plugin. apply harmless_loading. intros get_id. apply harmless_reading. intros m.
    destruct (Registry.Get _ _) as [pe|]; [|done]. destruct (Alive pe); [|done].
    apply harmless_reading. intros m1. destruct (read_window _ _); [|apply Hlim].
    destruct (_ <? _); [|done]. apply harmless_act; [apply rely_windows|]. intros _. apply Hlim. }
  unfold request_thread. destruct (Firewall.IsRouteBlocked path); [done|].
  apply harmless_reading. intros m. destruct (RouteTable.match_ _ _ _) as [p|]; [|done].
  do 2 (apply harmless_loading; intros ?). case_match; [apply Hfind|].
  apply harmless_loading. intros ?. case_match; [apply Hfind|].
  apply harmless_loading. intros ?. case_match; [apply Hfind|done].
Qed.

Lemma other_harmless `{MapOrder} h time_json t : other_thread h time_json t → harmless t.
Proof.
  intros [now now' body|id|now now' body|now|Do now|now idle|clk id method path gone gone' out].
  - apply harmless_act; [|done]. intros c. unfold heartbeat. destruct body as [req|]; [|done].
    unfold reject_if. run_steps. destruct (negb _); run_steps; [done|].
    assert (rely c (on_reg (λ _, (Heartbeat now' (tr_PluginID req) (reg (disp c))).1) c)) as Hr
      by exact (rely_beat _ _ c).
    destruct (Heartbeat _ _ _) as [r []]; by run_steps.
  - apply harmless_reading. intros m. destruct (Registry.Get _ _); [|done].
    apply harmless_act; [|done]. intros c'. apply rely_breaker.
  - apply harmless_act; [|done]. intros c. unfold setMaintenance. destruct body as [req|]; [|done].
    unfold reject_if. run_steps. destruct (_ && _); run_steps; [done|].
    destruct (String.eqb _ ""); run_steps; [done|].
    destruct (negb _); run_steps; [by apply rely_windows|]. by apply rely_quiet.
  - apply harmless_reading. intros m. induction (range (maint _)).*1 as [|n ns IH]; [done|].
    apply harmless_reading. intros m'. destruct (read_window _ _); [|done].
    destruct (_ <? _); [|done]. apply harmless_act; [intros c''; apply rely_windows|done].
  - apply harmless_reading. intros m. induction (List _) as [|e es IH]; [done|].
    cbn [foldr]. unfold probing at 1. destruct (healthy _ _); [auto with threads|].
    apply harmless_act; [auto with threads|]. intros c'. auto with threads.
  - apply harmless_reading. intros m. induction (range _).*1 as [|i ids IH]; [done|].
    apply harmless_act; [|done]. intros c'. apply rely_plugins; try done.
    intros j. cbn. by rewrite lookup_alter_is_Some.
  - apply harmless_request.
Qed.

(** ** Control-plane threads, one at a time *)

(** From [c], whatever the others do before each of its actions and after the last,
    the thread leaves the tables in agreement. *)
Fixpoint secured (t : thread) (c : Core) : Prop :=
  match t with
  | Done _ => core_ok c
  | Act f k => ∀ m, rely c (core m) → secured (k m) (core (f m))
  end.

Lemma secured_rely t c c' : secured t c → rely c c' → secured t c'.
Proof.
  destruct t as [o|f k]; [apply core_ok_rely|]. intros Ht Hc c'' Hc'. apply Ht. by etransitivity.
Qed.

Section secured.
Context `{MapOrder} (h : Handlers) (grow : nat → nat).
Context (url_Parse : string → option Registry.URL) (parse_error Quote : string → string).

Lemma secured_reading k c : (∀ m, rely c (core m) → secured (k m) (core m)) → secured (reading k) c.
Proof. done. Qed.
Lemma secured_counting o c : core_ok c → secured (counting (Done o)) c.
Proof.
  intros Hc m1 H1 m2 H2. apply (core_ok_rely (core m2)); [|by apply rely_quiet].
  refine (core_ok_rely _ _ _ H2). by refine (core_ok_rely _ _ _ H1).
Qed.

Lemma secured_evicting id t c :
  (∀ c', rely (evict c id) c' → secured t c') → secured (evicting grow id t) c.
Proof.
  intros Ht m1 H1 m2 H2. apply Ht. apply unrouted_proper.
  etransitivity; [by apply evicted_proper, H1|exact H2].
Qed.
Lemma secured_evicting_all ids t c :
  (∀ c', rely (foldl evict c ids) c' → secured t c') → secured (evicting_all grow ids t) c.
Proof.
  revert c. induction ids as [|id ids IH]; intros c Ht; [by apply (Ht c)|]. apply secured_evicting.
  intros c1 H1. apply IH. intros c2 H2. apply Ht. rewrite <- H2.
  by refine (foldl_evict_proper _ _ H1 ids ids _).
Qed.

(** Adding a plugin no entry of the tables speaks of. *)
Lemma secured_enlisting now issued id url mf c :
  core_ok c → plugins (reg (disp c)) !! id = None →
  (∀ id' e, plugins (reg (disp c)) !! id' = Some e → PluginName (Info e) ≠ Name mf) →
  secured (enlisting grow url_Parse parse_error Quote h now issued id url mf) c.
Proof.
  intros Hc Hid Hname m1 H1. cbn [on_core core]. revert H1. generalize (core m1). clear m1. intros c1 H1.
  assert (core_ok c1) as Hc1 by by eapply core_ok_rely.
  pose proof H1 as ((Hp & _) & _).
  assert (plugins (reg (disp c1)) !! id = None) as Hid1.
  { apply eq_None_not_Some. rewrite (same_plugins_is_Some _ _ id Hp), Hid. by intros []. }
  assert (∀ id' e, plugins (reg (disp c1)) !! id' = Some e → PluginName (Info e) ≠ Name mf) as Hn1.
  { intros id' e (e0 & He0 & -> & _)%(same_plugins_Some _ _ _ _ Hp). by eapply Hname. }
  pose proof (λ c2, enlist_core_ok url_Parse now id url mf c1 c2 Hc1 Hid1 Hn1) as Hok. unfold enlist in Hok.
  destruct (Register url_Parse _ _ _ _ _ _ _ _ _) as [r|]; [|done].
  destruct (Hok _ eq_refl) as [Hc2 _]. intros m2 H2 m3 H3.
  apply secured_counting. apply (core_ok_rely (core m3)); [|by apply rely_quiet].
  refine (core_ok_rely _ _ _ H3). refine (core_ok_rely _ _ Hc2 _). etransitivity; [|by apply routed_proper, H2].
  by apply rely_quiet.
Qed.

Lemma secured_register HTTPGet Decode uuid now issued body c :
  core_ok c → (∀ mf, plugins (reg (disp c)) !! plugin_id uuid mf = None) →
  secured (register_thread grow url_Parse parse_error HTTPGet Decode Quote h uuid now issued body) c.
Proof.
  intros Hc Hfresh. unfold register_thread. destruct body as [req|]; [|done].
  destruct (_ && _); [done|]. destruct (String.eqb _ ""); [done|].
  destruct (pullManifest _ _ _) as [mf|]; [|done]. destruct (_ && _); [done|].
  apply secured_reading. intros m1. generalize (core m1). intros c1 H1. apply secured_evicting_all. intros c2 H2.
  assert (core_ok c1) as Hc1 by by eapply core_ok_rely.
  pose proof H1 as ((Hp1 & _) & _). pose proof H2 as ((Hp2 & _) & _).
  apply secured_enlisting.
  - refine (core_ok_rely _ _ _ H2). by apply foldl_evict_core_ok.
  - apply eq_None_not_Some. rewrite (same_plugins_is_Some _ _ _ Hp2), foldl_evict_plugins.
    case_decide; [by intros []|]. rewrite (same_plugins_is_Some _ _ _ Hp1), Hfresh. by intros [].
  - intros id' e (e0 & He0 & -> & _)%(same_plugins_Some _ _ _ _ Hp2).
    pose proof (evict_named_plugins (Name mf) c1 id') as Hev. unfold evict_named in Hev.
    rewrite He0 in Hev. destruct (plugins (reg (disp c1)) !! id'); simplify_eq/=. by case_decide; simplify_eq/=.
Qed.

Lemma secured_removing id c : core_ok c → secured (removing grow id) c.
Proof.
  intros Hc m1 H1. assert (core_ok (core m1)) as Hc1 by by eapply core_ok_rely.
  destruct (Registry.Get id _); [|done]. apply secured_evicting. intros c2 H2 m3 H3. apply secured_counting.
  apply (core_ok_rely (core m3)); [|by apply rely_quiet]. refine (core_ok_rely _ _ _ H3).
  refine (core_ok_rely _ _ _ H2). by apply evict_core_ok.
Qed.

(** A UUID that makes an id no registered plugin has. *)
Definition unused (c : Core) (u : option string) : Prop :=
  ∀ uuid, u = Some uuid → ∀ mf, plugins (reg (disp c)) !! plugin_id uuid mf = None.

Lemma control_secured c u t :
  control_thread h grow url_Parse parse_error Quote u t → unused c u → core_ok c → secured t c.
Proof.
  intros [HTTPGet Decode uuid now issued body|now body|id] Hu Hc.
  - apply secured_register; [done|]. by apply (Hu uuid).
  - unfold deregister_thread. destruct body; [|done]. destruct (negb _); [done|]. by apply secured_removing.
  - by apply secured_removing.
Qed.
End secured.

(** ** The pool *)

(** What the threads share, the control-plane threads and the others in progress, and
    the UUIDs handed out so far. *)
Record pool := { p_mem : mem; p_control : list thread; p_others : list thread; p_issued : list string }.
Definition p_core (s : pool) : Core := core (p_mem s).

Definition begin (cfg : Config.Config) : pool :=
  {| p_mem := {| core := g_core (start cfg); table := nil_slice |}; p_control := []; p_others := []; p_issued := [] |}.
Definition p_threads (s : pool) : list thread := app (p_control s) (p_others s).

(** One thread performs its next action, or returns. *)
Inductive moves (m : mem) : list thread → mem → list thread → Prop :=
| acts pre f k post : moves m (app pre (Act f k :: post)) (f m) (app pre (k m :: post))
| ends pre o post : moves m (app pre (Done o :: post)) m (app pre post).

Section pool.
Context `{MapOrder} (h : Handlers) (grow : nat → nat).
Context (url_Parse : string → option Registry.URL) (parse_error Quote : string → string).
Context (time_json : Z → string).
(** The control-plane threads beside which another may start. *)
Context (beside : list thread → Prop).

Inductive pstep (s : pool) : pool → Prop :=
| spawn_control u t :
    beside (p_control s) → control_thread h grow url_Parse parse_error Quote u t → unused (p_core s) u →
    pstep s {| p_mem := p_mem s; p_control := t :: p_control s; p_others := p_others s;
               p_issued := app (option_list u) (p_issued s) |}
| spawn_other t :
    other_thread h time_json t →
    pstep s {| p_mem := p_mem s; p_control := p_control s; p_others := t :: p_others s; p_issued := p_issued s |}
| move_control m ts :
    moves (p_mem s) (p_control s) m ts →
    pstep s {| p_mem := m; p_control := ts; p_others := p_others s; p_issued := p_issued s |}
| move_other m ts :
    moves (p_mem s) (p_others s) m ts →
    pstep s {| p_mem := m; p_control := p_control s; p_others := ts; p_issued := p_issued s |}.

(** Seen as one list, the threads of a pool grow by one or move. *)
Lemma moves_app m ts m' ts' pre post :
  moves m ts m' ts' → moves m (app pre (app ts post)) m' (app pre (app ts' post)).
Proof.
  intros []; rewrite <- !app_assoc, !(app_assoc pre); [apply (acts m (app pre _))|apply (ends m (app pre _))].
Qed.
Lemma pstep_threads s s' :
  pstep s s' →
  (∃ pre t post, p_threads s = app pre post ∧ p_threads s' = app pre (t :: post) ∧ p_mem s' = p_mem s ∧
     holding NoSlot t) ∨
  moves (p_mem s) (p_threads s) (p_mem s') (p_threads s').
Proof.
  intros [u t _ Ht _|t Ht|m ts Hm|m ts Hm]; unfold p_threads; cbn.
  - left. exists [], t, (app (p_control s) (p_others s)). split_and!; [done..|]. by eapply control_holding.
  - left. exists (p_control s), t, (p_others s). split_and!; [done..|]. by eapply other_holding.
  - right. exact (moves_app _ _ _ _ [] (p_others s) Hm).
  - right. pose proof (moves_app _ _ _ _ (p_control s) [] Hm) as Hm'. by rewrite !app_nil_r in Hm'.
Qed.

(** *** The slots *)

(** The plugin whose slot is held. *)
Definition owner (s : slot) : option string :=
  match s with Taken id _ | Noted id => Some id | NoSlot | Asking _ _ => None end.

Definition bounded (n : Z) (b : Bulkhead.t) : Prop :=
  Bulkhead.maxConc b = n ∧ ∀ id, 0 ≤ Bulkhead.Active b id ≤ Z.max 0 n.

Lemma bounded_acquire n id b : bounded n b → bounded n (Bulkhead.Acquire id b).1.
Proof.
  intros [Hn Hb]. destruct (Bulkhead.Acquire id b) as [b' [e|]] eqn:E; cbn.
  - unfold Bulkhead.Acquire in E. by case_match; simplify_eq.
  - split; [destruct (Bulkhead.Acquire_active _ _ _ id E) as (_ & _ & ->); done|]. intros i.
    destruct (Bulkhead.Acquire_active _ _ _ i E) as (-> & Hlt & _). specialize (Hb i). case_decide; subst; lia.
Qed.
Lemma bounded_release n id b : bounded n b → bounded n (Bulkhead.Release id b).
Proof.
  intros [Hn Hb]. split; [by rewrite Bulkhead.Release_max|]. intros i. specialize (Hb i).
  destruct (Z.ltb_spec 0 (Bulkhead.Active b id)) as [Hlt|Hge].
  - rewrite Bulkhead.Release_active by done. case_decide; subst; lia.
  - unfold Bulkhead.Release. unfold Bulkhead.Active in Hge. rewrite (proj2 (Z.ltb_ge _ _) Hge). done.
Qed.

(** A thread that has read an id and not used it yet is about to use what the cell says. *)
Definition aligned (m : mem) (s : slot) : Prop :=
  match s with Asking id p | Taken id p => id_at m p = id | NoSlot | Noted _ => True end.

Lemma holding_act n f k s m :
  holding s (Act f k) →
  ∃ s', holding s' (k m) ∧ (bounded n (bh (disp (core m))) → bounded n (bh (disp (core (f m))))) ∧
    (aligned m s → aligned (f m) s' ∧ ∀ fl,
       Bulkhead.accounted n {| Bulkhead.bh := bh (disp (core m)); Bulkhead.in_flight := app (option_list (owner s)) fl |} →
       Bulkhead.accounted n {| Bulkhead.bh := bh (disp (core (f m))); Bulkhead.in_flight := app (option_list (owner s')) fl |}).
Proof.
  cbn [holding]. destruct s as [|id p|id p|id].
  - intros [Hq|(p & Ht & Hq)]; destruct (Hq m) as [Hb Hk].
    + exists NoSlot. by rewrite Hb.
    + exists (Asking (id_at m p) p). rewrite Hb. split_and!; [done..|]. intros _. split; [|done].
      cbn. unfold id_at, entry_at. by rewrite Ht.
  - intros (_ & Ht & Ha). destruct (Ha m) as [Hb Hk]. eexists. split; [exact Hk|]. rewrite Hb.
    split; [apply bounded_acquire|]. cbn [aligned]. intros Hal.
    destruct (Bulkhead.Acquire id (bh (disp (core m)))) as [b' [e|]] eqn:E; cbn [fst snd].
    + split; [done|]. intros fl Hac. cbn [owner option_list app] in *. eapply Bulkhead.step_accounted; [exact Hac|].
      by apply (Bulkhead.refuse_request {| Bulkhead.bh := _ |} _ _ _ E).
    + split; [cbn; unfold id_at, entry_at in *; by rewrite Ht|]. intros fl Hac. cbn [owner option_list app] in *.
      eapply Bulkhead.step_accounted; [exact Hac|]. by apply (Bulkhead.start_request {| Bulkhead.bh := _ |} _ _ E).
  - intros (_ & _ & Hq). destruct (Hq m) as [Hb Hk]. exists (Noted (id_at m p)). rewrite Hb. split_and!; [done..|].
    cbn [aligned]. intros <-. done.
  - intros [Hq|Hr]; [destruct (Hq m) as [Hb Hk]|destruct (Hr m) as [Hb Hk]].
    + exists (Noted id). by rewrite Hb.
    + exists NoSlot. rewrite Hb. split_and!; [done|apply bounded_release|]. intros _. split; [done|]. intros fl Hac.
      eapply Bulkhead.step_accounted; [exact Hac|]. by apply (Bulkhead.finish_request {| Bulkhead.bh := _ |} _ [] fl).
Qed.

Lemma pstep_bounded n s s' :
  pstep s s' → (∃ sl, Forall2 holding sl (p_threads s)) ∧ bounded n (bh (disp (p_core s))) →
  (∃ sl, Forall2 holding sl (p_threads s')) ∧ bounded n (bh (disp (p_core s'))).
Proof.
  unfold p_core. intros [(pre & t & post & -> & -> & -> & Ht)|Hm]%pstep_threads [[sl Hs] Hb].
  - split; [|done]. apply Forall2_app_inv_r in Hs as (h1 & h2 & ? & ? & _).
    exists (app h1 (NoSlot :: h2)). by apply Forall2_app, Forall2_cons.
  - destruct Hm as [pre f k post|pre o post];
      apply Forall2_app_inv_r in Hs as (h1 & h2' & H1 & (s0 & h2 & Hh & H2 & ->)%Forall2_cons_inv_r & ->).
    + destruct (holding_act n f k s0 (p_mem s) Hh) as (s1 & Hs1 & Hb' & _). split; [|auto].
      exists (app h1 (s1 :: h2)). by apply Forall2_app, Forall2_cons.
    + split; [|done]. exists (app h1 h2). by apply Forall2_app.
Qed.

(** A step that changes no id that a thread has read and has yet to read again before it
    has noted whose slot it holds. *)
Definition calm (s s' : pool) : Prop :=
  pstep s s' ∧ ∀ t p, t ∈ p_threads s → watches t p → id_at (p_mem s') p = id_at (p_mem s) p.

(** A step that nothing runs beside is one. *)
Lemma calm_lonely s s' : pstep s s' → (length (p_threads s) ≤ 1)%nat → calm s s'.
Proof.
  intros Hst Hl. split; [done|]. intros t p Ht Hw.
  destruct (pstep_threads _ _ Hst) as [(? & ? & ? & _ & _ & -> & _)|Hm]; [done|].
  inversion Hm as [pre f k post E Em Et|pre o post E Em Et]; [|done].
  rewrite <- E in Ht, Hl. rewrite length_app in Hl. cbn in Hl.
  destruct pre; [|cbn in Hl; lia]. destruct post; [|cbn in Hl; lia]. apply list_elem_of_singleton in Ht as ->.
  destruct Hw as (clk & out & plugin & pe & id & [[= -> _]|[= -> _]]); done.
Qed.

(** Each thread of [ts] holds what [sl] says, and the counters count them. *)
Definition slotted (n : Z) (m : mem) (ts : list thread) (sl : list slot) : Prop :=
  Forall2 (λ s t, holding s t ∧ aligned m s) sl ts ∧
  Bulkhead.accounted n {| Bulkhead.bh := bh (disp (core m)); Bulkhead.in_flight := omap owner sl |}.

Lemma accounted_perm n b fl fl' :
  fl ≡ₚ fl' → Bulkhead.accounted n {| Bulkhead.bh := b; Bulkhead.in_flight := fl |} →
  Bulkhead.accounted n {| Bulkhead.bh := b; Bulkhead.in_flight := fl' |}.
Proof.
  intros Hp [Hn Hb]. split; [done|]. intros p. destruct (Hb p) as [Heq Hle]. split; [|done].
  etransitivity; [exact Heq|]. unfold Bulkhead.flying. cbn. by rewrite Hp.
Qed.
Lemma omap_owner_middle h1 s h2 :
  omap owner (app h1 (s :: h2)) ≡ₚ app (option_list (owner s)) (app (omap owner h1) (omap owner h2)).
Proof. rewrite omap_app. cbn. destruct (owner s); cbn; [by rewrite Permutation_middle|done]. Qed.

Lemma aligned_calm m m' sl ts :
  (∀ t p, t ∈ ts → watches t p → id_at m' p = id_at m p) →
  Forall2 (λ s t, holding s t ∧ aligned m s) sl ts → Forall2 (λ s t, holding s t ∧ aligned m' s) sl ts.
Proof.
  intros Hc Hs. induction Hs as [|s t sl ts [Hh Ha] _ IH]; [done|].
  constructor; [|by apply IH; intros t' p Ht; apply Hc; right]. split; [done|].
  destruct t as [o|f k]; cbn [holding] in Hh; [by subst|].
  destruct s as [|id p|id p|id]; [done| | |done]; destruct Hh as [Hw _]; cbn [aligned] in *;
    rewrite <- Ha; (eapply Hc; [left|exact Hw]).
Qed.

Lemma calm_slotted n s s' sl :
  calm s s' → slotted n (p_mem s) (p_threads s) sl → ∃ sl', slotted n (p_mem s') (p_threads s') sl'.
Proof.
  intros [Hst Hc] [Hs Hb]. apply (aligned_calm _ _ _ _ Hc) in Hs.
  destruct (pstep_threads _ _ Hst) as [(pre & t & post & E & -> & Em & Ht)|Hm].
  - rewrite E in Hs. rewrite Em in *. apply Forall2_app_inv_r in Hs as (h1 & h2 & ? & ? & ->).
    exists (app h1 (NoSlot :: h2)). split; [apply Forall2_app; [done|]; by constructor|].
    rewrite omap_app in *. done.
  - revert Hm Hs Hc. generalize (p_threads s') as ts'. generalize (p_mem s') as m'. generalize (p_threads s) as ts.
    intros ts m' ts' [pre f k post|pre o post] (h1 & h2' & H1 & (s0 & h2 & [Hh Ha] & H2 & ->)%Forall2_cons_inv_r & ->)%Forall2_app_inv_r Hc.
    + assert (aligned (p_mem s) s0) as Ha0.
      { cbn [holding] in Hh. destruct s0 as [|id p|id p|id]; [done| | |done]; destruct Hh as [Hw _]; cbn [aligned] in *;
          rewrite <- Ha; symmetry; (eapply Hc; [apply elem_of_app; right; left|exact Hw]). }
      destruct (holding_act n f k s0 (p_mem s) Hh) as (s1 & Hs1 & _ & Hal). destruct (Hal Ha0) as [Ha1 Hac].
      exists (app h1 (s1 :: h2)). split; [apply Forall2_app; [done|]; by constructor|].
      eapply accounted_perm; [symmetry; apply omap_owner_middle|]. apply Hac.
      eapply accounted_perm; [apply omap_owner_middle|exact Hb].
    + cbn [holding] in Hh. subst s0. exists (app h1 h2). split; [by apply Forall2_app|]. rewrite omap_app in *. done.
Qed.

Lemma owners_flying sl b id :
  Bulkhead.flying {| Bulkhead.bh := b; Bulkhead.in_flight := omap owner sl |} id =
  Z.of_nat (length (filter (λ s, owner s = Some id) sl)).
Proof.
  unfold Bulkhead.flying. cbn [Bulkhead.in_flight]. f_equal. induction sl as [|s sl IH]; [done|].
  cbn [omap list_omap]. rewrite filter_cons. destruct (owner s) as [q|]; [rewrite filter_cons|by rewrite decide_False].
  repeat case_decide; simpl; congruence.
Qed.

(** C8: However the threads interleave, action by action and any number of them at
    once, a plugin's counter stays between zero and the limit.  As long as no change
    of the table moves another plugin's route under a request that is between
    the reading of the id it takes a slot by and the next, by which it will give the
    slot back, the counter is exactly the number of threads that hold one of the
    plugin's slots, and is back at zero whenever every thread is done: then no order
    of events loses a slot or returns one twice. *)
Theorem interleaved_slots cfg s :
  (rtc pstep (begin cfg) s → ∀ id,
     0 ≤ Bulkhead.Active (bh (disp (p_core s))) id ≤ Z.max 0 (Config.BulkheadMax (Default cfg))) ∧
  (rtc calm (begin cfg) s →
   ∃ slots, Forall2 holding slots (p_threads s) ∧ ∀ id,
     Bulkhead.Active (bh (disp (p_core s))) id = Z.of_nat (length (filter (λ s, owner s = Some id) slots)) ∧
     (Forall (λ t, ∃ o, t = Done o) (p_threads s) → Bulkhead.Active (bh (disp (p_core s))) id = 0)).
Proof.
  split; intros Hr.
  - assert (bounded (Config.BulkheadMax (Default cfg)) (bh (disp (p_core s)))) as [_ Hb]; [|done].
    eapply (rtc_preserved _ (λ s, (∃ sl, Forall2 holding sl (p_threads s)) ∧ bounded _ (bh (disp (p_core s)))));
      [intros s1 s2 Hs Hst; by eapply pstep_bounded| |exact Hr].
    split; [by exists []|]. split; [done|]. intros id. unfold Bulkhead.Active. cbn. rewrite map_get_empty. lia.
  - assert (∃ sl, slotted (Config.BulkheadMax (Default cfg)) (p_mem s) (p_threads s) sl) as (sl & Hh & _ & Hb).
    { eapply (rtc_preserved _ (λ s, ∃ sl, slotted _ (p_mem s) (p_threads s) sl)); [| |exact Hr].
      - intros s1 s2 [sl Hs] Hst. by eapply calm_slotted.
      - exists []. split; [constructor|]. by apply Bulkhead.reachable_accounted. }
    exists sl. split; [eapply Forall2_impl; [exact Hh|by intros ? ? []]|]. intros id. destruct (Hb id) as [Heq _].
    rewrite owners_flying in Heq. split; [done|]. intros Hd. unfold p_core. cbn in Heq. rewrite Heq. clear -Hh Hd.
    induction Hh as [|s0 t sl ts [Hh _] _ IH]; [done|].
    apply Forall_cons in Hd as [(o & ->) Hd]. cbn [holding] in Hh. subst s0. rewrite filter_cons_False by done. auto.
Qed.

(** *** The tables *)

(** One control-plane thread at most, sure of its end; no other thread in its way. *)
Definition serial_ok (s : pool) : Prop :=
  Forall harmless (p_others s) ∧
  match p_control s with
  | [] => core_ok (p_core s)
  | [t] => secured t (p_core s)
  | _ => False
  end.

Lemma moves_harmless m ts m' ts' :
  moves m ts m' ts' → Forall harmless ts →
  rely (core m) (core m') ∧ table m' = table m ∧ Forall harmless ts'.
Proof.
  intros [pre f k post|pre o post] [Hpre [Ht Hpost]%Forall_cons]%Forall_app; rewrite Forall_app; [|done].
  destruct (Ht m) as [[Hr Htb] Hk]. split_and!; [done..|]. by constructor.
Qed.
Lemma moves_secured m t m' ts :
  moves m [t] m' ts → secured t (core m) →
  match ts with [] => core_ok (core m') | [t'] => secured t' (core m') | _ => False end.
Proof.
  inversion 1 as [pre f k post Hts|pre o post Hts]; destruct pre as [|? [|? ?]]; simplify_eq/=; [|done].
  intros Hs. by apply Hs.
Qed.

Lemma pstep_serial_ok s s' :
  (∀ ts, beside ts → ts = []) → pstep s s' → serial_ok s → serial_ok s'.
Proof.
  intros Hb Hst [Ho Hc]. unfold p_core in *.
  destruct Hst as [u t Hbs Ht Hu|t Ht|m ts Hm|m ts Hm]; split; unfold p_core; cbn [p_mem p_control p_others].
  - done.
  - rewrite (Hb _ Hbs) in *. by eapply control_secured.
  - constructor; [by eapply other_harmless|done].
  - done.
  - done.
  - destruct (p_control s) as [|t [|? ?]]; [|by eapply moves_secured|done].
    by inversion Hm as [[] ?? []|[] ? []].
  - by eapply moves_harmless.
  - destruct (moves_harmless _ _ _ _ Hm Ho) as [Hr _].
    destruct (p_control s) as [|t [|? ?]]; [by eapply core_ok_rely|by eapply secured_rely|done].
Qed.

(** C7: Where plugins are added and removed one at a time, the single actions of doing
    so may interleave with those of any number of requests, health checks,
    heartbeats, sweeps and windows: whenever none is being added or removed, every
    route the table matches is declared by the current manifest of a registered
    plugin, and exactly the registered plugins have a rate limiter. *)
Theorem interleaved_tables_agree cfg s method path e :
  (∀ ts, beside ts → ts = []) →
  rtc pstep (begin cfg) s → p_control s = [] →
  let d := disp (p_core s) in
  (∀ id, is_Some (pluginRL d !! id) ↔ is_Some (plugins (reg d) !! id)) ∧
  (match_ d method path = Some e →
   ∃ pe rt, plugins (reg d) !! re_pluginID e = Some pe ∧ rt ∈ Routes (Manifest pe) ∧
     e = route_entry (re_pluginID e) (PluginName (Info pe)) rt).
Proof.
  intros Hb Hr Hc. assert (serial_ok s) as [_ Hok].
  { eapply (rtc_preserved _ serial_ok); [intros ? ? ? ?; by eapply pstep_serial_ok| |done].
    split; [constructor|]. split; [apply New_store_ok|by apply table_ok_New]. }
  rewrite Hc in Hok. split; [apply Hok|]. by apply matched_declared.
Qed.

(** *** Every route, even beside other registrations *)

(** Under ids that were never given out twice, [hist] says which manifest each was
    given out for. *)
Definition declared_by (hist : gmap string Manifest.Manifest) (e : routeEntry) : Prop :=
  ∃ mf rt, hist !! re_pluginID e = Some mf ∧ rt ∈ Routes mf ∧ e = route_entry (re_pluginID e) (Name mf) rt.
Record kept_by (hist : gmap string Manifest.Manifest) (m : mem) : Prop := {
  kb_table : represents (table m) (disp (core m));
  kb_routes : ∀ e, e ∈ routes (disp (core m)) → declared_by hist e;
  kb_plugins : ∀ id pe, plugins (reg (disp (core m))) !! id = Some pe →
    hist !! id = Some (Manifest pe) ∧ PluginName (Info pe) = Name (Manifest pe)
}.

(** A thread that keeps to it, and goes on doing so whatever ids are given out besides. *)
Fixpoint faithful (hist : gmap string Manifest.Manifest) (t : thread) : Prop :=
  match t with
  | Done _ => True
  | Act f k => ∀ hist' m, hist ⊆ hist' → kept_by hist' m → kept_by hist' (f m) ∧ faithful hist' (k m)
  end.

Lemma faithful_more hist hist' t : hist ⊆ hist' → faithful hist t → faithful hist' t.
Proof. intros Hs. destruct t as [o|f k]; [done|]. intros Ht h' m Hh. apply Ht. by etransitivity. Qed.

Lemma kept_rely hist m m' :
  rely (core m) (core m') → table m' = table m → kept_by hist m → kept_by hist m'.
Proof.
  intros ((Hp & Hr & _) & _) Ht [[Hok Hc] Hro Hpl]. split.
  - by rewrite Ht; split; [|rewrite Hr].
  - by rewrite Hr.
  - intros id pe (e0 & He0 & -> & ->)%(same_plugins_Some _ _ _ _ Hp). by apply Hpl.
Qed.
Lemma faithful_act hist f k :
  (∀ hist' m, hist ⊆ hist' → kept_by hist' m → kept_by hist' (f m)) →
  (∀ hist' m, hist ⊆ hist' → faithful hist' (k m)) → faithful hist (Act f k).
Proof. split; auto. Qed.
Lemma faithful_quiet hist f k :
  (∀ c, rely c (f c)) → (∀ m, faithful hist (k m)) → faithful hist (Act (on_core f) k).
Proof.
  intros Hf Hk. apply faithful_act; [|intros hist' m Hs; by eapply faithful_more].
  intros hist' m _. apply kept_rely; [apply Hf|done].
Qed.
Lemma faithful_reading hist k : (∀ m, faithful hist (k m)) → faithful hist (reading k).
Proof. intros Hk. apply faithful_act; [done|]. intros hist' m Hs. by eapply faithful_more. Qed.
Lemma harmless_faithful hist t : harmless t → faithful hist t.
Proof.
  revert hist. induction t as [o|f k IH]; intros hist; [done|]. intros Ht hist' m _ Hk.
  destruct (Ht m) as [[Hr Htb] Hh]. split; [by eapply kept_rely|by apply IH].
Qed.

Lemma kept_unregistered hist id m : kept_by hist m → kept_by hist (on_core (on_reg (Deregister id)) m).
Proof. intros [Ht Hr Hp]. split; [done..|]. intros id' pe. cbn. intros [_ Hpe]%lookup_delete_Some. by apply Hp. Qed.
Lemma kept_unrouted hist id m : kept_by hist m → kept_by hist (changing grow (Removes id) m).
Proof.
  intros [Ht Hr Hp]. split; [by apply change_represents| |done].
  intros e. cbn. intros [_ He]%list_elem_of_filter. by apply Hr.
Qed.
Lemma kept_routed hist id mf m :
  hist !! id = Some mf → kept_by hist m →
  kept_by hist (changing grow (Adds id (Name mf) (PluginType mf) (Routes mf)) m).
Proof.
  intros Hid [Ht Hr Hp]. split; [by apply change_represents| |].
  - intros e. cbn. destruct (AddRoutes_fields id (Name mf) (PluginType mf) (Routes mf) (disp (core m))) as (_ & _ & _ & _ & -> & _).
    intros [[_ He]%list_elem_of_filter|(rt & -> & Hrt)%list_elem_of_fmap]%elem_of_app; [by apply Hr|].
    by exists mf, rt.
  - intros id' pe. destruct (AddRoutes_fields id (Name mf) (PluginType mf) (Routes mf) (disp (core m))) as (E & _).
    intros Hpe. apply Hp. by rewrite <- E.
Qed.
Lemma kept_registered hist now id mf url r m :
  hist !! id = Some mf → kept_by hist m →
  Register url_Parse now id (Name mf) url (Version mf) (PluginType mf) mf (λ t, t) (reg (disp (core m))) = Some r →
  kept_by hist (on_core (λ c, set_core_disp (set_reg r (disp c)) c) m).
Proof.
  intros Hid [Ht Hr Hp] Hreg. split; [done..|]. unfold Register in Hreg.
  destruct (url_Parse url) as [target|]; [|done]. injection Hreg as <-.
  intros id' pe. cbn. intros [[<- <-]|[_ Hpe]]%lookup_insert_Some; [done|by apply Hp].
Qed.

Lemma faithful_counting hist t : faithful hist t → faithful hist (counting t).
Proof.
  intros Ht. apply faithful_reading. intros m. apply faithful_quiet; [intros c; by apply rely_quiet|done].
Qed.
Lemma faithful_evicting hist id t : faithful hist t → faithful hist (evicting grow id t).
Proof.
  intros Ht. apply faithful_act; [intros hist' m _; apply kept_unregistered|]. intros hist' m Hs.
  apply faithful_act; [intros hist2 m2 _; apply kept_unrouted|]. intros hist2 m2 Hs2.
  eapply faithful_more; [|exact Ht]. by etransitivity.
Qed.
Lemma faithful_evicting_all hist ids t : faithful hist t → faithful hist (evicting_all grow ids t).
Proof. intros Ht. induction ids; [done|]. by apply faithful_evicting. Qed.

Lemma faithful_enlisting hist now issued id url mf :
  hist !! id = Some mf → faithful hist (enlisting grow url_Parse parse_error Quote h now issued id url mf).
Proof.
  intros Hid. assert (∀ hist', hist ⊆ hist' → hist' !! id = Some mf) as Hid' by (intros; by eapply lookup_weaken).
  intros hist1 m1 Hs1 Hk. unfold on_core at 1. destruct (Register _ _ _ _ _ _ _ _ _ _) as [r|] eqn:E; [|by destruct m1].
  split; [by eapply (kept_registered hist1 now id mf url r); eauto|]. apply faithful_act.
  - intros hist2 m2 Hs2. apply kept_routed. apply Hid'. by etransitivity.
  - intros hist2 m2 _. apply faithful_quiet; [intros c; by apply rely_quiet|]. intros _. by apply faithful_counting.
Qed.
Lemma faithful_removing hist id : faithful hist (removing grow id).
Proof.
  apply faithful_reading. intros m. destruct (Registry.Get _ _); [|done].
  apply faithful_evicting, faithful_quiet; [intros c; by apply rely_quiet|]. intros _. by apply faithful_counting.
Qed.

(** Two UUIDs that make no common id. *)
Definition unlike (u u' : string) : Prop := ∀ mf mf', plugin_id u mf ≠ plugin_id u' mf'.

(** The ids are of the UUIDs handed out, and every thread keeps to their manifests. *)
Definition all_faithful (s : pool) : Prop :=
  ∃ hist, kept_by hist (p_mem s) ∧ Forall (faithful hist) (p_threads s) ∧
    ∀ id mf, hist !! id = Some mf → ∃ u, u ∈ p_issued s ∧ id = plugin_id u mf.

(** What a new thread adds to the history: the id it may register its manifest under. *)
Lemma control_faithful u t hist us :
  control_thread h grow url_Parse parse_error Quote u t →
  (∀ id mf, hist !! id = Some mf → ∃ v, v ∈ us ∧ id = plugin_id v mf) →
  ForallOrdPairs unlike (app (option_list u) us) →
  ∃ hist', hist ⊆ hist' ∧ faithful hist' t ∧
    ∀ id mf, hist' !! id = Some mf → ∃ v, v ∈ app (option_list u) us ∧ id = plugin_id v mf.
Proof.
  intros [HTTPGet Decode uuid now issued body|now body|id] Hh Hap.
  - assert (∀ id mf, hist !! id = Some mf → ∃ v, v ∈ uuid :: us ∧ id = plugin_id v mf) as Hh'
      by (intros id mf (v & ? & ->)%Hh; exists v; split; [by right|done]).
    cbn [option_list app] in *. unfold register_thread. destruct body as [req|]; [|by exists hist].
    destruct (_ && _); [by exists hist|]. destruct (String.eqb _ ""); [by exists hist|].
    destruct (pullManifest _ _ _) as [mf|]; [|by exists hist]. destruct (_ && _); [by exists hist|].
    assert (hist !! plugin_id uuid mf = None) as Hn.
    { apply eq_None_not_Some. intros [mf' (v & Hv & E)%Hh]. inversion Hap as [|? ? Hu _]; subst.
      eapply (proj1 (Forall_forall _ _) Hu v Hv). exact E. }
    exists (<[plugin_id uuid mf := mf]> hist). split; [by apply insert_subseteq|]. split.
    + apply faithful_reading. intros m. apply faithful_evicting_all, faithful_enlisting.
      apply lookup_insert_eq.
    + intros id mf' [[<- <-]|[_ Hid]]%lookup_insert_Some; [|by apply Hh']. exists uuid. split; [by left|done].
  - exists hist. split_and!; [done| |done]. unfold deregister_thread. destruct body; [|done].
    destruct (negb _); [done|]. apply faithful_removing.
  - exists hist. split_and!; [done|apply faithful_removing|done].
Qed.

Lemma moves_faithful hist m ts m' ts' :
  moves m ts m' ts' → kept_by hist m → Forall (faithful hist) ts → kept_by hist m' ∧ Forall (faithful hist) ts'.
Proof.
  intros [pre f k post|pre o post] Hk [Hpre [Ht Hpost]%Forall_cons]%Forall_app; rewrite Forall_app; [|done].
  destruct (Ht hist m) as [Hk' Hf]; [done..|]. split; [done|]. split; [done|]. by constructor.
Qed.

Lemma ForallOrdPairs_tail us vs : ForallOrdPairs unlike (app us vs) → ForallOrdPairs unlike vs.
Proof. induction us as [|u us IH]; [done|]. cbn. inversion 1. auto. Qed.

Lemma pstep_faithful s s' :
  pstep s s' → (ForallOrdPairs unlike (p_issued s) → all_faithful s) →
  ForallOrdPairs unlike (p_issued s') → all_faithful s'.
Proof.
  intros Hst IH Hap.
  assert (ForallOrdPairs unlike (p_issued s)) as Hap0
    by (destruct Hst; cbn [p_issued] in *; [by eapply ForallOrdPairs_tail|done..]).
  destruct (IH Hap0) as (hist & Hk & Hf & Hh). clear IH. unfold p_threads in Hf. apply Forall_app in Hf as [Hfc Hfo].
  unfold all_faithful, p_threads. destruct Hst as [u t _ Ht _|t Ht|m ts Hm|m ts Hm]; cbn [p_mem p_control p_others p_issued] in *.
  - destruct (control_faithful u t hist (p_issued s) Ht Hh Hap) as (hist' & Hs & Hft & Hh').
    exists hist'. split_and!; [| |done].
    + destruct Hk as [Htb Hr Hp]. split; [done| |].
      * intros e (mf & rt & Hid & ?)%Hr. exists mf, rt. split; [by eapply lookup_weaken|done].
      * intros id pe [Hid ?]%Hp. split; [by eapply lookup_weaken|done].
    + cbn. apply Forall_cons. split; [done|]. apply Forall_app.
      split; [eapply Forall_impl; [exact Hfc|]|eapply Forall_impl; [exact Hfo|]]; intros t'; by apply faithful_more.
  - exists hist. split_and!; [done| |done]. apply Forall_app. split; [done|]. constructor; [|done].
    by eapply harmless_faithful, other_harmless.
  - exists hist. destruct (moves_faithful hist _ _ _ _ Hm Hk Hfc). split_and!; [done|by apply Forall_app|done].
  - exists hist. destruct (moves_faithful hist _ _ _ _ Hm Hk Hfo). split_and!; [done|by apply Forall_app|done].
Qed.

Lemma reachable_faithful cfg s :
  rtc pstep (begin cfg) s → ForallOrdPairs unlike (p_issued s) → all_faithful s.
Proof.
  apply (rtc_preserved _ (λ s, ForallOrdPairs unlike (p_issued s) → all_faithful s)).
  - intros s1 s2 IH Hst. by eapply pstep_faithful.
  - intros _. exists ∅. split_and!; [|done|done]. split; [|by intros e ?%not_elem_of_nil|done].
    split; [split; cbn; lia|done].
Qed.

(** C5: However the threads interleave, overlapping registrations of one plugin
    included, and whatever the runtime does with the arrays of the table: where the
    UUIDs handed out differ in what the ids take of them, the pointer [match] hands
    out reads the route the table of the handlers has, and that route, unless its
    plugin has left the registry, is one the manifest the plugin is registered with
    declares, under its name: no request is matched to a plugin by a route of another
    or of an earlier registration of it.  (What the pointer reads later is
    [removal_redirects_requests_in_flight]'s matter.) *)
Theorem interleaved_routes_are_declared cfg s method path :
  rtc pstep (begin cfg) s → ForallOrdPairs unlike (p_issued s) →
  let d := disp (p_core s) in
  RouteTable.match_ method path (table (p_mem s)) ≫= deref (table (p_mem s)).1 = match_ d method path ∧
  ∀ e pe, match_ d method path = Some e → Registry.Get (re_pluginID e) (reg d) = Some pe →
    ∃ rt, rt ∈ Routes (Manifest pe) ∧ e = route_entry (re_pluginID e) (PluginName (Info pe)) rt.
Proof.
  intros Hr Hap d. destruct (reachable_faithful cfg s Hr Hap) as (hist & [[Hok Hc] Hro Hp] & _).
  split; [destruct (table (p_mem s)); by apply match_deref|].
  intros e pe (mf & rt & Hid & Hrt & He)%match_in%Hro Hpe. apply Hp in Hpe as [Hpe ->].
  rewrite Hid in Hpe. injection Hpe as <-. by exists rt.
Qed.
(** *** Threads one after the other *)

(** Nothing is running. *)
Definition resting (m : mem) (us : list string) : pool :=
  {| p_mem := m; p_control := []; p_others := []; p_issued := us |}.

Lemma control_to_end t m us :
  rtc calm {| p_mem := m; p_control := [t]; p_others := []; p_issued := us |} (resting (alone t m).1 us).
Proof.
  revert m. induction t as [o|f k IH]; intros m; cbn [alone].
  - apply rtc_once, calm_lonely; [|done]. by apply (move_control {| p_mem := m; p_control := [_]; p_others := []; p_issued := us |} m []), (ends m [] o []).
  - eapply rtc_l; [|apply IH]. apply calm_lonely; [|done].
    by apply (move_control {| p_mem := m; p_control := [_]; p_others := []; p_issued := us |} (f m) [k m]), (acts m [] f k []).
Qed.
Lemma other_to_end t m us :
  rtc calm {| p_mem := m; p_control := []; p_others := [t]; p_issued := us |} (resting (alone t m).1 us).
Proof.
  revert m. induction t as [o|f k IH]; intros m; cbn [alone].
  - apply rtc_once, calm_lonely; [|done]. by apply (move_other {| p_mem := m; p_control := []; p_others := [_]; p_issued := us |} m []), (ends m [] o []).
  - eapply rtc_l; [|apply IH]. apply calm_lonely; [|done].
    by apply (move_other {| p_mem := m; p_control := []; p_others := [_]; p_issued := us |} (f m) [k m]), (acts m [] f k []).
Qed.
Lemma control_rests u t m us :
  beside [] → control_thread h grow url_Parse parse_error Quote u t → unused (core m) u →
  rtc calm (resting m us) (resting (alone t m).1 (app (option_list u) us)).
Proof.
  intros Hb Ht Hu. eapply rtc_l; [|apply control_to_end]. apply calm_lonely; [|cbn; lia].
  by apply (spawn_control (resting m us) u t).
Qed.
Lemma other_rests t m us :
  other_thread h time_json t → rtc calm (resting m us) (resting (alone t m).1 us).
Proof.
  intros Ht. eapply rtc_l; [|apply other_to_end]. apply calm_lonely; [|cbn; lia].
  by apply (spawn_other (resting m us) t).
Qed.

Lemma calm_psteps s s' : rtc calm s s' → rtc pstep s s'.
Proof. apply rtc_subrel. by intros ? ? []. Qed.

(** At rest the tables agree and every slot is back. *)
Lemma resting_ok cfg m us :
  (∀ ts, beside ts → ts = []) → rtc calm (begin cfg) (resting m us) →
  core_ok (core m) ∧ ∀ id, Bulkhead.Active (bh (disp (core m))) id = 0.
Proof.
  intros Hb Hr. split.
  - assert (serial_ok (resting m us)) as [_ Hok]; [|exact Hok].
    eapply (rtc_preserved _ serial_ok); [intros ? ? ? ?; by eapply pstep_serial_ok| |exact (calm_psteps _ _ Hr)].
    split; [constructor|]. split; [apply New_store_ok|by apply table_ok_New].
  - assert (∃ sl, slotted (Config.BulkheadMax (Default cfg)) m [] sl) as (sl & Hh & _ & Ha).
    { eapply (rtc_preserved _ (λ s, ∃ sl, slotted _ (p_mem s) (p_threads s) sl) (begin cfg) (resting m us)); [| |exact Hr].
      - intros s1 s2 [sl Hs] Hst. by eapply calm_slotted.
      - exists []. split; [constructor|]. by apply Bulkhead.reachable_accounted. }
    inversion Hh; subst. intros id. destruct (Ha id) as [Heq _]. exact Heq.
Qed.
Lemma resting_unused m us uuid :
  all_faithful (resting m us) → Forall (unlike uuid) us → unused (core m) (Some uuid).
Proof.
  intros (hist & [_ _ Hp] & _ & Hh) Hus u [= <-] mf. apply eq_None_not_Some. intros [pe [Hid _]%Hp].
  apply Hh in Hid as (v & Hv & E). rewrite Forall_forall in Hus. by eapply Hus.
Qed.
End pool.

(** UUIDs whose first eight characters differ make no common id. *)
Lemma unlike_uuids u u' :
  String.length (take_bytes 8 u) = String.length (take_bytes 8 u') → take_bytes 8 u ≠ take_bytes 8 u' → unlike u u'.
Proof.
  intros Hl Hne mf mf' E. unfold plugin_id in E. apply Hne.
  rewrite <- !append_assoc in E. apply append_length_inj in E as [_ E]; [done|].
  apply (f_equal String.length) in E. repeat rewrite length_append in E. repeat rewrite length_append. lia.
Qed.
Lemma unused_beside {A} (ps : gmap string A) us uuid :
  Forall (λ id, ∃ u mf, id = plugin_id u mf ∧ unlike uuid u) us → (map_to_list ps).*1 = us →
  ∀ mf, ps !! plugin_id uuid mf = None.
Proof.
  intros Hus Hps mf. apply eq_None_not_Some. intros [x Hx%elem_of_map_to_list].
  assert (plugin_id uuid mf ∈ us) as Hin by (rewrite <- Hps; apply list_elem_of_fmap; by exists (plugin_id uuid mf, x)).
  rewrite Forall_forall in Hus. destruct (Hus _ Hin) as (u & mf' & E & Ha). by eapply Ha.
Qed.

(** ** Schedules *)

(** Whose turn it is: the [i]-th control-plane thread, or the [i]-th other. *)
Inductive turn := Control (i : nat) | Other (i : nat).

Definition advance (i : nat) (m : mem) (ts : list thread) : mem * list thread :=
  match ts !! i with
  | Some (Act f k) => (f m, app (take i ts) (k m :: drop (S i) ts))
  | Some (Done _) => (m, app (take i ts) (drop (S i) ts))
  | None => (m, ts)
  end.
Definition take_turn (s : pool) (t : turn) : pool :=
  match t with
  | Control i => let '(m, ts) := advance i (p_mem s) (p_control s) in
                 {| p_mem := m; p_control := ts; p_others := p_others s; p_issued := p_issued s |}
  | Other i => let '(m, ts) := advance i (p_mem s) (p_others s) in
               {| p_mem := m; p_control := p_control s; p_others := ts; p_issued := p_issued s |}
  end.

Lemma advance_moves i m ts :
  advance i m ts = (m, ts) ∨ moves m ts (advance i m ts).1 (advance i m ts).2.
Proof.
  unfold advance. destruct (ts !! i) as [t|] eqn:E; [right|by left].
  destruct t as [o|f k]; cbn [fst snd]; rewrite <- (take_drop_middle _ _ _ E) at 1; constructor.
Qed.

#[local] Instance demo_order : MapOrder := sorted_order.

Section demo.
(** Plugins are added beside [beside]. *)
Context (beside : list thread → Prop).

Definition demo_pstep : pool → pool → Prop :=
  pstep demo_handlers doubling (λ _, Some demo_target) (λ s, s) (λ s, s) (λ _, "") beside.
Definition demo_body : option registerReq := Some {| rr_BaseURL := "http://h:1"; rr_APIKey := "key" |}.
Definition demo_registering (mf : Manifest.Manifest) (uuid : string) : thread :=
  register_thread doubling (λ _, Some demo_target) (λ s, s) (λ _, inl (200, "")) (λ _, inl mf)
    (λ s, s) demo_handlers uuid 1 1 demo_body.
Definition demo_register : string → thread := demo_registering demo_manifest.
(** A request that the plugin answers by a server error. *)
Definition demo_requesting (path : string) : thread :=
  request_thread (sample_clock 1) None "GET" path true true (λ _ _ _ id, CircuitBreaker.RecordFailure 1 id).
Definition demo_request : thread := demo_requesting "/pos/items/7".

Definition add_control (u : option string) (t : thread) (s : pool) : pool :=
  {| p_mem := p_mem s; p_control := t :: p_control s; p_others := p_others s;
     p_issued := app (option_list u) (p_issued s) |}.
Definition add_other (t : thread) (s : pool) : pool :=
  {| p_mem := p_mem s; p_control := p_control s; p_others := t :: p_others s; p_issued := p_issued s |}.

Lemma take_turn_step s t : take_turn s t = s ∨ demo_pstep s (take_turn s t).
Proof.
  destruct t as [i|i]; cbn [take_turn].
  - destruct (advance_moves i (p_mem s) (p_control s)) as [->|Hm]; [left; by destruct s|right].
    destruct (advance i _ _). by apply move_control.
  - destruct (advance_moves i (p_mem s) (p_others s)) as [->|Hm]; [left; by destruct s|right].
    destruct (advance i _ _). by apply move_other.
Qed.
Lemma take_turns s ts : rtc demo_pstep s (foldl take_turn s ts).
Proof.
  revert s. induction ts as [|t ts IH]; intros s; [done|]. cbn [foldl].
  transitivity (take_turn s t); [|apply IH].
  destruct (take_turn_step s t) as [->|Hst]; [done|by apply rtc_once].
Qed.

(** The turns of a thread that is alone are calm. *)
Definition demo_calm : pool → pool → Prop :=
  calm demo_handlers doubling (λ _, Some demo_target) (λ s, s) (λ s, s) (λ _, "") beside.
Lemma length_advance i m ts : (length (advance i m ts).2 ≤ length ts)%nat.
Proof.
  unfold advance. destruct (ts !! i) as [t|] eqn:E; [|done]. apply lookup_lt_Some in E.
  destruct t; cbn; rewrite length_app; cbn; rewrite length_take, length_drop; lia.
Qed.
Lemma calm_turns s ts : (length (p_threads s) ≤ 1)%nat → rtc demo_calm s (foldl take_turn s ts).
Proof.
  revert s. induction ts as [|t ts IH]; intros s Hl; [done|]. cbn [foldl].
  transitivity (take_turn s t).
  - destruct (take_turn_step s t) as [->|Hst]; [done|]. apply rtc_once. by apply calm_lonely.
  - apply IH. etransitivity; [|exact Hl]. unfold p_threads. rewrite !length_app. destruct t as [i|i]; cbn [take_turn].
    + pose proof (length_advance i (p_mem s) (p_control s)). destruct (advance _ _ _). cbn in *. lia.
    + pose proof (length_advance i (p_mem s) (p_others s)). destruct (advance _ _ _). cbn in *. lia.
Qed.
Lemma spawn_register s mf uuid :
  beside (p_control s) → (∀ mf', plugins (reg (disp (p_core s))) !! plugin_id uuid mf' = None) →
  rtc demo_pstep s (add_control (Some uuid) (demo_registering mf uuid) s).
Proof.
  intros Hb Hf. apply rtc_once, spawn_control; [done|apply control_register|]. by intros ? [= <-].
Qed.
Lemma spawn_removing s id :
  beside (p_control s) → rtc demo_pstep s (add_control None (removing doubling id) s).
Proof. intros Hb. by apply rtc_once, (spawn_control _ _ _ _ _ _ _ s None); [|constructor|]. Qed.
Lemma spawn_request s path : rtc demo_pstep s (add_other (demo_requesting path) s).
Proof. apply rtc_once, spawn_other. constructor. Qed.

(** The plugin registers, and a request is at it. *)
Definition pool_registered : pool :=
  foldl take_turn (add_control (Some "1a2b3c4d") (demo_register "1a2b3c4d") (begin Defaults)) (replicate 7 (Control 0)).
Definition pool_serving : pool :=
  foldl take_turn (add_other demo_request pool_registered) (replicate 12 (Other 0)).

Lemma pool_serving_calm : beside [] → rtc demo_calm (begin Defaults) pool_serving.
Proof.
  intros Hb. assert (∀ s s', demo_pstep s s' → (length (p_threads s) ≤ 1)%nat → rtc demo_calm s s') as Hone
    by (intros s s' ? ?; by apply rtc_once, calm_lonely).
  unfold pool_serving. etransitivity; [|apply calm_turns; vm_compute; lia].
  etransitivity; [|apply Hone; [apply spawn_other; constructor|vm_compute; lia]].
  unfold pool_registered. etransitivity; [|apply calm_turns; vm_compute; lia].
  apply Hone; [|vm_compute; lia]. apply spawn_control; [exact Hb|apply control_register|]. intros u [= <-]. by intros mf.
Qed.
Lemma pool_serving_run :
  beside [] → rtc demo_pstep (begin Defaults) pool_registered ∧ rtc demo_pstep (begin Defaults) pool_serving.
Proof.
  intros Hb. assert (rtc demo_pstep (begin Defaults) pool_registered) as Hr.
  { unfold pool_registered. etransitivity; [apply (spawn_register _ demo_manifest "1a2b3c4d"); [exact Hb|by intros m]|].
    apply take_turns. }
  split; [done|]. unfold pool_serving. etransitivity; [exact Hr|].
  etransitivity; [apply spawn_request|apply take_turns].
Qed.
End demo.

(** Two instances register at once; the first is evicted by the second between its
    registration and its routes. *)
Definition pool_overlapped : pool :=
  foldl take_turn
    (add_control (Some "5e6f7a8b") (demo_register "5e6f7a8b")
      (add_control (Some "1a2b3c4d") (demo_register "1a2b3c4d") (begin Defaults)))
    (app [Control 1; Control 1; Control 0; Control 0; Control 0; Control 0]
      (app (replicate 5 (Control 1)) (replicate 5 (Control 0)))).

(** The plugin is alive and declares the route, and its requests end at the route of
    an instance that is gone. *)
Definition dead_end (uuid : string) (c : Core) : Prop :=
  (∃ pe, Registry.Get (plugin_id uuid demo_manifest) (reg (disp c)) = Some pe ∧ Alive pe = true ∧
     demo_route ∈ route_entry (re_pluginID demo_route) (PluginName (Info pe)) <$> Routes (Manifest pe)) ∧
  Registry.Get (re_pluginID demo_route) (reg (disp c)) = None ∧
  match_ (disp c) "GET" "/pos/items/7" = Some demo_route ∧
  ∀ uuid Inject RoundTrip Dial clk w,
    w_disp w = disp c → rq_Method (g_req (w_gin w)) = "GET" →
    u_Path (rq_URL (g_req (w_gin w))) = "/pos/items/7" →
    (Dispatch uuid Inject RoundTrip Dial clk w).2 = Answered (JSON 503 (error_body "plugin unavailable")).

Lemma dead_end_503 c uuid Inject RoundTrip Dial clk w :
  match_ (disp c) "GET" "/pos/items/7" = Some demo_route →
  Registry.Get (re_pluginID demo_route) (reg (disp c)) = None →
  w_disp w = disp c → rq_Method (g_req (w_gin w)) = "GET" →
  u_Path (rq_URL (g_req (w_gin w))) = "/pos/items/7" →
  (Dispatch uuid Inject RoundTrip Dial clk w).2 = Answered (JSON 503 (error_body "plugin unavailable")).
Proof.
  intros Hm Hg Hd Hme Hp.
  apply (wp_run_handler _ (λ _ r, r = Answered (JSON 503 (error_body "plugin unavailable")))).
  unfold Dispatch_body. apply wp_bind, wp_get_state. rewrite Hme, Hp. apply wp_bind, request_id_wp. intros rid.
  apply wp_bind. unfold route. apply wp_bind.
  change (Firewall.IsRouteBlocked "/pos/items/7") with false. apply wp_ret, wp_bind, wp_get_state.
  rewrite named_disp, Hd, Hm. apply wp_bind. change (re_public demo_route) with true. apply wp_ret.
  rewrite Hg. by apply reject_wp.
Qed.

(** C27: Where two registrations of one plugin overlap, the routes of the instance that
    lost can be added after its eviction.  They stay: the surviving instance is
    alive and its requests are answered 503 for the sake of the one that is gone;
    registering again does not remove them, nor does deregistering that instance. *)
Theorem overlapping_registrations_shadow_a_plugin :
  rtc (demo_pstep (λ _, True)) (begin Defaults) pool_overlapped ∧
  p_threads pool_overlapped = [] ∧
  let c := p_core pool_overlapped in
  dead_end "5e6f7a8b" c ∧
  (let '(c', o) := ran (demo_register "9c0d1e2f") (p_mem pool_overlapped) in
   dead_end "9c0d1e2f" c' ∧ ∃ body, o = Replied (JSON 200 body)) ∧
  dead_end "5e6f7a8b" (adminDeregister (re_pluginID demo_route) c).1.
Proof.
  split.
  { unfold pool_overlapped. etransitivity; [|apply take_turns].
    etransitivity; [apply (spawn_register _ _ demo_manifest "1a2b3c4d"); [done|by intros m]|].
    by apply spawn_register; [|intros m]. }
  split; [by vm_compute|]. cbv zeta.
  assert (∀ uuid c pe, Registry.Get (plugin_id uuid demo_manifest) (reg (disp c)) = Some pe →
    Alive pe = true ∧ PluginName (Info pe) = "pos" ∧ Manifest pe = demo_manifest →
    Registry.Get (re_pluginID demo_route) (reg (disp c)) = None →
    match_ (disp c) "GET" "/pos/items/7" = Some demo_route → dead_end uuid c) as Hend.
  { intros uuid c pe Hpe (Ha & Hn & Hm) Hg Hr. split_and!; [|done|done|].
    - exists pe. split_and!; [done|done|]. rewrite Hn, Hm. by left.
    - intros. by apply (dead_end_503 c). }
  split; [eapply Hend; [vm_compute; reflexivity|by split_and!|vm_compute; reflexivity..]|]. split; [|eapply Hend; [vm_compute; reflexivity|by split_and!|vm_compute; reflexivity..]].
  destruct (ran (demo_register "9c0d1e2f") _) as [c' o] eqn:E.
  assert (c' = (ran (demo_register "9c0d1e2f") (p_mem pool_overlapped)).1) as -> by by rewrite E.
  split; [eapply Hend; [vm_compute; reflexivity|by split_and!|vm_compute; reflexivity..]|]. apply (f_equal snd) in E. vm_compute in E. subst o. by eexists.
Qed.

(** Three plugins register one after the other; a request takes a slot of the second, and
    before it has noted whose slot it took, the first is removed. *)
Definition plain_manifest (name : string) : Manifest.Manifest := {|
  Name := name; Manifest.Version := "1"; Description := ""; PluginType := "internal";
  Routes := [sample_route "GET" ("/" ++ name) "" true]; PublicPaths := []; DomainSurfaces := [];
  Migrations := []; OpenAPISpec := ""; TenantSchema := ""; Manifest.Nav := [];
  Manifest.Permissions := ""; Manifest.Roles := ""; Manifest.Features := "" |}.
Definition registers (name uuid : string) (s : pool) : pool :=
  foldl take_turn (add_control (Some uuid) (demo_registering (plain_manifest name) uuid) s) (replicate 7 (Control 0)).
Definition pool_three : pool :=
  registers "c" "33333333" (registers "b" "22222222" (registers "a" "11111111" (begin Defaults))).
Definition pool_taken : pool := foldl take_turn (add_other (demo_requesting "/b") pool_three) (replicate 11 (Other 0)).
Definition pool_lost : pool :=
  foldl take_turn (add_control None (removing doubling "a-11111111") pool_taken)
    (app (replicate 7 (Control 0)) (replicate 8 (Other 0))).

Lemma pool_three_run : rtc (demo_pstep (λ _, True)) (begin Defaults) pool_three.
Proof.
  assert (∀ name uuid s,
    (∀ mf, plugins (reg (disp (p_core s))) !! plugin_id uuid mf = None) →
    rtc (demo_pstep (λ _, True)) s (registers name uuid s)) as Hreg.
  { intros name uuid s Hf. unfold registers. etransitivity; [by apply (spawn_register _ _ (plain_manifest name))|].
    apply take_turns. }
  unfold pool_three. etransitivity; [apply (Hreg "a" "11111111"); by intros mf|].
  etransitivity; [apply (Hreg "b" "22222222"), (unused_beside _ ["a-11111111"])|
    apply (Hreg "c" "33333333"), (unused_beside _ ["a-11111111"; "b-22222222"])]; try (by vm_compute).
  - repeat constructor. exists "11111111", (plain_manifest "a"). by split; [|apply unlike_uuids].
  - repeat constructor; [exists "11111111", (plain_manifest "a")|exists "22222222", (plain_manifest "b")];
      by split; [|apply unlike_uuids].
Qed.

(** A slot is lost where a removal comes between the two readings: the request is
    done, nothing else runs, plugin b is still registered, and one of its slots is
    taken for good; it is plugin c's breaker that was told of the plugin's failure. *)
Theorem removal_loses_a_slot :
  rtc (demo_pstep (λ _, True)) (begin Defaults) pool_lost ∧ p_threads pool_lost = [] ∧
  let d := disp (p_core pool_lost) in
  is_Some (plugins (reg d) !! "b-22222222") ∧
  Bulkhead.Active (bh (disp (p_core pool_three))) "b-22222222" = 0 ∧
  Bulkhead.Active (bh d) "b-22222222" = 1 ∧
  CircuitBreaker.failures_of (cb d) "b-22222222" = 0 ∧ CircuitBreaker.failures_of (cb d) "c-33333333" = 1.
Proof.
  split.
  { etransitivity; [apply pool_three_run|]. unfold pool_lost, pool_taken.
    etransitivity; [apply (spawn_request _ _ "/b")|]. etransitivity; [apply take_turns|].
    etransitivity; [by apply (spawn_removing _ _ "a-11111111")|apply take_turns]. }
  split; [by vm_compute|]. cbv zeta. split; [eexists; by vm_compute|]. split_and!; by vm_compute.
Qed.

(** ** Witnesses *)

Lemma interleaved_slots_witness :
  Bulkhead.Active (bh (disp (p_core pool_serving))) "pos-1a2b3c4d" = 1 ∧
  Bulkhead.Active (bh (disp (p_core pool_serving))) "pos-1a2b3c4d" ≤ 100 ∧
  ∃ slots, Forall2 holding slots (p_threads pool_serving) ∧
    length (filter (λ s, owner s = Some "pos-1a2b3c4d") slots) = 1%nat.
Proof.
  destruct (interleaved_slots (H := sorted_order) demo_handlers doubling (λ _, Some demo_target) (λ s, s)
    (λ s, s) (λ _, "") (λ _, True) Defaults pool_serving) as [Hb Hc].
  destruct (Hb (proj2 (pool_serving_run (λ _, True) I)) "pos-1a2b3c4d") as [_ Hle].
  destruct (Hc (pool_serving_calm (λ _, True) I)) as (slots & Hh & Ha). destruct (Ha "pos-1a2b3c4d") as [Heq _].
  assert (Bulkhead.Active (bh (disp (p_core pool_serving))) "pos-1a2b3c4d" = 1) as Hone by by vm_compute.
  split_and!; [exact Hone|exact Hle|]. exists slots. split; [exact Hh|]. lia.
Defined.

Lemma interleaved_routes_are_declared_witness :
  is_Some (plugins (reg (disp (p_core pool_serving))) !! "pos-1a2b3c4d") ∧
  ∀ pe, Registry.Get (re_pluginID demo_route) (reg (disp (p_core pool_serving))) = Some pe →
    demo_route ∈ route_entry (re_pluginID demo_route) (PluginName (Info pe)) <$> Routes (Manifest pe).
Proof.
  assert (p_issued pool_serving = ["1a2b3c4d"]) as Hi by by vm_compute.
  assert (ForallOrdPairs unlike (p_issued pool_serving)) as Hap by (rewrite Hi; repeat constructor).
  assert (match_ (disp (p_core pool_serving)) "GET" "/pos/items/7" = Some demo_route) as Hm by by vm_compute.
  split; [eexists; by vm_compute|]. intros pe Hpe.
  destruct (interleaved_routes_are_declared (H := sorted_order) demo_handlers doubling (λ _, Some demo_target) (λ s, s)
    (λ s, s) (λ _, "") (λ _, True) Defaults pool_serving "GET" "/pos/items/7"
    (proj2 (pool_serving_run (λ _, True) I)) Hap) as [_ Hd].
  destruct (Hd demo_route pe Hm Hpe) as (rt & Hrt & E). rewrite E at 1. exact (list_elem_of_fmap_2 _ _ _ Hrt).
Defined.

Lemma interleaved_tables_agree_witness :
  is_Some (plugins (reg (disp (p_core pool_serving))) !! "pos-1a2b3c4d").
Proof.
  apply (interleaved_tables_agree (H := sorted_order) demo_handlers doubling (λ _, Some demo_target) (λ s, s)
    (λ s, s) (λ _, "") (λ ts, ts = []) Defaults pool_serving
    "GET" "/pos/items/7" demo_route ltac:(done) (proj2 (pool_serving_run (λ ts, ts = []) eq_refl))
    ltac:(by vm_compute)).
  eexists. by vm_compute.
Defined.
