(* ===== verification/Hosts.v ===== *)
(** [server/product_host.go], [server/domain_resolve.go], [server/ondemand.go]: the
    hostnames that stand for a plugin's path prefix or for a tenant, and the
    certificate gate for them. *)

From S2P Require Import Prelude GoStrings Crypto Manifest Protection Auth Registry Http Middleware Dispatcher.

(** ** product_host.go *)

(** [stripHostPort]: the host itself where [net.SplitHostPort] fails. *)
Definition stripHostPort (host : string) : string :=
  match SplitHostPort host with
  | Some (h, _) => h
  | None => host
  end.

Section parse.
(** [%q] *)
Context (Quote : string → string).

(** One entry of the setting: the normalised host and prefix, or the error. *)
Definition parse_entry (entry : string) : (string * string) + string :=
  let bad (why : string) : (string * string) + string := inr ("entry " ++ Quote entry ++ ": " ++ why) in
  let '(host, prefix, ok) := Cut entry "=" in
  if negb ok then bad "want host=/prefix"
  else
    let host := TrimSpace host in
    let prefix := TrimSpace prefix in
    if String.eqb host "" then bad "empty host"
    else if Contains host "/" then bad "host must be a bare hostname, not a URL"
    else
      let host := ToLower (stripHostPort host) in
      if Contains host ":" then bad "host must be a bare hostname, not a URL"
      else if String.eqb prefix "" || String.eqb prefix "/"
      then bad "prefix must name a plugin's path, e.g. /school"
      else
        let prefix := "/" ++ Trim prefix "/" in
        if Firewall.IsRouteBlocked (prefix ++ "/") then bad (prefix ++ " is a reserved prefix")
        else inl (host, prefix).

(** The loop over the entries. *)
Fixpoint parse_entries (entries : list string) (out : gmap string string) :
    gmap string string + string :=
  match entries with
  | [] => inl out
  | entry :: entries' =>
      let entry := TrimSpace entry in
      if String.eqb entry "" then parse_entries entries' out
      else
        match parse_entry entry with
        | inr err => inr err
        | inl (host, prefix) =>
            match out !! host with
            | Some existing =>
                inr ("host " ++ Quote host ++ " mapped twice (" ++ existing ++ " and " ++ prefix ++ ")")
            | None => parse_entries entries' (<[host := prefix]> out)
            end
        end
  end.

Definition parseProductHosts (raw : string) : gmap string string + string :=
  if String.eqb (TrimSpace raw) "" then inl ∅ else parse_entries (Split raw ",") ∅.
End parse.

(** [sort.Strings] on the keys. *)
Definition productHostNames `{MapOrder} (hosts : gmap string string) : list string :=
  SliceStable str_ltb (range hosts).*1.

Definition productHostRewrite (hosts : gmap string string) (d : Dispatcher) (c : Gin) : Gin :=
  let r := g_req c in
  let path := u_Path (rq_URL r) in
  if Nat.eqb (size hosts) 0 then c
  else if IsRoutable d (rq_Method r) path then c
  else if Firewall.IsRouteBlocked path then c
  else
    match hosts !! ToLower (stripHostPort (rq_Host r)) with
    | None => c
    | Some prefix =>
        on_header (Set_ HeaderHostPrefix prefix)
          (set_req (rewrite_path (prefix ++ TrimSuffix path "/") r) c)
    end.

(** ** domain_resolve.go *)

(** [c.Set(resolvedTenantKey, tenant)] *)
Definition set_host_tenant (tenant : string) (c : Gin) : Gin := {|
  g_req := g_req c; g_resp := g_resp c; g_identity := g_identity c; g_host_tenant := Some tenant |}.

Section domains.
Context `{MapOrder}.
Context (Do : call → option reply) (DecodeDomain : string → option ResolvedDomain).

(** What the custom domain makes of a request, once it is resolved. *)
Definition domain_rewrite (resolved : ResolvedDomain) (declared : DomainSurface) (c : Gin) : Gin :=
  let r := g_req c in
  let path := TrimSuffix (u_Path (rq_URL r)) "/" in
  if SessionScoped declared then
    set_host_tenant (rd_TenantID resolved)
      (on_header (Set_ HeaderHostPrefix (PathPrefix declared))
        (set_req (rewrite_path (PathPrefix declared ++ path) r) c))
  else
    set_req (rewrite_path (PathPrefix declared ++ "/" ++ rd_TenantSlug resolved ++ path) r) c.

(** The resolver, whose cache it may fill, and the request. *)
Definition resolveCustomDomain (now done : Z) (d : Dispatcher) (resolver : option DomainResolver)
    (c : Gin) : option DomainResolver * Gin :=
  match resolver with
  | None => (None, c)
  | Some res =>
      let r := g_req c in
      if IsRoutable d (rq_Method r) (u_Path (rq_URL r)) then (Some res, c)
      else
        let '(res, (resolved, err), _) :=
          domain_Resolve Do DecodeDomain now done (reg d) (stripHostPort (rq_Host r)) res in
        (Some res,
         match resolved, err with
         | Some resolved, None =>
             match FindDomainSurface d (rd_Surface resolved) with
             | None => c
             | Some declared => domain_rewrite resolved declared c
             end
         | _, _ => c
         end)
  end.

Definition requireHostTenant (c : Gin) : Handler Gin Reply unit :=
  match g_host_tenant c with
  | None => mret tt
  | Some want =>
      match IdentityFrom c with
      | None => mret tt
      | Some id =>
          reject_if (negb (String.eqb (TenantID id) want))
            (JSON 403 (error_body "this session belongs to a different institution than this domain"))
      end
  end.

(** ** ondemand.go *)

(** The [domain] parameter of the query, and the status answered. *)
Definition askHandler (now done : Z) (reg : Registry) (domain : string) (res : DomainResolver) :
    DomainResolver * Z :=
  let host := ToLower (TrimSpace domain) in
  let host := stripHostPort host in
  if String.eqb host "" then (res, 400)
  else
    let '(res, (_, err), _) := domain_Resolve Do DecodeDomain now done reg host res in
    (res, match err with
          | None => 200
          | Some e => if decide (e = ErrUnavailable) then 503 else 404
          end).

(** [NewOnDemandTLS]: whether a listener is built. *)
Definition NewOnDemandTLS (resolver : option DomainResolver) (addr : string) : option DomainResolver :=
  if String.eqb addr "" then None else resolver.
End domains.

(** ** Facts on hosts and prefixes *)

Lemma trim_both_plain p s : all_bytes (λ c, negb (p c)) s = true → trim_both p s = s.
Proof.
  intros H. unfold trim_both.
  assert (trim_left p s = s) as -> by (destruct s; [done|]; simpl in *; bool_simpl; by rewrite H).
  induction s as [|c s IH]; [done|]. simpl in *. bool_simpl. rewrite IH by done.
  destruct s; [by rewrite H|done].
Qed.

Lemma last_index_byte_None c s : has_byte c s = false → last_index_byte c s = None.
Proof.
  induction s as [|d s IH]; simpl; [done|]. intros H. bool_simpl. rewrite IH by done.
  by destruct (byte_eqb c d).
Qed.
Lemma last_index_byte_app c s t :
  has_byte c t = false → last_index_byte c (s ++ String.String c t) = Some (String.length s).
Proof.
  intros Ht. induction s as [|d s IH]; simpl.
  - by rewrite last_index_byte_None, byte_eqb_refl.
  - by rewrite IH.
Qed.
Lemma drop_bytes_app s t : drop_bytes (String.length s) (s ++ t) = t.
Proof. induction s; [by destruct t|done]. Qed.
Lemma take_bytes_app s t : take_bytes (String.length s) (s ++ t) = s.
Proof. induction s; [by destruct t|]. simpl. by f_equal. Qed.

Lemma stripHostPort_bare h : has_byte ":" h = false → stripHostPort h = h.
Proof. intros H. unfold stripHostPort, SplitHostPort. by rewrite last_index_byte_None. Qed.

(** Bytes with a meaning in [host:port]. *)
Definition host_special (c : ascii) : bool := has_byte c ":[]".
Definition plain_host (s : string) : bool := all_bytes (λ c, negb (host_special c)) s.
Lemma plain_host_no s c : plain_host s = true → host_special c = true → has_byte c s = false.
Proof. intros Hs Hc. apply (all_bytes_no_byte _ _ _ Hs). by rewrite Hc. Qed.

Lemma stripHostPort_port h port :
  plain_host h = true → plain_host port = true → stripHostPort (h ++ ":" ++ port) = h.
Proof.
  intros Hh Hp. unfold stripHostPort, SplitHostPort. change (":" ++ port) with (String.String ":" port).
  rewrite last_index_byte_app by by apply plain_host_no. cbn [mbind option_bind].
  assert (∀ c, host_special c = true → byte_eqb c ":" = false →
    has_byte c (h ++ String.String ":" port) = false) as Hno.
  { intros c Hc Hne. rewrite has_byte_append. simpl. rewrite Hne.
    by rewrite (plain_host_no h), (plain_host_no port). }
  assert (∃ d rest, h ++ String.String ":" port = String.String d rest ∧ d ≠ "["%char) as (d & rest & E & Hd).
  { destruct h as [|d h]; [by eexists _, _|]. do 2 eexists. split; [done|]. intros ->. done. }
  rewrite E. destruct d as [[] [] [] [] [] [] [] []]; try done; rewrite <- E;
    rewrite take_bytes_app, (plain_host_no h ":"), !Hno by done; done.
Qed.

Lemma no_slash_split w q t u :
  has_byte "/" w = false → q ++ "/" ++ t = w ++ "/" ++ u → ∃ v, q ++ "/" = w ++ "/" ++ v.
Proof.
  revert q. induction w as [|c w IH]; intros q Hw E.
  - destruct q as [|d q]; [by exists ""|]. injection E as -> E. by exists (q ++ "/").
  - simpl in Hw. apply orb_false_iff in Hw as [Hc Hw]. destruct q as [|d q].
    + injection E as <- _. done.
    + injection E as -> E. destruct (IH q Hw E) as [v Hv]. exists v. simpl. by rewrite Hv.
Qed.

(** A path under a prefix that is not reserved is not reserved either. *)
Lemma unreserved_prefix q t :
  Firewall.IsRouteBlocked ("/" ++ q ++ "/") = false → (t = "" ∨ HasPrefix t "/" = true) →
  Firewall.IsRouteBlocked ("/" ++ q ++ t) = false.
Proof.
  intros Hq Ht. destruct (Firewall.IsRouteBlocked ("/" ++ q ++ t)) eqn:E; [|done].
  rewrite <- Hq. symmetry. clear Hq. revert E. rewrite !Firewall.IsRouteBlocked_spec. intros (bp & u & Hbp & E).
  assert (∃ w, bp = "/" ++ w ++ "/" ∧ has_byte "/" w = false) as (w & -> & Hw).
  { repeat (apply elem_of_cons in Hbp as [->|Hbp]); [by exists "internal"|by exists "admin"|by exists "_core"|].
    by apply not_elem_of_nil in Hbp. }
  rewrite !append_assoc in E. injection E as E. destruct Ht as [->|[t' ->]%HasPrefix_iff].
  - rewrite append_nil_r in E. exists ("/" ++ w ++ "/"), (u ++ "/"). split; [done|].
    rewrite E, !append_assoc. done.
  - destruct (no_slash_split w q t' u Hw E) as [v Hv]. exists ("/" ++ w ++ "/"), v.
    split; [done|]. by rewrite Hv, !append_assoc.
Qed.

(** ** What the setting's parser lets through *)

(** A mapping in its normal form. *)
Definition normal_mapping (host prefix : string) : Prop :=
  ToLower host = host ∧ has_byte ":" host = false ∧
  ∃ q, prefix = "/" ++ q ∧ Firewall.IsRouteBlocked ("/" ++ q ++ "/") = false.

Lemma parse_entry_normal Quote entry host prefix :
  parse_entry Quote entry = inl (host, prefix) → normal_mapping host prefix.
Proof.
  unfold parse_entry. destruct (Cut entry "=") as [[h p] ok]. cbv zeta.
  destruct (negb ok); [done|]. destruct (String.eqb (TrimSpace h) ""); [done|].
  destruct (Contains (TrimSpace h) "/"); [done|].
  destruct (Contains _ ":") eqn:Hc; [done|]. destruct (_ || _); [done|].
  destruct (Firewall.IsRouteBlocked _) eqn:Hb; [done|]. intros [= <- <-].
  split_and!; [apply ToLower_idem|by rewrite <- Contains_byte|]. eexists. split; [done|].
  by rewrite append_assoc in Hb.
Qed.

Lemma parse_entries_normal Quote entries out m :
  map_Forall normal_mapping out → parse_entries Quote entries out = inl m →
  map_Forall normal_mapping m.
Proof.
  revert out. induction entries as [|e es IH]; intros out Hout; cbn [parse_entries].
  { by intros [= <-]. }
  destruct (String.eqb _ ""); [by apply IH|].
  destruct (parse_entry Quote (TrimSpace e)) as [[host prefix]|] eqn:E; [|done].
  destruct (out !! host); [done|]. apply IH, map_Forall_insert_2; [|done].
  by eapply parse_entry_normal.
Qed.

Lemma parseProductHosts_normal Quote raw m :
  parseProductHosts Quote raw = inl m → map_Forall normal_mapping m.
Proof.
  unfold parseProductHosts. destruct (String.eqb _ ""); [intros [= <-]; apply map_Forall_empty|].
  apply parse_entries_normal, map_Forall_empty.
Qed.

Lemma TrimSuffix_slash path :
  HasPrefix path "/" = true → TrimSuffix path "/" = "" ∨ HasPrefix (TrimSuffix path "/") "/" = true.
Proof.
  intros Hp. destruct (TrimSuffix_spec path "/") as [E|E]; [|by right; rewrite E].
  destruct (TrimSuffix path "/") as [|c t]; [by left|right]. rewrite E in Hp. by destruct t.
Qed.

(** C23: On a product host the prefix put back is only ever added to a path no plugin
    claims and the firewall does not reserve, and never leads into a reserved
    path; the request line and the path then agree, the plugin is told the
    prefix, and the query, the host and the other headers stay as they were.
    Every other request passes as it came. *)
Theorem productHostRewrite_spec Quote raw hosts d c :
  parseProductHosts Quote raw = inl hosts →
  HasPrefix (u_Path (rq_URL (g_req c))) "/" = true →
  let r := g_req c in
  let r' := g_req (productHostRewrite hosts d c) in
  let path := u_Path (rq_URL r) in
  let path' := u_Path (rq_URL r') in
  let claimed := IsRoutable d (rq_Method r) path || Firewall.IsRouteBlocked path in
  match hosts !! ToLower (stripHostPort (rq_Host r)) with
  | Some prefix =>
      if claimed then productHostRewrite hosts d c = c
      else
        path' = prefix ++ TrimSuffix path "/" ∧ Firewall.IsRouteBlocked path' = false ∧
        rq_RequestURI r' = RequestURI (rq_URL r') ∧ unescape false (EscapedPath (rq_URL r')) = Some path' ∧
        u_RawQuery (rq_URL r') = u_RawQuery (rq_URL r) ∧ rq_Host r' = rq_Host r ∧
        Values (rq_Header r') HeaderHostPrefix = [prefix] ∧
        ∀ name, CanonicalHeaderKey name ≠ CanonicalHeaderKey HeaderHostPrefix →
          Values (rq_Header r') name = Values (rq_Header r) name
  | None => productHostRewrite hosts d c = c
  end.
Proof.
  intros Hparse Hpath. cbv zeta. unfold productHostRewrite.
  destruct (hosts !! _) as [prefix|] eqn:Hm; [|by repeat case_match].
  destruct (Nat.eqb_spec (size hosts) 0) as [Hz|_].
  { apply map_size_empty_inv in Hz. by rewrite Hz, lookup_empty in Hm. }
  destruct (IsRoutable _ _ _); [done|]. destruct (Firewall.IsRouteBlocked _) eqn:Hb; [done|].
  destruct (parseProductHosts_normal _ _ _ Hparse _ _ Hm) as (_ & _ & q & -> & Hq). simpl orb. cbv iota.
  split_and!; try done.
  - cbn [on_header set_req g_req rewrite_path with_Header rq_URL with_Path u_Path]. rewrite append_assoc.
    apply unreserved_prefix; [done|]. by apply TrimSuffix_slash.
  - apply EscapedPath_decodes.
  - apply Values_Set_eq.
  - intros name Hne. by apply Values_Set_ne.
Qed.

Lemma productHostRewrite_spec_witness :
  let c := arrive (page_request "Panel.example.com:8443" "/students/") in
  ∃ hosts, parseProductHosts (λ s, s) "panel.example.com=/school" = inl hosts ∧
    u_Path (rq_URL (g_req (productHostRewrite hosts (sample_dispatcher 0) c))) = "/school/students".
Proof.
  intros c. eexists. split; [reflexivity|].
  exact (proj1 (productHostRewrite_spec (λ s, s) "panel.example.com=/school"
    {["panel.example.com" := "/school"]} (sample_dispatcher 0) c eq_refl eq_refl)).
Defined.

(** A mapped host is found whatever port or letter case the client wrote. *)
Lemma product_host_found (hosts : gmap string string) host prefix spelled port :
  hosts !! host = Some prefix → ToLower spelled = host → plain_host spelled = true →
  plain_host port = true →
  hosts !! ToLower (stripHostPort spelled) = Some prefix ∧
  hosts !! ToLower (stripHostPort (spelled ++ ":" ++ port)) = Some prefix.
Proof.
  intros Hm <- Hs Hp. rewrite stripHostPort_port by done.
  rewrite stripHostPort_bare by (by apply plain_host_no). done.
Qed.

(** ** Writing the setting and reading it back *)

Definition render_mapping (hp : string * string) : string := hp.1 ++ "=" ++ hp.2.
Definition render_hosts (l : list (string * string)) : string := Join (render_mapping <$> l) ",".

(** Bytes that stand for themselves in the setting. *)
Definition host_byte (c : ascii) : bool := is_alnum c && byte_eqb (lower_byte c) c || has_byte c "-.".
Definition setting_byte (c : ascii) : bool := negb (is_space c) && negb (byte_eqb c ",").
Definition renderable (hp : string * string) : Prop :=
  hp.1 ≠ "" ∧ all_bytes host_byte hp.1 = true ∧ all_bytes setting_byte hp.2 = true ∧
  hp.2 = "/" ++ Trim hp.2 "/" ∧ hp.2 ≠ "/" ∧ Firewall.IsRouteBlocked (hp.2 ++ "/") = false.

Lemma all_bytes_impl (p q : ascii → bool) s :
  (∀ c, p c = true → q c = true) → all_bytes p s = true → all_bytes q s = true.
Proof.
  intros H. induction s as [|c s IH]; simpl; [done|]. rewrite !andb_true_iff. naive_solver.
Qed.
Lemma host_byte_facts c :
  host_byte c = true →
  is_space c = false ∧ lower_byte c = c ∧ has_byte c "=/:,[]" = false.
Proof. destruct c as [[] [] [] [] [] [] [] []]; vm_compute; done. Qed.

Lemma host_lower h : all_bytes host_byte h = true → ToLower h = h.
Proof.
  induction h as [|c h IH]; [done|]. cbn [all_bytes]. intros [Hc Hh]%andb_true_iff.
  unfold ToLower in *. simpl. rewrite IH by done. by destruct (host_byte_facts c Hc) as (_ & -> & _).
Qed.
Lemma host_no h c : all_bytes host_byte h = true → has_byte c "=/:,[]" = true → has_byte c h = false.
Proof.
  intros Hh Hc. apply (all_bytes_no_byte _ _ _ Hh). destruct (host_byte c) eqn:E; [|done].
  apply host_byte_facts in E as (_ & _ & E). congruence.
Qed.

Lemma TrimSpace_plain s : all_bytes (λ c, negb (is_space c)) s = true → TrimSpace s = s.
Proof. apply trim_both_plain. Qed.

Lemma parse_rendered Quote hp :
  renderable hp → TrimSpace (render_mapping hp) = render_mapping hp ∧
  parse_entry Quote (render_mapping hp) = inl hp ∧ has_byte "," (render_mapping hp) = false.
Proof.
  destruct hp as [h p]. unfold renderable, render_mapping. cbn [fst snd].
  intros (Hne & Hh & Hp & Hnorm & Hroot & Hb).
  assert (all_bytes (λ c, negb (is_space c)) h = true) as Hsh.
  { revert Hh. apply all_bytes_impl. intros c Hc. cbv beta. apply host_byte_facts in Hc as [Hc _]. by rewrite Hc. }
  assert (all_bytes (λ c, negb (is_space c)) p = true) as Hsp.
  { revert Hp. apply all_bytes_impl. intros c [? _]%andb_true_iff. done. }
  split_and!.
  - apply TrimSpace_plain. by rewrite !all_bytes_append, Hsh, Hsp.
  - unfold parse_entry. change ("=" ++ p) with (String.String "=" p).
    rewrite Cut_app by by apply host_no. cbv zeta. rewrite !TrimSpace_plain by done.
    rewrite (proj2 (String.eqb_neq h "") Hne), !Contains_byte.
    rewrite stripHostPort_bare, host_lower, !host_no by (done || by apply host_no).
    rewrite <- Hnorm, Hb, (proj2 (String.eqb_neq p "/") Hroot). simpl negb. cbv iota.
    destruct (String.eqb_spec p "") as [->|]; done.
  - rewrite !has_byte_append, host_no by done. simpl.
    apply (all_bytes_no_byte _ _ _ Hp). done.
Qed.

Lemma Split_Join_no_sep (ss : list string) sep :
  ss ≠ [] → Forall (λ s, has_byte sep s = false) ss → Split (Join ss (String.String sep "")) sep = ss.
Proof.
  intros Hne Hss. induction Hss as [|s ss Hs Hss IH]; [done|]. destruct ss as [|s' ss].
  - by apply Split_no_sep.
  - change (Join (s :: s' :: ss) (String.String sep "")) with
      (s ++ String.String sep (Join (s' :: ss) (String.String sep ""))).
    rewrite Split_app by done. by rewrite IH.
Qed.

Lemma parse_rendered_entries Quote l out :
  Forall renderable l → NoDup l.*1 → (∀ hp, hp ∈ l → out !! hp.1 = None) →
  parse_entries Quote (render_mapping <$> l) out = inl (list_to_map l ∪ out).
Proof.
  intros Hl. revert out. induction Hl as [|[h p] l Hhp Hl IH]; intros out Hnd Hout.
  { cbn. by rewrite (left_id_L ∅ (∪)). }
  destruct (parse_rendered Quote (h, p) Hhp) as (Hts & Hpe & _).
  rewrite fmap_cons in *. apply NoDup_cons in Hnd as [Hh Hnd]. cbn [parse_entries].
  assert (out !! h = None) as Hn by (apply (Hout (h, p)); left). rewrite Hts, Hpe, Hn.
  assert (String.eqb (render_mapping (h, p)) "" = false) as ->
    by (destruct h; [by destruct Hhp as [? _]|done]).
  rewrite IH; [|done|].
  - f_equal. rewrite list_to_map_cons. rewrite <- insert_union_l.
    rewrite insert_union_r; [done|]. by apply not_elem_of_list_to_map.
  - intros hp Hhp'. rewrite lookup_insert_ne; [apply Hout; by right|].
    intros ->. apply Hh, list_elem_of_fmap. by exists hp.
Qed.

(** C29: The setting round-trips: any set of distinct bare hosts with non-reserved
    prefixes, written as [host=/prefix] and joined with commas, is read back as
    exactly that mapping. *)
Theorem product_hosts_roundtrip Quote l :
  l ≠ [] → Forall renderable l → NoDup l.*1 →
  parseProductHosts Quote (render_hosts l) = inl (list_to_map l).
Proof.
  intros Hne Hl Hnd. unfold parseProductHosts, render_hosts.
  assert (Forall (λ s, has_byte "," s = false) (render_mapping <$> l)) as Hcomma
    by (apply Forall_fmap, (Forall_impl _ _ _ Hl); intros hp Hhp; by apply (parse_rendered Quote hp)).
  rewrite Split_Join_no_sep by (done || by destruct l).
  rewrite parse_rendered_entries by (done || intros; apply lookup_empty).
  rewrite (right_id_L ∅ (∪)). destruct (String.eqb_spec (TrimSpace (Join (render_mapping <$> l) ",")) "") as [E|];
    [exfalso|done].
  assert (has_byte "=" (Join (render_mapping <$> l) ",") = true) as Heq.
  { destruct l as [|[h p] l]; [done|]. rewrite fmap_cons. destruct (render_mapping <$> l); cbn [Join];
      unfold render_mapping; rewrite !has_byte_append; cbn; by rewrite ?orb_true_r. }
  by apply (trim_both_empty _ _ "=" E) in Heq.
Qed.

Lemma product_hosts_roundtrip_witness :
  parseProductHosts (λ s, s) "panel.example.com=/school,gl.example.com=/accounting/v2" =
  inl {["panel.example.com" := "/school"; "gl.example.com" := "/accounting/v2"]}.
Proof.
  exact (product_hosts_roundtrip (λ s, s) [("panel.example.com", "/school"); ("gl.example.com", "/accounting/v2")]
    ltac:(done) ltac:(repeat constructor; done) ltac:(by apply (bool_decide_unpack _))).
Defined.

(** Two of the parser's checks run too early: a prefix of slashes alone passes
    the test for an empty one and maps its host onto the root, doubling the first
    slash of every path; and a host that is only a port passes the test for an
    empty one and maps the requests that name no host. *)
Theorem product_host_checks_run_too_early Quote :
  parseProductHosts Quote "panel.example.com=//" = inl {["panel.example.com" := "/"]} ∧
  parseProductHosts Quote ":8080=/school" = inl {["" := "/school"]} ∧
  u_Path (rq_URL (g_req (productHostRewrite {["panel.example.com" := "/"]} (sample_dispatcher 0)
    (arrive (page_request "panel.example.com" "/students"))))) = "//students" ∧
  u_Path (rq_URL (g_req (productHostRewrite {["" := "/school"]} (sample_dispatcher 0)
    (arrive (page_request "" "/students"))))) = "/school/students".
Proof. split_and!; vm_compute; reflexivity. Qed.

(** ** Custom domains *)

Section domain_theorems.
Context `{MapOrder}.
Context (Do : call → option reply) (DecodeDomain : string → option ResolvedDomain).

(** A custom domain only answers for paths nothing else serves: the rewrite
    happens when Identity resolves the host and a live plugin declares the
    surface it names, and then the path is the surface's prefix, the tenant's
    slug unless the surface takes its tenant from the session, and the path
    asked for.  The tenant is remembered for session-scoped surfaces only; the
    headers gain the prefix at most; the resolver's cache stays sound. *)
Theorem resolveCustomDomain_spec now done d res c :
  resolver_ok res →
  let r := g_req c in
  let routable := IsRoutable d (rq_Method r) (u_Path (rq_URL r)) in
  let '(_, o, _) := domain_Resolve Do DecodeDomain now done (reg d) (stripHostPort (rq_Host r)) res in
  let '(res', c') := resolveCustomDomain Do DecodeDomain now done d (Some res) c in
  (∃ r', res' = Some r' ∧ resolver_ok r' ∧ (routable = true → r' = res)) ∧
  g_identity c' = g_identity c ∧ g_resp c' = g_resp c ∧ rq_Host (g_req c') = rq_Host r ∧
  match (if routable then None else o.1), o.1 ≫= λ rd, FindDomainSurface d (rd_Surface rd) with
  | Some rd, Some ds =>
      u_Path (rq_URL (g_req c')) =
        PathPrefix ds ++ (if SessionScoped ds then "" else "/" ++ rd_TenantSlug rd) ++
        TrimSuffix (u_Path (rq_URL r)) "/" ∧
      rq_RequestURI (g_req c') = RequestURI (rq_URL (g_req c')) ∧
      g_host_tenant c' = (if SessionScoped ds then Some (rd_TenantID rd) else g_host_tenant c) ∧
      rq_Header (g_req c') =
        (if SessionScoped ds then Set_ HeaderHostPrefix (PathPrefix ds) (rq_Header r) else rq_Header r)
  | _, _ => c' = c
  end.
Proof.
  intros Hres. cbv zeta. unfold resolveCustomDomain.
  pose proof (domain_Resolve_ok Do DecodeDomain now done (reg d) (stripHostPort (rq_Host (g_req c))) res Hres) as Hok.
  destruct (domain_Resolve _ _ _ _ _ _ _) as [[res' [rd err]] asked] eqn:E. destruct Hok as [Hok Hwf].
  destruct (IsRoutable _ _ _) eqn:Hr; [by split_and!; eauto|].
  split; [by exists res'; split_and!|].
  destruct Hwf as [[[rd' Hrd] He]|[Hrd [e He]]]; cbn in Hrd, He; subst rd err; cbn [fst snd]; [|done].
  cbn [mbind option_bind]. destruct (FindDomainSurface d (rd_Surface rd')) as [ds|]; [|done].
  unfold domain_rewrite. by destruct (SessionScoped ds); split_and!.
Qed.

Lemma lower_special c : host_special (lower_byte c) = host_special c.
Proof. by destruct c as [[] [] [] [] [] [] [] []]. Qed.
Lemma plain_host_lower s : plain_host (ToLower s) = plain_host s.
Proof.
  unfold plain_host, ToLower. induction s as [|c s IH]; [done|]. cbn [map_bytes all_bytes].
  by rewrite lower_special, IH.
Qed.
Lemma space_lower c : is_space (lower_byte c) = is_space c.
Proof. by destruct c as [[] [] [] [] [] [] [] []]. Qed.
Lemma spaceless_lower s :
  all_bytes (λ c, negb (is_space c)) (ToLower s) = all_bytes (λ c, negb (is_space c)) s.
Proof.
  unfold ToLower. induction s as [|c s IH]; [done|]. cbn [map_bytes all_bytes].
  by rewrite space_lower, IH.
Qed.

(** C28: The certificate gate and the router agree on which names are customers': for
    a host name, in whatever letter case and with whatever port the visitor
    writes it, the gate says yes exactly when the router's own look-up, at the
    same moment, resolves it; both leave the same cache; 503 is kept for an
    Identity that cannot be asked. *)
Theorem certificate_gate_agrees_with_routing now done reg name spelled port res :
  resolver_ok res → ToLower spelled = ToLower name → name ≠ "" →
  plain_host name = true → all_bytes (λ c, negb (is_space c)) name = true → plain_host port = true →
  let '(res1, status) := askHandler Do DecodeDomain now done reg name res in
  let '(res2, o, _) := domain_Resolve Do DecodeDomain now done reg
                         (stripHostPort (spelled ++ ":" ++ port)) res in
  res1 = res2 ∧ resolver_ok res1 ∧
  (status = 200 ↔ is_Some o.1) ∧ (status = 503 ↔ o.2 = Some ErrUnavailable) ∧
  (status = 200 ∨ status = 503 ∨ status = 404).
Proof.
  intros Hres Hsp Hne Hname Hspace Hport. unfold askHandler.
  assert (plain_host spelled = true) as Hspelled by (by rewrite <- plain_host_lower, Hsp, plain_host_lower).
  assert (all_bytes (λ c, negb (is_space c)) spelled = true) as Hspace'
    by (by rewrite <- spaceless_lower, Hsp, spaceless_lower).
  rewrite TrimSpace_plain, stripHostPort_port by done.
  rewrite stripHostPort_bare by (apply plain_host_no; [by rewrite plain_host_lower|done]).
  assert (String.eqb (ToLower name) "" = false) as -> by (by destruct name).
  pose proof (domain_Resolve_ok Do DecodeDomain now done reg spelled res Hres) as Hok.
  assert (domain_Resolve Do DecodeDomain now done reg (ToLower name) res =
          domain_Resolve Do DecodeDomain now done reg spelled res) as ->.
  { unfold domain_Resolve, normalize_host. rewrite !TrimSpace_plain by (done || by rewrite spaceless_lower).
    by rewrite ToLower_idem, Hsp. }
  destruct (domain_Resolve _ _ _ _ _ _ _) as [[res' [rd err]] asked]. destruct Hok as [Hok Hwf].
  split; [done|]. split; [done|].
  destruct Hwf as [[[rd' Hrd] He]|[Hrd [e He]]]; cbn in Hrd, He; subst rd err; cbn [fst snd];
    [|destruct (decide (e = ErrUnavailable)) as [->|]]; split_and!; try done; eauto; try by (split; eauto).
  all: split; [done|]; try (by intros [? ?]); by intros [= ?].
Qed.
End domain_theorems.

(** ** A deployment with a portal on customers' domains, for the witnesses *)

Definition portal_manifest (scoped : bool) : Manifest.Manifest := {|
  Name := "school"; Version := "1"; Description := ""; PluginType := "internal"; Routes := [];
  PublicPaths := []; Migrations := []; OpenAPISpec := ""; TenantSchema := ""; Manifest.Nav := [];
  DomainSurfaces := [{| Surface := "portal"; PathPrefix := "/school/portal"; SessionScoped := scoped |}];
  Manifest.Permissions := ""; Manifest.Roles := ""; Manifest.Features := "" |}.
Definition portal_entry (id name : string) (m : Manifest.Manifest) : PluginEntry :=
  new_entry 0 id name "http://10.0.0.6:9000" "1.0" m
    {| Scheme := "http"; Registry.Host := "10.0.0.6:9000" |} (λ t, t).
Definition portal_dispatcher (scoped : bool) : Dispatcher :=
  set_reg {| plugins := {["id-1" := portal_entry "id-1" "identity" empty_manifest;
                          "sch-1" := portal_entry "sch-1" "school" (portal_manifest scoped)]};
             maint := ∅ |} (sample_dispatcher 0).
Definition portal_domain : ResolvedDomain := {|
  rd_TenantID := "t1"; rd_TenantSlug := "acme"; rd_SchemaName := "tenant_acme"; rd_BranchID := "";
  rd_Surface := "portal" |}.
Definition say_ok (_ : call) : option reply := Some {| r_StatusCode := 200; r_Body := "" |}.

Lemma portal_rewritten :
  u_Path (rq_URL (g_req (resolveCustomDomain (H := sorted_order) say_ok (λ _, Some portal_domain) 0 0
    (portal_dispatcher false) (Some (NewDomainResolver "k"))
    (arrive (page_request "portal.acme.com" "/login"))).2)) = "/school/portal/acme/login".
Proof. vm_compute. reflexivity. Qed.

Lemma resolveCustomDomain_spec_witness :
  let '(_, c') := resolveCustomDomain (H := sorted_order) say_ok (λ _, Some portal_domain) 0 0
                    (portal_dispatcher false) (Some (NewDomainResolver "k"))
                    (arrive (page_request "portal.acme.com" "/login")) in
  g_identity c' = None ∧ rq_Host (g_req c') = "portal.acme.com".
Proof.
  pose proof (resolveCustomDomain_spec (H := sorted_order) say_ok (λ _, Some portal_domain) 0 0
    (portal_dispatcher false) (NewDomainResolver "k") (arrive (page_request "portal.acme.com" "/login"))
    (NewDomainResolver_ok "k")) as Hs.
  cbv zeta in Hs. destruct (@domain_Resolve _ _ _ _ _ _ _ _ _) as [[r o] asked].
  destruct (resolveCustomDomain _ _ _ _ _ _ _) as [res' c'].
  destruct Hs as (_ & Hi & _ & Hh & _). split; [exact Hi|exact Hh].
Defined.

Lemma certificate_gate_agrees_with_routing_witness :
  let '(_, status) := askHandler (H := sorted_order) say_ok (λ _, Some portal_domain) 0 0
                        (reg (portal_dispatcher false)) "portal.acme.com" (NewDomainResolver "k") in
  status = 200 ∨ status = 503 ∨ status = 404.
Proof.
  pose proof (certificate_gate_agrees_with_routing (H := sorted_order) say_ok (λ _, Some portal_domain) 0 0
    (reg (portal_dispatcher false)) "portal.acme.com" "Portal.Acme.com" "443" (NewDomainResolver "k")
    (NewDomainResolver_ok "k") eq_refl ltac:(done) eq_refl eq_refl eq_refl) as Hs.
  destruct (askHandler _ _ _ _ _ _ _) as [res1 status].
  destruct (domain_Resolve _ _ _ _ _ _ _) as [[res2 o] asked]. apply Hs.
Defined.

(** On a product host a reserved path stays blocked; on a custom domain the same
    path is rewritten out of the reserved namespace. *)
Lemma reserved_paths_escape_on_custom_domains :
  let d := portal_dispatcher false in
  let c := arrive (page_request "portal.acme.com" "/internal/introspect") in
  productHostRewrite {["portal.acme.com" := "/school"]} d c = c ∧
  Firewall.IsRouteBlocked (u_Path (rq_URL (g_req (resolveCustomDomain (H := sorted_order) say_ok
    (λ _, Some portal_domain) 0 0 d (Some (NewDomainResolver "k")) c).2))) = false.
Proof. by vm_compute. Qed.
