(* ===== verification/Dashboard.v ===== *)
(** [cmd/apicorex/dashboard.go]: the gateway's own single-page application, served
    from the files embedded in the binary. *)

From S2P Require Import Prelude GoStrings Http.

(** ** [path], over slash-separated names *)

(** [path.Ext]: from the last dot of the last element, the dot included. *)
Fixpoint Ext (s : string) : string :=
  match s with
  | EmptyString => ""
  | String.String c s' =>
      if negb (String.eqb (Ext s') "") then Ext s'
      else if byte_eqb c "." && negb (has_byte "/" s') then s else ""
  end.

(** One element of the name, pushed on the elements kept so far, last first. *)
Definition clean_step (rooted : bool) (kept : list string) (elem : string) : list string :=
  if String.eqb elem "" || String.eqb elem "." then kept
  else if String.eqb elem ".." then
    match kept with
    | [] => if rooted then [] else [".."]
    | last :: kept' => if String.eqb last ".." then ".." :: kept else kept'
    end
  else elem :: kept.

(** [path.Clean] *)
Definition Clean (p : string) : string :=
  let rooted := HasPrefix p "/" in
  let kept := foldl (clean_step rooted) [] (Split p "/") in
  let name := Join (reverse kept) "/" in
  if rooted then "/" ++ name else if String.eqb name "" then "." else name.

(** [path.Join(a, b)] *)
Definition Join2 (a b : string) : string :=
  if String.eqb a "" then (if String.eqb b "" then "" else Clean b)
  else if String.eqb b "" then Clean a else Clean (a ++ "/" ++ b).

(** [fs.ValidPath]: no empty, [.] or [..] element, or [.] alone. *)
Definition ValidPath (name : string) : bool :=
  String.eqb name "." ||
  forallb (λ e, negb (String.eqb e "" || String.eqb e "." || String.eqb e "..")) (Split name "/").

(** ** The handler *)

Definition contentTypeForDashboard (name : string) : string :=
  let ext := ToLower (Ext name) in
  if String.eqb ext ".html" then "text/html; charset=utf-8"
  else if String.eqb ext ".js" || String.eqb ext ".mjs" then "text/javascript; charset=utf-8"
  else if String.eqb ext ".css" then "text/css; charset=utf-8"
  else if String.eqb ext ".json" then "application/json; charset=utf-8"
  else if String.eqb ext ".txt" then "text/plain; charset=utf-8"
  else if String.eqb ext ".svg" then "image/svg+xml"
  else if String.eqb ext ".ico" then "image/x-icon"
  else if String.eqb ext ".png" then "image/png"
  else if String.eqb ext ".woff2" then "font/woff2"
  else if String.eqb ext ".woff" then "font/woff"
  else "application/octet-stream".

Section dashboard.
(** The files of the embedded tree, by their path in it. *)
Context (dashboardOut : gmap string string).

(** [fs.ReadFile]: an invalid path is an error, whatever is embedded. *)
Definition ReadFile (name : string) : option string :=
  if ValidPath name then dashboardOut !! name else None.

(** The bytes and their type. *)
Definition readDashboardFile (rel : string) : option (string * string) :=
  match ReadFile rel with
  | Some b => Some (b, contentTypeForDashboard rel)
  | None =>
      if String.eqb (Ext rel) "" then
        b2 ← ReadFile (Join2 rel "index.html"); Some (b2, "text/html; charset=utf-8")
      else None
  end.

(** [filepath] is the wildcard of [/dashboard/*filepath], empty on [/plugin]. *)
Definition serveDashboard (filepath : string) : Reply :=
  let rel := TrimPrefix filepath "/" in
  let rel := if String.eqb rel "" then "index.html" else rel in
  match readDashboardFile rel with
  | Some (data, ctype) => Data 200 ctype data
  | None =>
      match readDashboardFile "index.html" with
      | Some (data, ctype) => Data 200 ctype data
      | None => Data 500 "text/plain; charset=utf-8" "dashboard UI missing"
      end
  end.
End dashboard.

(** ** Facts on extensions *)

Lemma Ext_no_dot s : has_byte "." s = false → Ext s = "".
Proof.
  induction s as [|c s IH]; [done|]. cbn [has_byte Ext]. rewrite orb_false_iff.
  intros [Hc Hs]. rewrite (IH Hs). cbn. by rewrite byte_eqb_sym, Hc.
Qed.
Lemma Ext_suffix s e :
  has_byte "." e = false → has_byte "/" e = false → Ext (s ++ "." ++ e) = "." ++ e.
Proof.
  change ("." ++ e) with (String.String "." e). intros Hd Hs.
  induction s as [|c s IH]; cbn [String.append Ext].
  - rewrite Ext_no_dot by done. by rewrite Hs.
  - by rewrite IH.
Qed.

Lemma Join_snoc l x : Join (app l [x]) "/" = match l with [] => x | _ => Join l "/" ++ "/" ++ x end.
Proof.
  induction l as [|a l IH]; [done|]. cbn [app]. destruct l as [|b l]; [done|].
  change (Join (a :: app (b :: l) [x]) "/") with (a ++ "/" ++ Join (app (b :: l) [x]) "/").
  rewrite IH. change (Join (a :: b :: l) "/") with (a ++ "/" ++ Join (b :: l) "/").
  by rewrite !append_assoc.
Qed.

(** ** Facts on names *)

Definition plain_elem (e : string) : bool := negb (String.eqb e "" || String.eqb e "." || String.eqb e "..").

Lemma clean_step_plain rooted kept e : plain_elem e = true → clean_step rooted kept e = e :: kept.
Proof.
  unfold plain_elem, clean_step. destruct (String.eqb e ""), (String.eqb e "."), (String.eqb e ".."); done.
Qed.
Lemma clean_plain rooted kept es :
  forallb plain_elem es = true → foldl (clean_step rooted) kept es = app (reverse es) kept.
Proof.
  revert kept. induction es as [|e es IH]; intros kept; [done|]. cbn [forallb foldl].
  intros [He Hes]%andb_true_iff. rewrite clean_step_plain, IH by done.
  rewrite reverse_cons. by rewrite <- app_assoc.
Qed.

(** The last element of a joined name is the one joined. *)
Lemma Split_snoc s x : has_byte "/" x = false → Split (s ++ "/" ++ x) "/" = app (Split s "/") [x].
Proof.
  intros Hx. induction s as [|c s IH].
  - change ("" ++ "/" ++ x) with ("" ++ String.String "/" x). rewrite Split_app by done.
    by rewrite Split_no_sep.
  - change (String.String c s ++ "/" ++ x) with (String.String c (s ++ "/" ++ x)). cbn [Split].
    rewrite IH. destruct (byte_eqb c "/"); [done|].
    destruct (Split s "/") as [|f fs] eqn:E; [by apply Split_nonempty in E|done].
Qed.

Lemma Clean_last s x : has_byte "/" x = false → plain_elem x = true →
  ∃ dir, Clean (s ++ "/" ++ x) = dir ++ x ∧ (dir = "" ∨ ∃ d, dir = d ++ "/").
Proof.
  intros Hx Hp. unfold Clean. rewrite Split_snoc, foldl_snoc, clean_step_plain by done.
  rewrite reverse_cons, Join_snoc.
  assert (∀ t, String.eqb (t ++ x) "" = false) as Hne.
  { intros t. destruct (String.eqb_spec (t ++ x) "") as [E|]; [|done]. destruct t, x; done. }
  destruct (HasPrefix _ "/").
  - destruct (reverse _) as [|a l]; [exists "/"; split; [done|right; by exists ""]|].
    exists ("/" ++ Join (a :: l) "/" ++ "/"). split; [by rewrite !append_assoc|]. right. eexists. by rewrite <- append_assoc.
  - destruct (reverse _) as [|a l]; [exists ""; split; [|by left]; pose proof (Hne "") as E; cbn in E |- *; by rewrite E|].
    exists (Join (a :: l) "/" ++ "/"). split; [|by right; eexists].
    rewrite <- append_assoc, Hne. done.
Qed.

Lemma HasPrefix_byte c s d : HasPrefix (String.String c s) (String.String d "") = byte_eqb c d.
Proof. cbn [HasPrefix]. by rewrite byte_eqb_sym, andb_true_r. Qed.

(** A valid name joined to an element is the two with a slash between. *)
Lemma Clean_valid s x : has_byte "/" x = false → plain_elem x = true → s ≠ "." → ValidPath s = true →
  Clean (s ++ "/" ++ x) = s ++ "/" ++ x.
Proof.
  intros Hx Hp Hdot Hv. unfold ValidPath in Hv. apply orb_true_iff in Hv as [Hv%String.eqb_eq|Hv]; [done|].
  unfold Clean. rewrite Split_snoc, foldl_snoc, clean_step_plain, clean_plain by done.
  rewrite reverse_cons, app_nil_r, reverse_involutive.
  rewrite <- (Split_snoc s x Hx), (Join_Split _ "/").
  assert (HasPrefix (s ++ "/" ++ x) "/" = false) as ->.
  { destruct s as [|c s]; [done|]. change (String.String c s ++ "/" ++ x) with (String.String c (s ++ "/" ++ x)).
    rewrite HasPrefix_byte. destruct (byte_eqb c "/") eqn:E; [|done].
    exfalso. cbn [Split] in Hv. rewrite E in Hv. done. }
  by destruct s.
Qed.

Lemma ValidPath_index s : s ≠ "." → ValidPath s = true → ValidPath (s ++ "/" ++ "index.html") = true.
Proof.
  unfold ValidPath. intros Hdot [Hv%String.eqb_eq|Hv]%orb_true_iff; [done|].
  apply orb_true_iff. right. by rewrite Split_snoc, forallb_app, Hv.
Qed.

(** ** What a browser is served *)

(** The embedded file a request stands for. *)
Definition asset_for (files : gmap string string) (rel : string) : string :=
  if bool_decide (is_Some (ReadFile files rel)) then rel
  else if String.eqb (Ext rel) "" && bool_decide (is_Some (ReadFile files (Join2 rel "index.html")))
  then Join2 rel "index.html" else "index.html".

Lemma index_type dir :
  contentTypeForDashboard (dir ++ "index.html") = "text/html; charset=utf-8".
Proof.
  unfold contentTypeForDashboard. change (dir ++ "index.html") with (dir ++ "index" ++ "." ++ "html").
  rewrite <- append_assoc, Ext_suffix by done. done.
Qed.
Lemma Join2_index rel : rel ≠ "" → Join2 rel "index.html" = Clean (rel ++ "/" ++ "index.html").
Proof. unfold Join2. by destruct (String.eqb_spec rel ""). Qed.

Lemma readDashboardFile_asset files rel :
  rel ≠ "" →
  match readDashboardFile files rel with
  | Some (data, ctype) =>
      ReadFile files (asset_for files rel) = Some data ∧
      ctype = contentTypeForDashboard (asset_for files rel)
  | None => asset_for files rel = "index.html"
  end.
Proof.
  intros Hrel. unfold readDashboardFile, asset_for.
  destruct (ReadFile files rel) as [b|] eqn:E; [by rewrite bool_decide_true|].
  rewrite bool_decide_false by by intros []. destruct (String.eqb (Ext rel) ""); [|done].
  rewrite (Join2_index rel Hrel).
  destruct (ReadFile files (Clean _)) as [b|] eqn:E2; cbn [mbind option_bind]; [|by rewrite bool_decide_false by by intros []].
  rewrite bool_decide_true by done. split; [done|]. cbn [andb].
  destruct (Clean_last rel "index.html") as (dir & -> & _); [done..|]. by rewrite index_type.
Qed.

(** With the application embedded, every path under /dashboard, and /plugin, is
    answered with an embedded file, typed by that file's own extension: the file
    asked for, else the index of the directory asked for, else the application's
    entry page; no path, however its dots are arranged, reads anything else or
    fails. *)
Theorem serveDashboard_serves_embedded files filepath :
  is_Some (ReadFile files "index.html") →
  let rel := TrimPrefix filepath "/" in
  let name := if String.eqb rel "" then "index.html" else asset_for files rel in
  (∃ data, files !! name = Some data ∧ ValidPath name = true ∧
     serveDashboard files filepath = Data 200 (contentTypeForDashboard name) data) ∧
  (is_Some (ReadFile files rel) → name = rel) ∧
  (ReadFile files rel = None → Ext rel = "" → ValidPath rel = true → rel ≠ "." →
   is_Some (files !! (rel ++ "/index.html")) → name = rel ++ "/index.html").
Proof.
  intros [index Hi] rel name.
  assert (∀ n b, ReadFile files n = Some b → files !! n = Some b ∧ ValidPath n = true) as Hread.
  { intros n b. unfold ReadFile. by destruct (ValidPath n). }
  assert (serveDashboard files filepath =
    match ReadFile files name with Some b => Data 200 (contentTypeForDashboard name) b | None => Status 0 end
    ∧ is_Some (ReadFile files name)) as [-> [b Hb]].
  { unfold serveDashboard, name. fold rel. destruct (String.eqb_spec rel "") as [E|E].
    - unfold readDashboardFile. rewrite Hi. by split.
    - pose proof (readDashboardFile_asset files rel E) as Ha.
      destruct (readDashboardFile files rel) as [[data ctype]|]; [by destruct Ha as [-> ->]|].
      unfold readDashboardFile. rewrite Ha, Hi. by split. }
  split; [exists b; rewrite Hb; by apply Hread in Hb as [? ?]|]. unfold name, asset_for. split.
  - intros Hs. rewrite bool_decide_true by done. destruct (String.eqb_spec rel "") as [E|]; [|done].
    rewrite E in Hs. by destruct Hs.
  - intros Hnone -> Hv Hdot Hs. pose proof (ValidPath_index rel Hdot Hv) as Hv'. destruct (String.eqb_spec rel "") as [E|E]; [by rewrite E in Hv|].
    rewrite bool_decide_false by (rewrite Hnone; by intros []).
    rewrite Join2_index, (Clean_valid rel "index.html") by done.
    rewrite bool_decide_true; [done|]. unfold ReadFile.
    change ("/" ++ "index.html") with "/index.html" in *. by rewrite Hv'.
Qed.

Definition sample_assets : gmap string string :=
  {["index.html" := "<home>"; "plugin/index.html" := "<plugins>"; "_next/static/main.js" := "js"]}.

Lemma serveDashboard_serves_embedded_witness :
  serveDashboard sample_assets "/plugin" = Data 200 "text/html; charset=utf-8" "<plugins>" ∧
  serveDashboard sample_assets "/../../etc/passwd" = Data 200 "text/html; charset=utf-8" "<home>" ∧
  ∃ data, sample_assets !! "plugin/index.html" = Some data.
Proof.
  split; [by vm_compute|]. split; [by vm_compute|].
  destruct (serveDashboard_serves_embedded sample_assets "/plugin" ltac:(by eexists; vm_compute))
    as ((data & Hd & _) & _). exists data. exact Hd.
Defined.
