(* ===== verification/Server.v ===== *)
(** [server/http.go]: the chain of middleware in front of the dispatcher, and what
    reaches a plugin through it. *)

From S2P Require Import Prelude GoStrings Float64 Crypto Manifest Protection RateLimiter Config Auth Registry PluginToken Openapi Health Http Middleware Nav Proxy Dispatcher ControlPlane Gateway Hosts.

(** What the environment configures: [CORS_ALLOWED_ORIGINS] and [PRODUCT_HOSTS],
    parsed, and [LOGIN_URL]. *)
Record settings := {
  allowedOrigins : list string;
  productHosts : gmap string string;
  loginURL : string
}.
(** [None] is the start refused with [log.Fatalf]. *)
Definition configure (Quote : string → string) (origins hosts login : string) : option settings :=
  match parseProductHosts Quote hosts with
  | inl m => Some {| allowedOrigins := ParseOrigins origins; productHosts := m; loginURL := login |}
  | inr _ => None
  end.

(** The chain's state: the two resolvers and the world of the dispatcher. *)
Record Front := {
  fr_introspector : option Introspector;
  fr_resolver : option DomainResolver;
  fr_world : World
}.
Definition fr_gin (s : Front) : Gin := w_gin (fr_world s).
Definition fr_disp (s : Front) : Dispatcher := w_disp (fr_world s).
Definition set_fr_gin (c : Gin) (s : Front) : Front := {|
  fr_introspector := fr_introspector s; fr_resolver := fr_resolver s;
  fr_world := set_gin c (fr_world s) |}.

(** The readings of the clock of the two look-ups, and the dispatcher's. *)
Record FrontClock := {
  t_domain : Z; t_domain_done : Z; t_auth : Z; t_auth_done : Z; t_dispatch : Clock
}.

(** Requests that never meet the authentication handlers. *)
Definition skips_auth (p : string) : bool :=
  String.eqb p "/health" || String.eqb p "/plugins" || String.eqb p "/plugin" ||
  String.eqb p "/metrics" || HasPrefix p "/docs" || HasPrefix p "/_core" || HasPrefix p "/dashboard".

Section server.
Context `{MapOrder}.
Context (Do : call → option reply) (DecodeIdentity : string → option Identity).
Context (DecodeDomain : string → option ResolvedDomain).
Context (Cookie : Request → string → option string).
Context (uuid : string) (Inject : Header → Header).
Context (RoundTrip : Request → exchange) (Dial : string → Request → ws_outcome).
Context (conf : settings) (clk : FrontClock).

(** A middleware of the request's context alone, in the chain. *)
Definition in_gin {A} (m : Handler Gin Reply A) : Handler Front served A :=
  λ s, let '(c, r) := m (fr_gin s) in
       (set_fr_gin c s, match r with inl r => inl (Answered r) | inr a => inr a end).
(** One that also asks the introspector. *)
Definition in_auth {A} (m : Handler auth_state Reply A) : Handler Front served A :=
  λ s, let '((i, c), r) := m (fr_introspector s, fr_gin s) in
       ({| fr_introspector := i; fr_resolver := fr_resolver s; fr_world := set_gin c (fr_world s) |},
        match r with inl r => inl (Answered r) | inr a => inr a end).

(** The handler that splits public from protected routes. *)
Definition auth_split (d : Dispatcher) : Handler auth_state Reply unit :=
  '(_, c) ← get_state;
  let p := u_Path (rq_URL (g_req c)) in
  if skips_auth p then mret tt
  else if IsPublic d (rq_Method (g_req c)) p then
    OptionalAuth Do DecodeIdentity Cookie (t_auth clk) (t_auth_done clk) (reg d)
  else
    AuthWithLogin Do DecodeIdentity Cookie (t_auth clk) (t_auth_done clk) (reg d) (loginURL conf).

Definition custom_domain (s : Front) : Front :=
  let '(r, c) := resolveCustomDomain Do DecodeDomain (t_domain clk) (t_domain_done clk)
                   (fr_disp s) (fr_resolver s) (fr_gin s) in
  {| fr_introspector := fr_introspector s; fr_resolver := r; fr_world := set_gin c (fr_world s) |}.

(** The chain a request goes through when no endpoint of the gateway serves it. *)
Definition middlewares : Handler Front served unit :=
  in_gin (CORS (allowedOrigins conf));;
  in_gin (modify StripSpoofedHeaders);;
  s ← get_state;
  in_gin (modify (productHostRewrite (productHosts conf) (fr_disp s)));;
  modify custom_domain;;
  s ← get_state;
  in_auth (auth_split (fr_disp s));;
  c ← get_state;
  in_gin (requireHostTenant (fr_gin c)).

Definition dispatching : Handler Front served served := λ s,
  let '(w, r) := Dispatch uuid Inject RoundTrip Dial (t_dispatch clk) (fr_world s) in
  ({| fr_introspector := fr_introspector s; fr_resolver := fr_resolver s; fr_world := w |}, inr r).

Definition NoRoute : Front → Front * served := run_handler (middlewares;; dispatching).
End server.

(** ** What the chain lets through *)

Section chain.
Context `{MapOrder}.
Context (Do : call → option reply) (DecodeIdentity : string → option Identity).
Context (DecodeDomain : string → option ResolvedDomain).
Context (Cookie : Request → string → option string).
Context (uuid : string) (Inject : Header → Header).
Context (RoundTrip : Request → exchange) (Dial : string → Request → ws_outcome).
Context (conf : settings) (clk : FrontClock).

(** The identity a request goes on with; [None] when it is refused. *)
Definition identity_for (i : option Introspector) (d : Dispatcher) (c : Gin) : option (option Identity) :=
  let p := u_Path (rq_URL (g_req c)) in
  if skips_auth p then Some (g_identity c)
  else
    match i with
    | None => Some (g_identity c)
    | Some i =>
        match presented Do DecodeIdentity Cookie (t_auth clk) (t_auth_done clk) (reg d) c i with
        | Some (_, (id, None)) => Some id
        | _ => if IsPublic d (rq_Method (g_req c)) p then Some (g_identity c) else None
        end
    end.

Lemma SetIdentity_same c : SetIdentity (g_identity c) c = c.
Proof. by destruct c. Qed.

Lemma auth_split_run d i c :
  let '((_, c'), res) := auth_split Do DecodeIdentity Cookie conf clk d (i, c) in
  match identity_for i d c with
  | Some id => res = inr tt ∧ c' = SetIdentity id c
  | None => c' = c ∧ ∃ r, res = inl r
  end.
Proof.
  unfold auth_split, identity_for, presented. run_steps.
  destruct (skips_auth _); run_steps; [by rewrite SetIdentity_same|].
  destruct (IsPublic _ _ _); [unfold OptionalAuth|unfold AuthWithLogin]; run_steps;
    (destruct i as [i|]; run_steps; [|by rewrite SetIdentity_same]);
    (destruct (deviceToken Cookie (g_req c)) as [tok|]; cbn; [|rewrite ?SetIdentity_same; by eauto]);
    (destruct (resolve_token _ _ _ _ _ _ _ _) as [[i' [id [e|]]]|]; cbn;
      [|done|rewrite ?SetIdentity_same; by eauto]).
  - by rewrite SetIdentity_same.
  - by destruct e; eauto.
Qed.

Lemma CORS_req c :
  let '(c', _) := CORS (allowedOrigins conf) c in
  g_req c' = g_req c ∧ g_identity c' = g_identity c ∧ g_host_tenant c' = g_host_tenant c.
Proof.
  unfold CORS. destruct (cors_config _) as [all allow]. run_steps.
  destruct (_ && _); unfold reject_if; destruct (String.eqb _ "OPTIONS"); run_steps; done.
Qed.

(** Stripped, and then told the prefix a host stands for, if any. *)
Definition stripped (h : Header) : Header := foldl (λ h name, Del name h) h apicorexHeaders.
Definition with_prefix (p : option string) (h : Header) : Header :=
  if p is Some p then Set_ HeaderHostPrefix p h else h.

(** What the two rewrites may change of a context. *)
Definition relocated (c c' : Gin) : Prop :=
  rq_Method (g_req c') = rq_Method (g_req c) ∧ rq_Host (g_req c') = rq_Host (g_req c) ∧
  rq_RemoteAddr (g_req c') = rq_RemoteAddr (g_req c) ∧
  g_identity c' = g_identity c ∧ g_resp c' = g_resp c ∧
  (∃ p, rq_Header (g_req c') = with_prefix p (rq_Header (g_req c))) ∧
  (g_host_tenant c' = g_host_tenant c ∨ is_Some (g_host_tenant c')).

Lemma with_prefix_twice p p' h : ∃ q, with_prefix p (with_prefix p' h) = with_prefix q h.
Proof.
  destruct p as [p|]; [exists (Some p)|by exists p']. destruct p' as [p'|]; [|done].
  simpl. unfold Set_. by rewrite insert_insert_eq.
Qed.
#[export] Instance relocated_preorder : PreOrder relocated.
Proof.
  split; [intros c; repeat split; [by exists None|by left]|].
  intros c1 c2 c3 (M1 & H1 & A1 & I1 & R1 & (p & P1) & T1) (M2 & H2 & A2 & I2 & R2 & (p' & P2) & T2).
  repeat split; try congruence.
  - rewrite P2, P1. destruct (with_prefix_twice p' p (rq_Header (g_req c1))) as [q Hq]. by exists q.
  - destruct T2 as [->|]; auto.
Qed.

Lemma productHostRewrite_relocates hosts d c : relocated c (productHostRewrite hosts d c).
Proof.
  unfold productHostRewrite. repeat (case_match; try reflexivity).
  repeat split; [by eexists (Some _)|by left].
Qed.
Lemma custom_domain_relocates s :
  relocated (fr_gin s) (fr_gin (custom_domain Do DecodeDomain clk s)) ∧
  fr_disp (custom_domain Do DecodeDomain clk s) = fr_disp s ∧
  w_events (fr_world (custom_domain Do DecodeDomain clk s)) = w_events (fr_world s) ∧
  fr_introspector (custom_domain Do DecodeDomain clk s) = fr_introspector s.
Proof.
  unfold custom_domain. destruct (resolveCustomDomain _ _ _ _ _ _ _) as [r c'] eqn:E.
  split; [|done]. unfold fr_gin in *. cbn [fr_world set_gin w_gin]. revert E.
  unfold resolveCustomDomain. destruct (fr_resolver s) as [res|]; [|by intros [= _ <-]].
  destruct (IsRoutable _ _ _); [by intros [= _ <-]|].
  destruct (domain_Resolve _ _ _ _ _ _ _) as [[res' [[rd|] [e|]]] asked]; try (by intros [= _ <-]).
  destruct (FindDomainSurface _ _) as [ds|]; intros [= _ <-]; [|reflexivity].
  unfold domain_rewrite. destruct (SessionScoped ds); repeat split;
    [by eexists (Some _)|right; by eexists|by exists None|by left].
Qed.

Definition locate (s : Front) : Front :=
  custom_domain Do DecodeDomain clk
    (set_fr_gin (productHostRewrite (productHosts conf) (fr_disp s) (fr_gin s)) s).
(** The context a request is classified by: past CORS, stripped, and located. *)
Definition located (s : Front) : Gin :=
  fr_gin (locate (set_fr_gin (StripSpoofedHeaders (CORS (allowedOrigins conf) (fr_gin s)).1) s)).

(** A request the chain let through: [c] is its context once it is located. *)
Record passed (s s' : Front) (c : Gin) : Prop := {
  pa_located : c = located s;
  pa_disp : fr_disp s' = fr_disp s;
  pa_req : g_req (fr_gin s') = g_req c;
  pa_method : rq_Method (g_req c) = rq_Method (g_req (fr_gin s));
  pa_host : rq_Host (g_req c) = rq_Host (g_req (fr_gin s));
  pa_header : ∃ p, rq_Header (g_req c) = with_prefix p (stripped (rq_Header (g_req (fr_gin s))));
  pa_identity : identity_for (fr_introspector s) (fr_disp s) c = Some (g_identity (fr_gin s'));
  pa_arrived : g_identity c = g_identity (fr_gin s);
  pa_tenant want id : g_host_tenant c = Some want → g_identity (fr_gin s') = Some id → TenantID id = want
}.

Lemma in_gin_wp {A} (m : Handler Gin Reply A) QR (QA : Front → A → Prop) s :
  (let '(c, res) := m (fr_gin s) in
   match res with inl r => QR (set_fr_gin c s) (Answered r) | inr a => QA (set_fr_gin c s) a end) →
  wp (in_gin m) QR QA s.
Proof. unfold wp, in_gin. by destruct (m (fr_gin s)) as [c [r|a]]. Qed.

Lemma in_gin_modify_wp f QR (QA : Front → unit → Prop) s :
  QA (set_fr_gin (f (fr_gin s)) s) tt → wp (in_gin (modify f)) QR QA s.
Proof. done. Qed.

Lemma locate_spec s :
  relocated (fr_gin s) (fr_gin (locate s)) ∧ fr_disp (locate s) = fr_disp s ∧
  w_events (fr_world (locate s)) = w_events (fr_world s) ∧
  fr_introspector (locate s) = fr_introspector s.
Proof.
  unfold locate. set (s1 := set_fr_gin _ s).
  destruct (custom_domain_relocates s1) as (Hr & Hd & He & Hi). split_and!; [|done..].
  etransitivity; [|exact Hr]. apply productHostRewrite_relocates.
Qed.

Lemma requireHostTenant_run c :
  requireHostTenant c c =
  (c, match g_host_tenant c, g_identity c with
      | Some want, Some id =>
          if String.eqb (TenantID id) want then inr tt
          else inl (JSON 403 (error_body "this session belongs to a different institution than this domain"))
      | _, _ => inr tt
      end).
Proof.
  unfold requireHostTenant, IdentityFrom, reject_if. destruct (g_host_tenant c) as [want|]; [|done].
  destruct (g_identity c) as [id|]; [|done]. by destruct (String.eqb (TenantID id) want).
Qed.

(** The chain answers, leaving the dispatcher alone, or lets the request through. *)
Lemma middlewares_wp QR QA s :
  (∀ s' r, fr_disp s' = fr_disp s → w_events (fr_world s') = w_events (fr_world s) →
     QR s' (Answered r)) →
  (∀ s' c, passed s s' c → w_events (fr_world s') = w_events (fr_world s) → QA s' tt) →
  wp (middlewares Do DecodeIdentity DecodeDomain Cookie conf clk) QR QA s.
Proof.
  intros HR HA. unfold middlewares. apply wp_bind, in_gin_wp.
  pose proof (CORS_req (fr_gin s)) as Hc. destruct (CORS (allowedOrigins conf) (fr_gin s)) as [c1 [r|[]]] eqn:Ecors; [by apply HR|].
  destruct Hc as (Hc1 & Hi1 & Ht1). apply wp_bind, in_gin_modify_wp, wp_bind, wp_get_state.
  apply wp_bind, in_gin_modify_wp, wp_bind, wp_modify.
  set (s1 := set_fr_gin (StripSpoofedHeaders _) _). fold (locate s1). apply wp_bind, wp_get_state.
  destruct (locate_spec s1) as ((M & Ho & _ & I & _ & (p & P) & T) & D & E & N).
  apply wp_bind. unfold in_auth, wp.
  pose proof (auth_split_run (fr_disp (locate s1)) (fr_introspector (locate s1)) (fr_gin (locate s1))) as Hs.
  destruct (auth_split _ _ _ _ _ _ _) as [[i' c'] res].
  destruct (identity_for _ _ _) as [id|] eqn:Hid.
  2: { destruct Hs as [-> [r ->]]. by apply HR. }
  destruct Hs as [-> ->]. run_steps. unfold in_gin. rewrite requireHostTenant_run.
  set (s2 := {| fr_introspector := i' |}). rewrite N, D in Hid.
  set (c2 := fr_gin (locate s1)) in *.
  assert ((∀ want x, g_host_tenant c2 = Some want → id = Some x → TenantID x = want) →
    QA (set_fr_gin (SetIdentity id c2) s2) tt) as Hgo.
  { intros Hten. apply (HA _ c2); [|done]. split; try done.
    - unfold located. by rewrite Ecors.
    - rewrite M, <- Hc1. done.
    - rewrite Ho, <- Hc1. done.
    - exists p. rewrite P. unfold s1, fr_gin, stripped. cbn. by rewrite Hc1.
    - rewrite I, <- Hi1. done. }
  cbn [g_host_tenant g_identity SetIdentity fr_gin set_gin fr_world w_gin s2].
  destruct (g_host_tenant c2) as [want|]; [|by apply Hgo; intros ? ? [=]].
  destruct id as [id|]; [|by apply Hgo; intros ? ? ? [=]].
  destruct (String.eqb_spec (TenantID id) want) as [Hw|]; [|by apply HR].
  apply Hgo. intros ? ? [= <-] [= <-]. exact Hw.
Qed.

Lemma NoRoute_cases (Q : Front → served → Prop) s :
  (∀ s' r, fr_disp s' = fr_disp s → Q s' (Answered r)) →
  (∀ s1 c s', passed s s1 c →
     fr_world s' = (Dispatch uuid Inject RoundTrip Dial (t_dispatch clk) (fr_world s1)).1 →
     Q s' (Dispatch uuid Inject RoundTrip Dial (t_dispatch clk) (fr_world s1)).2) →
  let res := NoRoute Do DecodeIdentity DecodeDomain Cookie uuid Inject RoundTrip Dial conf clk s in
  Q res.1 res.2.
Proof.
  intros HR HA. cbv zeta. unfold NoRoute. apply (wp_run_handler _ Q), wp_bind, middlewares_wp.
  - intros s' r Hd _. by apply HR.
  - intros s1 c Hp _. unfold dispatching, wp.
    destruct (Dispatch _ _ _ _ _ _) as [w r] eqn:E.
    specialize (HA s1 c {| fr_introspector := fr_introspector s1; fr_resolver := fr_resolver s1; fr_world := w |} Hp).
    rewrite E in HA. by apply HA.
Qed.

(** What the client of an unclaimed path is served. *)
Lemma NoRoute_result (P : served → Prop) s :
  (∀ r, P (Answered r)) →
  (∀ s1 e pe d1, passed s s1 (located s) →
     let c := located s in
     let m := rq_Method (g_req c) in
     let path := u_Path (rq_URL (g_req c)) in
     let id := g_identity (fr_gin s1) in
     admitted (t_dispatch clk) (fr_disp s) id m path e pe →
     entered (t_dispatch clk) (fr_disp s) id e d1 →
     let out := outbound Inject (reg d1) (w_gin (named uuid (fr_world s1))) e pe in
     (∀ o rep, P (Socket (Registry.Host (Target pe)) o rep)) ∧
     P (Forwarded (ServeHTTP RoundTrip (Proxy pe) out))) →
  P (NoRoute Do DecodeIdentity DecodeDomain Cookie uuid Inject RoundTrip Dial conf clk s).2.
Proof.
  intros HR HA. apply (NoRoute_cases (λ _, P)); [auto|]. intros s1 c s' Hp _.
  pose proof (pa_located _ _ _ Hp) as ->.
  apply (Dispatch_cases uuid Inject RoundTrip Dial (t_dispatch clk) (λ _, P) (fr_world s1)); [auto|].
  intros e pe d1 w' Hadm Hent.
  change (w_disp (fr_world s1)) with (fr_disp s1) in *. change (w_gin (fr_world s1)) with (fr_gin s1) in *.
  rewrite (pa_disp _ _ _ Hp), (pa_req _ _ _ Hp) in *.
  destruct (HA s1 e pe d1 Hp Hadm Hent) as [Hs Hf]. split; [intros _ rep _; apply Hs|by intros _ _].
Qed.

(** C2: With authentication enabled, a request that no endpoint of the gateway
    serves reaches a plugin only by a public route, or with an identity that the
    introspector vouches for and, where the route asks for a permission, that
    holds it: except under the path prefixes the chain reserves for the gateway
    itself. *)
Theorem protected_routes_need_identity i s :
  fr_introspector s = Some i → introspector_ok i →
  match (NoRoute Do DecodeIdentity DecodeDomain Cookie uuid Inject RoundTrip Dial conf clk s).2 with
  | Answered _ => True
  | Forwarded _ | Socket _ _ _ =>
      let r := g_req (located s) in
      ∃ e, match_ (fr_disp s) (rq_Method r) (u_Path (rq_URL r)) = Some e ∧
        (re_public e = true ∨ skips_auth (u_Path (rq_URL r)) = true ∨
         ∃ i' id, presented Do DecodeIdentity Cookie (t_auth clk) (t_auth_done clk) (reg (fr_disp s))
                    (located s) i = Some (i', (Some id, None)) ∧
           (re_permission e = "" ∨ authorized (Some id) e = true))
  end.
Proof.
  intros Hi Hok.
  pattern (NoRoute Do DecodeIdentity DecodeDomain Cookie uuid Inject RoundTrip Dial conf clk s).2.
  apply NoRoute_result; [done|]. cbv zeta. intros s1 e pe d1 Hp [(_ & Hm & Hauth & _) _] _.
  set (c := located s) in *. pose proof (pa_identity _ _ _ Hp) as Hid. rewrite Hi in Hid.
  assert (∀ o, (if IsPublic (fr_disp s) (rq_Method (g_req c)) (u_Path (rq_URL (g_req c)))
                then Some (g_identity c) else None) = Some o → re_public e = true) as Hpub.
  { intros o. unfold IsPublic. rewrite Hm. by destruct (re_public e). }
  match goal with |- (_ → _ → ?G) ∧ _ => enough G by done end.
  exists e. split; [done|]. unfold identity_for in Hid. fold c in Hid.
  destruct (skips_auth _); [by auto|].
  destruct (presented _ _ _ _ _ _ c i) as [[i' [id err]]|] eqn:Et; [|by eauto].
  pose proof Et as Eok. unfold presented in Eok.
  destruct (deviceToken Cookie (g_req c)) as [tok|]; [|done]. cbn in Eok.
  apply resolve_token_ok in Eok as [_ [[[x Hx] He]|[_ [x He]]]]; [..|done]; cbn in *; subst.
  - injection Hid as Hid. rewrite <- Hid in Hauth.
    destruct Hauth as [|Hauth]; [by auto|]. right; right. by exists i', x.
  - by eauto.
Qed.

(** The domain resolver says [rd] of the host a request came on, which is no product
    host, and a live plugin declares the surface [rd] names as [ds]. *)
Record claimed (s : Front) (rd : ResolvedDomain) (ds : DomainSurface) : Prop := {
  cl_product : productHosts conf !! ToLower (stripHostPort (rq_Host (g_req (fr_gin s)))) = None;
  cl_resolver : ∃ res, fr_resolver s = Some res ∧
    (domain_Resolve Do DecodeDomain (t_domain clk) (t_domain_done clk) (reg (fr_disp s))
       (stripHostPort (rq_Host (g_req (fr_gin s)))) res).1.2 = (Some rd, None);
  cl_surface : FindDomainSurface (fr_disp s) (rd_Surface rd) = Some ds
}.

Lemma productHostRewrite_other hosts d c :
  hosts !! ToLower (stripHostPort (rq_Host (g_req c))) = None → productHostRewrite hosts d c = c.
Proof. intros Hh. unfold productHostRewrite. rewrite Hh. by repeat case_match. Qed.

Lemma located_claimed s rd ds :
  claimed s rd ds → g_host_tenant (fr_gin s) = None →
  let r := g_req (fr_gin s) in
  if IsRoutable (fr_disp s) (rq_Method r) (u_Path (rq_URL r)) then
    g_host_tenant (located s) = None ∧ rq_URL (g_req (located s)) = rq_URL r
  else
    g_host_tenant (located s) = (if SessionScoped ds then Some (rd_TenantID rd) else None) ∧
    u_Path (rq_URL (g_req (located s))) =
      PathPrefix ds ++ (if SessionScoped ds then "" else "/" ++ rd_TenantSlug rd) ++ TrimSuffix (u_Path (rq_URL r)) "/".
Proof.
  intros [Hp (res & Hres & Hrd) Hds] Ht. cbv zeta. unfold located.
  pose proof (CORS_req (fr_gin s)) as Hc. destruct (CORS _ (fr_gin s)) as [c1 cr]. destruct Hc as (Hr1 & _ & Ht1).
  rewrite Ht in Ht1. cbn [fst]. set (s1 := set_fr_gin (StripSpoofedHeaders c1) s). unfold locate.
  assert (rq_Host (g_req (fr_gin s1)) = rq_Host (g_req (fr_gin s)) ∧
    rq_Method (g_req (fr_gin s1)) = rq_Method (g_req (fr_gin s)) ∧
    rq_URL (g_req (fr_gin s1)) = rq_URL (g_req (fr_gin s)) ∧ g_host_tenant (fr_gin s1) = None) as (Ho & Hm & Hu & Ht')
    by (rewrite <- Hr1; by split_and!).
  rewrite productHostRewrite_other by by rewrite Ho. unfold custom_domain.
  change (fr_resolver (set_fr_gin (fr_gin s1) s1)) with (fr_resolver s).
  change (fr_disp (set_fr_gin (fr_gin s1) s1)) with (fr_disp s).
  change (fr_gin (set_fr_gin (fr_gin s1) s1)) with (fr_gin s1).
  rewrite Hres. unfold resolveCustomDomain. rewrite Ho, Hm, Hu.
  destruct (IsRoutable _ _ _); [by split|].
  destruct (domain_Resolve _ _ _ _ _ _ _) as [[res' o] asked]. cbn in Hrd. subst o. rewrite Hds.
  unfold domain_rewrite. rewrite Hu. by destruct (SessionScoped ds).
Qed.

(** C18: On a host Identity resolves to a tenant and a surface that takes its tenant from
    the session, a request for a path no plugin serves as it stands is moved under
    the surface, and then serves only that institution: it reaches a plugin with no
    identity or with one of that tenant.  A request whose path a plugin serves as it
    stands is left alone there, and nothing ties it to the host's tenant. *)
Theorem session_scoped_host_pins_tenant s rd ds :
  claimed s rd ds → SessionScoped ds = true → g_host_tenant (fr_gin s) = None →
  let r := g_req (fr_gin s) in
  if IsRoutable (fr_disp s) (rq_Method r) (u_Path (rq_URL r)) then
    g_host_tenant (located s) = None ∧ rq_URL (g_req (located s)) = rq_URL r
  else
    u_Path (rq_URL (g_req (located s))) = PathPrefix ds ++ TrimSuffix (u_Path (rq_URL r)) "/" ∧
    match (NoRoute Do DecodeIdentity DecodeDomain Cookie uuid Inject RoundTrip Dial conf clk s).2 with
    | Answered _ => True
    | Forwarded _ | Socket _ _ _ =>
        ∃ id, identity_for (fr_introspector s) (fr_disp s) (located s) = Some id ∧
              ∀ x, id = Some x → TenantID x = rd_TenantID rd
    end.
Proof.
  intros Hcl Hss Ht. pose proof (located_claimed s rd ds Hcl Ht) as Hl. rewrite Hss in Hl. cbv zeta in *.
  destruct (IsRoutable _ _ _); [done|]. destruct Hl as [Hw Hpath]. split; [done|].
  pattern (NoRoute Do DecodeIdentity DecodeDomain Cookie uuid Inject RoundTrip Dial conf clk s).2.
  apply NoRoute_result; [done|]. cbv zeta. intros s1 e pe d1 Hp _ _.
  match goal with |- (_ → _ → ?G) ∧ _ => enough G by done end.
  exists (g_identity (fr_gin s1)). split; [apply Hp|]. intros x Hx.
  by apply (pa_tenant _ _ _ Hp _ x Hw).
Qed.

(** The trusted headers the gateway itself writes. *)
Definition core_header (id : option Identity) (schema nav rid host : string) (prefix : option string)
    (name : string) : option string :=
  (if id is Some i then Middleware.written (identity_headers i schema nav rid) name else None) ∪
  Middleware.written [(HeaderForwardedHost, nonempty host)] name ∪
  Middleware.written [(HeaderHostPrefix, prefix)] name.

Definition traced : list string := "Connection" :: apicorexHeaders.
(** A trace propagator writes its own headers and no other. *)
Definition trace_only : Prop :=
  ∀ h name, name ∈ traced → Values (Inject h) name = Values h name.

(** Names a header write leaves alone. *)
Definition apart (name : string) (ns : list string) : bool :=
  forallb (λ n, negb (String.eqb (CanonicalHeaderKey n) (CanonicalHeaderKey name))) ns.
Lemma apart_ne name ns n : apart name ns = true → n ∈ ns → CanonicalHeaderKey n ≠ CanonicalHeaderKey name.
Proof.
  unfold apart. rewrite forallb_forall. intros Ha Hn%list_elem_of_In. specialize (Ha n Hn).
  by bool_simpl.
Qed.

Lemma with_prefix_Values p h name :
  Values (with_prefix p h) name =
  match Middleware.written [(HeaderHostPrefix, p)] name with Some v => [v] | None => Values h name end.
Proof.
  pose proof (Values_foldl_put [(HeaderHostPrefix, p)] h name) as Hv. cbn [foldl] in Hv.
  rewrite <- Hv; [by destruct p|]. apply NoDup_singleton.
Qed.
Lemma forwarded_host_Values c name :
  Values (rq_Header (g_req (InjectForwardedHost c))) name =
  match Middleware.written [(HeaderForwardedHost, nonempty (rq_Host (g_req c)))] name with
  | Some v => [v] | None => Values (rq_Header (g_req c)) name end.
Proof.
  pose proof (Values_foldl_put [(HeaderForwardedHost, nonempty (rq_Host (g_req c)))] (rq_Header (g_req c)) name) as Hv.
  rewrite <- Hv by apply NoDup_singleton. cbn [foldl]. rewrite put_nonempty.
  unfold InjectForwardedHost, Set_nonempty. by destruct (String.eqb _ "").
Qed.

(** The headers a plugin is sent, before the proxy, under the names that matter. *)
Lemma outbound_Values r c e pe name :
  trace_only → name ∈ traced → apart name ["X-Request-ID"; HeaderActingUser] = true →
  Values (rq_Header (outbound Inject r (w_gin (named uuid c)) e pe)) name =
  let g := w_gin c in
  match
    (if g_identity g is Some i then
       Middleware.written (identity_headers i (schema_for (g_identity g) e pe)
         (nav_for r (InjectForwardedHost (w_gin (named uuid c))))
         (Get (rq_Header (g_req (InjectForwardedHost (w_gin (named uuid c))))) "X-Request-ID")) name
     else None) ∪
    Middleware.written [(HeaderForwardedHost, nonempty (rq_Host (g_req (w_gin (named uuid c)))))] name with
  | Some v => [v]
  | None => Values (rq_Header (g_req g)) name
  end.
Proof.
  intros Htr Hname Hap. unfold outbound. cbn [with_Header rq_Header]. rewrite Htr by done.
  assert (IdentityFrom (InjectForwardedHost (w_gin (named uuid c))) = g_identity (w_gin c)) as Hid.
  { rewrite <- named_identity with (uuid := uuid). unfold IdentityFrom, InjectForwardedHost.
    by destruct (String.eqb _ ""). }
  assert (Values (rq_Header (g_req (w_gin (named uuid c)))) name = Values (rq_Header (g_req (w_gin c))) name) as Hn.
  { rewrite named_header. destruct (String.eqb _ ""); [|done]. apply Values_Set_ne.
    apply (apart_ne _ _ _ Hap). left. }
  unfold InjectTenantHeaders. rewrite Hid. cbv zeta.
  destruct (g_identity (w_gin c)) as [i|]; cbn [on_header set_req g_req with_Header rq_Header].
  - rewrite tenant_headers_Values. destruct (Middleware.written (identity_headers _ _ _ _) name); [by destruct (Middleware.written [_] name)|].
    rewrite Values_Del_ne by (apply (apart_ne _ _ _ Hap); right; left).
    rewrite forwarded_host_Values, Hn. rewrite (left_id_L None (∪)). done.
  - rewrite forwarded_host_Values, Hn. by rewrite (left_id_L None (∪)).
Qed.

Lemma traced_apart name :
  name ∈ traced → apart name ["X-Request-ID"; HeaderActingUser] = true.
Proof.
  intros Hn. revert name Hn. apply Forall_forall. unfold traced, apicorexHeaders.
  repeat constructor.
Qed.
Lemma trusted_hop name :
  name ∈ apicorexHeaders →
  CanonicalHeaderKey name ∉ map CanonicalHeaderKey (app hopHeaders proxy_written).
Proof.
  revert name. apply Forall_forall, (bool_decide_unpack _). vm_compute. exact I.
Qed.
Lemma Connection_is_clients id schema nav rid host prefix :
  core_header id schema nav rid host prefix "Connection" = None.
Proof. by destruct id. Qed.
Lemma Connection_survives h : Values (stripped h) "Connection" = Values h "Connection".
Proof. unfold stripped. rewrite Values_foldl_Del. rewrite decide_False; [done|]. apply (bool_decide_unpack _). vm_compute. exact I. Qed.
Lemma trusted_stripped h name : name ∈ apicorexHeaders → Values (stripped h) name = [].
Proof.
  intros Hn. unfold stripped. rewrite Values_foldl_Del, decide_True; [done|].
  by apply list_elem_of_fmap_2.
Qed.

End chain.

(** ** A deployment behind the chain, for the witnesses *)

Definition front_dispatcher : Dispatcher :=
  AddRoutes "doc-1" "docs" "internal"
    [sample_route "GET" "/docstore/:id" "" false; sample_route "GET" "/docstore/:id/audit" "docs:audit" false]
    (AddRoutes "sch-1" "school" "internal" [sample_route "GET" "/school/portal/*" "" true]
      (set_reg {| plugins := {["pos-1" := sample_entry "pos-1" "pos"; "crm-1" := sample_entry "crm-1" "crm";
                               "id-1" := portal_entry "id-1" "identity" empty_manifest;
                               "sch-1" := portal_entry "sch-1" "school" (portal_manifest true);
                               "doc-1" := sample_entry "doc-1" "docs"]};
                  maint := ∅ |} (sample_dispatcher 0))).
Definition front_identity : Identity := {|
  TenantID := "t1"; TenantSlug := "acme"; TenantName := "Acme"; SchemaName := "tenant_acme";
  BranchID := ""; BranchSlug := ""; BranchName := ""; UserID := "u1"; FullName := "Ann";
  UserType := "staff"; Roles := []; Auth.Permissions := ["crm:*"; "docs:*"]; Auth.Features := [];
  TokenHash := "" |}.
Definition front_state (r : Request) : Front := {|
  fr_introspector := Some (NewIntrospector "k"); fr_resolver := Some (NewDomainResolver "k");
  fr_world := {| w_disp := front_dispatcher; w_gin := arrive r; w_events := [] |} |}.
Definition front_conf : settings := {| allowedOrigins := []; productHosts := ∅; loginURL := "/login" |}.
Definition front_clock : FrontClock := {|
  t_domain := 0; t_domain_done := 0; t_auth := 0; t_auth_done := 0; t_dispatch := sample_clock 0 |}.
Definition signed (extra : Header) (host path : string) : Request :=
  with_Header ({["Authorization" := ["Bearer zdt_a"]]} ∪ extra) (page_request host path).
Definition answers_200 (_ : Request) : exchange := {| x_informational := []; x_outcome := Responded 200 |}.
Definition trace_header (h : Header) : Header := Set_ "Traceparent" "00-1" h.
Definition run_front (r : Request) : served :=
  (NoRoute (H := sorted_order) say_ok (λ _, Some front_identity) (λ _, Some portal_domain) (λ _ _, None)
    "u" trace_header answers_200 (λ _ _, Piped) front_conf front_clock (front_state r)).2.

Definition is_forwarded (s : served) : bool := if s is Forwarded _ then true else false.
Definition sent_header (s : served) (name : string) : option (list string) :=
  match s with Forwarded p => (λ out, Values (rq_Header out) name) <$> px_sent p | _ => None end.
Lemma forwarded_inv s : is_forwarded s = true → ∃ p, s = Forwarded p.
Proof. destruct s; eauto; done. Qed.

Lemma run_front_eq r :
  (NoRoute (H := sorted_order) say_ok (λ _, Some front_identity) (λ _, Some portal_domain) (λ _ _, None)
    "u" trace_header answers_200 (λ _ _, Piped) front_conf front_clock (front_state r)).2 = run_front r.
Proof. reflexivity. Qed.
Lemma front_disp r : fr_disp (front_state r) = front_dispatcher.
Proof. reflexivity. Qed.

Lemma front_located :
  let r := g_req (located (H := sorted_order) say_ok (λ _, Some portal_domain) front_conf front_clock
                    (front_state (signed ∅ "gw.example" "/crm/leads"))) in
  (rq_Method r, u_Path (rq_URL r)) = ("GET", "/crm/leads").
Proof. vm_compute. reflexivity. Qed.

Lemma front_crm :
  match_ front_dispatcher "GET" "/crm/leads" =
  Some (route_entry "crm-1" "crm" (sample_route "GET" "/crm/*" "crm:read" false)).
Proof. vm_compute. reflexivity. Qed.

Lemma protected_routes_need_identity_witness :
  ∃ id, authorized (Some id) (route_entry "crm-1" "crm" (sample_route "GET" "/crm/*" "crm:read" false)) = true.
Proof.
  pose proof (protected_routes_need_identity (H := sorted_order) say_ok (λ _, Some front_identity)
    (λ _, Some portal_domain) (λ _ _, None) "u" trace_header answers_200 (λ _ _, Piped) front_conf
    front_clock (NewIntrospector "k") (front_state (signed ∅ "gw.example" "/crm/leads")) eq_refl
    (NewIntrospector_ok "k")) as Hp.
  rewrite run_front_eq in Hp.
  destruct (forwarded_inv (run_front (signed ∅ "gw.example" "/crm/leads"))) as [p Hf]; [by vm_compute|].
  rewrite Hf in Hp. cbv zeta in Hp. pose proof front_located as Hl. cbv zeta in Hl.
  apply pair_equal_spec in Hl as [Hm Hu]. rewrite Hm, Hu, front_disp, front_crm in Hp.
  destruct Hp as (e & [= <-] & [Hp|[Hp|(i & id & _ & [Hp|Hp])]]); try discriminate Hp. by exists id.
Defined.

Lemma front_portal :
  claimed (H := sorted_order) say_ok (λ _, Some portal_domain) front_conf front_clock
    (front_state (signed ∅ "portal.acme.com" "/login")) portal_domain
    {| Surface := "portal"; PathPrefix := "/school/portal"; SessionScoped := true |}.
Proof. split; [by vm_compute|eexists; split; [reflexivity|by vm_compute]|by vm_compute]. Qed.

Lemma session_scoped_host_pins_tenant_witness :
  is_forwarded (run_front (signed ∅ "portal.acme.com" "/login")) = true ∧
  ∃ id : option Identity, ∀ x, id = Some x → TenantID x = "t1".
Proof.
  pose proof (session_scoped_host_pins_tenant (H := sorted_order) say_ok (λ _, Some front_identity)
    (λ _, Some portal_domain) (λ _ _, None) "u" trace_header answers_200 (λ _ _, Piped) front_conf
    front_clock (front_state (signed ∅ "portal.acme.com" "/login")) _ _ front_portal eq_refl eq_refl) as Hp.
  cbv zeta in Hp. destruct (IsRoutable _ _ _) eqn:E in Hp; [vm_compute in E; discriminate E|].
  rewrite run_front_eq in Hp. split; [by vm_compute|]. destruct Hp as [_ Hp].
  destruct (forwarded_inv (run_front (signed ∅ "portal.acme.com" "/login"))) as [p Hf]; [by vm_compute|].
  rewrite Hf in Hp. destruct Hp as (id & _ & Hid). by exists id.
Defined.

Lemma trace_header_only : trace_only trace_header.
Proof.
  intros h name Hn. apply Values_Set_ne. revert name Hn. apply Forall_forall.
  apply (bool_decide_unpack _). vm_compute. exact I.
Qed.


(** ** What modelling showed *)

(** The paths the chain reserves for the gateway are matched by prefix, not by
    segment, and a plugin's routes may fall under them: its protected route
    [/docstore/:id] is served to a caller with no token at all, and its route
    with a permission is refused to a caller who holds it. *)
Theorem reserved_prefixes_skip_authentication :
  is_forwarded (run_front (page_request "gw.example" "/docstore/7")) = true ∧
  IsPublic front_dispatcher "GET" "/docstore/7" = false ∧
  run_front (signed ∅ "gw.example" "/docstore/7/audit") =
    Answered (JSON 403 (error_body "missing permission: docs:audit")) ∧
  PermissionAllowed (Auth.Permissions front_identity) "docs:audit" = true.
Proof. split_and!; by vm_compute. Qed.

(** The check of a session against its host only covers paths nothing else
    serves: the same page asked for by its canonical path carries no host tenant. *)
Lemma canonical_path_carries_no_host_tenant :
  let located r := g_host_tenant (located (H := sorted_order) say_ok (λ _, Some portal_domain)
                                    front_conf front_clock (front_state r)) in
  located (signed ∅ "portal.acme.com" "/login") = Some "t1" ∧
  located (signed ∅ "portal.acme.com" "/school/portal/login") = None.
Proof. by vm_compute. Qed.

(** A client can have the gateway's own headers dropped on the way to the plugin,
    by listing them in its Connection header. *)
Lemma connection_header_drops_identity :
  sent_header (run_front (signed {["Connection" := ["X-ApiCoreX-Tenant-ID, close"]]} "gw.example" "/crm/leads"))
    HeaderTenantID = Some [].
Proof. by vm_compute. Qed.

(** On a public route a caller without a token has its own X-Acting-User header sent
    on to the plugin: it is only consumed where an identity is injected. *)
Lemma acting_user_reaches_plugins :
  sent_header (run_front (with_Header {["X-Acting-User" := ["u2"]]} (page_request "gw.example" "/school/portal/menu")))
    HeaderActingUser = Some ["u2"].
Proof. by vm_compute. Qed.
