(* ===== verification/Endpoints.v ===== *)
(** The endpoints Core mounts itself ([server/http.go], [Mount] of
    [controlplane/handlers.go]), and the whole server: which handlers a request
    goes through, and what they do to the gateway. *)

From S2P Require Import Prelude GoStrings Float64 Crypto Manifest Protection RateLimiter Config Auth Registry PluginToken Openapi Health Http Docs Middleware Nav Proxy Dispatcher ControlPlane Gateway Hosts Dashboard Server.

(** ** The table *)

Inductive endpoint :=
(* [Mount] *)
| ERegister | EHeartbeat | EDeregister | EPluginManifest | ESetMaintenance | EListMaintenance
| ELoginRequired | ELogin | ELogout | ESession | EResetBreaker | EAdminDeregister
(* [NewHTTP] *)
| EMetrics | EHealth | EPlugins | ESpec | EDocs | EDashboard (files : gmap string string).

(** The handler in front of an endpoint. *)
Inductive gate := Open | BearerSession | CookieSession.

Record mount := { mt_method : string; mt_pattern : string; mt_gate : gate; mt_endpoint : endpoint }.
Definition GET (pattern : string) (g : gate) (e : endpoint) : mount :=
  {| mt_method := "GET"; mt_pattern := pattern; mt_gate := g; mt_endpoint := e |}.
Definition POST (pattern : string) (g : gate) (e : endpoint) : mount :=
  {| mt_method := "POST"; mt_pattern := pattern; mt_gate := g; mt_endpoint := e |}.

Definition Mount : list mount := [
  POST "/_core/register" Open ERegister;
  POST "/_core/heartbeat" Open EHeartbeat;
  POST "/_core/deregister" Open EDeregister;
  GET "/_core/plugins/:name/manifest" Open EPluginManifest;
  POST "/_core/maintenance" Open ESetMaintenance;
  GET "/_core/maintenance" Open EListMaintenance;
  GET "/_core/admin/login-required" Open ELoginRequired;
  POST "/_core/admin/login" Open ELogin;
  POST "/_core/admin/logout" Open ELogout;
  GET "/_core/admin/session" BearerSession ESession;
  POST "/_core/admin/plugins/:id/reset-breaker" BearerSession EResetBreaker;
  POST "/_core/admin/plugins/:id/deregister" BearerSession EAdminDeregister].

Definition mounts (dashboard : option (gmap string string)) : list mount :=
  app Mount (app [
    GET "/metrics" Open EMetrics;
    GET "/health" Open EHealth;
    GET "/plugins" Open EPlugins;
    GET "/docs/openapi.json" CookieSession ESpec;
    GET "/docs" CookieSession EDocs]
  (match dashboard with
   | Some files =>
       [GET "/dashboard/*filepath" Open (EDashboard files); GET "/plugin" Open (EDashboard files)]
   | None => []
   end)).

(** What the framework's router finds for a request: one of the mounts, with the
    values of its parameters; a redirect of its own; or nothing. *)
Inductive found :=
| Found (m : mount) (Param : string → string)
| Redirected (r : Reply)
| NotFound.

(** ** Responses *)

(** One row of /plugins. *)
Record plugin_row := {
  row_plugin_id : string; row_plugin_name : string; row_version : string; row_base_url : string;
  row_status : string; row_alive : bool; row_registered_at : Z; row_last_heartbeat : Z;
  row_routes : list Manifest.Route; row_protection : ProtectionStatus_t
}.

Inductive response :=
| Sent (r : Reply)
| Listing (rows : list plugin_row)
| Windows (ws : gmap string Maintenance)
| ManifestOf (m : Manifest.Manifest)
| Spec (document : string)
| Scalar (page : string)
| MetricsText
| Plugin (s : served).

(** The server: what its handlers share, and its two resolvers. *)
Record Server := {
  sv_core : Core; sv_introspector : option Introspector; sv_resolver : option DomainResolver
}.

(** The readings of the clock of the handlers. *)
Record ServerClock := { t_front : FrontClock; t_handler : Z; t_handler' : Z }.

(** ** Facts on the table and the dispatcher *)

(** Which endpoints are operators' only. *)
Definition gate_of (e : endpoint) : gate :=
  match e with
  | ESession | EResetBreaker | EAdminDeregister => BearerSession
  | ESpec | EDocs => CookieSession
  | _ => Open
  end.
Lemma mounts_gates dashboard m : m ∈ mounts dashboard → mt_gate m = gate_of (mt_endpoint m).
Proof. revert m. apply Forall_forall. destruct dashboard; repeat constructor. Qed.

(** The page of the docs names an address that is mounted, behind the same gate, and
    answers with the merged document. *)
Lemma docs_page_finds_its_spec dashboard :
  ∃ docs spec, docs ∈ mounts dashboard ∧ mt_endpoint docs = EDocs ∧
    spec ∈ mounts dashboard ∧ mt_method spec = "GET" ∧ mt_endpoint spec = ESpec ∧
    mt_pattern spec = url_attribute "/docs/openapi.json" ∧ mt_gate spec = mt_gate docs.
Proof.
  exists (GET "/docs" CookieSession EDocs), (GET "/docs/openapi.json" CookieSession ESpec).
  split_and!; try done; by destruct dashboard; apply (bool_decide_unpack _) || (cbn; rewrite !elem_of_cons; auto 25).
Qed.

Lemma mounts_methods dashboard m : m ∈ mounts dashboard → String.eqb (mt_method m) "OPTIONS" = false.
Proof. revert m. apply Forall_forall. destruct dashboard; repeat constructor. Qed.
Lemma CORS_passes origins c :
  String.eqb (rq_Method (g_req c)) "OPTIONS" = false → (CORS origins c).2 = inr tt.
Proof.
  unfold CORS. destruct (cors_config origins) as [all allow]. run_steps. intros Hm.
  destruct (_ && _); unfold reject_if; cbn [set_resp g_req]; rewrite Hm; done.
Qed.

Lemma Dispatch_plugins `{MapOrder} uuid Inject RoundTrip Dial clk w :
  plugins (reg (w_disp (Dispatch uuid Inject RoundTrip Dial clk w).1)) = plugins (reg (w_disp w)).
Proof.
  apply (Dispatch_cases uuid Inject RoundTrip Dial clk
    (λ w' _, plugins (reg (w_disp w')) = plugins (reg (w_disp w)))).
  - intros w' _ Hr. destruct (touches_refused _ _ _ _ _ _ Hr) as [->|(e & _ & _ & Hp & _)]; [done|exact Hp].
  - intros e pe d1 w' _ He. destruct (touches_entered _ _ _ _ _ He) as (_ & Hp & _).
    by split; [intros _ rep ->|intros _ ->].
Qed.

Section server.
Context `{MapOrder}.
(** The framework's router and body binding. *)
Context (Find : list mount → Request → found).
Context (BindRegister : Request → option registerReq) (BindToken : Request → option tokenReq).
Context (BindMaintenance : Request → option maintenanceReq) (BindKey : Request → option string).
Context (TLS : Request → bool).
(** The registration's libraries. *)
Context (url_Parse : string → option Registry.URL) (parse_error : string → string).
Context (HTTPGet : string → (Z * string) + string) (Decode : string → Manifest.Manifest + string).
Context (Quote : string → string) (uuid : string) (time_json : Z → string).
(** The OpenAPI documents' libraries. *)
Context (Unmarshal : string → option Openapi.value) (Marshal : Openapi.value → string).
Context (MarshalBase : option string).
(** The dispatcher's surroundings. *)
Context (Do : call → option reply) (DecodeIdentity : string → option Identity).
Context (DecodeDomain : string → option ResolvedDomain).
Context (Cookie : Request → string → option string) (Inject : Header → Header).
Context (RoundTrip : Request → exchange) (Dial : string → Request → ws_outcome).
Context (h : Handlers) (conf : settings) (dashboard : option (gmap string string)).
Context (clk : ServerClock).

(** ** The handlers behind the endpoints *)

Definition plugin_rows (d : Dispatcher) : list plugin_row :=
  map (λ e, {|
    row_plugin_id := PluginID (Info e); row_plugin_name := PluginName (Info e);
    row_version := info_Version (Info e); row_base_url := info_BaseURL (Info e);
    row_status := Registry.Status (Info e); row_alive := Alive e;
    row_registered_at := RegisteredAt e; row_last_heartbeat := LastHeartbeat e;
    row_routes := Routes (Manifest e);
    row_protection := ProtectionStatus d (PluginID (Info e)) |}) (List (reg d)).

(** A handler's answer, as the response. *)
Definition deliver {A} (f : A → response) (m : Handler Core Reply A) : Handler Core Reply response :=
  a ← m; mret (f a).

Definition handle (e : endpoint) (Param : string → string) (r : Request) :
    Handler Core Reply response :=
  let now := t_handler clk in
  let now' := t_handler' clk in
  match e with
  | ERegister =>
      deliver Sent (register url_Parse parse_error HTTPGet Decode Quote uuid h now now' (BindRegister r))
  | EHeartbeat => deliver Sent (heartbeat h now now' (BindToken r))
  | EDeregister => deliver Sent (deregister h now (BindToken r))
  | EPluginManifest =>
      c ← get_state;
      match pluginManifest (Param "name") c with
      | None => fail 404 "plugin not found"
      | Some m => mret (ManifestOf m)
      end
  | ESetMaintenance => deliver Sent (setMaintenance time_json h now now' (BindMaintenance r))
  | EListMaintenance => deliver Windows (listMaintenance now)
  | ELoginRequired =>
      mret (Sent (ok [("required", JBool (negb (String.eqb (apicorexSecret h) "")))]))
  | ELogin => deliver Sent (login h now (TLS r) r (BindKey r))
  | ELogout => deliver Sent (logout (TLS r) r)
  | ESession => mret (Sent (ok [("ok", JBool true)]))
  | EResetBreaker => deliver Sent (resetBreaker (Param "id"))
  | EAdminDeregister => deliver Sent (adminDeregister (Param "id"))
  | EMetrics => mret MetricsText
  | EHealth => mret (Sent (ok [("status", JStr "ok")]))
  | EPlugins => c ← get_state; mret (Listing (plugin_rows (disp c)))
  | ESpec =>
      c ← get_state;
      match MarshalBase with
      | None => fail 500 "spec generation failed"
      | Some base =>
          match MergedSpec Unmarshal Marshal base (injector c) with
          | Some merged => mret (Spec merged)
          | None => answer (Http.Status 500) (* [gin.Recovery] *)
          end
      end
  | EDocs => mret (Scalar (scalarHTML "ApiCoreX" "/docs/openapi.json"))
  | EDashboard files => mret (Sent (serveDashboard files (Param "filepath")))
  end.

Definition pass (g : gate) (r : Request) : option Reply :=
  match g with
  | Open => None
  | BearerSession => requireSession h (t_handler clk) r
  | CookieSession => RequireDashboardSession h Cookie (t_handler clk) r
  end.

(** ** A request *)

(** What the client receives: cookies, the headers CORS set, and the answer. *)
Record answered := { an_cookies : list (string * string * Z * bool); an_header : Header; an_response : response }.
Definition plain_answer (g : Gin) (x : response) : answered :=
  {| an_cookies := []; an_header := g_resp g; an_response := x |}.

Definition serve (sv : Server) (r : Request) : Server * answered :=
  match Find (mounts dashboard) r with
  | Redirected x => (sv, plain_answer (arrive r) (Sent x))
  | Found m Param =>
      let '(g, res) := CORS (allowedOrigins conf) (arrive r) in
      match res with
      | inl x => (sv, plain_answer g (Sent x))
      | inr _ =>
          match pass (mt_gate m) r with
          | Some x => (sv, plain_answer g (Sent x))
          | None =>
              let '(c, res) := handle (mt_endpoint m) Param r (sv_core sv) in
              ({| sv_core := flush c; sv_introspector := sv_introspector sv; sv_resolver := sv_resolver sv |},
               {| an_cookies := cookies c; an_header := g_resp g;
                  an_response := match res with inl x => Sent x | inr x => x end |})
          end
      end
  | NotFound =>
      let '(f, x) := NoRoute Do DecodeIdentity DecodeDomain Cookie uuid Inject RoundTrip Dial conf (t_front clk)
        {| fr_introspector := sv_introspector sv; fr_resolver := sv_resolver sv;
           fr_world := {| w_disp := disp (sv_core sv); w_gin := arrive r; w_events := [] |} |} in
      ({| sv_core := set_core_disp (fr_disp f) (sv_core sv);
          sv_introspector := fr_introspector f; sv_resolver := fr_resolver f |},
       plain_answer (fr_gin f) (Plugin x))
  end.
(** ** What serving a request does to the shared state *)

(** The framework returns mounts it was given, for the request's method. *)
Definition finds_mounts : Prop :=
  ∀ ms r m Param, Find ms r = Found m Param → m ∈ ms ∧ mt_method m = rq_Method r.

Lemma deliver_state {A} (f : A → response) (m : Handler Core Reply A) c :
  (deliver f m c).1 = (m c).1.
Proof. unfold deliver. run_steps. by destruct (m c) as [? []]. Qed.

(** One handler that changes it, run to its end, or none. *)
Inductive op (c : Core) : Core → Prop :=
| op_none : op c c
| op_register now issued body :
    op c (register url_Parse parse_error HTTPGet Decode Quote uuid h now issued body c).1
| op_heartbeat now now' body : op c (heartbeat h now now' body c).1
| op_deregister now body : op c (deregister h now body c).1
| op_admin_deregister id : op c (adminDeregister id c).1
| op_reset_breaker id : op c (resetBreaker id c).1
| op_set_maintenance now now' body : op c (setMaintenance time_json h now now' body c).1
| op_list_maintenance now : op c (listMaintenance now c).1
| op_dispatch clk' w :
    w_disp w = disp c → op c (set_core_disp (w_disp (Dispatch uuid Inject RoundTrip Dial clk' w).1) c).

(** None of them sets a cookie. *)
Lemma foldl_evict_cookies ids c : cookies (foldl evict c ids) = cookies c.
Proof. revert c. induction ids as [|id ids IH]; intros c; [done|]. cbn [foldl]. by rewrite IH. Qed.
Lemma op_cookies c c' : op c c' → cookies c' = cookies c.
Proof.
  intros [|now issued body|now now' body|now body|id|id|now now' body|now|]; try done.
  - apply (wp_state (λ c', cookies c' = cookies c)). unfold register. destruct body as [req|]; [|done].
    wp_step. apply reject_if_wp; [done|]. intros _. wp_step. apply reject_if_wp; [done|]. intros _.
    destruct (pullManifest _ _ _) as [m|err]; [|done]. wp_step. apply reject_if_wp; [done|]. intros _. wp_steps.
    unfold enlist. destruct (Register _ _ _ _ _ _ _ _ _ _) as [r|]; cbn [mbind option_bind]; wp_steps;
      exact (foldl_evict_cookies _ c).
  - apply (wp_state (λ c', cookies c' = cookies c)). unfold heartbeat. destruct body as [req|]; [|done].
    wp_step. apply reject_if_wp; [done|]. intros _. wp_steps. destruct (Heartbeat _ _ _) as [r found]. wp_steps.
    by destruct found.
  - unfold deregister. destruct body as [req|]; [|done]. unfold reject_if. run_steps.
    destruct (negb _); run_steps; [done|]. unfold remove_plugin. run_steps. by destruct (Registry.Get _ _).
  - unfold adminDeregister, remove_plugin. run_steps. by destruct (Registry.Get _ _).
  - unfold resetBreaker. run_steps. by destruct (Registry.Get _ _).
  - apply (wp_state (λ c', cookies c' = cookies c)). unfold setMaintenance. destruct body as [req|]; [|done].
    wp_step. apply reject_if_wp; [done|]. intros _. wp_step. apply reject_if_wp; [done|]. intros _.
    by destruct (negb _); wp_steps.
  - unfold listMaintenance. run_steps. by destruct (Maintenances _ _).
Qed.
Lemma flush_op c c' : cookies c = [] → op c c' → op c (flush c').
Proof.
  intros Hc Ho. pose proof (op_cookies _ _ Ho) as Hk. rewrite Hc in Hk.
  assert (flush c' = c') as -> by (destruct c'; cbn in *; by rewrite Hk). done.
Qed.

(** Behind each endpoint there is one. *)
Lemma handle_op e Param r c : cookies c = [] → op c (flush (handle e Param r c).1).
Proof.
  intros Hck.
  assert (∀ A f (m : Handler Core Reply A), op c (m c).1 → op c (flush (deliver f m c).1)) as Hone
    by (intros A f m Hm; rewrite deliver_state; by apply flush_op).
  assert (∀ res : Reply + response, op c (flush (c, res).1)) as Hstay by (intros res; apply flush_op; [done|constructor]).
  assert (∀ ck, op c (flush {| disp := disp c; injector := injector c; plugins_gauge := plugins_gauge c; cookies := ck |})) as Hcookie
    by (intros ck; exact (Hstay (inr MetricsText))).
  destruct e; try (apply Hone; by constructor); try apply Hstay; unfold handle.
  - run_steps. destruct (pluginManifest _ c); apply Hstay.
  - rewrite deliver_state. unfold login. destruct (BindKey r) as [key|]; [|apply (Hstay (inr MetricsText))].
    destruct (String.eqb (apicorexSecret h) ""); [exact (Hcookie _)|].
    destruct (negb _); [apply (Hstay (inr MetricsText))|exact (Hcookie _)].
  - rewrite deliver_state. exact (Hcookie _).
  - run_steps. destruct MarshalBase as [base|]; [|apply Hstay]. destruct (MergedSpec _ _ _ _); apply Hstay.
Qed.

(** Whatever request arrives, on every path through the router, the gates, the
    middleware chain and the handlers, one handler at most has changed the state. *)
Lemma serve_op sv r :
  cookies (sv_core sv) = [] →
  op (sv_core sv) (sv_core (serve sv r).1) ∧ cookies (sv_core (serve sv r).1) = [].
Proof.
  intros Hck. assert (op (sv_core sv) (sv_core (serve sv r).1)) as Ho; [|split; [done|by rewrite (op_cookies _ _ Ho)]].
  unfold serve. destruct (Find _ r) as [m Param|x|]; [|constructor|].
  - destruct (CORS _ _) as [g [x|[]]]; [constructor|]. destruct (pass _ r); [constructor|].
    pose proof (handle_op (mt_endpoint m) Param r (sv_core sv) Hck) as Hs. by destruct (handle _ _ _ _) as [c res].
  - set (f0 := {| fr_introspector := _ |}).
    pose proof (NoRoute_cases Do DecodeIdentity DecodeDomain Cookie uuid Inject RoundTrip Dial conf
      (t_front clk) (λ f _, op (sv_core sv) (set_core_disp (fr_disp f) (sv_core sv))) f0) as Hc.
    destruct (NoRoute _ _ _ _ _ _ _ _ _ _ f0) as [f x]. apply Hc; clear Hc.
    + intros s' _ Hd. rewrite Hd. cbn. destruct (sv_core sv) eqn:E. constructor.
    + intros s1 c s' Hp Hw. unfold fr_disp. rewrite Hw. apply op_dispatch. apply Hp.
Qed.
(** ** Who may change what *)

(** The credential an endpoint's effect on the set of plugins rests on. *)
Definition entitled (e : endpoint) (Param : string → string) (r : Request) (id : string) : Prop :=
  match e with
  | ERegister => ∃ body, BindRegister r = Some body ∧ (apiKey h = "" ∨ rr_APIKey body = apiKey h)
  | EDeregister => ∃ body, BindToken r = Some body ∧ tr_PluginID body = id ∧
      verify (t_handler clk) (signer h) (tr_PluginToken body) = inl id
  | EAdminDeregister => Param "id" = id ∧
      (apicorexSecret h = "" ∨
       ∃ token who, GetHeader r "Authorization" = "Bearer " ++ token ∧
         verify (t_handler clk) (sessionSigner h) token = inl who)
  | _ => False
  end.

Lemma same_domain_plugins c c' :
  plugins (reg (disp c')) = plugins (reg (disp c)) → same_domain c c'.
Proof. intros Hp id. by rewrite Hp. Qed.

(** Every endpoint but three leaves the set of plugins alone. *)
Lemma handle_domain e Param r c :
  match e with ERegister | EDeregister | EAdminDeregister => True | _ => same_domain c (handle e Param r c).1 end.
Proof.
  destruct e; try done; cbn [handle]; rewrite ?deliver_state.
  - apply heartbeat_domain.
  - run_steps. by destruct (pluginManifest _ c).
  - apply (wp_state (same_domain c)). unfold setMaintenance. destruct (BindMaintenance r) as [q|]; [|done].
    wp_step. apply reject_if_wp; [done|]. intros _. wp_step. apply reject_if_wp; [done|]. intros _.
    by destruct (negb _); wp_steps.
  - unfold listMaintenance. run_steps. pose proof (Maintenances_plugins (t_handler clk) (reg (disp c))) as Hp.
    destruct (Maintenances _ _) as [? ?]. by apply same_domain_plugins.
  - unfold login. destruct (BindKey r) as [key|]; [|done].
    destruct (String.eqb (apicorexSecret h) ""); [done|]. by destruct (negb _).
  - unfold resetBreaker. run_steps. by destruct (Registry.Get _ _).
  - run_steps. destruct MarshalBase; [|done]. by destruct (MergedSpec _ _ _ _).
Qed.

(** C9: The set of registered plugins changes only for a caller who may change it:
    whatever request is served, a plugin is added, replaced or removed only by a
    registration with the deployment's key, by a deregistration with a token
    signed for that very plugin, or by an operator's session; proxied requests
    and every other endpoint change it for no one. *)
Theorem registry_changes_are_authenticated sv r id :
  finds_mounts →
  ¬ (is_Some (plugins (reg (disp (sv_core (serve sv r).1))) !! id) ↔
     is_Some (plugins (reg (disp (sv_core sv))) !! id)) →
  ∃ m Param, Find (mounts dashboard) r = Found m Param ∧ m ∈ mounts dashboard ∧
    entitled (mt_endpoint m) Param r id.
Proof.
  intros Hfind. unfold serve. destruct (Find _ r) as [m Param|x|] eqn:Ef; [|done|].
  - destruct (Hfind _ _ _ _ Ef) as [Hm _]. destruct (CORS _ _) as [g [x|[]]]; [done|].
    destruct (pass _ r) eqn:Hpass; [done|]. intros Hne. exists m, Param. split; [done|]. split; [done|].
    pose proof (handle_domain (mt_endpoint m) Param r (sv_core sv)) as Hd.
    assert (¬ (is_Some (plugins (reg (disp (handle (mt_endpoint m) Param r (sv_core sv)).1)) !! id) ↔
               is_Some (plugins (reg (disp (sv_core sv))) !! id))) as Hne'.
    { intros Hc. apply Hne. by destruct (handle _ _ _ _). }
    clear Hne. destruct (mt_endpoint m) eqn:Ee; try by destruct Hne'; apply Hd.
    + cbn [handle] in Hne'. rewrite deliver_state in Hne'.
      destruct (register_authentic url_Parse parse_error HTTPGet Decode Quote uuid h (t_handler clk)
        (t_handler' clk) (BindRegister r) (sv_core sv)) as [E|Hr]; [by rewrite E in Hne'|exact Hr].
    + cbn [handle] in Hne'. rewrite deliver_state in Hne'.
      destruct (deregister_authentic h (t_handler clk) (BindToken r) (sv_core sv)) as
        [E|(q & Hq & Hv & Hp)]; [by rewrite E in Hne'|].
      destruct (decide (tr_PluginID q = id)) as [Hid|Hid]; [exists q; split_and!; congruence|].
      rewrite Hp, lookup_delete_ne in Hne' by done. done.
    + cbn [handle] in Hne'. rewrite deliver_state in Hne'. unfold adminDeregister in Hne'.
      rewrite remove_plugin_plugins in Hne'.
      destruct (decide (Param "id" = id)) as [Hid|Hid]; [|by rewrite lookup_delete_ne in Hne'].
      split; [done|]. apply (requireSession_passes h (t_handler clk) r).
      by rewrite (mounts_gates _ _ Hm), Ee in Hpass.
  - set (f0 := {| fr_introspector := _ |}).
    assert (let res := NoRoute Do DecodeIdentity DecodeDomain Cookie uuid Inject RoundTrip Dial conf (t_front clk) f0 in
            is_Some (plugins (reg (fr_disp res.1)) !! id) ↔ is_Some (plugins (reg (disp (sv_core sv))) !! id)) as Hd.
    { apply (NoRoute_cases Do DecodeIdentity DecodeDomain Cookie uuid Inject RoundTrip Dial conf
        (t_front clk) (λ f _, is_Some (plugins (reg (fr_disp f)) !! id) ↔
                              is_Some (plugins (reg (disp (sv_core sv))) !! id)) f0).
      - intros s' x Hd. by rewrite Hd.
      - intros s1 c s' Hp Hw. unfold fr_disp. rewrite Hw. assert (w_disp (fr_world s1) = disp (sv_core sv)) as Hd by apply Hp.
        rewrite (Dispatch_plugins uuid Inject RoundTrip Dial (t_dispatch (t_front clk)) (fr_world s1)), Hd. done. }
    destruct (NoRoute _ _ _ _ _ _ _ _ _ _ f0) as [f x]. done.
Qed.
(** A request the router knows meets its gate, and nothing else. *)
Lemma serve_found sv r m Param :
  finds_mounts → Find (mounts dashboard) r = Found m Param →
  match pass (gate_of (mt_endpoint m)) r with
  | Some x => (serve sv r).1 = sv ∧ an_response (serve sv r).2 = Sent x ∧ an_cookies (serve sv r).2 = []
  | None =>
      let '(c, res) := handle (mt_endpoint m) Param r (sv_core sv) in
      sv_core (serve sv r).1 = flush c ∧ an_cookies (serve sv r).2 = cookies c ∧
      an_response (serve sv r).2 = match res with inl x => Sent x | inr x => x end
  end.
Proof.
  intros Hfind Hf. unfold serve. rewrite Hf. destruct (Hfind _ _ _ _ Hf) as [Hm Hmeth].
  rewrite (mounts_gates _ _ Hm). pose proof (CORS_passes (allowedOrigins conf) (arrive r)) as Hc.
  destruct (CORS _ _) as [g [x|[]]].
  { cbn in Hc. rewrite <- Hmeth, (mounts_methods _ _ Hm) in Hc. by specialize (Hc eq_refl). }
  destruct (pass _ r); [done|]. by destruct (handle _ _ _ _).
Qed.

(** The session a gate asks for. *)
Definition in_session (g : gate) (r : Request) : Prop :=
  match g with
  | Open => True
  | BearerSession => ∃ token who, GetHeader r "Authorization" = "Bearer " ++ token ∧
      verify (t_handler clk) (sessionSigner h) token = inl who
  | CookieSession => ∃ token who, Cookie r sessionCookieName = Some token ∧
      verify (t_handler clk) (sessionSigner h) token = inl who
  end.

Lemma pass_spec g r :
  apicorexSecret h ≠ "" →
  match pass g r with None => in_session g r | Some x => ∃ msg, x = JSON 401 (error_body msg) end.
Proof.
  intros Hs. destruct g; cbn [pass in_session]; [done|..].
  - destruct (requireSession _ _ _) as [x|] eqn:E.
    + revert E. unfold requireSession. destruct (String.eqb (apicorexSecret h) ""); [done|].
      destruct (_ || _); [intros [= <-]; eauto|]. destruct (verify _ _ _); [done|]. intros [= <-]. eauto.
    + by apply requireSession_passes in E as [?|?].
  - destruct (RequireDashboardSession _ _ _ _) as [x|] eqn:E.
    + revert E. unfold RequireDashboardSession. destruct (String.eqb (apicorexSecret h) ""); [done|].
      destruct (String.eqb _ ""); [intros [= <-]; eauto|]. destruct (verify _ _ _); [done|].
      intros [= <-]. eauto.
    + by apply RequireDashboardSession_passes in E as [?|?].
Qed.

(** C15: With a dashboard secret set, the operators' endpoints (the session probe, the
    breaker reset, the forced deregistration, and the documentation with its
    merged specification) answer a caller without a session with 401, and such
    a request changes nothing. *)
Theorem operator_endpoints_need_session sv r m Param :
  finds_mounts → apicorexSecret h ≠ "" →
  Find (mounts dashboard) r = Found m Param → ¬ in_session (gate_of (mt_endpoint m)) r →
  (serve sv r).1 = sv ∧ an_cookies (serve sv r).2 = [] ∧
  ∃ msg, an_response (serve sv r).2 = Sent (JSON 401 (error_body msg)).
Proof.
  intros Hfind Hs Hf Hno. pose proof (serve_found sv r m Param Hfind Hf) as Hserve.
  pose proof (pass_spec (gate_of (mt_endpoint m)) r Hs) as Hp.
  destruct (pass _ r) as [x|]; [|done]. destruct Hp as [msg ->]. destruct Hserve as (? & ? & ?). eauto.
Qed.

(** The specification is only served within a session, but the documents it merges
    are served to anyone, by the endpoint that returns a plugin's manifest. *)
Lemma documents_leak_through_manifests sv r m Param mf :
  finds_mounts → Find (mounts dashboard) r = Found m Param → mt_endpoint m = EPluginManifest →
  pluginManifest (Param "name") (sv_core sv) = Some mf →
  an_response (serve sv r).2 = ManifestOf mf.
Proof.
  intros Hfind Hf He Hm. pose proof (serve_found sv r m Param Hfind Hf) as Hserve.
  rewrite He in Hserve. cbn [gate_of pass handle] in Hserve. revert Hserve. run_steps. rewrite Hm.
  by intros (_ & _ & ->).
Qed.
End server.

(** ** A small server, for the witnesses *)

(** A router that knows paths without parameters. *)
Definition demo_find (ms : list mount) (r : Request) : found :=
  match List.find (λ m, String.eqb (mt_method m) (rq_Method r) &&
                        String.eqb (mt_pattern m) (u_Path (rq_URL r))) ms with
  | Some m => Found m (λ _, "")
  | None => NotFound
  end.
Lemma demo_find_mounts : finds_mounts demo_find.
Proof.
  intros ms r m Param. unfold demo_find. destruct (List.find _ ms) as [m'|] eqn:E; [|done].
  intros [= <- _]. apply List.find_some in E as [Hin Hm]. split; [by apply list_elem_of_In|].
  by apply andb_true_iff in Hm as [Hm%String.eqb_eq _].
Qed.

Definition demo_server : Server :=
  {| sv_core := demo_core; sv_introspector := None; sv_resolver := None |}.
Definition demo_post (path : string) : Request := {|
  rq_Method := "POST"; rq_URL := rq_URL (page_request "gw.example" path); rq_Host := "gw.example";
  rq_Header := ∅; rq_RequestURI := path; rq_RemoteAddr := "1.2.3.4:5" |}.
Definition demo_clock : ServerClock := {| t_front := front_clock; t_handler := 0; t_handler' := 0 |}.
Definition demo_serve (r : Request) : Server * answered :=
  serve (H := sorted_order) demo_find
    (λ _, Some {| rr_BaseURL := "http://h:1"; rr_APIKey := "key" |}) (λ _, None) (λ _, None) (λ _, None)
    (λ _, false) (λ _, Some demo_target) (λ s, s) (λ _, inl (200, "")) (λ _, inl demo_manifest) (λ s, s)
    "1a2b3c4d" (λ _, "") (λ _, None) (λ _, "") None (λ _, None) (λ _, None) (λ _, None) (λ _ _, None)
    (λ h, h) answers_200 (λ _ _, Piped) demo_handlers front_conf None demo_clock demo_server r.

Lemma demo_serve_registers :
  is_Some (plugins (reg (disp (sv_core (demo_serve (demo_post "/_core/register")).1))) !! "pos-1a2b3c4d").
Proof. apply (bool_decide_unpack _). vm_compute. exact I. Qed.
Lemma registry_changes_are_authenticated_witness :
  ∃ m Param, demo_find (mounts None) (demo_post "/_core/register") = Found m Param ∧ m ∈ mounts None.
Proof.
  destruct (registry_changes_are_authenticated (H := sorted_order) demo_find
    (λ _, Some {| rr_BaseURL := "http://h:1"; rr_APIKey := "key" |}) (λ _, None) (λ _, None) (λ _, None)
    (λ _, false) (λ _, Some demo_target) (λ s, s) (λ _, inl (200, "")) (λ _, inl demo_manifest) (λ s, s)
    "1a2b3c4d" (λ _, "") (λ _, None) (λ _, "") None (λ _, None) (λ _, None) (λ _, None) (λ _ _, None)
    (λ h, h) answers_200 (λ _ _, Piped) demo_handlers front_conf None demo_clock demo_server
    (demo_post "/_core/register") "pos-1a2b3c4d" demo_find_mounts) as (m & Param & Hf & Hm & _).
  - intros Hiff. destruct (proj1 Hiff demo_serve_registers) as [e He]. by vm_compute in He.
  - by exists m, Param.
Defined.

Lemma operator_endpoints_need_session_witness :
  ∃ msg, an_response (demo_serve (page_request "gw.example" "/docs/openapi.json")).2 =
         Sent (JSON 401 (error_body msg)).
Proof.
  apply (operator_endpoints_need_session (H := sorted_order) demo_find
    (λ _, Some {| rr_BaseURL := "http://h:1"; rr_APIKey := "key" |}) (λ _, None) (λ _, None) (λ _, None)
    (λ _, false) (λ _, Some demo_target) (λ s, s) (λ _, inl (200, "")) (λ _, inl demo_manifest) (λ s, s)
    "1a2b3c4d" (λ _, "") (λ _, None) (λ _, "") None (λ _, None) (λ _, None) (λ _, None) (λ _ _, None)
    (λ h, h) answers_200 (λ _ _, Piped) demo_handlers front_conf None demo_clock demo_server
    (page_request "gw.example" "/docs/openapi.json") (GET "/docs/openapi.json" CookieSession ESpec)
    (λ _, "") demo_find_mounts).
  - done.
  - reflexivity.
  - by intros (token & who & Hc & _).
Defined.
