(* ===== verification/Startup.v ===== *)
(** [cmd/apicorex/main.go] and [internal/tracing/tracing.go]: what the process is
    built of, from its environment. *)

From S2P Require Import Prelude GoStrings Float64 Crypto Manifest Protection RateLimiter Config Auth RouteTable Registry PluginToken Openapi Health Http Middleware Nav Proxy Dispatcher ControlPlane Gateway Threads Interleaving Hosts Dashboard Server Endpoints.

Definition splitCSV (s : string) : list string :=
  if String.eqb s "" then []
  else filter (λ p, p ≠ "") (map TrimSpace (Split s ",")).

(** What [tracing.Init] leaves installed: whether spans are exported, the service the
    provider's resource names, and the propagators of trace context. *)
Definition serviceName : string := "apicorex-core".
Record Tracing := { tr_on : bool; tr_service : option string; tr_propagators : list string }.

(** [None] where the exporter or the resource cannot be built. *)
Definition Init (endpoint : string) (exporter resource : bool) : option Tracing :=
  if String.eqb endpoint "" then Some {| tr_on := false; tr_service := None; tr_propagators := ["tracecontext"] |}
  else if negb exporter then None
  else if negb resource then None
  else Some {| tr_on := true; tr_service := Some serviceName; tr_propagators := ["tracecontext"; "baggage"] |}.

(** The process [main] runs: the server with what its handlers share, the listener
    of the certificate gate, and the periods of the background work. *)
Record Process := {
  pr_addr : string;
  pr_handlers : Handlers;
  pr_settings : settings;
  pr_server : Server;
  pr_ondemand : option DomainResolver;
  pr_health_interval : Z;
  pr_sweep : Z * Z;
  pr_tracing : bool
}.

Section main.
(** The environment, after [godotenv.Load], and the configuration's libraries. *)
Context (Getenv : string → string) (Quote : string → string).
Context (ParseFloat : string → option f64) (ParseDuration : string → option Z).
Context (ReadFile : string → option string) (Unmarshal : string → option Config.Config).
(** Whether the trace exporter and its resource can be built. *)
Context (exporter resource : bool).

Definition envOr (key def : string) : string :=
  let v := Getenv key in if String.eqb v "" then def else v.

(** [None] is a start refused with [log.Fatalf]. *)
Definition main : option Process :=
  let httpAddr := envOr "HTTP_PORT" ":8080" in
  let pluginAPIKey := envOr "PLUGIN_API_KEY" "" in
  let allowlist := splitCSV (envOr "PLUGIN_ALLOWLIST" "") in
  let apicorexSecret := envOr "APICOREX_SECRET" "" in
  cfg ← Load Getenv ParseFloat ParseDuration ReadFile Unmarshal;
  tracing ← Init (Getenv "OTEL_EXPORTER_OTLP_ENDPOINT") exporter resource;
  let enabled := negb (String.eqb pluginAPIKey "") in
  let domainResolver := if enabled then Some (NewDomainResolver pluginAPIKey) else None in
  settings ← configure Quote (Getenv "CORS_ALLOWED_ORIGINS") (Getenv "PRODUCT_HOSTS") (Getenv "LOGIN_URL");
  Some {|
    pr_addr := httpAddr;
    pr_handlers := ControlPlane.New pluginAPIKey allowlist pluginAPIKey apicorexSecret;
    pr_settings := settings;
    pr_server := {|
      sv_core := g_core (start cfg);
      sv_introspector := if enabled then Some (NewIntrospector pluginAPIKey) else None;
      sv_resolver := domainResolver |};
    pr_ondemand := NewOnDemandTLS domainResolver (Getenv "ONDEMAND_TLS_ADDR");
    pr_health_interval := HealthInterval cfg;
    pr_sweep := (5 * Minute, 30 * Minute);
    pr_tracing := tr_on tracing |}.
End main.

(** Tracing is optional: without an endpoint nothing is exported and nothing can fail, and
    trace context is propagated either way. *)
Lemma Init_spec endpoint exporter resource :
  (Init endpoint exporter resource = None ↔ endpoint ≠ "" ∧ (exporter = false ∨ resource = false)) ∧
  (∀ t, Init endpoint exporter resource = Some t →
     (tr_on t = true ↔ endpoint ≠ "") ∧ (tr_service t = Some serviceName ↔ tr_on t = true) ∧
     "tracecontext" ∈ tr_propagators t).
Proof.
  unfold Init. destruct (String.eqb_spec endpoint "") as [->|Hne].
  - split; [naive_solver|]. intros t [= <-]. split_and!; [naive_solver..|by left].
  - destruct exporter, resource; cbn; (split; [naive_solver|]); intros t; try done.
    intros [= <-]. split_and!; [naive_solver..|by left].
Qed.

(** ** The environment's lists *)

Lemma elem_of_splitCSV s n :
  n ∈ splitCSV s ↔ n ≠ "" ∧ ∃ f, f ∈ Split s "," ∧ n = TrimSpace f.
Proof.
  unfold splitCSV. destruct (String.eqb_spec s "") as [->|_].
  - split; [by intros ?%not_elem_of_nil|]. intros [Hn (f & Hf & ->)].
    apply list_elem_of_singleton in Hf as ->. done.
  - rewrite list_elem_of_filter, list_elem_of_In, in_map_iff. setoid_rewrite <- list_elem_of_In. naive_solver.
Qed.

Lemma TrimSpace_idem s : TrimSpace (TrimSpace s) = TrimSpace s.
Proof. apply trim_both_idem. Qed.

(** Which plugins may register is what PLUGIN_ALLOWLIST says: exactly the names it
    lists, spaces around them ignored, and any name at all where it lists none,
    be it unset or only commas and spaces. *)
Theorem allowlist_is_the_setting raw key secret name :
  let h := ControlPlane.New key (splitCSV raw) key secret in
  let listed n := n ≠ "" ∧ ∃ f, f ∈ Split raw "," ∧ n = TrimSpace f in
  (name ∈ allowlist h ↔ listed name) ∧
  (allowlist h = ∅ ↔ ∀ f, f ∈ Split raw "," → TrimSpace f = "").
Proof.
  intros h listed.
  assert (∀ n, n ∈ allowlist h ↔ listed n) as Hl.
  { intros n. cbn [h ControlPlane.New allowlist].
    rewrite elem_of_list_to_set, list_elem_of_filter, list_elem_of_In, in_map_iff. unfold listed.
    setoid_rewrite <- list_elem_of_In. setoid_rewrite elem_of_splitCSV. split.
    - intros [Hn (m & <- & Hm & f & Hf & ->)]. rewrite TrimSpace_idem in *. eauto.
    - intros [Hn (f & Hf & ->)]. split; [done|]. exists (TrimSpace f). rewrite TrimSpace_idem. eauto 6. }
  split; [apply Hl|]. split.
  - intros He f Hf. destruct (decide (TrimSpace f = "")) as [|Hne]; [done|].
    assert (TrimSpace f ∈ allowlist h) as Hin by (apply Hl; split; eauto).
    rewrite He in Hin. by apply not_elem_of_empty in Hin.
  - intros Hall. apply set_eq. intros n. rewrite Hl. split; [|by intros ?%not_elem_of_empty].
    intros [Hn (f & Hf & ->)]. by rewrite (Hall f Hf) in Hn.
Qed.

(** ** The process from its start on *)

Section process.
Context `{MapOrder} (grow : nat → nat).
Context (Find : list mount → Request → found).
Context (BindRegister : Request → option registerReq) (BindToken : Request → option tokenReq).
Context (BindMaintenance : Request → option maintenanceReq) (BindKey : Request → option string).
Context (TLS : Request → bool).
Context (url_Parse : string → option Registry.URL) (parse_error Quote : string → string) (time_json : Z → string).
Context (UnmarshalAny : string → option Openapi.value) (Marshal : Openapi.value → string).
Context (MarshalBase : option string).
Context (DecodeIdentity : string → option Identity) (DecodeDomain : string → option ResolvedDomain).
Context (Cookie : Request → string → option string) (Inject : Header → Header).
Context (dashboard : option (gmap string string)).
Context (Getenv : string → string).
Context (ParseFloat : string → option f64) (ParseDuration : string → option Z).
Context (ReadFile : string → option string) (Unmarshal : string → option Config.Config).
Context (exporter resource : bool).

Let boot := main Getenv Quote ParseFloat ParseDuration ReadFile Unmarshal exporter resource.

Definition on_sv (f : Core → Core) (sv : Server) : Server :=
  {| sv_core := f (sv_core sv); sv_introspector := sv_introspector sv; sv_resolver := sv_resolver sv |}.

(** What happens to the server, one thing after the other: a request is served, with
    whatever the plugins and the services answer this time and a UUID unlike those
    drawn before, or the monitor or the sweep has a tick. *)
Inductive happens (p : Process) : Server * list string → Server * list string → Prop :=
| happens_request HTTPGet Decode Do RoundTrip Dial uuid clk r sv us :
    Forall (unlike uuid) us →
    happens p (sv, us)
      ((serve Find BindRegister BindToken BindMaintenance BindKey TLS url_Parse parse_error HTTPGet
          Decode Quote uuid time_json UnmarshalAny Marshal MarshalBase Do DecodeIdentity DecodeDomain
          Cookie Inject RoundTrip Dial (pr_handlers p) (pr_settings p) dashboard clk sv r).1, uuid :: us)
| happens_tick probe now sv us :
    happens p (sv, us)
      (on_sv (λ c, let '(r, b) := checkAll probe now (reg (disp c), cb (disp c)) in
                   set_core_disp (set_cb b (set_reg r (disp c))) c) sv, us)
| happens_sweep now sv us :
    happens p (sv, us) (on_sv (on_core_disp (tenant_sweep now (pr_sweep p).2)) sv, us).

Lemma boot_server p :
  boot = Some p → ∃ cfg, Load Getenv ParseFloat ParseDuration ReadFile Unmarshal = Some cfg ∧
    sv_core (pr_server p) = g_core (start cfg).
Proof.
  unfold boot, main. destruct (Load _ _ _ _ _) as [cfg|]; cbn [mbind option_bind]; [|done].
  destruct (Init _ _ _) as [tr|]; cbn [mbind option_bind]; [|done].
  destruct (configure _ _ _ _) as [st|]; cbn [mbind option_bind]; [|done]. intros [= <-]. eauto.
Qed.

(** Whatever the environment, the two tickers are made with positive periods, as
    [time.NewTicker] demands: it panics on others. *)
Lemma tickers_have_periods p : boot = Some p → 0 < pr_health_interval p ∧ 0 < (pr_sweep p).1.
Proof.
  unfold boot, main. destruct (Load _ _ _ _ _) as [cfg|] eqn:E; cbn [mbind option_bind]; [|done].
  destruct (Init _ _ _) as [tr|]; cbn [mbind option_bind]; [|done].
  destruct (configure _ _ _ _) as [st|]; cbn [mbind option_bind]; [|done]. intros [= <-].
  split; [exact (Load_HealthInterval_positive _ _ _ _ _ _ E)|done].
Qed.

(** A pool of [p]'s threads in which plugins are added and removed one at a time. *)
Let calmly (p : Process) : pool → pool → Prop :=
  calm (pr_handlers p) grow url_Parse parse_error Quote time_json (λ ts, ts = []).

(** The state is one the pool is at rest in, after a run that handed out the UUIDs [us]. *)
Definition rests_in (p : Process) (cfg : Config.Config) (c : Core) (us : list string) : Prop :=
  ∃ m, rtc (calmly p) (begin cfg) (resting m us) ∧ core m = c ∧ ForallOrdPairs unlike us.

Lemma ran_state t m : core (alone t m).1 = (ran t m).1.
Proof. unfold ran. by destruct (alone t m). Qed.

Lemma rests_other p cfg c us t :
  rests_in p cfg c us → other_thread (pr_handlers p) time_json t →
  ∀ c', (∀ m, core m = c → represents (table m) (disp c) → core (alone t m).1 = c') → rests_in p cfg c' us.
Proof.
  intros (m & Hr & <- & Hap) Ht c' Hc.
  destruct (reachable_faithful _ _ _ _ _ _ _ cfg (resting m us) (calm_psteps _ _ _ _ _ _ _ _ _ Hr) Hap)
    as (hist & [Hrep _ _] & _).
  exists (alone t m).1. split_and!; [|by apply Hc|done]. etransitivity; [exact Hr|]. by apply other_rests.
Qed.
Lemma rests_control p cfg c us u t :
  rests_in p cfg c us → control_thread (pr_handlers p) grow url_Parse parse_error Quote u t →
  Forall (λ uuid, Forall (unlike uuid) us) (option_list u) →
  ∀ c', (∀ m, core m = c → core (alone t m).1 = c') → rests_in p cfg c' (app (option_list u) us).
Proof.
  intros (m & Hr & <- & Hap) Ht Hu c' Hc.
  pose proof (reachable_faithful _ _ _ _ _ _ _ cfg (resting m us) (calm_psteps _ _ _ _ _ _ _ _ _ Hr) Hap) as Hf.
  exists (alone t m).1. split_and!; [|by apply Hc|].
  - etransitivity; [exact Hr|]. apply (control_rests _ _ _ _ _ _ _ u); [done..|].
    destruct u as [uuid|]; [|done]. inversion Hu; subst. by eapply resting_unused.
  - destruct u as [uuid|]; [|done]. inversion Hu; subst. by constructor.
Qed.

(** Each handler is a thread of the pool, run to its end. *)
Lemma op_rests HTTPGet Decode RoundTrip Dial uuid p cfg c us c' :
  op url_Parse parse_error HTTPGet Decode Quote uuid time_json Inject RoundTrip Dial (pr_handlers p) c c' →
  rests_in p cfg c us → Forall (unlike uuid) us →
  rests_in p cfg c' us ∨ rests_in p cfg c' (uuid :: us).
Proof.
  intros [|now issued body|now now' body|now body|id|id|now now' body|now|clk w Hw] Hr Hus.
  - by left.
  - right. eapply (rests_control p cfg c us (Some uuid)); [done|apply (control_register _ _ _ _ _ HTTPGet Decode uuid now issued body)|by constructor|].
    intros m <-. by rewrite ran_state, register_alone.
  - left. eapply rests_other; [done|apply (other_heartbeat _ _ now now' body)|]. by intros m <-.
  - left. eapply (rests_control p cfg c us None); [done|apply (control_deregister _ _ _ _ _ now body)|done|].
    intros m <-. by rewrite ran_state, deregister_alone.
  - left. eapply (rests_control p cfg c us None); [done|apply (control_remove _ _ _ _ _ id)|done|].
    intros m <-. by rewrite ran_state, removing_alone.
  - left. eapply rests_other; [done|apply (other_reset _ _ id)|]. intros m <- _. by rewrite ran_state, resetting_alone.
  - left. eapply rests_other; [done|apply (other_maintenance _ _ now now' body)|]. by intros m <-.
  - left. eapply rests_other; [done|apply (other_listing _ _ now)|]. intros m <- _. by rewrite ran_state, listing_alone.
  - left. eapply rests_other; [done|apply (other_request _ _ clk (g_identity (w_gin w)) (rq_Method (g_req (w_gin w)))
      (u_Path (rq_URL (g_req (w_gin w)))) true true (told uuid Inject RoundTrip clk w))|].
    intros m <- Hrep. pose proof (request_alone uuid Inject RoundTrip Dial clk w true true m Hrep (eq_sym Hw)) as Ha.
    cbv zeta in Ha. destruct (Dispatch _ _ _ _ _ _) as [w' r]. by destruct Ha as [<- _].
Qed.

Lemma happens_rests p cfg sv us sv' us' used :
  happens p (sv, us) (sv', us') → cookies (sv_core sv) = [] →
  rests_in p cfg (sv_core sv) used → (∀ u, u ∈ used → u ∈ us) →
  cookies (sv_core sv') = [] ∧ ∃ used', rests_in p cfg (sv_core sv') used' ∧ ∀ u, u ∈ used' → u ∈ us'.
Proof.
  intros Hh Hck Hr Hus. inversion Hh; subst; clear Hh; cbn [on_sv sv_core].
  - match goal with |- context [serve _ _ _ _ _ _ _ _ ?g ?d _ ?u _ _ _ _ ?x _ _ _ _ ?rt ?dl _ _ _ ?ck sv ?rq] =>
      destruct (serve_op Find BindRegister BindToken BindMaintenance BindKey TLS url_Parse parse_error g d Quote u
        time_json UnmarshalAny Marshal MarshalBase x DecodeIdentity DecodeDomain Cookie Inject rt dl
        (pr_handlers p) (pr_settings p) dashboard ck sv rq Hck) as [Ho Hck'] end.
    split; [exact Hck'|].
    assert (Forall (unlike uuid) used) as Hap by (apply Forall_forall; intros u Hu; by eapply Forall_forall; [|apply Hus]).
    destruct (op_rests _ _ _ _ _ p cfg _ used _ Ho Hr Hap) as [Hr'|Hr'].
    + exists used. split; [exact Hr'|]. intros u Hu. right. by apply Hus.
    + exists (uuid :: used). split; [exact Hr'|]. intros u [->|Hu]%elem_of_cons; [left|right; by apply Hus].
  - split; [by destruct (checkAll _ _ _)|]. exists used. split; [|done].
    eapply rests_other; [exact Hr|apply (other_health _ _ probe now)|]. intros m <- _. by rewrite ran_state, health_alone.
  - split; [done|]. exists used. split; [|done].
    eapply rests_other; [exact Hr|apply (other_sweep _ _ (λ _, now) (pr_sweep p).2)|].
    intros m <- _. by rewrite ran_state, sweep_alone.
Qed.

(** C4: From start-up on, as long as the requests are served one after another, with
    the ticks of the monitor and of the sweep between them, whatever they are and in
    whatever order they come: the state the server is in after each is one that the
    threads of [Interleaving] reach, started from the configuration the process
    loaded, with none of them left running; so at every such moment the registry and
    the table of routes agree, every bulkhead slot is back, and whatever is matched is
    declared by the manifest of a registered plugin.  (Requests that overlap are other
    runs of the same threads, of which [Interleaving] says what holds and what not.) *)
Theorem server_runs_are_interleavings p sv us :
  boot = Some p → rtc (happens p) (pr_server p, []) (sv, us) →
  let d := disp (sv_core sv) in
  (∃ cfg s, Load Getenv ParseFloat ParseDuration ReadFile Unmarshal = Some cfg ∧
     rtc (pstep (pr_handlers p) grow url_Parse parse_error Quote time_json (λ ts, ts = [])) (begin cfg) s ∧
     p_threads s = [] ∧ p_core s = sv_core sv) ∧
  core_ok (sv_core sv) ∧ (∀ id, Bulkhead.Active (bh d) id = 0) ∧
  (∀ method path e, match_ d method path = Some e →
     ∃ pe rt, plugins (reg d) !! re_pluginID e = Some pe ∧ rt ∈ Routes (Manifest pe) ∧
       e = route_entry (re_pluginID e) (PluginName (Info pe)) rt).
Proof.
  intros (cfg & Hload & Hstart)%boot_server Hrun.
  assert (cookies (sv_core sv) = [] ∧ ∃ used, rests_in p cfg (sv_core sv) used ∧ ∀ u, u ∈ used → u ∈ us)
    as (_ & used & (m & Hr & Hm & _) & _).
  { apply (rtc_preserved (happens p) (λ x, cookies (sv_core x.1) = [] ∧
      ∃ used, rests_in p cfg (sv_core x.1) used ∧ ∀ u, u ∈ used → u ∈ x.2) _ _) in Hrun; [exact Hrun| |].
    - intros [sv1 us1] [sv2 us2] (Hck & used & Hr & Hus) Hh. by eapply happens_rests.
    - cbn. rewrite Hstart. split; [done|]. exists []. split; [|done].
      exists {| core := g_core (start cfg); table := nil_slice |}. split_and!; [constructor|done|constructor]. }
  destruct (resting_ok _ _ _ _ _ _ _ cfg m used (λ ts (E : ts = []), E) Hr) as [Hok Hs]. rewrite Hm in Hok, Hs.
  split_and!; [|done..|].
  - exists cfg, (resting m used). split_and!; [done|by eapply calm_psteps|done|exact Hm].
  - intros method path e. by apply matched_declared.
Qed.
End process.

(** ** A start with the built-in settings, for the witness *)

Definition demo_env (k : string) : string := if String.eqb k "PLUGIN_API_KEY" then "key" else "".
Definition demo_boot : option Process :=
  main demo_env (λ s, s) (λ _, None) (λ _, None) (λ _, None) (λ _, None) true true.
Lemma demo_boot_Some : ∃ p, demo_boot = Some p.
Proof. by eexists; vm_compute. Qed.

(** A plugin registers with the process, the monitor finds it well, the sweep passes, and
    a request is served. *)
Definition demo_happens (p : Process) : Server * list string → Server * list string → Prop :=
  happens (H := sorted_order) demo_find (λ _, Some {| rr_BaseURL := "http://h:1"; rr_APIKey := "key" |})
    (λ _, None) (λ _, None) (λ _, None) (λ _, false) (λ _, Some demo_target) (λ s, s) (λ s, s) (λ _, "")
    (λ _, None) (λ _, "") None (λ _, None) (λ _, None) (λ _ _, None) (λ h, h) None p.
Definition demo_served (p : Process) (uuid : string) (r : Request) (sv : Server) : Server :=
  (serve (H := sorted_order) demo_find (λ _, Some {| rr_BaseURL := "http://h:1"; rr_APIKey := "key" |})
    (λ _, None) (λ _, None) (λ _, None) (λ _, false) (λ _, Some demo_target) (λ s, s) (λ _, inl (200, ""))
    (λ _, inl demo_manifest) (λ s, s) uuid (λ _, "") (λ _, None) (λ _, "") None (λ _, None) (λ _, None)
    (λ _, None) (λ _ _, None) (λ h, h) answers_200 (λ _ _, Piped) (pr_handlers p) (pr_settings p) None
    demo_clock sv r).1.
Definition demo_day (p : Process) : Server :=
  demo_served p "5e6f7a8b" item_request
    (on_sv (on_core_disp (tenant_sweep 7 (pr_sweep p).2))
      (on_sv (λ c, let '(r, b) := checkAll (H := sorted_order) (λ _, Some 200) (λ _, 5) (reg (disp c), cb (disp c)) in
                   set_core_disp (set_cb b (set_reg r (disp c))) c)
        (demo_served p "1a2b3c4d" (demo_post "/_core/register") (pr_server p)))).

Lemma demo_day_run p :
  rtc (demo_happens p) (pr_server p, []) (demo_day p, ["5e6f7a8b"; "1a2b3c4d"]).
Proof.
  eapply rtc_l; [apply (happens_request _ _ _ _ _ _ _ _ _ _ _ _ _ _ _ _ _ _ _ (λ _, inl (200, "")) (λ _, inl demo_manifest)
    (λ _, None) answers_200 (λ _ _, Piped) "1a2b3c4d" demo_clock (demo_post "/_core/register")); constructor|].
  eapply rtc_l; [apply (happens_tick _ _ _ _ _ _ _ _ _ _ _ _ _ _ _ _ _ _ _ (λ _, Some 200) (λ _, 5))|].
  eapply rtc_l; [apply (happens_sweep _ _ _ _ _ _ _ _ _ _ _ _ _ _ _ _ _ _ _ 7)|].
  apply rtc_once. apply happens_request. constructor; [|constructor]. by apply unlike_uuids.
Qed.

Lemma server_runs_are_interleavings_witness :
  ∃ p, demo_boot = Some p ∧
    is_Some (plugins (reg (disp (sv_core (demo_day p)))) !! "pos-1a2b3c4d") ∧
    ∀ id, Bulkhead.Active (bh (disp (sv_core (demo_day p)))) id = 0.
Proof.
  destruct demo_boot_Some as [p Hp]. exists p. split; [exact Hp|]. split.
  - revert Hp. unfold demo_boot. intros [= <-]. eexists. by vm_compute.
  - exact (proj1 (proj2 (proj2 (server_runs_are_interleavings (H := sorted_order) doubling demo_find
      (λ _, Some {| rr_BaseURL := "http://h:1"; rr_APIKey := "key" |}) (λ _, None) (λ _, None) (λ _, None) (λ _, false)
      (λ _, Some demo_target) (λ s, s) (λ s, s) (λ _, "") (λ _, None) (λ _, "") None (λ _, None) (λ _, None)
      (λ _ _, None) (λ h, h) None demo_env (λ _, None) (λ _, None) (λ _, None) (λ _, None) true true
      p (demo_day p) _ Hp (demo_day_run p))))).
Defined.
