(* ===== verification/Lifecycle.v ===== *)
(** [cmd/apicorex/main.go] once everything is built: the goroutines of the error
    group, the context a signal or a failure cancels, the two HTTP servers with
    their graceful shutdown ([server/http.go], [server/ondemand.go]), the two
    ticker loops ([protection/health_monitor.go], [dispatcher.go]), and how the
    process ends. *)

From S2P Require Import Prelude GoStrings Float64 Crypto Manifest Protection RateLimiter Config Auth Registry Health PluginToken Openapi Http Middleware Nav Proxy Dispatcher ControlPlane Gateway Hosts Dashboard Server Endpoints Startup.

(** An action of a goroutine or the expiry of a timer; the course of a connection
    or a poll; or what comes from outside: a signal, a tick, a client, a listener
    that breaks. *)
Inductive kind := Own | Soft | Outside.

Inductive error := Net (msg : string) | DeadlineExceeded | Canceled.

(** ** An HTTP server and the goroutines around it *)

(** [http.Server]: whether [Shutdown] was called, its idle connections and those with
    a request in progress. *)
Record http_server := { inShutdown : bool; idle : nat; busy : nat }.

(** The goroutine in [ListenAndServe] ([Start], [RunOnDemandTLS]). *)
Inductive listening := Calling | Serving | Served (e : option error).
(** The goroutine that waits for the context and calls [Shutdown]. *)
Inductive stopping := Waiting | Draining | Drained (e : option error).

Record server := { conns : http_server; listen : listening; stop : stopping }.
Definition unstarted : server :=
  {| conns := {| inShutdown := false; idle := 0; busy := 0 |}; listen := Calling; stop := Waiting |}.

Definition set_conns (c : http_server) (s : server) : server :=
  {| conns := c; listen := listen s; stop := stop s |}.
Definition set_listen (l : listening) (s : server) : server :=
  {| conns := conns s; listen := l; stop := stop s |}.
Definition set_stop (x : stopping) (c : http_server) (s : server) : server :=
  {| conns := c; listen := listen s; stop := x |}.

(** [ListenAndServe] returns [ErrServerClosed] once [Shutdown] has been called, which
    [Start] and [RunOnDemandTLS] turn into [nil]; other errors they return. *)
Inductive listens (down : bool) : kind → listening → listening → Prop :=
| refused : down = true → listens down Own Calling (Served None)
| bound : down = false → listens down Own Calling Serving
| unbound msg : down = false → listens down Own Calling (Served (Some (Net msg)))
| closed : down = true → listens down Own Serving (Served None)
| broken msg : down = false → listens down Outside Serving (Served (Some (Net msg))).

(** Connections: accepted while the listener is open; kept alive between requests
    until [Shutdown] is called; no longer the server's once their client is gone or a
    handler has taken them over ([Hijack], for a WebSocket). *)
Inductive connects (l : listening) (c : http_server) : kind → http_server → Prop :=
| accept : l = Serving → inShutdown c = false →
    connects l c Outside {| inShutdown := inShutdown c; idle := idle c; busy := S (busy c) |}
| begin_request n : idle c = S n →
    connects l c Soft {| inShutdown := inShutdown c; idle := n; busy := S (busy c) |}
| end_request n : busy c = S n →
    connects l c Soft {| inShutdown := inShutdown c; busy := n;
                         idle := if inShutdown c then idle c else S (idle c) |}
| hang_up n : idle c = S n →
    connects l c Soft {| inShutdown := inShutdown c; idle := n; busy := busy c |}
| given_up n : busy c = S n →
    connects l c Soft {| inShutdown := inShutdown c; idle := idle c; busy := n |}.

(** [<-ctx.Done()], then [Shutdown] with a deadline: it stops accepting, closes what
    is idle at every poll, and returns when nothing is busy or time is up. *)
Inductive stops (cancelled : bool) (c : http_server) : kind → stopping → stopping → http_server → Prop :=
| called : cancelled = true →
    stops cancelled c Own Waiting Draining {| inShutdown := true; idle := idle c; busy := busy c |}
| drained : busy c = 0%nat →
    stops cancelled c Own Draining (Drained None) {| inShutdown := inShutdown c; idle := 0; busy := busy c |}
| polled : busy c ≠ 0%nat →
    stops cancelled c Soft Draining Draining {| inShutdown := inShutdown c; idle := 0; busy := busy c |}
| expired : stops cancelled c Own Draining (Drained (Some DeadlineExceeded)) c.

(** The error, if any, a goroutine of the server ends with. *)
Inductive ending := Quiet | FromListen (e : error) | FromStop (e : error).

Inductive serves (cancelled : bool) (s : server) : kind → server → ending → Prop :=
| s_listens k l :
    listens (inShutdown (conns s)) k (listen s) l →
    serves cancelled s k (set_listen l s) (match l with Served (Some e) => FromListen e | _ => Quiet end)
| s_connects k c : connects (listen s) (conns s) k c → serves cancelled s k (set_conns c s) Quiet
| s_stops k x c :
    stops cancelled (conns s) k (stop s) x c →
    serves cancelled s k (set_stop x c s) (match x with Drained (Some e) => FromStop e | _ => Quiet end).

(** ** A ticker loop *)

(** [select] between the context and the ticker, whose channel holds one tick; then
    the work of the tick: the entries, or limiters, still to be visited. *)
Inductive looping := Selecting | Working (left : nat) | Stopped.
Record loop := { pc : looping; tick : bool }.
Definition idle_loop : loop := {| pc := Selecting; tick := false |}.

Inductive loops (most : nat) (cancelled : bool) : kind → loop → loop → Prop :=
| ticks pc t : pc ≠ Stopped → loops most cancelled Outside {| pc := pc; tick := t |} {| pc := pc; tick := true |}
| wakes n : (n ≤ most)%nat →
    loops most cancelled Own {| pc := Selecting; tick := true |} {| pc := Working n; tick := false |}
| works n t : loops most cancelled Own {| pc := Working (S n); tick := t |} {| pc := Working n; tick := t |}
| rests t : loops most cancelled Own {| pc := Working 0; tick := t |} {| pc := Selecting; tick := t |}
| leaves t : cancelled = true →
    loops most cancelled Own {| pc := Selecting; tick := t |} {| pc := Stopped; tick := t |}.

(** ** The process *)

(** How it ended: the status, and whether the deferred calls ran, among them the one
    that flushes the traces ([log.Fatalf] runs none). *)
Record ended := { status : Z; flushed : bool }.

(** [cancelled] and [failed] are the group's context and first error; [gate] is the
    certificate gate's server, [None] where [RunOnDemandTLS] returns at once. *)
Record process := {
  cancelled : bool; failed : option error;
  gateway : server; gate : option server;
  health : loop; sweep : loop;
  exit : option ended
}.

Definition launch (p : Startup.Process) : process := {|
  cancelled := false; failed := None; gateway := unstarted;
  gate := match pr_ondemand p with Some _ => Some unstarted | None => None end;
  health := idle_loop; sweep := idle_loop; exit := None |}.

(** [g.Go]: the first error is kept and cancels the context. *)
Definition returns (e : error) (p : process) : process := {|
  cancelled := true; failed := match failed p with None => Some e | first => first end;
  gateway := gateway p; gate := gate p; health := health p; sweep := sweep p; exit := exit p |}.
(** Both goroutines of the gateway's server report to the group; of the gate's only
    [RunOnDemandTLS] does, the error of its [Shutdown] is dropped. *)
Definition gateway_ends (x : ending) (p : process) : process :=
  match x with Quiet => p | FromListen e | FromStop e => returns e p end.
Definition gate_ends (x : ending) (p : process) : process :=
  match x with FromListen e => returns e p | Quiet | FromStop _ => p end.

Definition set_gateway (s : server) (p : process) : process := {|
  cancelled := cancelled p; failed := failed p; gateway := s; gate := gate p; health := health p;
  sweep := sweep p; exit := exit p |}.
Definition set_gate (s : server) (p : process) : process := {|
  cancelled := cancelled p; failed := failed p; gateway := gateway p; gate := Some s; health := health p;
  sweep := sweep p; exit := exit p |}.

(** [g.Wait()]: the five goroutines of the group have returned. *)
Definition listener_back (s : server) : Prop := ∃ e, listen s = Served e.
Definition joined (p : process) : Prop :=
  listener_back (gateway p) ∧ (∃ e, stop (gateway p) = Drained e) ∧
  (∀ s, gate p = Some s → listener_back s) ∧ pc (health p) = Stopped ∧ pc (sweep p) = Stopped.

(** [if err != nil && !errors.Is(err, context.Canceled) { log.Fatalf }] *)
Definition verdict (e : option error) : ended :=
  match e with
  | None | Some Canceled => {| status := 0; flushed := true |}
  | Some (Net _) | Some DeadlineExceeded => {| status := 1; flushed := false |}
  end.

(** [most] bounds the plugins a tick visits. *)
Inductive step (most : nat) (p : process) : kind → process → Prop :=
| signal : exit p = None →
    step most p Outside {| cancelled := true; failed := failed p; gateway := gateway p; gate := gate p;
                           health := health p; sweep := sweep p; exit := None |}
| in_gateway k s x : exit p = None → serves (cancelled p) (gateway p) k s x →
    step most p k (gateway_ends x (set_gateway s p))
| in_gate k s s' x : exit p = None → gate p = Some s → serves (cancelled p) s k s' x →
    step most p k (gate_ends x (set_gate s' p))
| in_health k l : exit p = None → loops most (cancelled p) k (health p) l →
    step most p k {| cancelled := cancelled p; failed := failed p; gateway := gateway p; gate := gate p;
                     health := l; sweep := sweep p; exit := None |}
| in_sweep k l : exit p = None → loops most (cancelled p) k (sweep p) l →
    step most p k {| cancelled := cancelled p; failed := failed p; gateway := gateway p; gate := gate p;
                     health := health p; sweep := l; exit := None |}
| wait : exit p = None → joined p →
    step most p Own {| cancelled := cancelled p; failed := failed p; gateway := gateway p; gate := gate p;
                       health := health p; sweep := sweep p; exit := Some (verdict (failed p)) |}.
Definition steps (most : nat) (p p' : process) : Prop := ∃ k, step most p k p'.

(** ** The invariant *)

(** What the state of a server says of its goroutines. *)
Definition server_ok (cancelled : bool) (s : server) : Prop :=
  (inShutdown (conns s) = true ↔ stop s ≠ Waiting) ∧
  (stop s ≠ Waiting → cancelled = true) ∧
  (listen s = Served None → inShutdown (conns s) = true) ∧
  (stop s = Drained None → idle (conns s) = 0%nat ∧ busy (conns s) = 0%nat) ∧
  listen s ≠ Served (Some Canceled) ∧ stop s ≠ Drained (Some Canceled).

Definition process_ok (p : process) : Prop :=
  server_ok (cancelled p) (gateway p) ∧
  (∀ s, gate p = Some s → server_ok (cancelled p) s) ∧
  (∀ e, failed p = Some e → cancelled p = true ∧ e ≠ Canceled) ∧
  (failed p = None → (∀ e, listen (gateway p) ≠ Served (Some e)) ∧ (∀ e, stop (gateway p) ≠ Drained (Some e)) ∧
                     (∀ s e, gate p = Some s → listen s ≠ Served (Some e))) ∧
  (∀ x, exit p = Some x → joined p ∧ x = verdict (failed p)).

Lemma server_ok_cancelled s b : server_ok b s → server_ok true s.
Proof. intros (Hs & _ & Hr). split; [exact Hs|]. by split. Qed.

Lemma serves_ok b s k s' x : server_ok b s → serves b s k s' x → server_ok b s'.
Proof.
  intros (Hsh & Hw & Hl & Hd & Hc & Hc') Hs. destruct Hs as [k l Hk|k c Hk|k y c Hk]; unfold server_ok; cbn in *.
  - destruct Hk; cbn in *; split_and!; naive_solver.
  - assert (inShutdown c = inShutdown (conns s)) as Hsame by by destruct Hk.
    rewrite Hsame. split_and!; try done; try apply Hsh. intros Hst. destruct (Hd Hst) as [Hi Hb].
    assert (inShutdown (conns s) = true) as Hin by (apply Hsh; congruence).
    destruct Hk; cbn; rewrite ?Hin; split; congruence.
  - destruct Hk; cbn in *; split_and!; naive_solver.
Qed.

(** What a server's goroutine ends with is what its new state shows. *)
Lemma serves_ending b s k s' x :
  serves b s k s' x →
  match x with
  | Quiet => (∀ e, listen s' = Served (Some e) → listen s = Served (Some e)) ∧
             (∀ e, stop s' = Drained (Some e) → stop s = Drained (Some e))
  | FromListen e => listen s' = Served (Some e) ∧ stop s' = stop s
  | FromStop e => stop s' = Drained (Some e) ∧ listen s' = listen s
  end.
Proof.
  intros [k' l Hk|k' c Hk|k' y c Hk]; [destruct Hk|done|destruct Hk]; cbn; split; try done.
Qed.

Lemma returns_cancelled e p : cancelled (returns e p) = true.
Proof. done. Qed.
Lemma failed_returns e p : failed (returns e p) ≠ None.
Proof. cbn. by destruct (failed p). Qed.

Lemma process_step_ok most p k p' : process_ok p → step most p k p' → process_ok p'.
Proof.
  intros (Hg & Hgt & Hf & Hn & Hx) Hs.
  destruct Hs as [He|k s x He Hs|k s s' x He Hs0 Hs|k l He Hl|k l He Hl|He Hj].
  - split_and!; cbn; [by eapply server_ok_cancelled| | |done|congruence].
    + intros s Hs. by eapply server_ok_cancelled, Hgt.
    + intros e Hfe. split; [done|]. by apply Hf.
  - pose proof (serves_ok _ _ _ _ _ Hg Hs) as Hok. pose proof (serves_ending _ _ _ _ _ Hs) as Hend.
    assert (∀ e, x = FromListen e ∨ x = FromStop e → process_ok (returns e (set_gateway s p))) as Hret.
    { intros e Hxe. split_and!; cbn.
      - by eapply server_ok_cancelled.
      - intros s0 Hs0. by eapply server_ok_cancelled, Hgt.
      - intros e' Hfe. split; [done|]. destruct (failed p) eqn:E; [naive_solver|]. injection Hfe as <-.
        destruct Hok as (_ & _ & _ & _ & Hc & Hc'). destruct Hxe as [-> | ->]; destruct Hend; congruence.
      - intros Hfe. destruct (failed p); done.
      - congruence. }
    destruct x as [|e|e]; cbn [gateway_ends]; [|apply Hret; auto..]. destruct Hend as [Hl Hst].
    split_and!; cbn; [done|done|done| |congruence]. intros Hfn. destruct (Hn Hfn) as (H1 & H2 & H3).
    split_and!; [|..|done]; intros e E; [by apply (H1 e), Hl|by apply (H2 e), Hst].
  - pose proof (serves_ok _ _ _ _ _ (Hgt s Hs0) Hs) as Hok. pose proof (serves_ending _ _ _ _ _ Hs) as Hend.
    assert (∀ e, x = FromListen e → process_ok (returns e (set_gate s' p))) as Hret.
    { intros e ->. split_and!; cbn.
      - by eapply server_ok_cancelled.
      - intros s0 [= <-]. by eapply server_ok_cancelled.
      - intros e' Hfe. split; [done|]. destruct (failed p) eqn:E; [naive_solver|]. injection Hfe as <-.
        destruct Hok as (_ & _ & _ & _ & Hc & _). destruct Hend; congruence.
      - intros Hfe. destruct (failed p); done.
      - congruence. }
    assert ((∀ e, listen s' = Served (Some e) → listen s = Served (Some e)) → process_ok (set_gate s' p)) as Hquiet.
    { intros Hl. split_and!; cbn; [done|by intros s0 [= <-]|done| |congruence]. intros Hfn.
      destruct (Hn Hfn) as (H1 & H2 & H3). split_and!; [done|done|]. intros s0 e [= <-] E. by apply (H3 s e Hs0), Hl. }
    destruct x as [|e|e]; cbn [gate_ends]; [apply Hquiet, Hend|by apply Hret|].
    apply Hquiet. destruct Hend as [_ ->]. done.
  - split_and!; try done; congruence.
  - split_and!; try done; congruence.
  - split_and!; try done. cbn. intros x [= <-]. done.
Qed.

Lemma launch_ok p : process_ok (launch p).
Proof.
  assert (server_ok false unstarted) as Hu by (split_and!; done).
  split_and!; cbn; [done| |done| |done].
  - intros s. destruct (pr_ondemand p); [by intros [= <-]|done].
  - intros _. split_and!; [done|done|]. intros s e. destruct (pr_ondemand p); [by intros [= <-]|done].
Qed.
Lemma run_ok most p s : rtc (steps most) (launch p) s → process_ok s.
Proof. apply (rtc_preserved _ process_ok); [|apply launch_ok]. intros x y Hx [k Hk]. by eapply process_step_ok. Qed.

(** C17: A process that ends with status 0 has let the gateway finish: its listener is
    closed, the gateway's server has no connection left, busy or idle (a WebSocket's
    was taken from it and is not waited for), and the deferred calls have run.  It
    ends with status 1 exactly when a server failed to listen or requests outlasted
    the ten seconds they are given. *)
Theorem clean_exit_drains most p s x :
  rtc (steps most) (launch p) s → exit s = Some x →
  (status x = 0 ∧ flushed x = true ∧ listen (gateway s) = Served None ∧ stop (gateway s) = Drained None ∧
     inShutdown (conns (gateway s)) = true ∧ idle (conns (gateway s)) = 0%nat ∧ busy (conns (gateway s)) = 0%nat) ∨
  (status x = 1 ∧ flushed x = false ∧ ∃ e, failed s = Some e ∧ (e = DeadlineExceeded ∨ ∃ msg, e = Net msg)).
Proof.
  intros ((Hsh & _ & _ & Hd & _) & _ & Hf & Hn & Hx)%run_ok Hex.
  destruct (Hx x Hex) as [((l & Hl) & (e & He) & _) ->]. destruct (failed s) as [err|] eqn:E.
  - right. destruct (Hf err eq_refl) as [_ Hne]. destruct err; [| |done]; split_and!; eauto.
  - left. destruct (Hn eq_refl) as (H1 & H2 & _).
    destruct l as [l|]; [by destruct (H1 l)|]. destruct e as [e|]; [by destruct (H2 e)|].
    destruct (Hd He). split_and!; try done. apply Hsh. congruence.
Qed.

(** ** Shutting down *)

Definition listening_left (l : listening) : nat := match l with Calling => 2 | Serving => 1 | Served _ => 0 end.
Definition stopping_left (x : stopping) : nat := match x with Waiting => 2 | Draining => 1 | Drained _ => 0 end.
Definition server_left (s : server) : nat := listening_left (listen s) + stopping_left (stop s).
Definition loop_left (most : nat) (l : loop) : nat :=
  match pc l with Stopped => 0 | Selecting => 1 | Working n => n + 2 end + (if tick l then most + 2 else 0).
(** The actions its goroutines still have in them. *)
Definition left (most : nat) (p : process) : nat :=
  server_left (gateway p) + match gate p with Some s => server_left s | None => 0 end +
  loop_left most (health p) + loop_left most (sweep p) + match exit p with None => 1 | Some _ => 0 end.

Lemma serves_left b s k s' x :
  serves b s k s' x → (server_left s' + match k with Own => 1 | _ => 0 end ≤ server_left s)%nat.
Proof.
  intros [k' l Hk|k' c Hk|k' y c Hk]; unfold server_left; cbn; [|destruct Hk; lia|];
    inversion Hk; subst; cbn; lia.
Qed.
Lemma loops_left most b k l l' :
  loops most b k l l' →
  (loop_left most l' + match k with Own => 1 | _ => 0 end ≤
   loop_left most l + match k with Outside => most + 2 | _ => 0 end)%nat.
Proof. intros []; unfold loop_left; cbn; try destruct t; lia. Qed.

Lemma gateway_ends_left most x p : left most (gateway_ends x p) = left most p.
Proof. by destruct x. Qed.
Lemma gate_ends_left most x p : left most (gate_ends x p) = left most p.
Proof. by destruct x. Qed.
Lemma process_step_left most p k p' :
  step most p k p' →
  (left most p' + match k with Own => 1 | _ => 0 end ≤ left most p + match k with Outside => most + 2 | _ => 0 end)%nat.
Proof.
  intros [He|k' s x He Hs|k' s s' x He Hs0 Hs|k' l He Hl|k' l He Hl|He Hj];
    rewrite ?gateway_ends_left, ?gate_ends_left; unfold left; cbn; rewrite ?He.
  - lia.
  - apply serves_left in Hs. destruct k'; lia.
  - rewrite Hs0. apply serves_left in Hs. destruct k'; lia.
  - apply loops_left in Hl. destruct k'; lia.
  - apply loops_left in Hl. destruct k'; lia.
  - lia.
Qed.

(** A run, by the kinds of its steps. *)
Inductive run (most : nat) : process → list kind → process → Prop :=
| run_nil p : run most p [] p
| run_cons p k q ks r : step most p k q → run most q ks r → run most p (k :: ks) r.
#[export] Instance kind_eq_dec : EqDecision kind.
Proof. solve_decision. Defined.
Definition count (k : kind) (ks : list kind) : nat := length (filter (λ k', k' = k) ks).

Lemma process_run_left most p ks q :
  run most p ks q → (left most q + count Own ks ≤ left most p + (most + 2) * count Outside ks)%nat.
Proof.
  induction 1 as [p|p k q ks r Hs _ IH]; unfold count in *; [cbn; lia|]. apply process_step_left in Hs.
  rewrite !filter_cons. destruct k; repeat case_decide; try done; cbn [length]; nia.
Qed.

Lemma server_moves b s : server_ok b s → b = true → (∃ s' x, serves b s Own s' x) ∨ (listener_back s ∧ ∃ e, stop s = Drained e).
Proof.
  intros (Hsh & _) ->. destruct (stop s) as [| |e] eqn:Est.
  - left. eexists _, _. apply (s_stops true s Own Draining). rewrite Est. by constructor.
  - left. eexists _, _. apply (s_stops true s Own (Drained (Some DeadlineExceeded))). rewrite Est. constructor.
  - assert (inShutdown (conns s) = true) as Hin by (apply Hsh; congruence).
    destruct (listen s) as [| |l] eqn:El.
    + left. eexists _, _. apply (s_listens true s Own (Served None)). rewrite El, Hin. by constructor.
    + left. eexists _, _. apply (s_listens true s Own (Served None)). rewrite El, Hin. by constructor.
    + right. split; [by exists l|by exists e].
Qed.
Lemma loop_moves most l : (∃ l', loops most true Own l l') ∨ pc l = Stopped.
Proof.
  destruct l as [[|[|n]|] t]; [left; eexists; by apply leaves|left; eexists; apply rests|left; eexists; apply works|by right].
Qed.

(** While the context is cancelled and the process has not ended, some goroutine can act. *)
Lemma cancelled_moves most p :
  process_ok p → cancelled p = true → exit p = None → ∃ p', step most p Own p'.
Proof.
  intros (Hg & Hgt & _) Hc Hex.
  destruct (server_moves _ _ Hg Hc) as [(s' & x & Hs)|[Hl Hst]]; [eexists; by eapply in_gateway|].
  destruct (gate p) as [s|] eqn:Eg.
  1: destruct (server_moves _ _ (Hgt s eq_refl) Hc) as [(s' & x & Hs)|[Hl' _]]; [eexists; by eapply in_gate|].
  all: destruct (loop_moves most (health p)) as [[l Hh]|Hh]; [eexists; apply in_health; [done|]; by rewrite Hc|].
  all: destruct (loop_moves most (sweep p)) as [[l Hw]|Hw]; [eexists; apply in_sweep; [done|]; by rewrite Hc|].
  all: eexists; apply wait; [done|]; split_and!; try done; rewrite Eg; intros s0; by intros [= <-].
Qed.

Lemma step_cancelled most p k q : step most p k q → cancelled p = true → cancelled q = true.
Proof. intros [|? ? []|? ? ? []| | |]; done. Qed.

(** A loop is at no more than a tick's work. *)
Definition within (most : nat) (l : loop) : Prop := match pc l with Working n => (n ≤ most)%nat | _ => True end.
Lemma step_within most p k q :
  within most (health p) ∧ within most (sweep p) → step most p k q → within most (health q) ∧ within most (sweep q).
Proof.
  intros [Hh Hw] Hs. assert (∀ b k l l', within most l → loops most b k l l' → within most l') as Hl.
  { intros b k' l l' Hl Hs'. destruct Hs'; unfold within in *; cbn in *; try done; lia. }
  destruct Hs as [|? ? []|? ? ? []| | |]; eauto.
Qed.
Lemma left_bounded most p :
  within most (health p) → within most (sweep p) → (left most p ≤ 4 * most + 17)%nat.
Proof.
  intros Hh Hw. assert (∀ l, within most l → (loop_left most l ≤ 2 * most + 4)%nat) as Hl.
  { intros [[|n|] []]; unfold within, loop_left; cbn; lia. }
  assert (∀ s, (server_left s ≤ 4)%nat) as Hs.
  { intros s. unfold server_left, listening_left, stopping_left. destruct (listen s), (stop s); lia. }
  unfold left. pose proof (Hl _ Hh). pose proof (Hl _ Hw). pose proof (Hs (gateway p)).
  destruct (gate p) as [s|]; [pose proof (Hs s)|]; destruct (exit p); lia.
Qed.

(** C16: Shutting down terminates.  Once a signal or a failure has cancelled the
    context, the goroutines have a bounded number of actions left, but for the work
    of ticks still to fire, whatever the clients do; and until the process has
    ended one of them can act: none waits for a client, for a plugin, or for
    another that will not return. *)
Theorem shutdown_terminates most p s ks s' :
  rtc (steps most) (launch p) s → cancelled s = true → run most s ks s' →
  (count Own ks ≤ 4 * most + 17 + (most + 2) * count Outside ks)%nat ∧
  (exit s' = None → ∃ s'', step most s' Own s'').
Proof.
  intros Hr Hc Hks. split.
  - assert (within most (health s) ∧ within most (sweep s)) as [Hh Hw].
    { revert Hr. apply (rtc_preserved _ (λ p, within most (health p) ∧ within most (sweep p))); [|by split].
      intros x y Hx [k Hk]. by eapply step_within. }
    pose proof (left_bounded _ _ Hh Hw). apply process_run_left in Hks. lia.
  - apply run_ok in Hr. intros Hex. apply cancelled_moves; [..|done].
    + clear -Hr Hks. induction Hks as [|q k q' ks r Hk _ IH]; [done|]. apply IH. exact (process_step_ok _ _ _ _ Hr Hk).
    + clear -Hc Hks. induction Hks as [|q k q' ks r Hk _ IH]; [done|]. apply IH. exact (step_cancelled _ _ _ _ Hk Hc).
Qed.

(** ** What modelling showed *)

Lemma take_step most p k q q' r : step most p k q → q = q' → rtc (steps most) q' r → rtc (steps most) p r.
Proof. intros Hs <- Hr. eapply rtc_l; [by exists k|done]. Qed.
#[local] Ltac take k := eapply (take_step _ _ k).
#[local] Ltac gateway k tac := take k; [eapply in_gateway; [reflexivity|tac]|cbn; reflexivity|].
#[local] Ltac gate k tac := take k; [eapply in_gate; [reflexivity|reflexivity|tac]|cbn; reflexivity|].

Section cut_off.
Context (most : nat).

(** The error group waits for the gateway's [Shutdown] and not for the gate's: the
    process can end, with status 0, while the gate is answering a request. *)
Theorem gate_requests_are_cut_off p :
  pr_ondemand p ≠ None →
  ∃ s g, rtc (steps most) (launch p) s ∧ exit s = Some {| status := 0; flushed := true |} ∧
    gate s = Some g ∧ stop g = Draining ∧ busy (conns g) = 1%nat.
Proof.
  intros Hp. unfold launch. destruct (pr_ondemand p); [|done]. eexists _, _. split.
  { gate Own ltac:(apply s_listens, bound; reflexivity). gate Outside ltac:(apply s_connects, accept; reflexivity).
    take Outside; [by apply signal|cbn; reflexivity|].
    gateway Own ltac:(apply s_stops, called; reflexivity). gateway Own ltac:(apply s_listens, refused; reflexivity).
    gateway Own ltac:(apply s_stops, drained; reflexivity).
    gate Own ltac:(apply s_stops, called; reflexivity). gate Own ltac:(apply s_listens, closed; reflexivity).
    take Own; [apply in_health; [reflexivity|by apply leaves]|cbn; reflexivity|].
    take Own; [apply in_sweep; [reflexivity|by apply leaves]|cbn; reflexivity|].
    take Own; [apply wait; [reflexivity|]|cbn; reflexivity|apply rtc_refl].
    split_and!; cbn; try done; try (intros s [= <-]); by eexists. }
  by split_and!.
Qed.
End cut_off.

(** ** Witnesses *)

Definition demo_gate_env (k : string) : string :=
  if String.eqb k "PLUGIN_API_KEY" then "key" else if String.eqb k "ONDEMAND_TLS_ADDR" then "127.0.0.1:9123" else "".
Definition demo_gate_boot : option Startup.Process :=
  main demo_gate_env (λ s, s) (λ _, None) (λ _, None) (λ _, None) (λ _, None) true true.

Definition listens_for_asks (o : option Startup.Process) : bool :=
  match o with Some p => match pr_ondemand p with Some _ => true | None => false end | None => false end.

Lemma gate_requests_are_cut_off_witness :
  ∃ p s, demo_gate_boot = Some p ∧ rtc (steps 3) (launch p) s ∧ exit s = Some {| status := 0; flushed := true |}.
Proof.
  assert (listens_for_asks demo_gate_boot = true) as Hb by (by vm_compute).
  destruct demo_gate_boot as [p|]; [|done].
  assert (pr_ondemand p ≠ None) as Hp by (intros Hp; cbn in Hb; by rewrite Hp in Hb).
  destruct (gate_requests_are_cut_off 3 p Hp) as (s & g & Hr & Hx & _). by exists p, s.
Defined.

Section demo.
Context (p : Startup.Process) (Hp : pr_ondemand p = None).

(** A signal while one connection is busy, then idle no more; and the end. *)
Lemma demo_signalled : ∃ s, rtc (steps 3) (launch p) s ∧ cancelled s = true ∧ busy (conns (Lifecycle.gateway s)) = 1%nat.
Proof.
  unfold launch. rewrite Hp. eexists. split.
  { gateway Own ltac:(apply s_listens, bound; reflexivity). gateway Outside ltac:(apply s_connects, accept; reflexivity).
    take Outside; [by apply signal|cbn; reflexivity|]. apply rtc_refl. }
  done.
Qed.
Lemma demo_ended : ∃ s, rtc (steps 3) (launch p) s ∧ exit s = Some {| status := 0; flushed := true |}.
Proof.
  unfold launch. rewrite Hp. eexists. split.
  { gateway Own ltac:(apply s_listens, bound; reflexivity). gateway Outside ltac:(apply s_connects, accept; reflexivity).
    take Outside; [by apply signal|cbn; reflexivity|].
    gateway Own ltac:(apply s_stops, called; reflexivity). gateway Own ltac:(apply s_listens, closed; reflexivity).
    gateway Soft ltac:(eapply s_connects, end_request; reflexivity). gateway Own ltac:(apply s_stops, drained; reflexivity).
    take Own; [apply in_health; [reflexivity|by apply leaves]|cbn; reflexivity|].
    take Own; [apply in_sweep; [reflexivity|by apply leaves]|cbn; reflexivity|].
    take Own; [apply wait; [reflexivity|]|cbn; reflexivity|apply rtc_refl].
    split_and!; cbn; try done; by eexists. }
  done.
Qed.
End demo.


(** The process of the built-in settings, as [main] starts it. *)
Lemma demo_plain : ∃ p, demo_boot = Some p ∧ pr_ondemand p = None.
Proof.
  assert (listens_for_asks demo_boot = false) as Hb by (by vm_compute).
  destruct demo_boot_Some as [p Hp]. exists p. split; [done|]. rewrite Hp in Hb. cbn in Hb.
  by destruct (pr_ondemand p).
Qed.

Lemma clean_exit_drains_witness :
  ∃ p s, demo_boot = Some p ∧ rtc (steps 3) (launch p) s ∧ exit s = Some {| status := 0; flushed := true |} ∧
    busy (conns (gateway s)) = 0%nat.
Proof.
  destruct demo_plain as (p & Hb & Hp). destruct (demo_ended p Hp) as (s & Hr & Hx). exists p, s.
  split_and!; [done..|].
  destruct (clean_exit_drains 3 p s _ Hr Hx) as [(_ & _ & _ & _ & _ & _ & Hz)|(H0 & _)]; [exact Hz|discriminate H0].
Defined.

Lemma shutdown_terminates_witness :
  ∃ p s, demo_boot = Some p ∧ rtc (steps 3) (launch p) s ∧ busy (conns (gateway s)) = 1%nat ∧
    (exit s = None → ∃ s', step 3 s Own s').
Proof.
  destruct demo_plain as (p & Hb & Hp). destruct (demo_signalled p Hp) as (s & Hr & Hc & Hz). exists p, s.
  split_and!; [done..|]. exact (proj2 (shutdown_terminates 3 p s [] s Hr Hc (run_nil 3 s))).
Defined.
